(** * codevideo-virtual-editor: the action-application engine

    A shallow embedding of the two [VirtualEditor] classes of the repository
    (the unified engine with [editor-*] action names, and the older engine
    of [src/VirtualEditor.ts]) together with the JavaScript built-ins they
    rely on, and the properties of the engine stated against it.

    Conventions of the embedding
    - a JavaScript string is a [string]; each [ascii] stands for one code
      unit, so [String.length] is the [.length] of the source;
    - numbers held by the engine (rows, columns, repeat counts) are integers,
      modelled as [Z]; [NaN], which only [parseInt] produces, is [None];
    - an array of lines lives in a heap of arrays and is designated by its
      address, so that aliasing between the live buffer and the recorded
      snapshots is visible;
    - a JavaScript exception ends the call: [Throw]; the fields of an
      object after a call that threw are not modelled, and the reachable
      states are those reached by calls that return. *)

From Stdlib Require Import ZArith List String Ascii Bool Lia ZifyBool.
Import ListNotations.

Open Scope string_scope.
Open Scope list_scope.
Open Scope Z_scope.

(** ** Exceptions *)

Inductive exn : Type :=
| TypeError            (* property access on [undefined] *)
| RangeError           (* [Array(n)] with an invalid length *)
| ActionIndexOutOfBounds. (* [new Error("Action index out of bounds")] *)

Inductive result (A : Type) : Type :=
| Ok (a : A)
| Throw (e : exn).

Arguments Ok {A} a.
Arguments Throw {A} e.

Definition bind {A B : Type} (c : result A) (k : A -> result B) : result B :=
  match c with
  | Ok a => k a
  | Throw e => Throw e
  end.

Notation "x <- c ;; k" := (bind c (fun x => k))
  (at level 61, c at next level, right associativity).

Definition result_map {A B : Type} (g : A -> B) (c : result A) : result B :=
  match c with
  | Ok a => Ok (g a)
  | Throw e => Throw e
  end.

(** [for (let i = 0; i < n; i++) body] on an explicit state. *)
Fixpoint for_loop {S : Type} (n : nat) (body : S -> result S) (s : S) : result S :=
  match n with
  | O => Ok s
  | Datatypes.S k => s' <- body s ;; for_loop k body s'
  end.

(** The same loop when the body cannot throw. *)
Fixpoint repeat_loop {S : Type} (n : nat) (body : S -> S) (s : S) : S :=
  match n with
  | O => s
  | Datatypes.S k => repeat_loop k body (body s)
  end.

(** ** JavaScript built-ins used by the engine *)

Module JS.

Definition newline : string := String (ascii_of_nat 10) EmptyString.
Definition tab : string := String (ascii_of_nat 9) EmptyString.

(** [s.length] *)
Definition len (s : string) : Z := Z.of_nat (String.length s).

Definition clamp (x hi : Z) : Z := Z.min (Z.max x 0) hi.

(** [s.substring(a, b)]: both indices are clamped to [0, s.length] and
    swapped when [a > b]. *)
Definition substring (s : string) (a b : Z) : string :=
  let a' := clamp a (len s) in
  let b' := clamp b (len s) in
  let from := Z.min a' b' in
  let to := Z.max a' b' in
  string_of_list_ascii
    (firstn (Z.to_nat (to - from))
       (skipn (Z.to_nat from) (list_ascii_of_string s))).

(** [s.substring(a)] *)
Definition substring_from (s : string) (a : Z) : string :=
  substring s a (len s).

(** [s.split("\n")] *)
Fixpoint split_newline (s : string) : list string :=
  match s with
  | EmptyString => [""]
  | String c r =>
      if Ascii.eqb c (ascii_of_nat 10) then "" :: split_newline r
      else match split_newline r with
           | h :: t => String c h :: t
           | [] => [String c ""]
           end
  end.

(** [lines.join("\n")] *)
Definition join (lines : list string) : string := String.concat newline lines.

(** [arr[i]]: [None] is [undefined]. *)
Definition get {A : Type} (arr : list A) (i : Z) : option A :=
  if i <? 0 then None else nth_error arr (Z.to_nat i).

(** Reading a property of [arr[i]] throws when the element is [undefined]. *)
Definition get_defined {A : Type} (arr : list A) (i : Z) : result A :=
  match get arr i with
  | Some x => Ok x
  | None => Throw TypeError
  end.

Fixpoint update {A : Type} (arr : list A) (i : nat) (v : A) : list A :=
  match arr, i with
  | [], _ => []
  | _ :: t, O => v :: t
  | h :: t, Datatypes.S k => h :: update t k v
  end.

(** [arr[i] = v] for an index inside the array. Every assignment of the
    engine follows a successful read of a property of [arr[i]], so the
    index is inside the array whenever this is reached; outside it the
    array is returned as it is. *)
Definition set {A : Type} (arr : list A) (i : Z) (v : A) : list A :=
  if i <? 0 then arr else update arr (Z.to_nat i) v.

(** [arr.splice(start, deleteCount, ...items)], the array after the call. *)
Definition splice {A : Type} (arr : list A) (start deleteCount : Z)
    (items : list A) : list A :=
  let n := Z.of_nat (List.length arr) in
  let actualStart := if start <? 0 then Z.max (n + start) 0 else Z.min start n in
  let actualDeleteCount := Z.min (Z.max deleteCount 0) (n - actualStart) in
  firstn (Z.to_nat actualStart) arr ++ items
    ++ skipn (Z.to_nat (actualStart + actualDeleteCount)) arr.

(** [Array(n).fill(v)]; [Array] rejects [NaN], negative lengths and
    lengths of 2^32 and more. *)
Definition Array_fill {A : Type} (n : option Z) (v : A) : result (list A) :=
  match n with
  | Some k =>
      if (0 <=? k) && (k <? 2 ^ 32) then Ok (repeat v (Z.to_nat k))
      else Throw RangeError
  | None => Throw RangeError
  end.

(** *** [parseInt(s)] with no radix argument *)

Definition is_white_space (c : ascii) : bool :=
  let n := nat_of_ascii c in
  ((9 <=? n) && (n <=? 13) || (n =? 32) || (n =? 160))%nat.

Fixpoint skip_white_space (s : string) : string :=
  match s with
  | String c r => if is_white_space c then skip_white_space r else s
  | EmptyString => s
  end.

Definition digit_value (radix : Z) (c : ascii) : option Z :=
  let n := Z.of_nat (nat_of_ascii c) in
  let d :=
    if (48 <=? n) && (n <=? 57) then n - 48
    else if (97 <=? n) && (n <=? 122) then n - 87
    else if (65 <=? n) && (n <=? 90) then n - 55
    else radix in
  if d <? radix then Some d else None.

(** The longest prefix of digits, as a number; [None] when it is empty. *)
Fixpoint digits (radix : Z) (s : string) (acc : Z) (seen : bool) : option Z :=
  match s with
  | String c r =>
      match digit_value radix c with
      | Some d => digits radix r (acc * radix + d) true
      | None => if seen then Some acc else None
      end
  | EmptyString => if seen then Some acc else None
  end.

Definition is_x (c : ascii) : bool :=
  let n := nat_of_ascii c in ((n =? 120) || (n =? 88))%nat.

(** Leading white space is skipped, one sign is read, a [0x] prefix selects
    radix 16, and the digits that follow are read up to the first
    character that is not one. The result is [None] ([NaN]) when no digit
    is found. White space is recognised among the code units below 256.
    Values are exact integers here: the rounding of numbers beyond 2^53 is
    not modelled. *)
Definition parseInt (s : string) : option Z :=
  let s1 := skip_white_space s in
  let '(sign, s2) :=
    match s1 with
    | String c r =>
        if Ascii.eqb c "-"%char then (-1, r)
        else if Ascii.eqb c "+"%char then (1, r)
        else (1, s1)
    | EmptyString => (1, s1)
    end in
  let '(radix, s3) :=
    match s2 with
    | String c0 (String c1 r) =>
        if Ascii.eqb c0 "0"%char && is_x c1 then (16, r) else (10, s2)
    | _ => (10, s2)
    end in
  option_map (Z.mul sign) (digits radix s3 0 false).

(** Number of iterations of [for (let i = 0; i < numTimes; i++)]:
    [i < NaN] is false. *)
Definition iterations (numTimes : option Z) : nat :=
  match numTimes with
  | Some n => Z.to_nat n
  | None => O
  end.

End JS.

(** ** Actions *)

Record IAction : Type := mkAction { name : string; value : string }.

Record IEditorPosition : Type := mkPos { row : Z; col : Z }.

(** The predicates of the external package [codevideo-types] that the
    engines import. *)
Class ActionTypes : Type := {
  isRepeatableAction : IAction -> bool;
  isEditorAction : IAction -> bool;
  isCodeAction : IAction -> bool;
  isSpeakAction : IAction -> bool
}.

(** The part of the external [IEditor] object that [setValuesFromEditor]
    reads: the text, the physical (1-indexed) caret, the optional highlight
    coordinates and the saved flag. [None] is an absent
    [highlightCoordinates]. *)
Module IEditor.

Record coordinates : Type := mkCoordinates {
  start : IEditorPosition;
  end_ : IEditorPosition
}.

Record t : Type := mk {
  content : string;
  caretPosition : IEditorPosition;
  highlightCoordinates : option coordinates;
  isSaved : bool
}.

End IEditor.

(** ** The heap of line arrays

    Arrays are mutable and shared by reference in the source; strings are
    immutable values. An address is an index into the heap, [alloc] models
    the creation of a new array ([slice()], an array literal) and [store]
    the in-place mutation of an existing one. *)

Module Heap.

Definition ref : Type := nat.
Definition t : Type := list (list string).

Definition deref (h : t) (r : ref) : list string := nth r h [].

Definition alloc (h : t) (arr : list string) : t * ref :=
  (h ++ [arr], List.length h).

Definition store (h : t) (r : ref) (arr : list string) : t :=
  JS.update h r arr.

End Heap.

(** ** The unified engine (0-indexed, [editor-*] action names) *)

Module Unified.

(** The [case] labels of the [switch] in [applyAction]. *)
Inductive ActionName : Type :=
| EditorShowContextMenu | EditorHideContextMenu
| EditorEnter | EditorType
| EditorArrowDown | EditorArrowUp | EditorArrowRight | EditorArrowLeft
| EditorBackspace | EditorSpace | EditorTab
| EditorCommandLeft | EditorCommandRight
| EditorShiftArrowLeft | EditorShiftArrowRight
| EditorShiftArrowDown | EditorShiftArrowUp
| EditorSave
| Unrecognized.

Definition action_names : list (string * ActionName) :=
  [ ("editor-show-context-menu", EditorShowContextMenu);
    ("editor-hide-context-menu", EditorHideContextMenu);
    ("editor-enter", EditorEnter);
    ("editor-type", EditorType);
    ("editor-arrow-down", EditorArrowDown);
    ("editor-arrow-up", EditorArrowUp);
    ("editor-arrow-right", EditorArrowRight);
    ("editor-arrow-left", EditorArrowLeft);
    ("editor-backspace", EditorBackspace);
    ("editor-space", EditorSpace);
    ("editor-tab", EditorTab);
    ("editor-command-left", EditorCommandLeft);
    ("editor-command-right", EditorCommandRight);
    ("editor-shift+arrow-left", EditorShiftArrowLeft);
    ("editor-shift+arrow-right", EditorShiftArrowRight);
    ("editor-shift+arrow-down", EditorShiftArrowDown);
    ("editor-shift+arrow-up", EditorShiftArrowUp);
    ("editor-save", EditorSave) ].

Fixpoint lookup_name (table : list (string * ActionName)) (n : string) : ActionName :=
  match table with
  | [] => Unrecognized
  | (label, k) :: rest => if String.eqb n label then k else lookup_name rest n
  end.

Definition action_name (a : IAction) : ActionName :=
  lookup_name action_names (name a).

(** The fields of the class that [applyAction]'s [switch] reads and
    writes. [L] is the representation of the line array: its address in
    the object, its contents while an action runs. *)
Record Fields (L : Type) : Type := mkFields {
  caretRow : Z;
  caretCol : Z;
  highlightStartRow : Z;
  highlightStartCol : Z;
  codeLines : L;
  currentlyHighlightedCode : string;
  isSaved : bool;
  isEditorContextMenuOpen : bool
}.

Arguments mkFields {L}.
Arguments caretRow {L}.
Arguments caretCol {L}.
Arguments highlightStartRow {L}.
Arguments highlightStartCol {L}.
Arguments codeLines {L}.
Arguments currentlyHighlightedCode {L}.
Arguments isSaved {L}.
Arguments isEditorContextMenuOpen {L}.

Definition Frame : Type := Fields (list string).

Section Setters.
Context {L : Type}.
Implicit Type f : Fields L.

Definition set_caretRow f (v : Z) : Fields L :=
  mkFields v (caretCol f) (highlightStartRow f) (highlightStartCol f)
    (codeLines f) (currentlyHighlightedCode f) (isSaved f)
    (isEditorContextMenuOpen f).

Definition set_caretCol f (v : Z) : Fields L :=
  mkFields (caretRow f) v (highlightStartRow f) (highlightStartCol f)
    (codeLines f) (currentlyHighlightedCode f) (isSaved f)
    (isEditorContextMenuOpen f).

Definition set_caret f (r c : Z) : Fields L :=
  set_caretCol (set_caretRow f r) c.

Definition set_highlightStart f (r c : Z) : Fields L :=
  mkFields (caretRow f) (caretCol f) r c
    (codeLines f) (currentlyHighlightedCode f) (isSaved f)
    (isEditorContextMenuOpen f).

Definition set_codeLines {L' : Type} f (v : L') : Fields L' :=
  mkFields (caretRow f) (caretCol f) (highlightStartRow f)
    (highlightStartCol f) v (currentlyHighlightedCode f) (isSaved f)
    (isEditorContextMenuOpen f).

Definition set_currentlyHighlightedCode f (v : string) : Fields L :=
  mkFields (caretRow f) (caretCol f) (highlightStartRow f)
    (highlightStartCol f) (codeLines f) v (isSaved f)
    (isEditorContextMenuOpen f).

Definition set_isSaved f (v : bool) : Fields L :=
  mkFields (caretRow f) (caretCol f) (highlightStartRow f)
    (highlightStartCol f) (codeLines f) (currentlyHighlightedCode f) v
    (isEditorContextMenuOpen f).

Definition set_isEditorContextMenuOpen f (v : bool) : Fields L :=
  mkFields (caretRow f) (caretCol f) (highlightStartRow f)
    (highlightStartCol f) (codeLines f) (currentlyHighlightedCode f)
    (isSaved f) v.

(** [clearCurrentHighlightedCode()] *)
Definition clearCurrentHighlightedCode f : Fields L :=
  set_currentlyHighlightedCode (set_highlightStart f (-1) (-1)) "".

End Setters.

(** [this.codeLines[i]] followed by a property access. *)
Definition line (f : Frame) (i : Z) : result string :=
  JS.get_defined (codeLines f) i.

(** [this.codeLines[i] = v] *)
Definition set_line (f : Frame) (i : Z) (v : string) : Frame :=
  set_codeLines f (JS.set (codeLines f) i v).

(** [this.codeLines.splice(start, deleteCount, ...items)] *)
Definition splice_lines (f : Frame) (start deleteCount : Z)
    (items : list string) : Frame :=
  set_codeLines f (JS.splice (codeLines f) start deleteCount items).

(** [this.codeLines.length] *)
Definition line_count (f : Frame) : Z := Z.of_nat (List.length (codeLines f)).

(** *** [calculateHighlightedText] *)

Definition highlighted_row (f : Frame) (startRow endRow : Z)
    (isForwardSelection : bool) (r : Z) : result string :=
  if r =? startRow then
    let startCol := if isForwardSelection then highlightStartCol f else caretCol f in
    l <- line f r ;; Ok (JS.substring_from l startCol)
  else if r =? endRow then
    let endCol := if isForwardSelection then caretCol f else highlightStartCol f in
    l <- line f r ;; Ok (JS.substring l 0 endCol)
  else
    (* an [undefined] element is joined as the empty string *)
    Ok (match JS.get (codeLines f) r with Some l => l | None => "" end).

Fixpoint highlighted_rows (f : Frame) (startRow endRow : Z)
    (isForwardSelection : bool) (r : Z) (count : nat) : result (list string) :=
  match count with
  | O => Ok []
  | S k =>
      x <- highlighted_row f startRow endRow isForwardSelection r ;;
      xs <- highlighted_rows f startRow endRow isForwardSelection (r + 1) k ;;
      Ok (x :: xs)
  end.

Definition calculateHighlightedText (f : Frame) : result string :=
  if highlightStartRow f =? -1 then Ok ""
  else if caretRow f =? highlightStartRow f then
    let start := Z.min (highlightStartCol f) (caretCol f) in
    let end_ := Z.max (highlightStartCol f) (caretCol f) in
    l <- line f (caretRow f) ;; Ok (JS.substring l start end_)
  else
    let startRow := Z.min (highlightStartRow f) (caretRow f) in
    let endRow := Z.max (highlightStartRow f) (caretRow f) in
    let isForwardSelection := highlightStartRow f <? caretRow f in
    highlightedLines <-
      highlighted_rows f startRow endRow isForwardSelection startRow
        (Z.to_nat (endRow - startRow + 1)) ;;
    Ok (JS.join highlightedLines).

(** *** The cases of the [switch] *)

(** One iteration of the loop of [editor-enter] without a selection. *)
Definition enter_step (f : Frame) : result Frame :=
  currentLine <- line f (caretRow f) ;;
  let beforeCaret := JS.substring currentLine 0 (caretCol f) in
  let afterCaret := JS.substring_from currentLine (caretCol f) in
  let f := set_line f (caretRow f) beforeCaret in
  let f := splice_lines f (caretRow f + 1) 0 [afterCaret] in
  Ok (set_caret f (caretRow f + 1) 0).

Definition case_editor_enter (numTimes : option Z) (f : Frame) : result Frame :=
  let f := set_isSaved f false in
  if negb (highlightStartRow f =? -1) then
    let isForwardSelection :=
      (highlightStartRow f <? caretRow f)
      || ((highlightStartRow f =? caretRow f)
          && (highlightStartCol f <=? caretCol f)) in
    let startRow := if isForwardSelection then highlightStartRow f else caretRow f in
    let endRow := if isForwardSelection then caretRow f else highlightStartRow f in
    let startCol := if isForwardSelection then highlightStartCol f else caretCol f in
    let endCol := if isForwardSelection then caretCol f else highlightStartCol f in
    first <- line f startRow ;;
    let beforeText := JS.substring first 0 startCol in
    last <- line f endRow ;;
    let afterText := JS.substring_from last endCol in
    let f := set_line f startRow beforeText in
    let f :=
      if endRow >? startRow
      then splice_lines f (startRow + 1) (endRow - startRow) []
      else f in
    blanks <- JS.Array_fill (option_map (fun n => n - 1) numTimes) "" ;;
    let newContent := blanks ++ [afterText] in
    match numTimes with
    | None => Throw RangeError (* [Array(NaN)] has thrown above *)
    | Some n =>
        let f := set_caret f (startRow + n) 0 in
        let f := splice_lines f (caretRow f) 0 newContent in
        Ok (clearCurrentHighlightedCode f)
    end
  else
    for_loop (JS.iterations numTimes) enter_step f.

(** The selection removal that opens [editor-type]: the anchor is taken as
    the start and the caret as the end, whatever the direction. *)
Definition type_delete_selection (f : Frame) : result Frame :=
  if negb (highlightStartRow f =? -1) then
    let startRow := highlightStartRow f in
    let startColumn := highlightStartCol f in
    let endRow := caretRow f in
    let endColumn := caretCol f in
    f <-
      (if startRow =? endRow then
         l <- line f startRow ;;
         Ok (set_line f startRow
               (JS.substring l 0 startColumn ++ JS.substring_from l endColumn)%string)
       else
         first <- line f startRow ;;
         last <- line f endRow ;;
         let f := set_line f startRow
                    (JS.substring first 0 startColumn
                     ++ JS.substring_from last endColumn)%string in
         Ok (splice_lines f (startRow + 1) (endRow - startRow) [])) ;;
    Ok (clearCurrentHighlightedCode (set_caret f startRow startColumn))
  else Ok f.

(** The inner loop [for (let j = 1; j < lines.length; j++)]. *)
Fixpoint type_remaining_lines (restOfLine : string) (rest : list string)
    (f : Frame) : Frame :=
  match rest with
  | [] => f
  | x :: rest' =>
      let f := set_caretRow f (caretRow f + 1) in
      match rest' with
      | [] =>
          let f := splice_lines f (caretRow f) 0 [(x ++ restOfLine)%string] in
          set_caretCol f (JS.len x)
      | _ :: _ =>
          let f := splice_lines f (caretRow f) 0 [x] in
          type_remaining_lines restOfLine rest' f
      end
  end.

(** One iteration of the outer loop of [editor-type]; [lines] is
    [action.value.split('\n')]. *)
Definition type_step (value : string) (lines : list string) (f : Frame)
    : result Frame :=
  match lines with
  | [_] =>
      l <- line f (caretRow f) ;;
      let f := set_line f (caretRow f)
                 (JS.substring l 0 (caretCol f) ++ value
                  ++ JS.substring_from l (caretCol f))%string in
      Ok (set_caretCol f (caretCol f + JS.len value))
  | first :: rest =>
      l <- line f (caretRow f) ;;
      let restOfLine := JS.substring_from l (caretCol f) in
      let f := set_line f (caretRow f)
                 (JS.substring l 0 (caretCol f) ++ first)%string in
      Ok (type_remaining_lines restOfLine rest f)
  | [] =>
      (* not produced by [split]: [lines[0]] would be [undefined] *)
      l <- line f (caretRow f) ;;
      Ok (set_line f (caretRow f)
            (JS.substring l 0 (caretCol f) ++ "undefined")%string)
  end.

Definition case_editor_type (numTimes : option Z) (value : string) (f : Frame)
    : result Frame :=
  let f := set_isSaved f false in
  f <- type_delete_selection f ;;
  let lines := JS.split_newline value in
  for_loop (JS.iterations numTimes) (type_step value lines) f.

Definition arrow_down_step (f : Frame) : Frame :=
  if caretRow f <? line_count f - 1 then set_caretRow f (caretRow f + 1) else f.

Definition case_editor_arrow_down (numTimes : option Z) (f : Frame) : Frame :=
  clearCurrentHighlightedCode
    (repeat_loop (JS.iterations numTimes) arrow_down_step f).

Definition arrow_up_step (f : Frame) : Frame :=
  if caretRow f >? 0 then set_caretRow f (caretRow f - 1) else f.

Definition case_editor_arrow_up (numTimes : option Z) (f : Frame) : Frame :=
  clearCurrentHighlightedCode
    (repeat_loop (JS.iterations numTimes) arrow_up_step f).

(** [currentLineLength] is the length of the caret's line when the action
    started; it is not read again inside the loop. *)
Definition arrow_right_step (currentLineLength : Z) (f : Frame) : Frame :=
  if caretCol f <? currentLineLength then set_caretCol f (caretCol f + 1)
  else if caretRow f <? line_count f - 1 then set_caret f (caretRow f + 1) 0
  else f.

Definition case_editor_arrow_right (numTimes : option Z) (currentLineLength : Z)
    (f : Frame) : Frame :=
  clearCurrentHighlightedCode
    (repeat_loop (JS.iterations numTimes) (arrow_right_step currentLineLength) f).

Definition arrow_left_step (f : Frame) : result Frame :=
  if caretCol f >? 0 then Ok (set_caretCol f (caretCol f - 1))
  else if caretRow f >? 0 then
    let f := set_caretRow f (caretRow f - 1) in
    l <- line f (caretRow f) ;;
    Ok (set_caretCol f (JS.len l - 1))
  else Ok f.

Definition case_editor_arrow_left (numTimes : option Z) (f : Frame) : result Frame :=
  f <- for_loop (JS.iterations numTimes) arrow_left_step f ;;
  Ok (clearCurrentHighlightedCode f).

(** The single-line and multi-line removal shared, statement for
    statement, by [editor-backspace] and [editor-space]; the two cases
    differ in how they pick [startCol] and [endCol]. *)
Definition delete_range (startRow endRow startCol endCol : Z) (f : Frame)
    : result Frame :=
  f <-
    (if startRow =? endRow then
       let start := Z.min startCol endCol in
       let end_ := Z.max startCol endCol in
       l <- line f startRow ;;
       let f := set_line f startRow
                  (JS.substring l 0 start ++ JS.substring_from l end_)%string in
       Ok (set_caret f startRow start)
     else
       first <- line f startRow ;;
       let firstLineStart := JS.substring first 0 startCol in
       last <- line f endRow ;;
       let lastLineEnd := JS.substring_from last endCol in
       let f := set_line f startRow (firstLineStart ++ lastLineEnd)%string in
       let f := splice_lines f (startRow + 1) (endRow - startRow) [] in
       Ok (set_caret f startRow startCol)) ;;
  Ok (clearCurrentHighlightedCode f).

Definition backspace_step (f : Frame) : result Frame :=
  if caretCol f >? 0 then
    l <- line f (caretRow f) ;;
    let f := set_line f (caretRow f)
               (JS.substring l 0 (caretCol f - 1)
                ++ JS.substring_from l (caretCol f))%string in
    Ok (set_caretCol f (caretCol f - 1))
  else if caretRow f >? 0 then
    previous <- line f (caretRow f - 1) ;;
    let previousLineLength := JS.len previous in
    (* [+=] of an [undefined] element appends the text "undefined" *)
    let current :=
      match JS.get (codeLines f) (caretRow f) with
      | Some l => l
      | None => "undefined"
      end in
    let f := set_line f (caretRow f - 1) (previous ++ current)%string in
    let f := splice_lines f (caretRow f) 1 [] in
    Ok (set_caret f (caretRow f - 1) previousLineLength)
  else Ok f.

Definition case_editor_backspace (numTimes : option Z) (f : Frame) : result Frame :=
  let f := set_isSaved f false in
  if negb (highlightStartRow f =? -1) then
    let startRow := Z.min (highlightStartRow f) (caretRow f) in
    let endRow := Z.max (highlightStartRow f) (caretRow f) in
    let isForwardSelection := highlightStartRow f <? caretRow f in
    let startCol := if isForwardSelection then highlightStartCol f else caretCol f in
    let endCol := if isForwardSelection then caretCol f else highlightStartCol f in
    delete_range startRow endRow startCol endCol f
  else
    for_loop (JS.iterations numTimes) backspace_step f.

(** One iteration of the insertion loop of [editor-space] and
    [editor-tab]. *)
Definition insert_step (text : string) (f : Frame) : result Frame :=
  l <- line f (caretRow f) ;;
  let f := set_line f (caretRow f)
             (JS.substring l 0 (caretCol f) ++ text
              ++ JS.substring_from l (caretCol f))%string in
  Ok (set_caretCol f (caretCol f + 1)).

Definition case_editor_space (numTimes : option Z) (f : Frame) : result Frame :=
  let f := set_isSaved f false in
  f <-
    (if negb (highlightStartRow f =? -1) then
       let startRow := Z.min (highlightStartRow f) (caretRow f) in
       let endRow := Z.max (highlightStartRow f) (caretRow f) in
       let startCol :=
         if startRow =? highlightStartRow f then highlightStartCol f else caretCol f in
       let endCol :=
         if endRow =? highlightStartRow f then highlightStartCol f else caretCol f in
       delete_range startRow endRow startCol endCol f
     else Ok f) ;;
  for_loop (JS.iterations numTimes) (insert_step " ") f.

Definition case_editor_tab (numTimes : option Z) (f : Frame) : result Frame :=
  for_loop (JS.iterations numTimes) (insert_step JS.tab) f.

Definition command_left_step (f : Frame) : Frame :=
  if caretCol f >? 0 then set_caretCol f 0 else f.

Definition case_editor_command_left (numTimes : option Z) (f : Frame) : Frame :=
  clearCurrentHighlightedCode
    (repeat_loop (JS.iterations numTimes) command_left_step f).

Definition command_right_step (f : Frame) : result Frame :=
  l <- line f (caretRow f) ;;
  if caretCol f <? JS.len l then Ok (set_caretCol f (JS.len l)) else Ok f.

Definition case_editor_command_right (numTimes : option Z) (f : Frame)
    : result Frame :=
  f <- for_loop (JS.iterations numTimes) command_right_step f ;;
  Ok (clearCurrentHighlightedCode f).

(** "If no highlight exists yet, set the start position". *)
Definition start_selection (f : Frame) : Frame :=
  if highlightStartRow f =? -1
  then set_highlightStart f (caretRow f) (caretCol f)
  else f.

Definition shift_arrow_left_step (f : Frame) : result Frame :=
  if caretCol f >? 0 then Ok (set_caretCol f (caretCol f - 1))
  else if caretRow f >? 0 then
    let f := set_caretRow f (caretRow f - 1) in
    l <- line f (caretRow f) ;;
    Ok (set_caretCol f (JS.len l))
  else Ok f.

Definition shift_arrow_right_step (f : Frame) : result Frame :=
  l <- line f (caretRow f) ;;
  if caretCol f <? JS.len l then Ok (set_caretCol f (caretCol f + 1))
  else if caretRow f <? line_count f - 1 then Ok (set_caret f (caretRow f + 1) 0)
  else Ok f.

Definition shift_arrow_down_step (f : Frame) : result Frame :=
  if caretRow f <? line_count f - 1 then
    next <- line f (caretRow f + 1) ;;
    let nextLineLength := JS.len next in
    if caretCol f <? nextLineLength then Ok (set_caretRow f (caretRow f + 1))
    else Ok (set_caret f (caretRow f + 1) nextLineLength)
  else Ok f.

Definition shift_arrow_up_step (f : Frame) : result Frame :=
  if caretRow f >? 0 then
    previous <- line f (caretRow f - 1) ;;
    let previousLineLength := JS.len previous in
    if caretCol f <? previousLineLength then Ok (set_caretRow f (caretRow f - 1))
    else Ok (set_caret f (caretRow f - 1) previousLineLength)
  else Ok f.

(** The four [editor-shift+arrow-*] cases have one shape. *)
Definition case_editor_shift_arrow (step : Frame -> result Frame)
    (numTimes : option Z) (f : Frame) : result Frame :=
  let f := start_selection f in
  f <- for_loop (JS.iterations numTimes) step f ;;
  text <- calculateHighlightedText f ;;
  Ok (set_currentlyHighlightedCode f text).

Definition switch (numTimes : option Z) (currentLineLength : Z)
    (action : IAction) (f : Frame) : result Frame :=
  match action_name action with
  | EditorShowContextMenu => Ok (set_isEditorContextMenuOpen f true)
  | EditorHideContextMenu => Ok (set_isEditorContextMenuOpen f false)
  | EditorEnter => case_editor_enter numTimes f
  | EditorType => case_editor_type numTimes (value action) f
  | EditorArrowDown => Ok (case_editor_arrow_down numTimes f)
  | EditorArrowUp => Ok (case_editor_arrow_up numTimes f)
  | EditorArrowRight => Ok (case_editor_arrow_right numTimes currentLineLength f)
  | EditorArrowLeft => case_editor_arrow_left numTimes f
  | EditorBackspace => case_editor_backspace numTimes f
  | EditorSpace => case_editor_space numTimes f
  | EditorTab => case_editor_tab numTimes f
  | EditorCommandLeft => Ok (case_editor_command_left numTimes f)
  | EditorCommandRight => case_editor_command_right numTimes f
  | EditorShiftArrowLeft =>
      case_editor_shift_arrow shift_arrow_left_step numTimes f
  | EditorShiftArrowRight =>
      case_editor_shift_arrow shift_arrow_right_step numTimes f
  | EditorShiftArrowDown =>
      case_editor_shift_arrow shift_arrow_down_step numTimes f
  | EditorShiftArrowUp =>
      case_editor_shift_arrow shift_arrow_up_step numTimes f
  | EditorSave => Ok (set_isSaved f true)
  | Unrecognized => Ok f
  end.

(** *** The object and its history logs

    [verbose] only selects console output and is left out. *)
Record VirtualEditor : Type := mkEditor {
  heap : Heap.t;
  this : Fields Heap.ref;
  actionsApplied : list IAction;
  editorActionsApplied : list IAction;
  codeLinesHistory : list Heap.ref;
  caretPositionHistory : list IEditorPosition;
  highlightStartPositionHistory : list IEditorPosition;
  highlightHistory : list Heap.ref
}.

(** The fields with the contents of the array [this.codeLines]. *)
Definition frame (ed : VirtualEditor) : Frame :=
  set_codeLines (this ed) (Heap.deref (heap ed) (codeLines (this ed))).

Section Engine.
Context {types : ActionTypes}.

(** The tail of [applyAction]: the array held by [this.codeLines] has
    been mutated in place, and a copy of it and a new one-element
    highlight array are pushed on the logs. *)
Definition record_history (ed : VirtualEditor) (f : Frame) (action : IAction)
    : VirtualEditor :=
  let h := Heap.store (heap ed) (codeLines (this ed)) (codeLines f) in
  let '(h, codeLinesCopy) := Heap.alloc h (codeLines f) in
  let '(h, highlight) :=
    Heap.alloc h
      (if String.eqb (currentlyHighlightedCode f) "" then [""]
       else [currentlyHighlightedCode f]) in
  {| heap := h;
     this := set_codeLines f (codeLines (this ed));
     actionsApplied := actionsApplied ed ++ [action];
     editorActionsApplied :=
       if isEditorAction action then editorActionsApplied ed ++ [action]
       else editorActionsApplied ed;
     codeLinesHistory := codeLinesHistory ed ++ [codeLinesCopy];
     caretPositionHistory :=
       caretPositionHistory ed ++ [mkPos (caretRow f) (caretCol f)];
     highlightStartPositionHistory :=
       highlightStartPositionHistory ed
       ++ [mkPos (if highlightStartRow f =? -1 then -1 else highlightStartRow f)
                 (if highlightStartCol f =? -1 then -1 else highlightStartCol f)];
     highlightHistory := highlightHistory ed ++ [highlight] |}.

Definition applyAction (ed : VirtualEditor) (action : IAction)
    : result VirtualEditor :=
  let numTimes :=
    if isRepeatableAction action then JS.parseInt (value action) else Some 1 in
  let f := set_currentlyHighlightedCode (frame ed) "" in
  let currentLineLength :=
    match JS.get (codeLines f) (caretRow f) with
    | Some currentLineObject => JS.len currentLineObject
    | None => 0
    end in
  f <- switch numTimes currentLineLength action f ;;
  Ok (record_history ed f action).

(** [applyActions]: the editor after the last action; the string it
    returns is [getCode] of that editor. *)
Fixpoint applyActions (ed : VirtualEditor) (actions : list IAction)
    : result VirtualEditor :=
  match actions with
  | [] => Ok ed
  | action :: rest => ed <- applyAction ed action ;; applyActions ed rest
  end.

(** [new VirtualEditor(initialCodeLines, actions)]. The caller's array
    is at address 0 of the heap, and becomes [this.codeLines] unless it
    is empty. *)
Definition constructor (initialCodeLines : list string)
    (actions : option (list IAction)) : result VirtualEditor :=
  let h := [initialCodeLines] in
  let '(h, initialRef) :=
    if (List.length initialCodeLines =? 0)%nat then Heap.alloc h [""]
    else (h, O) in
  let initial := Heap.deref h initialRef in
  let seed :=
    mkAction "editor-type"
      (if (List.length initial =? 1)%nat then nth 0 initial "" else JS.join initial) in
  let '(h, copy) := Heap.alloc h initial in
  let '(h, highlight) := Heap.alloc h [""] in
  let ed :=
    {| heap := h;
       this := mkFields 0 0 (-1) (-1) initialRef "" false false;
       actionsApplied := [seed];
       editorActionsApplied := [seed];
       codeLinesHistory := [copy];
       caretPositionHistory := [mkPos 0 0];
       highlightStartPositionHistory := [mkPos (-1) (-1)];
       highlightHistory := [highlight] |} in
  match actions with
  | Some actions => applyActions ed actions
  | None => Ok ed
  end.

End Engine.

(** *** Accessors *)

Definition getCodeLines (ed : VirtualEditor) : list string :=
  Heap.deref (heap ed) (codeLines (this ed)).

Definition getCode (ed : VirtualEditor) : string := JS.join (getCodeLines ed).

(** The internal, 0-indexed caret. *)
Definition caret (ed : VirtualEditor) : IEditorPosition :=
  mkPos (caretRow (this ed)) (caretCol (this ed)).

(** The "physical" caret, (1, 1) being the top left. *)
Definition getCurrentCaretPosition (ed : VirtualEditor) : IEditorPosition :=
  mkPos (caretRow (this ed) + 1) (caretCol (this ed) + 1).

Definition getIsSaved (ed : VirtualEditor) : bool := isSaved (this ed).

Definition getIsEditorContextMenuOpen (ed : VirtualEditor) : bool :=
  isEditorContextMenuOpen (this ed).

Definition getCurrentHighlightedCode (ed : VirtualEditor) : string :=
  currentlyHighlightedCode (this ed).

(** [history[actionIndex].join("\n")] behind the bounds check of the two
    indexed accessors; a negative index passes the check and fails on
    [undefined]. *)
Definition history_at (h : Heap.t) (history : list Heap.ref) (actionIndex : Z)
    : result string :=
  if actionIndex >? Z.of_nat (List.length history) - 1
  then Throw ActionIndexOutOfBounds
  else
    r <- JS.get_defined history actionIndex ;;
    Ok (JS.join (Heap.deref h r)).

Definition getCodeAtActionIndex (ed : VirtualEditor) (actionIndex : Z)
    : result string :=
  history_at (heap ed) (codeLinesHistory ed) actionIndex.

Definition getHighlightedCodeAtActionIndex (ed : VirtualEditor) (actionIndex : Z)
    : result string :=
  history_at (heap ed) (highlightHistory ed) actionIndex.

Definition getCodeLinesHistory (ed : VirtualEditor) : list (list string) :=
  map (Heap.deref (heap ed)) (codeLinesHistory ed).

Definition getCodeAfterEachStep (ed : VirtualEditor) : list string :=
  map JS.join (getCodeLinesHistory ed).

Definition getActionsApplied (ed : VirtualEditor) : list IAction :=
  actionsApplied ed.

Definition getEditorActionsApplied (ed : VirtualEditor) : list IAction :=
  editorActionsApplied ed.

(** [getCurrentHighlightCoordinates()]: [None] is [null]; the end of the
    range is the caret. *)
Definition getCurrentHighlightCoordinates (ed : VirtualEditor)
    : option (IEditorPosition * IEditorPosition) :=
  if highlightStartRow (this ed) =? -1 then None
  else
    let start :=
      mkPos (highlightStartRow (this ed) + 1) (highlightStartCol (this ed) + 1) in
    let end_ := mkPos (caretRow (this ed) + 1) (caretCol (this ed) + 1) in
    Some (start, end_).

Definition set_this (ed : VirtualEditor) (fields : Fields Heap.ref)
    : VirtualEditor :=
  {| heap := heap ed;
     this := fields;
     actionsApplied := actionsApplied ed;
     editorActionsApplied := editorActionsApplied ed;
     codeLinesHistory := codeLinesHistory ed;
     caretPositionHistory := caretPositionHistory ed;
     highlightStartPositionHistory := highlightStartPositionHistory ed;
     highlightHistory := highlightHistory ed |}.

(** [setCurrentCaretPosition(row, column)], from physical coordinates. *)
Definition setCurrentCaretPosition (ed : VirtualEditor) (row column : Z)
    : VirtualEditor :=
  set_this ed (set_caret (this ed) (row - 1) (column - 1)).

(** [setValuesFromEditor(editor)]: [this.codeLines] becomes a new array,
    the result of [split]; the logs, the cached highlight and the context
    menu flag are not touched. *)
Definition setValuesFromEditor (ed : VirtualEditor) (editor : IEditor.t)
    : VirtualEditor :=
  let '(h, lines) :=
    Heap.alloc (heap ed) (JS.split_newline (IEditor.content editor)) in
  let highlightRow :=
    match IEditor.highlightCoordinates editor with
    | Some c => row (IEditor.start c) - 1
    | None => -1
    end in
  let highlightCol :=
    match IEditor.highlightCoordinates editor with
    | Some c => col (IEditor.start c) - 1
    | None => -1
    end in
  {| heap := h;
     this :=
       mkFields (row (IEditor.caretPosition editor) - 1)
         (col (IEditor.caretPosition editor) - 1)
         highlightRow highlightCol lines
         (currentlyHighlightedCode (this ed)) (IEditor.isSaved editor)
         (isEditorContextMenuOpen (this ed));
     actionsApplied := actionsApplied ed;
     editorActionsApplied := editorActionsApplied ed;
     codeLinesHistory := codeLinesHistory ed;
     caretPositionHistory := caretPositionHistory ed;
     highlightStartPositionHistory := highlightStartPositionHistory ed;
     highlightHistory := highlightHistory ed |}.

(** One element of [getEditorStateAfterEachStep()]. *)
Record EditorState : Type := mkState {
  code : string;
  caretPosition : IEditorPosition
}.

(** [codeLinesHistory.map((codeLines, index) => ...)], from [index] on: the
    caret of each step is read from [caretPositionHistory[index]]. *)
Fixpoint editor_states (h : Heap.t) (carets : list IEditorPosition)
    (history : list Heap.ref) (index : nat) : result (list EditorState) :=
  match history with
  | [] => Ok []
  | codeLines :: rest =>
      position <- JS.get_defined carets (Z.of_nat index) ;;
      states <- editor_states h carets rest (S index) ;;
      Ok (mkState (JS.join (Heap.deref h codeLines))
            (mkPos (row position) (col position)) :: states)
  end.

Definition getEditorStateAfterEachStep (ed : VirtualEditor)
    : result (list EditorState) :=
  editor_states (heap ed) (caretPositionHistory ed) (codeLinesHistory ed) O.

End Unified.

(** ** The older engine ([src/VirtualEditor.ts])

    The class with the unprefixed action names, columns named
    [caretColumn], and a [getCurrentCaretPosition] that reports the
    0-indexed caret. It is embedded from its own source, case by case. *)

Module Legacy.

Inductive ActionName : Type :=
| Enter | TypeEditor
| ArrowDown | ArrowUp | ArrowRight | ArrowLeft
| Backspace | Space | Tab
| CommandLeft | CommandRight
| ShiftArrowRight | ShiftArrowLeft
| SpeakBefore | SpeakAfter | SpeakDuring
| Unrecognized.

Definition action_names : list (string * ActionName) :=
  [ ("enter", Enter);
    ("type-editor", TypeEditor);
    ("arrow-down", ArrowDown);
    ("arrow-up", ArrowUp);
    ("arrow-right", ArrowRight);
    ("arrow-left", ArrowLeft);
    ("backspace", Backspace);
    ("space", Space);
    ("tab", Tab);
    ("command-left", CommandLeft);
    ("command-right", CommandRight);
    ("shift+arrow-right", ShiftArrowRight);
    ("shift+arrow-left", ShiftArrowLeft);
    ("speak-before", SpeakBefore);
    ("speak-after", SpeakAfter);
    ("speak-during", SpeakDuring) ].

Fixpoint lookup_name (table : list (string * ActionName)) (n : string) : ActionName :=
  match table with
  | [] => Unrecognized
  | (label, k) :: rest => if String.eqb n label then k else lookup_name rest n
  end.

Definition action_name (a : IAction) : ActionName :=
  lookup_name action_names (name a).

Record Position : Type := mkPosition { row : Z; column : Z }.

Record ISpeechCaption : Type := mkCaption { speechType : string; speechValue : string }.

Record Fields (L : Type) : Type := mkFields {
  caretRow : Z;
  caretColumn : Z;
  highlightStartRow : Z;
  highlightStartColumn : Z;
  codeLines : L;
  currentlyHighlightedCode : string
}.

Arguments mkFields {L}.
Arguments caretRow {L}.
Arguments caretColumn {L}.
Arguments highlightStartRow {L}.
Arguments highlightStartColumn {L}.
Arguments codeLines {L}.
Arguments currentlyHighlightedCode {L}.

Definition Frame : Type := Fields (list string).

Section Setters.
Context {L : Type}.
Implicit Type f : Fields L.

Definition set_caretRow f (v : Z) : Fields L :=
  mkFields v (caretColumn f) (highlightStartRow f) (highlightStartColumn f)
    (codeLines f) (currentlyHighlightedCode f).

Definition set_caretColumn f (v : Z) : Fields L :=
  mkFields (caretRow f) v (highlightStartRow f) (highlightStartColumn f)
    (codeLines f) (currentlyHighlightedCode f).

Definition set_caret f (r c : Z) : Fields L :=
  set_caretColumn (set_caretRow f r) c.

Definition set_highlightStart f (r c : Z) : Fields L :=
  mkFields (caretRow f) (caretColumn f) r c
    (codeLines f) (currentlyHighlightedCode f).

Definition set_codeLines {L' : Type} f (v : L') : Fields L' :=
  mkFields (caretRow f) (caretColumn f) (highlightStartRow f)
    (highlightStartColumn f) v (currentlyHighlightedCode f).

Definition set_currentlyHighlightedCode f (v : string) : Fields L :=
  mkFields (caretRow f) (caretColumn f) (highlightStartRow f)
    (highlightStartColumn f) (codeLines f) v.

(** [clearCurrentHighlightedCode()] *)
Definition clearCurrentHighlightedCode f : Fields L :=
  set_currentlyHighlightedCode (set_highlightStart f (-1) (-1)) "".

End Setters.

Definition line (f : Frame) (i : Z) : result string :=
  JS.get_defined (codeLines f) i.

Definition set_line (f : Frame) (i : Z) (v : string) : Frame :=
  set_codeLines f (JS.set (codeLines f) i v).

Definition splice_lines (f : Frame) (start deleteCount : Z)
    (items : list string) : Frame :=
  set_codeLines f (JS.splice (codeLines f) start deleteCount items).

Definition line_count (f : Frame) : Z := Z.of_nat (List.length (codeLines f)).

(** *** [calculateHighlightedText] *)

Definition highlighted_row (f : Frame) (startRow endRow : Z)
    (isForwardSelection : bool) (r : Z) : result string :=
  if r =? startRow then
    let startCol := if isForwardSelection then highlightStartColumn f else caretColumn f in
    l <- line f r ;; Ok (JS.substring_from l startCol)
  else if r =? endRow then
    let endCol := if isForwardSelection then caretColumn f else highlightStartColumn f in
    l <- line f r ;; Ok (JS.substring l 0 endCol)
  else
    Ok (match JS.get (codeLines f) r with Some l => l | None => "" end).

Fixpoint highlighted_rows (f : Frame) (startRow endRow : Z)
    (isForwardSelection : bool) (r : Z) (count : nat) : result (list string) :=
  match count with
  | O => Ok []
  | S k =>
      x <- highlighted_row f startRow endRow isForwardSelection r ;;
      xs <- highlighted_rows f startRow endRow isForwardSelection (r + 1) k ;;
      Ok (x :: xs)
  end.

Definition calculateHighlightedText (f : Frame) : result string :=
  if highlightStartRow f =? -1 then Ok ""
  else if caretRow f =? highlightStartRow f then
    let start := Z.min (highlightStartColumn f) (caretColumn f) in
    let end_ := Z.max (highlightStartColumn f) (caretColumn f) in
    l <- line f (caretRow f) ;; Ok (JS.substring l start end_)
  else
    let startRow := Z.min (highlightStartRow f) (caretRow f) in
    let endRow := Z.max (highlightStartRow f) (caretRow f) in
    let isForwardSelection := highlightStartRow f <? caretRow f in
    highlightedLines <-
      highlighted_rows f startRow endRow isForwardSelection startRow
        (Z.to_nat (endRow - startRow + 1)) ;;
    Ok (JS.join highlightedLines).

(** *** The cases of the [switch] *)

Definition enter_step (f : Frame) : result Frame :=
  currentLine <- line f (caretRow f) ;;
  let beforeCaret := JS.substring currentLine 0 (caretColumn f) in
  let afterCaret := JS.substring_from currentLine (caretColumn f) in
  let f := set_line f (caretRow f) beforeCaret in
  let f := splice_lines f (caretRow f + 1) 0 [afterCaret] in
  Ok (set_caret f (caretRow f + 1) 0).

(** With a selection, [enter] inserts [numTimes] blank lines after the
    start row, then the text that followed the selection when it is not
    empty. *)
Definition case_enter (numTimes : option Z) (f : Frame) : result Frame :=
  if negb (highlightStartRow f =? -1) then
    let isForwardSelection :=
      (highlightStartRow f <? caretRow f)
      || ((highlightStartRow f =? caretRow f)
          && (highlightStartColumn f <=? caretColumn f)) in
    let startRow := if isForwardSelection then highlightStartRow f else caretRow f in
    let endRow := if isForwardSelection then caretRow f else highlightStartRow f in
    let startCol := if isForwardSelection then highlightStartColumn f else caretColumn f in
    let endCol := if isForwardSelection then caretColumn f else highlightStartColumn f in
    first <- line f startRow ;;
    let beforeText := JS.substring first 0 startCol in
    last <- line f endRow ;;
    let afterText := JS.substring_from last endCol in
    let f := set_line f startRow beforeText in
    let f :=
      if endRow >? startRow
      then splice_lines f (startRow + 1) (endRow - startRow) []
      else f in
    blanks <- JS.Array_fill numTimes "" ;;
    let newLines :=
      if negb (String.eqb afterText "") then blanks ++ [afterText] else blanks in
    let f := splice_lines f (startRow + 1) 0 newLines in
    match numTimes with
    | None => Throw RangeError (* [Array(NaN)] has thrown above *)
    | Some n =>
        let f :=
          if negb (String.eqb afterText "")
          then set_caret f (startRow + n + 1) 0
          else set_caret f (startRow + n) 0 in
        Ok (clearCurrentHighlightedCode f)
    end
  else
    for_loop (JS.iterations numTimes) enter_step f.

Definition type_delete_selection (f : Frame) : result Frame :=
  if negb (highlightStartRow f =? -1) then
    let startRow := highlightStartRow f in
    let startColumn := highlightStartColumn f in
    let endRow := caretRow f in
    let endColumn := caretColumn f in
    f <-
      (if startRow =? endRow then
         l <- line f startRow ;;
         Ok (set_line f startRow
               (JS.substring l 0 startColumn ++ JS.substring_from l endColumn)%string)
       else
         first <- line f startRow ;;
         last <- line f endRow ;;
         let f := set_line f startRow
                    (JS.substring first 0 startColumn
                     ++ JS.substring_from last endColumn)%string in
         Ok (splice_lines f (startRow + 1) (endRow - startRow) [])) ;;
    Ok (clearCurrentHighlightedCode (set_caret f startRow startColumn))
  else Ok f.

(** The text is inserted in the caret's line as it is, line breaks
    included. *)
Definition type_step (value : string) (f : Frame) : result Frame :=
  let typedStringLength := JS.len value in
  l <- line f (caretRow f) ;;
  let f := set_line f (caretRow f)
             (JS.substring l 0 (caretColumn f) ++ value
              ++ JS.substring_from l (caretColumn f))%string in
  Ok (set_caretColumn f (caretColumn f + typedStringLength)).

Definition case_type_editor (numTimes : option Z) (value : string) (f : Frame)
    : result Frame :=
  f <- type_delete_selection f ;;
  for_loop (JS.iterations numTimes) (type_step value) f.

Definition arrow_down_step (f : Frame) : Frame :=
  if caretRow f <? line_count f - 1 then set_caretRow f (caretRow f + 1) else f.

Definition case_arrow_down (numTimes : option Z) (f : Frame) : Frame :=
  clearCurrentHighlightedCode
    (repeat_loop (JS.iterations numTimes) arrow_down_step f).

Definition arrow_up_step (f : Frame) : Frame :=
  if caretRow f >? 0 then set_caretRow f (caretRow f - 1) else f.

Definition case_arrow_up (numTimes : option Z) (f : Frame) : Frame :=
  clearCurrentHighlightedCode
    (repeat_loop (JS.iterations numTimes) arrow_up_step f).

(** The caret stops one column before [currentLineLength]. *)
Definition arrow_right_step (currentLineLength : Z) (f : Frame) : Frame :=
  if caretColumn f <? currentLineLength - 1 then set_caretColumn f (caretColumn f + 1)
  else if caretRow f <? line_count f - 1 then set_caret f (caretRow f + 1) 0
  else f.

Definition case_arrow_right (numTimes : option Z) (currentLineLength : Z)
    (f : Frame) : Frame :=
  clearCurrentHighlightedCode
    (repeat_loop (JS.iterations numTimes) (arrow_right_step currentLineLength) f).

Definition arrow_left_step (f : Frame) : result Frame :=
  if caretColumn f >? 0 then Ok (set_caretColumn f (caretColumn f - 1))
  else if caretRow f >? 0 then
    let f := set_caretRow f (caretRow f - 1) in
    l <- line f (caretRow f) ;;
    Ok (set_caretColumn f (JS.len l - 1))
  else Ok f.

Definition case_arrow_left (numTimes : option Z) (f : Frame) : result Frame :=
  f <- for_loop (JS.iterations numTimes) arrow_left_step f ;;
  Ok (clearCurrentHighlightedCode f).

Definition delete_range (startRow endRow startCol endCol : Z) (f : Frame)
    : result Frame :=
  f <-
    (if startRow =? endRow then
       let start := Z.min startCol endCol in
       let end_ := Z.max startCol endCol in
       l <- line f startRow ;;
       let f := set_line f startRow
                  (JS.substring l 0 start ++ JS.substring_from l end_)%string in
       Ok (set_caret f startRow start)
     else
       first <- line f startRow ;;
       let firstLineStart := JS.substring first 0 startCol in
       last <- line f endRow ;;
       let lastLineEnd := JS.substring_from last endCol in
       let f := set_line f startRow (firstLineStart ++ lastLineEnd)%string in
       let f := splice_lines f (startRow + 1) (endRow - startRow) [] in
       Ok (set_caret f startRow startCol)) ;;
  Ok (clearCurrentHighlightedCode f).

Definition backspace_step (f : Frame) : result Frame :=
  if caretColumn f >? 0 then
    l <- line f (caretRow f) ;;
    let f := set_line f (caretRow f)
               (JS.substring l 0 (caretColumn f - 1)
                ++ JS.substring_from l (caretColumn f))%string in
    Ok (set_caretColumn f (caretColumn f - 1))
  else if caretRow f >? 0 then
    previous <- line f (caretRow f - 1) ;;
    let previousLineLength := JS.len previous in
    let current :=
      match JS.get (codeLines f) (caretRow f) with
      | Some l => l
      | None => "undefined"
      end in
    let f := set_line f (caretRow f - 1) (previous ++ current)%string in
    let f := splice_lines f (caretRow f) 1 [] in
    Ok (set_caret f (caretRow f - 1) previousLineLength)
  else Ok f.

Definition case_backspace (numTimes : option Z) (f : Frame) : result Frame :=
  if negb (highlightStartRow f =? -1) then
    let startRow := Z.min (highlightStartRow f) (caretRow f) in
    let endRow := Z.max (highlightStartRow f) (caretRow f) in
    let isForwardSelection := highlightStartRow f <? caretRow f in
    let startCol := if isForwardSelection then highlightStartColumn f else caretColumn f in
    let endCol := if isForwardSelection then caretColumn f else highlightStartColumn f in
    delete_range startRow endRow startCol endCol f
  else
    for_loop (JS.iterations numTimes) backspace_step f.

Definition insert_step (text : string) (f : Frame) : result Frame :=
  l <- line f (caretRow f) ;;
  let f := set_line f (caretRow f)
             (JS.substring l 0 (caretColumn f) ++ text
              ++ JS.substring_from l (caretColumn f))%string in
  Ok (set_caretColumn f (caretColumn f + 1)).

Definition case_space (numTimes : option Z) (f : Frame) : result Frame :=
  f <-
    (if negb (highlightStartRow f =? -1) then
       let startRow := Z.min (highlightStartRow f) (caretRow f) in
       let endRow := Z.max (highlightStartRow f) (caretRow f) in
       let startCol :=
         if startRow =? highlightStartRow f then highlightStartColumn f
         else caretColumn f in
       let endCol :=
         if endRow =? highlightStartRow f then highlightStartColumn f
         else caretColumn f in
       delete_range startRow endRow startCol endCol f
     else Ok f) ;;
  for_loop (JS.iterations numTimes) (insert_step " ") f.

Definition case_tab (numTimes : option Z) (f : Frame) : result Frame :=
  for_loop (JS.iterations numTimes) (insert_step JS.tab) f.

Definition command_left_step (f : Frame) : Frame :=
  if caretColumn f >? 0 then set_caretColumn f 0 else f.

Definition case_command_left (numTimes : option Z) (f : Frame) : Frame :=
  clearCurrentHighlightedCode
    (repeat_loop (JS.iterations numTimes) command_left_step f).

Definition command_right_step (f : Frame) : result Frame :=
  l <- line f (caretRow f) ;;
  if caretColumn f <? JS.len l then Ok (set_caretColumn f (JS.len l)) else Ok f.

Definition case_command_right (numTimes : option Z) (f : Frame) : result Frame :=
  f <- for_loop (JS.iterations numTimes) command_right_step f ;;
  Ok (clearCurrentHighlightedCode f).

Definition start_selection (f : Frame) : Frame :=
  if highlightStartRow f =? -1
  then set_highlightStart f (caretRow f) (caretColumn f)
  else f.

Definition shift_arrow_right_step (f : Frame) : result Frame :=
  l <- line f (caretRow f) ;;
  if caretColumn f <? JS.len l then Ok (set_caretColumn f (caretColumn f + 1))
  else if caretRow f <? line_count f - 1 then Ok (set_caret f (caretRow f + 1) 0)
  else Ok f.

Definition shift_arrow_left_step (f : Frame) : result Frame :=
  if caretColumn f >? 0 then Ok (set_caretColumn f (caretColumn f - 1))
  else if caretRow f >? 0 then
    let f := set_caretRow f (caretRow f - 1) in
    l <- line f (caretRow f) ;;
    Ok (set_caretColumn f (JS.len l))
  else Ok f.

Definition case_shift_arrow (step : Frame -> result Frame)
    (numTimes : option Z) (f : Frame) : result Frame :=
  let f := start_selection f in
  f <- for_loop (JS.iterations numTimes) step f ;;
  text <- calculateHighlightedText f ;;
  Ok (set_currentlyHighlightedCode f text).

Definition switch (numTimes : option Z) (currentLineLength : Z)
    (action : IAction) (f : Frame) : result Frame :=
  match action_name action with
  | Enter => case_enter numTimes f
  | TypeEditor => case_type_editor numTimes (value action) f
  | ArrowDown => Ok (case_arrow_down numTimes f)
  | ArrowUp => Ok (case_arrow_up numTimes f)
  | ArrowRight => Ok (case_arrow_right numTimes currentLineLength f)
  | ArrowLeft => case_arrow_left numTimes f
  | Backspace => case_backspace numTimes f
  | Space => case_space numTimes f
  | Tab => case_tab numTimes f
  | CommandLeft => Ok (case_command_left numTimes f)
  | CommandRight => case_command_right numTimes f
  | ShiftArrowRight => case_shift_arrow shift_arrow_right_step numTimes f
  | ShiftArrowLeft => case_shift_arrow shift_arrow_left_step numTimes f
  | SpeakBefore | SpeakAfter | SpeakDuring => Ok f
  | Unrecognized => Ok f
  end.

(** *** The object and its history logs *)

Record VirtualEditor : Type := mkEditor {
  heap : Heap.t;
  this : Fields Heap.ref;
  actionsApplied : list IAction;
  codeActionsApplied : list IAction;
  speakActionsApplied : list IAction;
  codeLinesHistory : list Heap.ref;
  speechCaptionHistory : list ISpeechCaption;
  caretPositionHistory : list Position;
  highlightStartPositionHistory : list Position;
  highlightHistory : list Heap.ref
}.

Definition frame (ed : VirtualEditor) : Frame :=
  set_codeLines (this ed) (Heap.deref (heap ed) (codeLines (this ed))).

Section Engine.
Context {types : ActionTypes}.

Definition record_history (ed : VirtualEditor) (f : Frame) (action : IAction)
    : VirtualEditor :=
  let h := Heap.store (heap ed) (codeLines (this ed)) (codeLines f) in
  let '(h, codeLinesCopy) := Heap.alloc h (codeLines f) in
  let '(h, highlight) :=
    Heap.alloc h
      (if String.eqb (currentlyHighlightedCode f) "" then [""]
       else [currentlyHighlightedCode f]) in
  {| heap := h;
     this := set_codeLines f (codeLines (this ed));
     actionsApplied := actionsApplied ed ++ [action];
     codeActionsApplied :=
       if isCodeAction action then codeActionsApplied ed ++ [action]
       else codeActionsApplied ed;
     speakActionsApplied :=
       if isSpeakAction action then speakActionsApplied ed ++ [action]
       else speakActionsApplied ed;
     codeLinesHistory := codeLinesHistory ed ++ [codeLinesCopy];
     speechCaptionHistory :=
       speechCaptionHistory ed
       ++ [if isSpeakAction action then mkCaption (name action) (value action)
           else mkCaption "" ""];
     caretPositionHistory :=
       caretPositionHistory ed ++ [mkPosition (caretRow f) (caretColumn f)];
     highlightStartPositionHistory :=
       highlightStartPositionHistory ed
       ++ [mkPosition
             (if highlightStartRow f =? -1 then -1 else highlightStartRow f)
             (if highlightStartColumn f =? -1 then -1 else highlightStartColumn f)];
     highlightHistory := highlightHistory ed ++ [highlight] |}.

(** [this.codeLines[this.caretRow].length] is read before the [switch],
    with no guard. *)
Definition applyAction (ed : VirtualEditor) (action : IAction)
    : result VirtualEditor :=
  let numTimes :=
    if isRepeatableAction action then JS.parseInt (value action) else Some 1 in
  let f := set_currentlyHighlightedCode (frame ed) "" in
  currentLine <- line f (caretRow f) ;;
  let currentLineLength := JS.len currentLine in
  f <- switch numTimes currentLineLength action f ;;
  Ok (record_history ed f action).

Fixpoint applyActions (ed : VirtualEditor) (actions : list IAction)
    : result VirtualEditor :=
  match actions with
  | [] => Ok ed
  | action :: rest => ed <- applyAction ed action ;; applyActions ed rest
  end.

(** The selection anchor starts at (0, 0), not at the "no selection" value
    that the first entry of [highlightStartPositionHistory] records. *)
Definition constructor (initialCodeLines : list string)
    (actions : option (list IAction)) : result VirtualEditor :=
  let h := [initialCodeLines] in
  let '(h, initialRef) :=
    if (List.length initialCodeLines =? 0)%nat then Heap.alloc h [""]
    else (h, O) in
  let initial := Heap.deref h initialRef in
  let seed := mkAction "type-editor" (JS.join initial) in
  let '(h, copy) := Heap.alloc h initial in
  let '(h, highlight) := Heap.alloc h [""] in
  let ed :=
    {| heap := h;
       this := mkFields 0 0 0 0 initialRef "";
       actionsApplied := [seed];
       codeActionsApplied := [seed];
       speakActionsApplied := [];
       codeLinesHistory := [copy];
       speechCaptionHistory := [mkCaption "" ""];
       caretPositionHistory := [mkPosition 0 0];
       highlightStartPositionHistory := [mkPosition (-1) (-1)];
       highlightHistory := [highlight] |} in
  match actions with
  | Some actions => applyActions ed actions
  | None => Ok ed
  end.

End Engine.

(** *** Accessors *)

Definition getCodeLines (ed : VirtualEditor) : list string :=
  Heap.deref (heap ed) (codeLines (this ed)).

Definition getCode (ed : VirtualEditor) : string := JS.join (getCodeLines ed).

(** The caret, 0-indexed. *)
Definition getCurrentCaretPosition (ed : VirtualEditor) : Position :=
  mkPosition (caretRow (this ed)) (caretColumn (this ed)).

Definition getCurrentHighlightedCode (ed : VirtualEditor) : string :=
  currentlyHighlightedCode (this ed).

Definition getCodeAfterEachStep (ed : VirtualEditor) : list string :=
  map (fun r => JS.join (Heap.deref (heap ed) r)) (codeLinesHistory ed).

Definition getActionsApplied (ed : VirtualEditor) : list IAction :=
  actionsApplied ed.

Definition getCodeActionsApplied (ed : VirtualEditor) : list IAction :=
  codeActionsApplied ed.

Definition getSpeakActionsApplied (ed : VirtualEditor) : list IAction :=
  speakActionsApplied ed.

Definition getSpeechCaptionHistory (ed : VirtualEditor) : list ISpeechCaption :=
  speechCaptionHistory ed.

(** [history[actionIndex].join("\n")] behind the bounds check. *)
Definition history_at (h : Heap.t) (history : list Heap.ref) (actionIndex : Z)
    : result string :=
  if actionIndex >? Z.of_nat (List.length history) - 1
  then Throw ActionIndexOutOfBounds
  else
    r <- JS.get_defined history actionIndex ;;
    Ok (JS.join (Heap.deref h r)).

Definition getCodeAtActionIndex (ed : VirtualEditor) (actionIndex : Z)
    : result string :=
  history_at (heap ed) (codeLinesHistory ed) actionIndex.

Definition getHighlightedCodeAtActionIndex (ed : VirtualEditor) (actionIndex : Z)
    : result string :=
  history_at (heap ed) (highlightHistory ed) actionIndex.

(** One element of [getDataForAnnotatedFrames()]; [None] is the [null] of
    [highlightStartPosition]. *)
Record AnnotatedFrame : Type := mkFrame {
  actionApplied : IAction;
  code : string;
  highlightStartPosition : option IEditorPosition;
  highlightedCode : string;
  caretPosition : IEditorPosition;
  speechCaptions : list ISpeechCaption
}.

Section Frames.
Context {types : ActionTypes}.

(** The callback of the [map] in [getDataForAnnotatedFrames]; the
    properties of the object literal are evaluated in order. *)
Definition annotated_frame (ed : VirtualEditor) (action : IAction) (index : Z)
    : result AnnotatedFrame :=
  let captions :=
    if isSpeakAction action then [mkCaption (name action) (value action)]
    else [] in
  text <- getCodeAtActionIndex ed index ;;
  start <- JS.get_defined (highlightStartPositionHistory ed) index ;;
  highlight <- JS.get_defined (highlightHistory ed) index ;;
  position <- JS.get_defined (caretPositionHistory ed) index ;;
  Ok {| actionApplied := action;
        code := text;
        highlightStartPosition :=
          if negb (row start =? -1) then Some (mkPos (row start) (column start))
          else None;
        highlightedCode := JS.join (Heap.deref (heap ed) highlight);
        caretPosition := mkPos (row position) (column position);
        speechCaptions := captions |}.

Fixpoint annotated_frames (ed : VirtualEditor) (actions : list IAction)
    (index : nat) : result (list AnnotatedFrame) :=
  match actions with
  | [] => Ok []
  | action :: rest =>
      data <- annotated_frame ed action (Z.of_nat index) ;;
      frames <- annotated_frames ed rest (S index) ;;
      Ok (data :: frames)
  end.

Definition getDataForAnnotatedFrames (ed : VirtualEditor)
    : result (list AnnotatedFrame) :=
  annotated_frames ed (actionsApplied ed) O.

End Frames.

End Legacy.

(** ** The action classification *)

Module SpecTypes.

(** Modelled from the spec: [isRepeatableAction], [isEditorAction],
    [isCodeAction] and [isSpeakAction] belong to the external package
    [@fullstackcraftllc/codevideo-types] and are not part of the repository.
    The spec says that "actions classified repeatable carry a textual
    integer instead of payload": every keyboard action of either engine is
    repeatable except text insertion, whose value is the text; the speak
    actions carry a caption. The theorems about all runs hold for any
    classification; this one is used to run the engines on concrete
    traces. *)
Definition keys : list string :=
  [ "enter"; "arrow-down"; "arrow-up"; "arrow-right"; "arrow-left";
    "backspace"; "space"; "tab"; "command-left"; "command-right";
    "shift+arrow-left"; "shift+arrow-right"; "shift+arrow-down";
    "shift+arrow-up" ].

Definition mem (n : string) (l : list string) : bool :=
  existsb (String.eqb n) l.

Definition repeatable (a : IAction) : bool :=
  mem (name a) (keys ++ map (String.append "editor-") keys).

Definition editor (a : IAction) : bool := String.prefix "editor-" (name a).

Definition code (a : IAction) : bool := mem (name a) ("type-editor" :: keys).

Definition speak (a : IAction) : bool :=
  let names := [ "speak-before"; "speak-after"; "speak-during" ] in
  mem (name a) (names ++ map (String.append "author-") names).

Definition types : ActionTypes :=
  {| isRepeatableAction := repeatable;
     isEditorAction := editor;
     isCodeAction := code;
     isSpeakAction := speak |}.

End SpecTypes.

(** ** Predicates on states *)

Module Pred.
Import Unified.

(** The caret's row designates a line of the buffer. *)
Definition caret_row_in_buffer (f : Frame) : Prop :=
  0 <= caretRow f < line_count f.

(** The selection anchor is absent or designates a line of the buffer. *)
Definition anchor_row_in_buffer (f : Frame) : Prop :=
  highlightStartRow f = -1 \/ 0 <= highlightStartRow f < line_count f.

Definition rows_in_buffer (f : Frame) : Prop :=
  caret_row_in_buffer f /\ anchor_row_in_buffer f.

(** The caret's column is a position of the caret's line. *)
Definition caret_col_in_line (f : Frame) : Prop :=
  exists l, JS.get (codeLines f) (caretRow f) = Some l /\
            0 <= caretCol f <= JS.len l.

Definition no_selection (f : Frame) : Prop := highlightStartRow f = -1.

(** The live buffer and every recorded snapshot are allocated, and no
    snapshot is the live buffer's array. *)
Definition snapshot_of (ed : VirtualEditor) (r : Heap.ref) : Prop :=
  (r < List.length (heap ed))%nat /\ r <> codeLines (this ed).

Definition heap_separated (ed : VirtualEditor) : Prop :=
  (codeLines (this ed) < List.length (heap ed))%nat
  /\ Forall (snapshot_of ed) (codeLinesHistory ed)
  /\ Forall (snapshot_of ed) (highlightHistory ed).

Definition invariant (ed : VirtualEditor) : Prop :=
  heap_separated ed /\ rows_in_buffer (frame ed).

Definition caret_in_bounds (f : Frame) : Prop :=
  caret_row_in_buffer f /\ caret_col_in_line f.

(** The cache of the highlighted text is empty. *)
Definition highlight_empty (f : Frame) : Prop := currentlyHighlightedCode f = "".

(** The last highlight snapshot is the cached text, and there is one
    snapshot per applied action. *)
Definition cache_recorded (ed : VirtualEditor) : Prop :=
  List.length (highlightHistory ed) = List.length (actionsApplied ed)
  /\ getHighlightedCodeAtActionIndex ed
       (Z.of_nat (List.length (actionsApplied ed)) - 1)
     = Ok (currentlyHighlightedCode (this ed)).

(** The actions that extend the selection. *)
Definition is_shift_arrow (k : ActionName) : bool :=
  match k with
  | EditorShiftArrowLeft | EditorShiftArrowRight
  | EditorShiftArrowDown | EditorShiftArrowUp => true
  | _ => false
  end.

(** The most recently applied action; the seed right after construction. *)
Definition last_action (ed : VirtualEditor) : IAction :=
  last (actionsApplied ed) (mkAction "" "").

(** The index of the most recent step in the history logs. *)
Definition last_index (ed : VirtualEditor) : Z :=
  Z.of_nat (List.length (actionsApplied ed)) - 1.

(** The repeat count that [applyAction] computes for an action. *)
Definition repeat_count {types : ActionTypes} (action : IAction) : option Z :=
  if isRepeatableAction action then JS.parseInt (value action) else Some 1.

(** A count for which [Array(numTimes - 1)] does not throw. *)
Definition enter_count_ok (numTimes : option Z) : Prop :=
  exists n, numTimes = Some n /\ 1 <= n <= 2 ^ 32.

(** States reached from the constructor by calls that return. *)
Definition reachable {types : ActionTypes} (ed : VirtualEditor) : Prop :=
  exists initialCodeLines actions,
    constructor initialCodeLines (Some actions) = Ok ed.

End Pred.

(** ** Correspondence between the two engines *)

Module Sim.

(** The fields of the unified engine that the older engine also has. *)
Definition to_legacy (f : Unified.Frame) : Legacy.Frame :=
  Legacy.mkFields (Unified.caretRow f) (Unified.caretCol f)
    (Unified.highlightStartRow f) (Unified.highlightStartCol f)
    (Unified.codeLines f) (Unified.currentlyHighlightedCode f).

(** The spelling, in the unified engine, of an action of the older one. *)
Definition unified_name (a : IAction) : string :=
  match Legacy.action_name a with
  | Legacy.Enter => "editor-enter"
  | Legacy.TypeEditor => "editor-type"
  | Legacy.ArrowDown => "editor-arrow-down"
  | Legacy.ArrowUp => "editor-arrow-up"
  | Legacy.ArrowRight => "editor-arrow-right"
  | Legacy.ArrowLeft => "editor-arrow-left"
  | Legacy.Backspace => "editor-backspace"
  | Legacy.Space => "editor-space"
  | Legacy.Tab => "editor-tab"
  | Legacy.CommandLeft => "editor-command-left"
  | Legacy.CommandRight => "editor-command-right"
  | Legacy.ShiftArrowRight => "editor-shift+arrow-right"
  | Legacy.ShiftArrowLeft => "editor-shift+arrow-left"
  | Legacy.SpeakBefore => "author-speak-before"
  | Legacy.SpeakAfter => "author-speak-after"
  | Legacy.SpeakDuring => "author-speak-during"
  | Legacy.Unrecognized => name a
  end.

Definition rename (a : IAction) : IAction := mkAction (unified_name a) (value a).

(** The actions whose cases have the same text in both classes: everything
    the older engine recognises except arrow-right, enter over a selection,
    and text that contains a line break. *)
Definition shared_kind (f : Unified.Frame) (a : IAction) : bool :=
  match Legacy.action_name a with
  | Legacy.Enter => Unified.highlightStartRow f =? -1
  | Legacy.TypeEditor => (List.length (JS.split_newline (value a)) =? 1)%nat
  | Legacy.ArrowRight => false
  | Legacy.Unrecognized => false
  | _ => true
  end.

(** Both spellings of the action are classified alike. *)
Definition same_classification {types : ActionTypes} (a : IAction) : bool :=
  Bool.eqb (isRepeatableAction (rename a)) (isRepeatableAction a).

(** Every action of the trace is shared, in the state in which the unified
    engine receives it. *)
Fixpoint shared {types : ActionTypes} (n : Unified.VirtualEditor)
    (actions : list IAction) : Prop :=
  match actions with
  | [] => True
  | a :: rest =>
      shared_kind (Unified.frame n) a = true
      /\ same_classification a = true
      /\ match Unified.applyAction n (rename a) with
         | Ok n' => shared n' rest
         | Throw _ => True
         end
  end.

(** Corresponding states: the same buffer, caret, anchor and cached
    highlight, in well-formed objects. *)
Definition corresponds (o : Legacy.VirtualEditor) (n : Unified.VirtualEditor)
    : Prop :=
  (Legacy.codeLines (Legacy.this o) < List.length (Legacy.heap o))%nat
  /\ Pred.invariant n
  /\ Legacy.frame o = to_legacy (Unified.frame n).

(** The +1 display offset. *)
Definition display (p : Legacy.Position) : IEditorPosition :=
  mkPos (Legacy.row p + 1) (Legacy.column p + 1).

(** Both calls return, in corresponding states with the same text and
    carets one display offset apart. *)
Definition agree (ro : result Legacy.VirtualEditor)
    (rn : result Unified.VirtualEditor) : Prop :=
  match ro, rn with
  | Ok o, Ok n =>
      corresponds o n
      /\ Legacy.getCode o = Unified.getCode n
      /\ Unified.getCurrentCaretPosition n
         = display (Legacy.getCurrentCaretPosition o)
  | _, _ => False
  end.

End Sim.

(** ** Runs and logs *)

Module Run.
Import Unified.

(** The buffer the constructor starts from. *)
Definition initial_lines (initialCodeLines : list string) : list string :=
  if (List.length initialCodeLines =? 0)%nat then [""] else initialCodeLines.

(** The synthetic first entry of the action logs. *)
Definition seed (initialCodeLines : list string) : IAction :=
  let initial := initial_lines initialCodeLines in
  mkAction "editor-type"
    (if (List.length initial =? 1)%nat then nth 0 initial "" else JS.join initial).

(** The editors after each action of a trace, as long as the calls
    return. *)
Fixpoint steps {types : ActionTypes} (ed : VirtualEditor) (actions : list IAction)
    : list VirtualEditor :=
  match actions with
  | [] => []
  | action :: rest =>
      match applyAction ed action with
      | Ok ed' => ed' :: steps ed' rest
      | Throw _ => []
      end
  end.

(** What [getEditorStateAfterEachStep] shows of an editor: its text and its
    internal, 0-indexed caret. *)
Definition state_of (ed : VirtualEditor) : EditorState :=
  mkState (getCode ed) (caret ed).

(** The cases of the [switch] that contain no assignment to
    [this.codeLines] or to one of its elements. *)
Definition keeps_buffer (k : ActionName) : bool :=
  match k with
  | EditorEnter | EditorType | EditorBackspace | EditorSpace | EditorTab => false
  | _ => true
  end.

(** The cases that end with no selection: they call
    [clearCurrentHighlightedCode], or run only without a selection. *)
Definition ends_selection (k : ActionName) : bool :=
  match k with
  | EditorEnter | EditorType | EditorBackspace | EditorSpace
  | EditorArrowDown | EditorArrowUp | EditorArrowRight | EditorArrowLeft
  | EditorCommandLeft | EditorCommandRight => true
  | _ => false
  end.

(** The cases that never assign the selection anchor. *)
Definition keeps_anchor (k : ActionName) : bool :=
  match k with
  | EditorTab | EditorSave | EditorShowContextMenu | EditorHideContextMenu
  | Unrecognized => true
  | _ => false
  end.

(** The anchor of the selection, in physical coordinates. *)
Definition anchor (ed : VirtualEditor) : option IEditorPosition :=
  option_map fst (getCurrentHighlightCoordinates ed).

(** [n] copies of a string, one after the other. *)
Fixpoint copies (n : nat) (s : string) : string :=
  match n with
  | O => ""
  | S k => (s ++ copies k s)%string
  end.

(** The line [l] with [text] put in at column [c]. *)
Definition insert_at (l : string) (c : Z) (text : string) : string :=
  (JS.substring l 0 c ++ text ++ JS.substring_from l c)%string.

(** The document up to a position, and from it on. *)
Definition text_before (lines : list string) (p : IEditorPosition) : string :=
  JS.join (firstn (Z.to_nat (row p)) lines
           ++ [JS.substring (nth (Z.to_nat (row p)) lines "") 0 (col p)]).

Definition text_after (lines : list string) (p : IEditorPosition) : string :=
  JS.join (JS.substring_from (nth (Z.to_nat (row p)) lines "") (col p)
           :: skipn (S (Z.to_nat (row p))) lines).

(** The anchor of the selection, 0-indexed like the internal caret. *)
Definition selection_start (ed : VirtualEditor) : IEditorPosition :=
  mkPos (highlightStartRow (this ed)) (highlightStartCol (this ed)).

(** A position of the text: a row of the buffer and a column of that row's
    line, its end included. *)
Definition in_text (lines : list string) (p : IEditorPosition) : Prop :=
  exists l, JS.get lines (row p) = Some l /\ 0 <= col p <= JS.len l.

(** The order of the positions in the document. *)
Definition precedes (p q : IEditorPosition) : Prop :=
  row p < row q \/ (row p = row q /\ col p <= col q).

(** The anchor of a selection, when there is one, is a position of the
    text; a frame is placed when its caret is one too. *)
Definition anchor_in_text (f : Frame) : Prop :=
  highlightStartRow f = -1
  \/ in_text (codeLines f) (mkPos (highlightStartRow f) (highlightStartCol f)).

Definition placed (f : Frame) : Prop :=
  Pred.caret_col_in_line f /\ anchor_in_text f.

(** The four arrow keys that move the caret without selecting. *)
Definition is_plain_arrow (k : ActionName) : bool :=
  match k with
  | EditorArrowUp | EditorArrowDown | EditorArrowLeft | EditorArrowRight => true
  | _ => false
  end.

(** The array that was passed to the constructor, as its caller sees it
    afterwards: the constructor puts it at address 0 of the heap. *)
Definition callers_array (ed : VirtualEditor) : list string :=
  Heap.deref (heap ed) O.

(** The lines above a position, its line, and the lines below it. *)
Definition lines_before (lines : list string) (p : IEditorPosition)
    : list string :=
  firstn (Z.to_nat (row p)) lines.

Definition line_at (lines : list string) (p : IEditorPosition) : string :=
  nth (Z.to_nat (row p)) lines "".

Definition lines_after (lines : list string) (p : IEditorPosition)
    : list string :=
  skipn (S (Z.to_nat (row p))) lines.

(** The older engine: the seed of its action logs, and the caption that a
    step records. *)
Definition legacy_seed (initialCodeLines : list string) : IAction :=
  mkAction "type-editor" (JS.join (initial_lines initialCodeLines)).

Definition caption_of {types : ActionTypes} (action : IAction)
    : Legacy.ISpeechCaption :=
  if isSpeakAction action then Legacy.mkCaption (name action) (value action)
  else Legacy.mkCaption "" "".

Definition captions_of {types : ActionTypes} (action : IAction)
    : list Legacy.ISpeechCaption :=
  if isSpeakAction action then [Legacy.mkCaption (name action) (value action)]
  else [].

End Run.

(** ** Traces used as examples *)

Module Trace.

Definition type (text : string) : IAction := mkAction "editor-type" text.
Definition key (k count : string) : IAction :=
  mkAction (String.append "editor-" k) count.

(** The trace of the test "should properly track caret column when moving
    up between lines of different lengths". *)
Definition short_then_long_then_up : list IAction :=
  [ type "short"; key "enter" "1"; type "much longer line here";
    key "arrow-up" "1" ].

Definition legacy_type (text : string) : IAction := mkAction "type-editor" text.

(** Three steps to the right, then a character. *)
Definition right_then_type : list IAction :=
  [ mkAction "arrow-right" "3"; legacy_type "X" ].

(** Keys and text that both engines treat alike. *)
Definition shared_keys : list IAction :=
  [ mkAction "backspace" "1"; legacy_type "hello"; mkAction "enter" "2";
    legacy_type "world"; mkAction "shift+arrow-left" "3";
    mkAction "space" "2"; mkAction "arrow-up" "1"; mkAction "tab" "1" ].

(** A selection of one character made from the start of the line. *)
Definition select_first_character : list IAction :=
  [ key "shift+arrow-right" "1" ].

End Trace.

(** * Properties *)

(** ** The error monad and the loops *)

Lemma bind_Ok {A B : Type} (c : result A) (k : A -> result B) (b : B) :
  bind c k = Ok b -> exists a, c = Ok a /\ k a = Ok b.
Proof.
  destruct c as [a|e]; simpl; intros H; [eauto | discriminate].
Qed.

Lemma Ok_inj {A : Type} (a b : A) : Ok a = Ok b -> a = b.
Proof. congruence. Qed.

Lemma for_loop_invariant {S : Type} (P : S -> Prop) (body : S -> result S) :
  (forall s s', P s -> body s = Ok s' -> P s') ->
  forall n s s', P s -> for_loop n body s = Ok s' -> P s'.
Proof.
  intros Hbody n; induction n as [|n IH]; simpl; intros s s' Hs Hrun.
  - injection Hrun as <-. exact Hs.
  - apply bind_Ok in Hrun as (s1 & H1 & H2). eauto.
Qed.

Lemma repeat_loop_invariant {S : Type} (P : S -> Prop) (body : S -> S) :
  (forall s, P s -> P (body s)) ->
  forall n s, P s -> P (repeat_loop n body s).
Proof.
  intros Hbody n; induction n as [|n IH]; simpl; auto.
Qed.

(** ** Arrays *)

Lemma update_length {A : Type} (arr : list A) (i : nat) (v : A) :
  List.length (JS.update arr i v) = List.length arr.
Proof.
  revert i; induction arr as [|h t IH]; intros [|i]; simpl; auto.
Qed.

Lemma set_length {A : Type} (arr : list A) (i : Z) (v : A) :
  List.length (JS.set arr i v) = List.length arr.
Proof.
  unfold JS.set. destruct (i <? 0); auto using update_length.
Qed.

Lemma splice_length {A : Type} (arr : list A) (start deleteCount : Z)
    (items : list A) :
  0 <= start ->
  let n := Z.of_nat (List.length arr) in
  Z.of_nat (List.length (JS.splice arr start deleteCount items)) =
  n - Z.min (Z.max deleteCount 0) (n - Z.min start n)
  + Z.of_nat (List.length items).
Proof.
  intros Hstart n. unfold JS.splice. fold n.
  destruct (Z.ltb_spec start 0) as [?|_]; [lia|].
  rewrite !length_app, length_firstn, length_skipn. lia.
Qed.

Lemma get_Some_bounds {A : Type} (arr : list A) (i : Z) (x : A) :
  JS.get arr i = Some x -> 0 <= i < Z.of_nat (List.length arr).
Proof.
  unfold JS.get. destruct (Z.ltb_spec i 0) as [?|Hi]; [discriminate|].
  intros H. assert (nth_error arr (Z.to_nat i) <> None) as Hn by congruence.
  apply nth_error_Some in Hn. lia.
Qed.

Lemma get_defined_bounds {A : Type} (arr : list A) (i : Z) (x : A) :
  JS.get_defined arr i = Ok x -> 0 <= i < Z.of_nat (List.length arr).
Proof.
  unfold JS.get_defined. destruct (JS.get arr i) eqn:E; [|discriminate].
  intros _. eauto using get_Some_bounds.
Qed.

Lemma get_in_bounds {A : Type} (arr : list A) (i : Z) :
  0 <= i < Z.of_nat (List.length arr) -> exists x, JS.get arr i = Some x.
Proof.
  intros Hi. unfold JS.get. destruct (Z.ltb_spec i 0) as [?|_]; [lia|].
  destruct (nth_error arr (Z.to_nat i)) eqn:E; [eauto|].
  apply nth_error_None in E. lia.
Qed.

Lemma Array_fill_Ok {A : Type} (n : option Z) (v : A) (l : list A) :
  JS.Array_fill n v = Ok l ->
  exists k, n = Some k /\ 0 <= k /\ Z.of_nat (List.length l) = k.
Proof.
  unfold JS.Array_fill. destruct n as [k|]; [|discriminate].
  destruct (Z.leb_spec 0 k) as [Hk|Hk]; cbn [andb]; [|discriminate].
  destruct (k <? 2 ^ 32); [|discriminate].
  intros [= <-]. exists k. rewrite repeat_length. repeat split; lia.
Qed.

(** ** Rows stay inside the buffer *)

Module UnifiedProps.
Import Unified Pred.

Arguments JS.splice : simpl never.
Arguments JS.set : simpl never.
Arguments JS.substring : simpl never.
Arguments JS.substring_from : simpl never.
Arguments JS.len : simpl never.
Arguments JS.get : simpl never.
Arguments JS.get_defined : simpl never.

(** Projections of updated records; a record is never normalised as a
    whole. *)
Ltac fields :=
  unfold rows_in_buffer, caret_row_in_buffer, anchor_row_in_buffer,
    no_selection, line_count in *;
  lazy beta iota zeta delta
    [caretRow caretCol highlightStartRow highlightStartCol codeLines
     currentlyHighlightedCode isSaved isEditorContextMenuOpen
     set_line splice_lines clearCurrentHighlightedCode
     set_caret set_caretRow set_caretCol set_highlightStart
     set_codeLines set_currentlyHighlightedCode set_isSaved
     set_isEditorContextMenuOpen option_map] in *.

(** Inversion of a computation that returned. *)
Ltac returned :=
  repeat match goal with
    | H : bind _ _ = Ok _ |- _ =>
        let H1 := fresh "E" in
        apply bind_Ok in H as (? & H1 & H); cbv beta in H
    | H : (let _ := _ in _) = Ok _ |- _ => cbv beta zeta in H
    | H : Ok _ = Ok _ |- _ => apply Ok_inj in H
    | H : Throw _ = Ok _ |- _ => discriminate H
    | H : line _ _ = Ok _ |- _ => apply get_defined_bounds in H
    | H : (if ?c then _ else _) = Ok _ |- _ => destruct c eqn:?
    | H : match ?n with Some _ => _ | None => _ end = Ok _ |- _ =>
        destruct n eqn:?
    | H : JS.Array_fill _ _ = Ok _ |- _ =>
        apply Array_fill_Ok in H as (? & ? & ? & ?)
    end.

Ltac branches :=
  repeat match goal with
    | |- context [if ?c then _ else _] => destruct c eqn:?
    | H : context [if ?c then _ else _] |- _ => destruct c eqn:?
    end.

Ltac lengths :=
  rewrite ?set_length in *;
  repeat (rewrite splice_length in * by lia);
  rewrite ?set_length in *.

Ltac rows :=
  returned; subst;
  repeat match goal with f : Frame |- _ => destruct f end;
  fields;
  repeat match goal with H : Some _ = Some _ |- _ => injection H as H end;
  branches; lengths;
  rewrite ?length_app in *; cbn [List.length] in *; try lia.

Lemma enter_step_rows f f' :
  rows_in_buffer f -> enter_step f = Ok f' -> rows_in_buffer f'.
Proof. unfold enter_step. intros Hf H. rows. Qed.

Lemma case_editor_enter_rows numTimes f f' :
  rows_in_buffer f -> case_editor_enter numTimes f = Ok f' -> rows_in_buffer f'.
Proof.
  unfold case_editor_enter. intros Hf H.
  destruct (negb (highlightStartRow (set_isSaved f false) =? -1)) eqn:Hsel.
  - rows.
  - revert H. apply for_loop_invariant; [apply enter_step_rows | rows].
Qed.

Lemma type_delete_selection_rows f f' :
  rows_in_buffer f -> type_delete_selection f = Ok f' ->
  rows_in_buffer f' /\ no_selection f'.
Proof.
  unfold type_delete_selection, no_selection. intros Hf H.
  destruct (negb (highlightStartRow f =? -1)) eqn:Hsel; rows.
Qed.

Lemma type_remaining_lines_rows restOfLine rest : forall f,
  rows_in_buffer f -> no_selection f ->
  rows_in_buffer (type_remaining_lines restOfLine rest f)
  /\ no_selection (type_remaining_lines restOfLine rest f).
Proof.
  unfold no_selection.
  induction rest as [|x rest IH]; intros f Hf Hsel; [auto|].
  cbn [type_remaining_lines]. destruct rest as [|y rest].
  - rows.
  - apply IH; rows.
Qed.

Lemma type_step_rows value lines f f' :
  rows_in_buffer f /\ no_selection f -> type_step value lines f = Ok f' ->
  rows_in_buffer f' /\ no_selection f'.
Proof.
  unfold type_step. intros [Hf Hsel] H.
  destruct lines as [|first [|second rest]].
  - unfold no_selection in *. rows.
  - unfold no_selection in *. rows.
  - returned. subst f'. apply type_remaining_lines_rows.
    + rows.
    + unfold no_selection in *. rows.
Qed.

Lemma case_editor_type_rows numTimes value f f' :
  rows_in_buffer f -> case_editor_type numTimes value f = Ok f' ->
  rows_in_buffer f'.
Proof.
  unfold case_editor_type. intros Hf H. returned.
  apply type_delete_selection_rows in E; [|rows].
  eapply (for_loop_invariant (fun f => rows_in_buffer f /\ no_selection f)) in H;
    [apply H | apply type_step_rows | exact E].
Qed.

Lemma clear_rows f :
  caret_row_in_buffer f -> rows_in_buffer (clearCurrentHighlightedCode f).
Proof. intros Hf. rows. Qed.

Lemma arrow_down_step_rows f :
  caret_row_in_buffer f -> caret_row_in_buffer (arrow_down_step f).
Proof.
  unfold arrow_down_step. intros Hf.
  destruct (caretRow f <? line_count f - 1) eqn:E; rows.
Qed.

Lemma arrow_up_step_rows f :
  caret_row_in_buffer f -> caret_row_in_buffer (arrow_up_step f).
Proof.
  unfold arrow_up_step. intros Hf. destruct (caretRow f >? 0) eqn:E; rows.
Qed.

Lemma arrow_right_step_rows currentLineLength f :
  caret_row_in_buffer f ->
  caret_row_in_buffer (arrow_right_step currentLineLength f).
Proof.
  unfold arrow_right_step. intros Hf.
  destruct (caretCol f <? currentLineLength); [rows|].
  destruct (caretRow f <? line_count f - 1) eqn:E; rows.
Qed.

Lemma arrow_left_step_rows f f' :
  caret_row_in_buffer f -> arrow_left_step f = Ok f' -> caret_row_in_buffer f'.
Proof. unfold arrow_left_step. intros Hf H. rows. Qed.

Lemma command_left_step_rows f :
  caret_row_in_buffer f -> caret_row_in_buffer (command_left_step f).
Proof.
  unfold command_left_step. intros Hf. destruct (caretCol f >? 0); rows.
Qed.

Lemma command_right_step_rows f f' :
  caret_row_in_buffer f -> command_right_step f = Ok f' -> caret_row_in_buffer f'.
Proof. unfold command_right_step. intros Hf H. rows. Qed.

Lemma delete_range_rows startRow endRow startCol endCol f f' :
  startRow <= endRow ->
  delete_range startRow endRow startCol endCol f = Ok f' -> rows_in_buffer f'.
Proof. unfold delete_range. intros Hle H. rows. Qed.

Lemma backspace_step_rows f f' :
  rows_in_buffer f /\ no_selection f -> backspace_step f = Ok f' ->
  rows_in_buffer f' /\ no_selection f'.
Proof. unfold backspace_step, no_selection. intros [Hf Hsel] H. rows. Qed.

Lemma case_editor_backspace_rows numTimes f f' :
  rows_in_buffer f -> case_editor_backspace numTimes f = Ok f' ->
  rows_in_buffer f'.
Proof.
  unfold case_editor_backspace. intros Hf H.
  destruct (negb (highlightStartRow (set_isSaved f false) =? -1)) eqn:Hsel.
  - apply delete_range_rows in H; [exact H | lia].
  - eapply (for_loop_invariant (fun f => rows_in_buffer f /\ no_selection f)) in H;
      [apply H | apply backspace_step_rows | unfold no_selection; rows].
Qed.

Lemma insert_step_rows text f f' :
  rows_in_buffer f -> insert_step text f = Ok f' -> rows_in_buffer f'.
Proof. unfold insert_step. intros Hf H. rows. Qed.

Lemma case_editor_space_rows numTimes f f' :
  rows_in_buffer f -> case_editor_space numTimes f = Ok f' -> rows_in_buffer f'.
Proof.
  unfold case_editor_space. intros Hf H. returned.
  - apply delete_range_rows in E; [|lia].
    revert H. apply for_loop_invariant; [apply insert_step_rows | exact E].
  - subst. revert H. apply for_loop_invariant; [apply insert_step_rows | rows].
Qed.

Lemma case_editor_tab_rows numTimes f f' :
  rows_in_buffer f -> case_editor_tab numTimes f = Ok f' -> rows_in_buffer f'.
Proof. apply for_loop_invariant, insert_step_rows. Qed.

Lemma start_selection_rows f :
  rows_in_buffer f -> rows_in_buffer (start_selection f).
Proof.
  unfold start_selection. intros Hf.
  destruct (highlightStartRow f =? -1) eqn:E; rows.
Qed.

Lemma shift_arrow_left_step_rows f f' :
  rows_in_buffer f -> shift_arrow_left_step f = Ok f' -> rows_in_buffer f'.
Proof. unfold shift_arrow_left_step. intros Hf H. rows. Qed.

Lemma shift_arrow_right_step_rows f f' :
  rows_in_buffer f -> shift_arrow_right_step f = Ok f' -> rows_in_buffer f'.
Proof. unfold shift_arrow_right_step. intros Hf H. rows. Qed.

Lemma shift_arrow_down_step_rows f f' :
  rows_in_buffer f -> shift_arrow_down_step f = Ok f' -> rows_in_buffer f'.
Proof. unfold shift_arrow_down_step. intros Hf H. rows. Qed.

Lemma shift_arrow_up_step_rows f f' :
  rows_in_buffer f -> shift_arrow_up_step f = Ok f' -> rows_in_buffer f'.
Proof. unfold shift_arrow_up_step. intros Hf H. rows. Qed.

Lemma case_editor_shift_arrow_rows step numTimes f f' :
  (forall f f', rows_in_buffer f -> step f = Ok f' -> rows_in_buffer f') ->
  rows_in_buffer f -> case_editor_shift_arrow step numTimes f = Ok f' ->
  rows_in_buffer f'.
Proof.
  unfold case_editor_shift_arrow. intros Hstep Hf H. returned.
  apply (for_loop_invariant _ _ Hstep) in E; [|apply start_selection_rows, Hf].
  subst f'. rows.
Qed.

(** Every case of the [switch] keeps the caret's row, and the anchor's row
    when there is one, inside the buffer. *)
Lemma switch_rows numTimes currentLineLength action f f' :
  rows_in_buffer f -> switch numTimes currentLineLength action f = Ok f' ->
  rows_in_buffer f'.
Proof.
  unfold switch. intros Hf H.
  destruct (action_name action).
  - rows.
  - rows.
  - eauto using case_editor_enter_rows.
  - eauto using case_editor_type_rows.
  - injection H as <-. apply clear_rows, repeat_loop_invariant;
      [apply arrow_down_step_rows | apply Hf].
  - injection H as <-. apply clear_rows, repeat_loop_invariant;
      [apply arrow_up_step_rows | apply Hf].
  - injection H as <-. apply clear_rows, repeat_loop_invariant;
      [apply arrow_right_step_rows | apply Hf].
  - unfold case_editor_arrow_left in H. returned. subst f'.
    apply clear_rows. revert E.
    apply for_loop_invariant; [apply arrow_left_step_rows | apply Hf].
  - eauto using case_editor_backspace_rows.
  - eauto using case_editor_space_rows.
  - eauto using case_editor_tab_rows.
  - injection H as <-. apply clear_rows, repeat_loop_invariant;
      [apply command_left_step_rows | apply Hf].
  - unfold case_editor_command_right in H. returned. subst f'.
    apply clear_rows. revert E.
    apply for_loop_invariant; [apply command_right_step_rows | apply Hf].
  - eauto using case_editor_shift_arrow_rows, shift_arrow_left_step_rows.
  - eauto using case_editor_shift_arrow_rows, shift_arrow_right_step_rows.
  - eauto using case_editor_shift_arrow_rows, shift_arrow_down_step_rows.
  - eauto using case_editor_shift_arrow_rows, shift_arrow_up_step_rows.
  - rows.
  - rows.
Qed.

(** ** The heap: snapshots are never the live buffer *)

Lemma deref_store_same h r arr :
  (r < List.length h)%nat -> Heap.deref (Heap.store h r arr) r = arr.
Proof.
  unfold Heap.deref, Heap.store. revert r.
  induction h as [|x h IH]; intros [|r] Hr; simpl in *; try lia; auto.
  apply IH. lia.
Qed.

Lemma deref_store_other h r r' arr :
  r <> r' -> Heap.deref (Heap.store h r arr) r' = Heap.deref h r'.
Proof.
  unfold Heap.deref, Heap.store. revert r r'.
  induction h as [|x h IH]; intros [|r] [|r'] Hr; simpl; auto; try congruence.
Qed.

Lemma store_length h r arr :
  List.length (Heap.store h r arr) = List.length h.
Proof. apply update_length. Qed.

Section Engine.
Context {types : ActionTypes}.

Lemma record_history_heap_length ed f action :
  List.length (heap (record_history ed f action))
  = S (S (List.length (heap ed))).
Proof.
  unfold record_history. simpl.
  rewrite !length_app, store_length. simpl. lia.
Qed.

(** Recording a step leaves every array other than the live buffer as
    it was. *)
Lemma record_history_deref ed f action r :
  (r < List.length (heap ed))%nat -> r <> codeLines (this ed) ->
  Heap.deref (heap (record_history ed f action)) r = Heap.deref (heap ed) r.
Proof.
  intros Hr Hne. unfold record_history. cbn [heap Heap.alloc fst snd].
  unfold Heap.deref.
  rewrite !app_nth1 by (rewrite ?length_app, store_length; simpl; lia).
  apply deref_store_other. congruence.
Qed.

Lemma record_history_frame ed f action :
  (codeLines (this ed) < List.length (heap ed))%nat ->
  frame (record_history ed f action) = f.
Proof.
  intros Hr. unfold frame, record_history. cbn [heap this Heap.alloc fst snd].
  unfold Heap.deref.
  rewrite !app_nth1 by (rewrite ?length_app, store_length; simpl; lia).
  cbn [codeLines set_codeLines].
  fold (Heap.deref (Heap.store (heap ed) (codeLines (this ed)) (codeLines f))
          (codeLines (this ed))).
  rewrite deref_store_same by exact Hr.
  destruct f; reflexivity.
Qed.

Lemma record_history_codeLinesHistory ed f action :
  codeLinesHistory (record_history ed f action)
  = codeLinesHistory ed ++ [List.length (heap ed)].
Proof.
  unfold record_history. cbn [codeLinesHistory Heap.alloc fst snd].
  now rewrite store_length.
Qed.

Lemma record_history_highlightHistory ed f action :
  highlightHistory (record_history ed f action)
  = highlightHistory ed ++ [S (List.length (heap ed))].
Proof.
  unfold record_history. cbn [highlightHistory Heap.alloc fst snd].
  rewrite length_app, store_length. cbn [List.length].
  now rewrite Nat.add_1_r.
Qed.

Lemma record_history_live ed f action :
  codeLines (this (record_history ed f action)) = codeLines (this ed).
Proof. reflexivity. Qed.

Lemma record_history_separated ed f action :
  heap_separated ed -> heap_separated (record_history ed f action).
Proof.
  intros (Hlive & Hcode & Hhl).
  unfold heap_separated, snapshot_of.
  rewrite record_history_codeLinesHistory, record_history_highlightHistory,
    record_history_heap_length, record_history_live.
  split; [lia|].
  split; apply Forall_app; split.
  - eapply Forall_impl; [|exact Hcode]. intros r [Hr Hne]. split; [lia|exact Hne].
  - constructor; [|constructor]. lia.
  - eapply Forall_impl; [|exact Hhl]. intros r [Hr Hne]. split; [lia|exact Hne].
  - constructor; [|constructor]. lia.
Qed.

Lemma applyAction_returned ed action ed' :
  applyAction ed action = Ok ed' ->
  exists numTimes currentLineLength f,
    switch numTimes currentLineLength action
      (set_currentlyHighlightedCode (frame ed) "") = Ok f
    /\ ed' = record_history ed f action.
Proof.
  unfold applyAction. intros H. apply bind_Ok in H as (f & Hf & H).
  injection H as <-. eauto.
Qed.

Lemma applyAction_invariant ed action ed' :
  invariant ed -> applyAction ed action = Ok ed' -> invariant ed'.
Proof.
  intros [Hsep Hrows] H.
  apply applyAction_returned in H as (numTimes & len & f & Hf & ->).
  split; [apply record_history_separated, Hsep|].
  rewrite record_history_frame by apply Hsep.
  eapply switch_rows; [|exact Hf]. revert Hrows. clear. intros H. rows.
Qed.

Lemma applyActions_invariant actions : forall ed ed',
  invariant ed -> applyActions ed actions = Ok ed' -> invariant ed'.
Proof.
  induction actions as [|a actions IH]; simpl; intros ed ed' Hinv H.
  - injection H as <-. exact Hinv.
  - apply bind_Ok in H as (ed1 & H1 & H2).
    eauto using applyAction_invariant.
Qed.

Lemma constructor_invariant initialCodeLines :
  forall ed, constructor initialCodeLines None = Ok ed -> invariant ed.
Proof.
  intros ed H. unfold constructor in H.
  destruct initialCodeLines as [|l ls]; cbn in H; injection H as <-.
  - repeat split; cbn; try lia; repeat constructor; cbn; lia.
  - repeat split; cbn; try lia; repeat constructor; cbn; lia.
Qed.

Lemma constructor_actions initialCodeLines actions :
  constructor initialCodeLines (Some actions)
  = (ed <- constructor initialCodeLines None ;; applyActions ed actions).
Proof.
  unfold constructor.
  destruct (List.length initialCodeLines =? 0)%nat; reflexivity.
Qed.

Lemma applyActions_app actions1 : forall ed actions2,
  applyActions ed (actions1 ++ actions2)
  = (ed1 <- applyActions ed actions1 ;; applyActions ed1 actions2).
Proof.
  induction actions1 as [|a actions1 IH]; intros ed actions2; simpl;
    [reflexivity|].
  destruct (applyAction ed a) as [ed1|e]; simpl; [apply IH | reflexivity].
Qed.

(** Further calls on a reachable state lead to reachable states. *)
Lemma reachable_applyActions ed actions ed' :
  reachable ed -> applyActions ed actions = Ok ed' -> reachable ed'.
Proof.
  intros (initialCodeLines & actions0 & H0) H.
  exists initialCodeLines, (actions0 ++ actions).
  rewrite constructor_actions in *.
  apply bind_Ok in H0 as (ed0 & Hinit & Hrun). rewrite Hinit. cbn [bind].
  rewrite applyActions_app, Hrun. exact H.
Qed.

Lemma reachable_invariant ed : reachable ed -> invariant ed.
Proof.
  intros (initialCodeLines & actions & H).
  rewrite constructor_actions in H. apply bind_Ok in H as (ed0 & H0 & H).
  eauto using applyActions_invariant, constructor_invariant.
Qed.

End Engine.

(** ** Buffer and caret row *)

(** C2. In every reachable state the line buffer holds at least one
    line. *)
Theorem buffer_never_empty {types : ActionTypes} (ed : VirtualEditor) :
  reachable ed -> (1 <= List.length (getCodeLines ed))%nat.
Proof.
  intros H. apply reachable_invariant in H as [_ [Hrow _]].
  unfold caret_row_in_buffer, line_count, frame in Hrow.
  cbn [codeLines set_codeLines] in Hrow. unfold getCodeLines. lia.
Qed.

Lemma buffer_never_empty_witness :
  exists ed,
    constructor (types := SpecTypes.types) []
      (Some Trace.short_then_long_then_up) = Ok ed
    /\ (1 <= List.length (getCodeLines ed))%nat.
Proof.
  eexists. split; [vm_compute; reflexivity|].
  apply (buffer_never_empty (types := SpecTypes.types)).
  exists [], Trace.short_then_long_then_up. vm_compute. reflexivity.
Defined.

(** C1, as amended. In every reachable state the caret's row is a row of
    the buffer: [0 <= caret.row < buffer.length]. *)
Theorem caret_row_in_bounds {types : ActionTypes} (ed : VirtualEditor) :
  reachable ed ->
  0 <= row (caret ed) < Z.of_nat (List.length (getCodeLines ed)).
Proof.
  intros H. apply reachable_invariant in H as [_ [Hrow _]]. exact Hrow.
Qed.

Lemma caret_row_in_bounds_witness :
  exists ed,
    constructor (types := SpecTypes.types) []
      (Some Trace.short_then_long_then_up) = Ok ed
    /\ 0 <= row (caret ed) < Z.of_nat (List.length (getCodeLines ed)).
Proof.
  eexists. split; [vm_compute; reflexivity|].
  apply (caret_row_in_bounds (types := SpecTypes.types)).
  exists [], Trace.short_then_long_then_up. vm_compute. reflexivity.
Defined.

(** C1, as stated, fails: after typing "short", a line break and a longer
    line, one plain arrow-up leaves the caret at column 21 of the
    5-character line "short". *)
Lemma caret_column_bound_counterexample :
  exists ed,
    constructor (types := SpecTypes.types) []
      (Some Trace.short_then_long_then_up) = Ok ed
    /\ getCodeLines ed = ["short"; "much longer line here"]
    /\ caret ed = mkPos 0 21
    /\ ~ caret_in_bounds (frame ed).
Proof.
  eexists. split; [vm_compute; reflexivity|].
  split; [reflexivity|]. split; [reflexivity|].
  intros [_ (l & Hl & Hcol)]. vm_compute in Hl. injection Hl as <-.
  vm_compute in Hcol. destruct Hcol as [_ Hcol]. apply Hcol. reflexivity.
Qed.

(** ** History *)

(** A log entry read through a heap that agrees on the log's arrays, after
    any number of entries have been appended. *)
Lemma history_at_stable h h' history extra actionIndex text :
  (forall r, In r history -> Heap.deref h' r = Heap.deref h r) ->
  history_at h history actionIndex = Ok text ->
  history_at h' (history ++ extra) actionIndex = Ok text.
Proof.
  intros Hsame. unfold history_at.
  destruct (actionIndex >? Z.of_nat (List.length history) - 1) eqn:Hhi;
    [discriminate|].
  intros H. apply bind_Ok in H as (r & Hr & H).
  pose proof (get_defined_bounds _ _ _ Hr) as Hi.
  rewrite length_app.
  destruct (actionIndex >? Z.of_nat (List.length history + List.length extra) - 1)
    eqn:Hhi'; [lia|].
  unfold JS.get_defined, JS.get in *.
  destruct (actionIndex <? 0); [discriminate|].
  rewrite nth_error_app1 by lia.
  destruct (nth_error history (Z.to_nat actionIndex)) as [r'|] eqn:Hnth;
    [|discriminate].
  apply Ok_inj in Hr. subst r'. cbn [bind].
  rewrite Hsame by (eapply nth_error_In; eauto). exact H.
Qed.

Section History.
Context {types : ActionTypes}.

Lemma applyAction_history ed action ed' actionIndex :
  heap_separated ed -> applyAction ed action = Ok ed' ->
  (forall code, getCodeAtActionIndex ed actionIndex = Ok code ->
                getCodeAtActionIndex ed' actionIndex = Ok code)
  /\ (forall text, getHighlightedCodeAtActionIndex ed actionIndex = Ok text ->
                   getHighlightedCodeAtActionIndex ed' actionIndex = Ok text).
Proof.
  intros (Hlive & Hcode & Hhl) H.
  apply applyAction_returned in H as (numTimes & len & f & _ & ->).
  unfold getCodeAtActionIndex, getHighlightedCodeAtActionIndex.
  rewrite record_history_codeLinesHistory, record_history_highlightHistory.
  split; intros text; apply history_at_stable; intros r Hr.
  - rewrite Forall_forall in Hcode. destruct (Hcode r Hr).
    now apply record_history_deref.
  - rewrite Forall_forall in Hhl. destruct (Hhl r Hr).
    now apply record_history_deref.
Qed.

(** C3. Once the entry of step [i] is recorded, no sequence of later
    actions changes what [getCodeAtActionIndex(i)] and
    [getHighlightedCodeAtActionIndex(i)] return. *)
Theorem history_is_immutable (ed : VirtualEditor) (actions : list IAction)
    (ed' : VirtualEditor) (i : Z) :
  reachable ed -> applyActions ed actions = Ok ed' ->
  (forall code, getCodeAtActionIndex ed i = Ok code ->
                getCodeAtActionIndex ed' i = Ok code)
  /\ (forall text, getHighlightedCodeAtActionIndex ed i = Ok text ->
                   getHighlightedCodeAtActionIndex ed' i = Ok text).
Proof.
  intros Hreach. apply reachable_invariant in Hreach. revert ed Hreach.
  induction actions as [|a actions IH]; simpl; intros ed Hinv H.
  - apply Ok_inj in H. subst ed'. auto.
  - apply bind_Ok in H as (ed1 & H1 & H).
    destruct (applyAction_history ed a ed1 i (proj1 Hinv) H1) as [Hc Hh].
    destruct (IH ed1 (applyAction_invariant _ _ _ Hinv H1) H) as [Hc' Hh'].
    auto.
Qed.

End History.

Lemma history_is_immutable_witness :
  exists ed ed',
    constructor (types := SpecTypes.types) []
      (Some [Trace.type "abcdef"; Trace.key "shift+arrow-left" "3"]) = Ok ed
    /\ applyActions (types := SpecTypes.types) ed
         [Trace.key "backspace" "1"; Trace.type "123"] = Ok ed'
    /\ getCodeAtActionIndex ed' 2 = Ok "abcdef"
    /\ getHighlightedCodeAtActionIndex ed' 2 = Ok "def".
Proof.
  eexists. eexists. split; [vm_compute; reflexivity|].
  match goal with
  | |- applyActions ?ed _ = _ /\ _ =>
      assert (reachable (types := SpecTypes.types) ed) as Hreach
        by (exists [], [Trace.type "abcdef"; Trace.key "shift+arrow-left" "3"];
            vm_compute; reflexivity)
  end.
  split; [vm_compute; reflexivity|].
  match goal with
  | Hreach : reachable ?ed |- getCodeAtActionIndex ?ed' _ = _ /\ _ =>
      assert (applyActions (types := SpecTypes.types) ed
                [Trace.key "backspace" "1"; Trace.type "123"] = Ok ed') as Hrun
        by (vm_compute; reflexivity);
      destruct (history_is_immutable ed _ ed' 2 Hreach Hrun)
        as [Hcode Hhighlight]
  end.
  split; [apply Hcode | apply Hhighlight]; vm_compute; reflexivity.
Defined.

(** ** The highlighted-text cache *)

Ltac cache :=
  unfold highlight_empty in *; returned; subst;
  repeat match goal with f : Frame |- _ => destruct f end;
  fields; branches; auto.

Lemma enter_step_cache f f' :
  highlight_empty f -> enter_step f = Ok f' -> highlight_empty f'.
Proof. unfold enter_step. intros Hf H. cache. Qed.

Lemma type_remaining_lines_cache restOfLine rest : forall f,
  highlight_empty f -> highlight_empty (type_remaining_lines restOfLine rest f).
Proof.
  induction rest as [|x rest IH]; intros f Hf; [exact Hf|].
  cbn [type_remaining_lines]. destruct rest as [|y rest]; [cache|].
  apply IH. cache.
Qed.

Lemma type_step_cache value lines f f' :
  highlight_empty f -> type_step value lines f = Ok f' -> highlight_empty f'.
Proof.
  unfold type_step. intros Hf H. destruct lines as [|first [|second rest]].
  - cache.
  - cache.
  - returned. subst f'. apply type_remaining_lines_cache. cache.
Qed.

Lemma arrow_left_step_cache f f' :
  highlight_empty f -> arrow_left_step f = Ok f' -> highlight_empty f'.
Proof. unfold arrow_left_step. intros Hf H. cache. Qed.

Lemma backspace_step_cache f f' :
  highlight_empty f -> backspace_step f = Ok f' -> highlight_empty f'.
Proof. unfold backspace_step. intros Hf H. cache. Qed.

Lemma insert_step_cache text f f' :
  highlight_empty f -> insert_step text f = Ok f' -> highlight_empty f'.
Proof. unfold insert_step. intros Hf H. cache. Qed.

Lemma command_right_step_cache f f' :
  highlight_empty f -> command_right_step f = Ok f' -> highlight_empty f'.
Proof. unfold command_right_step. intros Hf H. cache. Qed.

Lemma delete_range_cache startRow endRow startCol endCol f f' :
  delete_range startRow endRow startCol endCol f = Ok f' -> highlight_empty f'.
Proof. unfold delete_range. intros H. cache. Qed.

(** Outside the four shift+arrow cases, the [switch] leaves the cache
    empty when it finds it empty. *)
Lemma switch_cache numTimes currentLineLength action f f' :
  is_shift_arrow (action_name action) = false ->
  highlight_empty f ->
  switch numTimes currentLineLength action f = Ok f' ->
  highlight_empty f'.
Proof.
  unfold switch. intros Hkind Hf H.
  destruct (action_name action); try discriminate Hkind.
  - cache.
  - cache.
  - unfold case_editor_enter in H.
    destruct (negb (highlightStartRow (set_isSaved f false) =? -1)); [cache|].
    revert H. apply for_loop_invariant; [apply enter_step_cache | cache].
  - unfold case_editor_type, type_delete_selection in H.
    apply bind_Ok in H as (f1 & H1 & H).
    revert H. apply for_loop_invariant; [apply type_step_cache | cache].
  - cache.
  - cache.
  - cache.
  - unfold case_editor_arrow_left in H. cache.
  - unfold case_editor_backspace in H.
    destruct (negb (highlightStartRow (set_isSaved f false) =? -1)).
    + eauto using delete_range_cache.
    + revert H. apply for_loop_invariant; [apply backspace_step_cache | cache].
  - unfold case_editor_space in H. apply bind_Ok in H as (f1 & H1 & H).
    revert H. apply for_loop_invariant; [apply insert_step_cache|].
    destruct (negb (highlightStartRow (set_isSaved f false) =? -1)).
    + eauto using delete_range_cache.
    + cache.
  - revert H. apply for_loop_invariant; [apply insert_step_cache | exact Hf].
  - cache.
  - unfold case_editor_command_right in H. cache.
  - cache.
  - cache.
Qed.

Section Cache.
Context {types : ActionTypes}.

(** Induction over the reachable states. *)
Lemma reachable_induction (P : VirtualEditor -> Prop) :
  (forall initialCodeLines ed,
      constructor initialCodeLines None = Ok ed -> P ed) ->
  (forall ed action ed',
      invariant ed -> P ed -> applyAction ed action = Ok ed' -> P ed') ->
  forall ed, reachable ed -> P ed.
Proof.
  intros Hinit Hstep ed (initialCodeLines & actions & H).
  rewrite constructor_actions in H. apply bind_Ok in H as (ed0 & H0 & H).
  pose proof (constructor_invariant _ _ H0) as Hinv.
  apply Hinit in H0. clear Hinit initialCodeLines.
  revert ed0 Hinv H0 H.
  induction actions as [|a actions IH]; simpl; intros ed0 Hinv H0 H.
  - apply Ok_inj in H. now subst.
  - apply bind_Ok in H as (ed1 & H1 & H).
    eapply IH; [| |exact H]; eauto using applyAction_invariant.
Qed.

Lemma record_history_last_highlight ed f action :
  Heap.deref (heap (record_history ed f action)) (S (List.length (heap ed)))
  = [currentlyHighlightedCode f].
Proof.
  unfold record_history, Heap.deref. cbn [heap Heap.alloc fst snd].
  rewrite app_nth2; rewrite length_app, store_length; cbn [List.length];
    [|lia].
  replace (S (List.length (heap ed)) - (List.length (heap ed) + 1))%nat
    with O by lia.
  cbn [nth].
  destruct (String.eqb_spec (currentlyHighlightedCode f) "") as [->|_];
    reflexivity.
Qed.

Lemma record_history_cache ed f action :
  List.length (highlightHistory ed) = List.length (actionsApplied ed) ->
  cache_recorded (record_history ed f action).
Proof.
  intros Hlen. unfold cache_recorded, getHighlightedCodeAtActionIndex.
  rewrite record_history_highlightHistory.
  assert (actionsApplied (record_history ed f action)
          = actionsApplied ed ++ [action]) as -> by reflexivity.
  assert (currentlyHighlightedCode (this (record_history ed f action))
          = currentlyHighlightedCode f) as -> by reflexivity.
  rewrite !length_app, Hlen. cbn [List.length]. split; [reflexivity|].
  unfold history_at. rewrite length_app, Hlen. cbn [List.length].
  destruct (Z.of_nat (List.length (actionsApplied ed) + 1) - 1
            >? Z.of_nat (List.length (actionsApplied ed) + 1) - 1) eqn:E;
    [lia|].
  unfold JS.get_defined, JS.get.
  destruct (Z.of_nat (List.length (actionsApplied ed) + 1) - 1 <? 0) eqn:E';
    [lia|].
  rewrite nth_error_app2 by lia.
  replace (Z.to_nat (Z.of_nat (List.length (actionsApplied ed) + 1) - 1)
           - List.length (highlightHistory ed))%nat with O by lia.
  cbn [nth_error bind]. rewrite record_history_last_highlight. reflexivity.
Qed.

(** C10. In a reachable state whose most recent action is not a
    shift+arrow, the current highlighted text is empty and so is the
    highlight snapshot recorded for that step. *)
Theorem highlight_only_after_shift_arrow (ed : VirtualEditor) :
  reachable ed ->
  is_shift_arrow (action_name (last_action ed)) = false ->
  getCurrentHighlightedCode ed = ""
  /\ getHighlightedCodeAtActionIndex ed (last_index ed) = Ok "".
Proof.
  intros Hreach.
  enough (cache_recorded ed
          /\ (is_shift_arrow (action_name (last_action ed)) = false ->
              getCurrentHighlightedCode ed = "")) as [[_ Hrec] Hempty].
  { intros Hkind. split; [auto|].
    unfold last_index. rewrite Hrec.
    f_equal. now apply Hempty. }
  revert ed Hreach. apply reachable_induction.
  - intros initialCodeLines ed H.
    destruct initialCodeLines as [|l ls]; apply Ok_inj in H; subst ed;
      (split; [split|intros _]); reflexivity.
  - intros ed action ed' _ [[Hlen _] _] H.
    apply applyAction_returned in H as (numTimes & len & f & Hf & ->).
    split; [now apply record_history_cache|].
    unfold last_action, getCurrentHighlightedCode.
    assert (actionsApplied (record_history ed f action)
            = actionsApplied ed ++ [action]) as -> by reflexivity.
    rewrite last_last. intros Hkind.
    eapply switch_cache in Hf; [exact Hf | exact Hkind | reflexivity].
Qed.

End Cache.

Lemma highlight_only_after_shift_arrow_witness :
  exists ed,
    constructor (types := SpecTypes.types) []
      (Some [Trace.type "abcdef"; Trace.key "shift+arrow-left" "3";
             Trace.key "save" "1"]) = Ok ed
    /\ highlightStartRow (this ed) = 0
    /\ getCurrentHighlightedCode ed = ""
    /\ getHighlightedCodeAtActionIndex ed (last_index ed) = Ok "".
Proof.
  eexists. split; [vm_compute; reflexivity|]. split; [reflexivity|].
  apply (highlight_only_after_shift_arrow (types := SpecTypes.types)).
  - exists [], [Trace.type "abcdef"; Trace.key "shift+arrow-left" "3";
                Trace.key "save" "1"].
    vm_compute. reflexivity.
  - vm_compute. reflexivity.
Defined.

(** ** Behaviour of single actions on concrete traces *)

(** Conjunctions of closed equations, settled by evaluation from left to
    right. *)
Ltac evaluate :=
  repeat match goal with
    | |- _ /\ _ => split; [vm_compute; reflexivity|]
    end;
  vm_compute; reflexivity.

(** C5. With the buffer ["ab"; "cd"] and the caret at the start of the
    second line, one plain arrow-left puts the caret at column 1 of "ab",
    one short of the end of that line (column 2). *)
Lemma arrow_left_wraps_before_line_end :
  exists ed,
    constructor (types := SpecTypes.types) ["ab"; "cd"]
      (Some [Trace.key "arrow-down" "1"; Trace.key "arrow-left" "1"]) = Ok ed
    /\ getCodeLines ed = ["ab"; "cd"]
    /\ caret ed = mkPos 0 1
    /\ JS.len "ab" = 2.
Proof.
  eexists. evaluate.
Qed.

(** The older engine does the same. *)
Lemma older_arrow_left_wraps_before_line_end :
  exists ed,
    Legacy.constructor (types := SpecTypes.types) ["ab"; "cd"]
      (Some [mkAction "arrow-down" "1"; mkAction "arrow-left" "1"]) = Ok ed
    /\ Legacy.getCurrentCaretPosition ed = Legacy.mkPosition 0 1.
Proof.
  eexists. evaluate.
Qed.

(** In general: from column 0 of a row below the first, the plain
    arrow-left step lands one column before the end of the previous line. *)
Lemma arrow_left_step_wrap (f : Frame) (previous : string) :
  caretCol f = 0 -> 0 < caretRow f ->
  JS.get (codeLines f) (caretRow f - 1) = Some previous ->
  arrow_left_step f
  = Ok (set_caret f (caretRow f - 1) (JS.len previous - 1)).
Proof.
  intros Hcol Hrow Hprevious. unfold arrow_left_step, line, JS.get_defined.
  rewrite Hcol. cbn [Z.gtb Z.compare].
  destruct (Z.gtb_spec (caretRow f) 0) as [_|]; [|lia].
  cbn [caretRow codeLines set_caretRow]. rewrite Hprevious.
  destruct f. reflexivity.
Qed.

(** The selection-extending sibling does reach the end of the line. *)
Lemma shift_arrow_left_wraps_to_line_end :
  exists ed,
    constructor (types := SpecTypes.types) ["ab"; "cd"]
      (Some [Trace.key "arrow-down" "1"; Trace.key "shift+arrow-left" "1"])
    = Ok ed
    /\ caret ed = mkPos 0 2.
Proof.
  eexists. evaluate.
Qed.

(** C6. With "abcdef" and the last three characters selected backwards
    from the end of the line, a space deletes nothing and is appended at
    the anchor: the buffer becomes "abcdef " and the caret column 7,
    where deleting the selection first would give "abc " and column 4. *)
Lemma space_keeps_single_line_selection :
  exists ed0 ed,
    constructor (types := SpecTypes.types) ["abcdef"]
      (Some [Trace.key "command-right" "1"; Trace.key "shift+arrow-left" "3"])
    = Ok ed0
    /\ getCurrentHighlightedCode ed0 = "def"
    /\ applyAction (types := SpecTypes.types) ed0 (Trace.key "space" "1") = Ok ed
    /\ getCodeLines ed = ["abcdef "]
    /\ caret ed = mkPos 0 7.
Proof.
  eexists. eexists. evaluate.
Qed.

(** The older engine does the same. *)
Lemma older_space_keeps_single_line_selection :
  exists ed,
    Legacy.constructor (types := SpecTypes.types) ["abcdef"]
      (Some [mkAction "command-right" "1"; mkAction "shift+arrow-left" "3";
             mkAction "space" "1"]) = Ok ed
    /\ Legacy.getCodeLines ed = ["abcdef "]
    /\ Legacy.getCurrentCaretPosition ed = Legacy.mkPosition 0 7.
Proof.
  eexists. evaluate.
Qed.

(** Backspace, on the same selection, does delete it. *)
Lemma backspace_deletes_single_line_selection :
  exists ed,
    constructor (types := SpecTypes.types) ["abcdef"]
      (Some [Trace.key "command-right" "1"; Trace.key "shift+arrow-left" "3";
             Trace.key "backspace" "1"]) = Ok ed
    /\ getCodeLines ed = ["abc"]
    /\ caret ed = mkPos 0 3.
Proof.
  eexists. evaluate.
Qed.

(** C7. After a save, inserting a tab changes the buffer and leaves the
    saved flag set. *)
Lemma tab_keeps_saved_flag :
  exists ed,
    constructor (types := SpecTypes.types) ["a"]
      (Some [Trace.key "save" "1"; Trace.key "tab" "1"]) = Ok ed
    /\ getCodeLines ed = [(JS.tab ++ "a")%string]
    /\ getIsSaved ed = true.
Proof.
  eexists. evaluate.
Qed.

(** In general: the tab case never assigns the flag. *)
Lemma case_editor_tab_keeps_isSaved (numTimes : option Z) (f f' : Frame) :
  case_editor_tab numTimes f = Ok f' -> isSaved f' = isSaved f.
Proof.
  unfold case_editor_tab.
  apply (for_loop_invariant (fun g => isSaved g = isSaved f)); [|reflexivity].
  unfold insert_step. intros s s' Hs H. rewrite <- Hs. cache.
Qed.

(** Space, a sibling case, clears the flag on the same state. *)
Lemma space_clears_saved_flag :
  exists ed,
    constructor (types := SpecTypes.types) ["a"]
      (Some [Trace.key "save" "1"; Trace.key "space" "1"]) = Ok ed
    /\ getCodeLines ed = [" a"]
    /\ getIsSaved ed = false.
Proof.
  eexists. evaluate.
Qed.

(** The save action sets the flag, from any state. *)
Lemma save_sets_saved_flag {types : ActionTypes} (ed ed' : VirtualEditor)
    (count : string) :
  applyAction ed (mkAction "editor-save" count) = Ok ed' ->
  getIsSaved ed' = true.
Proof.
  intros H. apply applyAction_returned in H as (numTimes & len & f & Hf & ->).
  unfold switch in Hf.
  change (action_name (mkAction "editor-save" count)) with EditorSave in Hf.
  apply Ok_inj in Hf. subst f. reflexivity.
Qed.

(** C8. An arrow-right whose count is "abc" leaves the caret where it was:
    the count parses to [NaN] and the loop body runs zero times, where a
    count of "1" moves the caret by one column. *)
Lemma malformed_count_applies_zero_times :
  JS.parseInt "abc" = None
  /\ (exists ed,
        constructor (types := SpecTypes.types) ["abc"]
          (Some [Trace.key "arrow-right" "abc"]) = Ok ed
        /\ caret ed = mkPos 0 0)
  /\ (exists ed,
        constructor (types := SpecTypes.types) ["abc"]
          (Some [Trace.key "arrow-right" "1"]) = Ok ed
        /\ caret ed = mkPos 0 1).
Proof.
  split; [reflexivity|]. split; eexists; evaluate.
Qed.

(** In general: whatever the classification, a repeatable arrow-right whose
    count does not parse leaves the caret where it was. *)
Lemma unparsable_count_moves_nothing {types : ActionTypes}
    (ed ed' : VirtualEditor) (action : IAction) :
  isRepeatableAction action = true ->
  JS.parseInt (value action) = None ->
  action_name action = EditorArrowRight ->
  applyAction ed action = Ok ed' ->
  caret ed' = caret ed.
Proof.
  intros Hrepeatable Hcount Hname H. unfold applyAction in H.
  rewrite Hrepeatable, Hcount in H. unfold switch in H. rewrite Hname in H.
  cbn [bind] in H. apply Ok_inj in H. subst ed'. reflexivity.
Qed.

(** With a selection, an enter whose count does not parse throws. *)
Lemma malformed_count_enter_throws :
  constructor (types := SpecTypes.types) ["abc"]
    (Some [Trace.key "shift+arrow-right" "1"; Trace.key "enter" "abc"])
  = Throw RangeError.
Proof. vm_compute. reflexivity. Qed.

End UnifiedProps.


(** ** Strings and arrays: splitting and joining at a position *)

Module JSFacts.

Lemma list_of_append (a b : string) :
  list_ascii_of_string (a ++ b)
  = list_ascii_of_string a ++ list_ascii_of_string b.
Proof. induction a as [|c a IH]; simpl; [reflexivity | now rewrite IH]. Qed.

Lemma string_of_app (x y : list ascii) :
  string_of_list_ascii (x ++ y)
  = (string_of_list_ascii x ++ string_of_list_ascii y)%string.
Proof. induction x as [|c x IH]; simpl; [reflexivity | now rewrite IH]. Qed.

Lemma length_list (s : string) :
  List.length (list_ascii_of_string s) = String.length s.
Proof. induction s as [|c s IH]; simpl; [reflexivity | now rewrite IH]. Qed.

Lemma len_append (a b : string) : JS.len (a ++ b) = JS.len a + JS.len b.
Proof.
  unfold JS.len. rewrite <- !length_list, list_of_append, length_app. lia.
Qed.

Lemma len_nonneg (s : string) : 0 <= JS.len s.
Proof. unfold JS.len. lia. Qed.

Lemma append_assoc (a b c : string) : ((a ++ b) ++ c = a ++ (b ++ c))%string.
Proof. induction a as [|x a IH]; simpl; [reflexivity | now rewrite IH]. Qed.

Lemma append_empty_r (a : string) : (a ++ "")%string = a.
Proof. induction a as [|x a IH]; simpl; [reflexivity | now rewrite IH]. Qed.

(** [substring] between two ordered positions of the string. *)
Lemma substring_inside (s : string) (i j : Z) :
  0 <= i <= j -> j <= JS.len s ->
  JS.substring s i j
  = string_of_list_ascii
      (firstn (Z.to_nat (j - i)) (skipn (Z.to_nat i) (list_ascii_of_string s))).
Proof.
  intros Hi Hj. unfold JS.substring, JS.clamp.
  rewrite (Z.max_l i 0), (Z.max_l j 0) by lia.
  rewrite (Z.min_l i (JS.len s)), (Z.min_l j (JS.len s)) by lia.
  rewrite (Z.min_l i j), (Z.max_r i j) by lia. reflexivity.
Qed.

Lemma substring_prefix_of_append (a b : string) :
  JS.substring (a ++ b) 0 (JS.len a) = a.
Proof.
  pose proof (len_nonneg a). pose proof (len_nonneg b).
  rewrite substring_inside by (rewrite ?len_append; lia).
  rewrite list_of_append. cbn [Z.to_nat skipn]. rewrite Z.sub_0_r.
  unfold JS.len. rewrite Nat2Z.id, <- length_list, firstn_app, Nat.sub_diag.
  cbn [firstn]. rewrite firstn_all, app_nil_r.
  apply string_of_list_ascii_of_string.
Qed.

Lemma substring_from_of_append (a b : string) :
  JS.substring_from (a ++ b) (JS.len a) = b.
Proof.
  pose proof (len_nonneg a). pose proof (len_nonneg b).
  unfold JS.substring_from.
  rewrite substring_inside by (rewrite ?len_append; lia).
  rewrite list_of_append, len_append.
  replace (JS.len a + JS.len b - JS.len a) with (JS.len b) by lia.
  unfold JS.len. rewrite !Nat2Z.id, <- !length_list.
  rewrite skipn_app, skipn_all, Nat.sub_diag. cbn [skipn app].
  rewrite firstn_all. apply string_of_list_ascii_of_string.
Qed.

(** A string is its prefix up to a position followed by the rest. *)
Lemma substring_split (s : string) (i : Z) :
  0 <= i <= JS.len s ->
  (JS.substring s 0 i ++ JS.substring_from s i)%string = s
  /\ JS.len (JS.substring s 0 i) = i.
Proof.
  intros Hi. unfold JS.substring_from.
  rewrite !substring_inside by lia.
  cbn [Z.to_nat skipn]. rewrite Z.sub_0_r.
  assert (Z.to_nat i <= List.length (list_ascii_of_string s))%nat as Hn
    by (rewrite length_list; unfold JS.len in Hi; lia).
  rewrite (firstn_all2 (n := Z.to_nat (JS.len s - i)))
    by (rewrite length_skipn, length_list; unfold JS.len; lia).
  split.
  - rewrite <- string_of_app, firstn_skipn.
    apply string_of_list_ascii_of_string.
  - unfold JS.len at 1.
    rewrite <- length_list, list_ascii_of_string_of_list_ascii, length_firstn.
    lia.
Qed.

(** An array seen as the elements before a row, the row, and the rest. *)
Lemma get_split {A : Type} (arr : list A) (i : Z) (x : A) :
  JS.get arr i = Some x ->
  exists before after,
    arr = before ++ x :: after /\ Z.of_nat (List.length before) = i.
Proof.
  unfold JS.get. destruct (Z.ltb_spec i 0) as [|Hi]; [discriminate|].
  intros H. apply nth_error_split in H as (before & after & -> & Hlen).
  exists before, after. split; [reflexivity | lia].
Qed.

Lemma get_middle {A : Type} (before after : list A) (x : A) :
  JS.get (before ++ x :: after) (Z.of_nat (List.length before)) = Some x.
Proof.
  unfold JS.get. destruct (Z.ltb_spec (Z.of_nat (List.length before)) 0); [lia|].
  rewrite Nat2Z.id, nth_error_app2, Nat.sub_diag; [reflexivity | lia].
Qed.

Lemma get_after_middle {A : Type} (before after : list A) (x y : A) :
  JS.get (before ++ x :: y :: after) (Z.of_nat (List.length before) + 1) = Some y.
Proof.
  unfold JS.get.
  destruct (Z.ltb_spec (Z.of_nat (List.length before) + 1) 0); [lia|].
  rewrite nth_error_app2 by lia.
  replace (Z.to_nat (Z.of_nat (List.length before) + 1) - List.length before)%nat
    with 1%nat by lia.
  reflexivity.
Qed.

Lemma update_middle {A : Type} (before after : list A) (x v : A) :
  JS.update (before ++ x :: after) (List.length before) v = before ++ v :: after.
Proof. induction before as [|b before IH]; simpl; [reflexivity | now rewrite IH]. Qed.

Lemma set_middle {A : Type} (before after : list A) (x v : A) :
  JS.set (before ++ x :: after) (Z.of_nat (List.length before)) v
  = before ++ v :: after.
Proof.
  unfold JS.set. destruct (Z.ltb_spec (Z.of_nat (List.length before)) 0); [lia|].
  rewrite Nat2Z.id. apply update_middle.
Qed.

Lemma splice_insert_after {A : Type} (before after : list A) (x : A)
    (items : list A) :
  JS.splice (before ++ x :: after) (Z.of_nat (List.length before) + 1) 0 items
  = before ++ x :: items ++ after.
Proof.
  unfold JS.splice.
  destruct (Z.ltb_spec (Z.of_nat (List.length before) + 1) 0); [lia|].
  rewrite length_app. cbn [List.length].
  rewrite Z.min_l by lia. rewrite Z.max_r, Z.min_l by lia.
  rewrite Z.add_0_r.
  replace (Z.to_nat (Z.of_nat (List.length before) + 1))
    with (List.length before + 1)%nat by lia.
  rewrite firstn_app, skipn_app.
  replace (List.length before + 1 - List.length before)%nat with 1%nat by lia.
  rewrite firstn_all2, skipn_all2 by lia.
  cbn [firstn skipn app]. rewrite <- app_assoc. reflexivity.
Qed.

Lemma splice_delete_after {A : Type} (before after : list A) (x y : A) :
  JS.splice (before ++ x :: y :: after) (Z.of_nat (List.length before) + 1) 1 []
  = before ++ x :: after.
Proof.
  unfold JS.splice.
  destruct (Z.ltb_spec (Z.of_nat (List.length before) + 1) 0); [lia|].
  rewrite length_app. cbn [List.length].
  rewrite Z.min_l by lia. rewrite Z.max_l, Z.min_l by lia.
  replace (Z.to_nat (Z.of_nat (List.length before) + 1))
    with (List.length before + 1)%nat by lia.
  replace (Z.to_nat (Z.of_nat (List.length before) + 1 + 1))
    with (List.length before + 2)%nat by lia.
  rewrite firstn_app, skipn_app.
  replace (List.length before + 1 - List.length before)%nat with 1%nat by lia.
  replace (List.length before + 2 - List.length before)%nat with 2%nat by lia.
  rewrite firstn_all2, skipn_all2 by lia.
  cbn [firstn skipn app]. rewrite <- app_assoc. reflexivity.
Qed.

End JSFacts.

(** ** Typing one character and deleting it *)

Module RoundTrip.
Import Unified Pred JSFacts.

Lemma split_one_character (ch : ascii) :
  JS.split_newline (String ch "")
  = if Ascii.eqb ch (ascii_of_nat 10) then [""; ""] else [String ch ""].
Proof. cbn [JS.split_newline]. destruct (Ascii.eqb ch (ascii_of_nat 10)); reflexivity. Qed.

Lemma for_loop_once {S : Type} (body : S -> result S) (s : S) :
  for_loop (JS.iterations (Some 1)) body s = (s' <- body s ;; Ok s').
Proof. reflexivity. Qed.

Ltac steps :=
  unfold type_step, backspace_step, type_remaining_lines, line, JS.get_defined;
  UnifiedProps.fields.

(** Typing a character other than a line break at column [c] of line [l]. *)
Lemma type_step_character ch r c hc before l after hl saved menu :
  Ascii.eqb ch (ascii_of_nat 10) = false ->
  r = Z.of_nat (List.length before) ->
  type_step (String ch "") [String ch ""]
    (mkFields r c (-1) hc (before ++ l :: after) hl saved menu)
  = Ok (mkFields r (c + 1) (-1) hc
          (before
           ++ (JS.substring l 0 c ++ String ch "" ++ JS.substring_from l c)%string
           :: after) hl saved menu).
Proof.
  intros _ ->. steps. rewrite get_middle. lazy beta iota delta [bind].
  rewrite set_middle. reflexivity.
Qed.

(** Typing a line break at column [c] of line [l]. *)
Lemma type_step_newline r c hc before l after hl saved menu :
  r = Z.of_nat (List.length before) ->
  type_step JS.newline [""; ""]
    (mkFields r c (-1) hc (before ++ l :: after) hl saved menu)
  = Ok (mkFields (r + 1) 0 (-1) hc
          (before ++ (JS.substring l 0 c ++ "")%string
           :: ("" ++ JS.substring_from l c)%string :: after) hl saved menu).
Proof.
  intros ->. steps. rewrite get_middle. lazy beta iota delta [bind].
  rewrite set_middle, splice_insert_after. reflexivity.
Qed.

(** Backspace inside a line. *)
Lemma backspace_step_character r c hc before l after hl saved menu :
  0 < c ->
  r = Z.of_nat (List.length before) ->
  backspace_step (mkFields r c (-1) hc (before ++ l :: after) hl saved menu)
  = Ok (mkFields r (c - 1) (-1) hc
          (before
           ++ (JS.substring l 0 (c - 1) ++ JS.substring_from l c)%string
           :: after) hl saved menu).
Proof.
  intros Hc ->. steps.
  destruct (Z.gtb_spec c 0) as [_|]; [|lia].
  rewrite get_middle. lazy beta iota delta [bind].
  rewrite set_middle. reflexivity.
Qed.

(** Backspace at the start of a line that has a line above it. *)
Lemma backspace_step_merge r hc before l l' after hl saved menu :
  r = Z.of_nat (List.length before) ->
  backspace_step
    (mkFields (r + 1) 0 (-1) hc (before ++ l :: l' :: after) hl saved menu)
  = Ok (mkFields r (JS.len l) (-1) hc (before ++ (l ++ l')%string :: after)
          hl saved menu).
Proof.
  intros ->. steps. cbn [Z.gtb Z.compare].
  destruct (Z.gtb_spec (Z.of_nat (List.length before) + 1) 0) as [_|]; [|lia].
  replace (Z.of_nat (List.length before) + 1 - 1)
    with (Z.of_nat (List.length before)) by lia.
  rewrite get_middle. lazy beta iota delta [bind].
  rewrite get_after_middle, set_middle, splice_delete_after.
  reflexivity.
Qed.

Lemma type_backspace_frame (ch : ascii) (f : Frame) (l hl' : string) :
  no_selection f ->
  JS.get (codeLines f) (caretRow f) = Some l ->
  0 <= caretCol f <= JS.len l ->
  exists f1 f2,
    case_editor_type (Some 1) (String ch "") f = Ok f1
    /\ no_selection f1
    /\ case_editor_backspace (Some 1) (set_currentlyHighlightedCode f1 hl') = Ok f2
    /\ codeLines f2 = codeLines f
    /\ caretRow f2 = caretRow f
    /\ caretCol f2 = caretCol f.
Proof.
  destruct f as [r c hr hc L hl saved menu]. unfold no_selection.
  cbn [highlightStartRow codeLines caretRow caretCol].
  intros -> Hl Hc.
  apply get_split in Hl as (before & after & -> & Hr). symmetry in Hr.
  destruct (substring_split l c Hc) as [Hjoin Hlen].
  exists (if Ascii.eqb ch (ascii_of_nat 10)
          then mkFields (r + 1) 0 (-1) hc
                 (before ++ (JS.substring l 0 c ++ "")%string
                  :: ("" ++ JS.substring_from l c)%string :: after)
                 hl false menu
          else mkFields r (c + 1) (-1) hc
                 (before
                  ++ (JS.substring l 0 c ++ String ch ""
                      ++ JS.substring_from l c)%string :: after)
                 hl false menu).
  exists (mkFields r c (-1) hc (before ++ l :: after) hl' false menu).
  unfold case_editor_type, case_editor_backspace, type_delete_selection.
  rewrite split_one_character.
  destruct (Ascii.eqb_spec ch (ascii_of_nat 10)) as [->|Hch].
  - UnifiedProps.fields. cbn [Z.eqb Pos.eqb negb bind].
    rewrite !for_loop_once.
    change (String (ascii_of_nat 10) "") with JS.newline.
    rewrite type_step_newline by exact Hr. cbn [bind].
    rewrite backspace_step_merge by exact Hr. cbn [bind].
    rewrite append_empty_r. cbn [String.append]. rewrite Hjoin, Hlen.
    repeat split.
  - UnifiedProps.fields. cbn [Z.eqb Pos.eqb negb bind].
    rewrite !for_loop_once.
    rewrite type_step_character by (exact Hr || now apply Ascii.eqb_neq).
    cbn [bind].
    rewrite backspace_step_character by (exact Hr || lia). cbn [bind].
    replace (c + 1 - 1) with c by lia.
    set (a := JS.substring l 0 c) in *. set (b := JS.substring_from l c) in *.
    assert (JS.substring (a ++ String ch "" ++ b) 0 c = a) as ->
      by (rewrite <- Hlen; apply substring_prefix_of_append).
    assert (JS.substring_from (a ++ String ch "" ++ b) (c + 1) = b) as ->.
    { rewrite <- append_assoc.
      replace (c + 1) with (JS.len (a ++ String ch ""))
        by (rewrite len_append, Hlen; reflexivity).
      apply substring_from_of_append. }
    rewrite Hjoin. repeat split.
Qed.

Section Engine.
Context {types : ActionTypes}.

(** C4, as amended. From every reachable state with no active selection and
    with the caret's column inside its line, typing one character (a line
    break included) and then one backspace both return, and restore the
    buffer lines and the caret. *)
Theorem type_then_backspace_restores (ed : VirtualEditor) (ch : ascii) :
  reachable ed ->
  no_selection (frame ed) ->
  caret_col_in_line (frame ed) ->
  isRepeatableAction (Trace.type (String ch "")) = false ->
  exists ed1 ed2,
    applyAction ed (Trace.type (String ch "")) = Ok ed1
    /\ applyAction ed1 (Trace.key "backspace" "1") = Ok ed2
    /\ getCodeLines ed2 = getCodeLines ed
    /\ caret ed2 = caret ed.
Proof.
  intros Hreach Hsel (l & Hl & Hc) Htype.
  apply UnifiedProps.reachable_invariant in Hreach as [Hsep _].
  destruct (type_backspace_frame ch
              (set_currentlyHighlightedCode (frame ed) "") l "" Hsel Hl Hc)
    as (f1 & f2 & Hf1 & _ & Hf2 & Hlines & Hrow & Hcol).
  set (typed := Trace.type (String ch "")) in *.
  set (backspace := Trace.key "backspace" "1").
  exists (record_history ed f1 typed).
  exists (record_history (record_history ed f1 typed) f2 backspace).
  assert (frame (record_history ed f1 typed) = f1) as Hframe1
    by (apply UnifiedProps.record_history_frame, Hsep).
  assert (frame (record_history (record_history ed f1 typed) f2 backspace) = f2)
    as Hframe2.
  { apply UnifiedProps.record_history_frame.
    apply (UnifiedProps.record_history_separated ed f1 typed Hsep). }
  repeat split.
  - unfold applyAction. rewrite Htype. unfold switch.
    change (action_name typed) with EditorType.
    change (value typed) with (String ch "").
    rewrite Hf1. reflexivity.
  - unfold applyAction. rewrite Hframe1.
    assert ((if isRepeatableAction backspace
             then JS.parseInt (value backspace) else Some 1) = Some 1) as ->
      by (destruct (isRepeatableAction backspace); reflexivity).
    unfold switch. change (action_name backspace) with EditorBackspace.
    rewrite Hf2. reflexivity.
  - change (codeLines (frame (record_history (record_history ed f1 typed) f2 backspace))
            = codeLines (frame ed)).
    rewrite Hframe2. exact Hlines.
  - unfold caret.
    transitivity (mkPos (caretRow f2) (caretCol f2)); [reflexivity|].
    rewrite Hrow, Hcol. reflexivity.
Qed.

End Engine.

Lemma type_then_backspace_restores_witness :
  exists ed ed1 ed2,
    constructor (types := SpecTypes.types) ["abc"]
      (Some [Trace.key "arrow-right" "1"]) = Ok ed
    /\ applyAction (types := SpecTypes.types) ed (Trace.type "X") = Ok ed1
    /\ applyAction (types := SpecTypes.types) ed1 (Trace.key "backspace" "1")
       = Ok ed2
    /\ getCodeLines ed2 = getCodeLines ed
    /\ caret ed2 = caret ed.
Proof.
  eexists.
  match goal with
  | |- exists ed1 ed2, constructor _ _ = Ok ?ed /\ _ =>
      assert (reachable (types := SpecTypes.types) ed) as Hreach
        by (exists ["abc"], [Trace.key "arrow-right" "1"];
            vm_compute; reflexivity);
      destruct (type_then_backspace_restores (types := SpecTypes.types)
                  ed "X"%char Hreach)
        as (ed1 & ed2 & H1 & H2 & Hlines & Hcaret)
  end.
  - reflexivity.
  - exists "abc". split; [reflexivity | vm_compute; split; discriminate].
  - reflexivity.
  - exists ed1, ed2. split; [vm_compute; reflexivity|].
    split; [exact H1|]. split; [exact H2|]. split; [exact Hlines | exact Hcaret].
Defined.

(** C4, as stated, fails: with the first character of "abc" selected,
    typing "X" replaces the selection and backspace removes the "X", which
    leaves "bc" and the caret at column 0 instead of "abc" and column 1. *)
Lemma round_trip_fails_with_selection :
  exists ed ed1 ed2,
    constructor (types := SpecTypes.types) ["abc"]
      (Some Trace.select_first_character) = Ok ed
    /\ applyAction (types := SpecTypes.types) ed (Trace.type "X") = Ok ed1
    /\ applyAction (types := SpecTypes.types) ed1 (Trace.key "backspace" "1")
       = Ok ed2
    /\ getCodeLines ed = ["abc"] /\ caret ed = mkPos 0 1
    /\ getCodeLines ed2 = ["bc"] /\ caret ed2 = mkPos 0 0.
Proof.
  eexists. eexists. eexists. UnifiedProps.evaluate.
Qed.

End RoundTrip.

(** ** Calls that return *)

Module Returns.
Import Unified Pred.

Lemma for_loop_returns {S : Type} (P : S -> Prop) (body : S -> result S) :
  (forall s, P s -> exists s', body s = Ok s' /\ P s') ->
  forall n s, P s -> exists s', for_loop n body s = Ok s' /\ P s'.
Proof.
  intros Hbody n. induction n as [|n IH]; intros s Hs; simpl; [eauto|].
  destruct (Hbody s Hs) as (s1 & -> & Hs1). simpl. auto.
Qed.

(** A step that returns on every state whose rows are in the buffer, and
    keeps them there, can be iterated. *)
Lemma step_returns (P : Frame -> Prop) (step : Frame -> result Frame) :
  (forall f, P f -> exists f', step f = Ok f') ->
  (forall f f', P f -> step f = Ok f' -> P f') ->
  forall n f, P f -> exists f', for_loop n step f = Ok f' /\ P f'.
Proof.
  intros Hreturns Hkeeps. apply for_loop_returns. intros f Hf.
  destruct (Hreturns f Hf) as [f' H]. eauto.
Qed.

(** Reads of lines whose index is inside the buffer. *)
Ltac read :=
  repeat match goal with
    | |- context [JS.get ?l ?i] =>
        let x := fresh "l" in
        let H := fresh "Hread" in
        destruct (get_in_bounds l i) as [x H];
        [UnifiedProps.lengths; lia | rewrite H; cbn [bind]]
    end.

Ltac returns :=
  unfold line, JS.get_defined; UnifiedProps.fields;
  repeat (first [ progress read
                | match goal with
                  | |- context [if ?c then _ else _] => destruct c eqn:?
                  end ]);
  lazy beta iota delta [bind]; eauto.

Lemma enter_step_returns f :
  rows_in_buffer f -> exists f', enter_step f = Ok f'.
Proof. destruct f. unfold enter_step. intros [Hrow _]. returns. Qed.

Lemma type_delete_selection_returns f :
  rows_in_buffer f -> exists f', type_delete_selection f = Ok f'.
Proof.
  destruct f. unfold type_delete_selection. intros [Hrow Hanchor]. returns.
Qed.

Lemma type_step_returns value lines f :
  rows_in_buffer f /\ no_selection f -> exists f', type_step value lines f = Ok f'.
Proof.
  destruct f. unfold type_step. intros [[Hrow _] _].
  destruct lines as [|first [|second rest]]; returns.
Qed.

Lemma arrow_left_step_returns f :
  caret_row_in_buffer f -> exists f', arrow_left_step f = Ok f'.
Proof. destruct f. unfold arrow_left_step. intros Hrow. returns. Qed.

Lemma delete_range_returns startRow endRow startCol endCol f :
  0 <= startRow < line_count f -> 0 <= endRow < line_count f ->
  exists f', delete_range startRow endRow startCol endCol f = Ok f'.
Proof.
  destruct f. unfold delete_range. intros Hstart Hend. returns.
Qed.

Lemma backspace_step_returns f :
  rows_in_buffer f /\ no_selection f -> exists f', backspace_step f = Ok f'.
Proof. destruct f. unfold backspace_step. intros [[Hrow _] _]. returns. Qed.

Lemma insert_step_returns text f :
  rows_in_buffer f -> exists f', insert_step text f = Ok f'.
Proof. destruct f. unfold insert_step. intros [Hrow _]. returns. Qed.

Lemma command_right_step_returns f :
  caret_row_in_buffer f -> exists f', command_right_step f = Ok f'.
Proof. destruct f. unfold command_right_step. intros Hrow. returns. Qed.

Lemma shift_arrow_left_step_returns f :
  rows_in_buffer f -> exists f', shift_arrow_left_step f = Ok f'.
Proof. destruct f. unfold shift_arrow_left_step. intros [Hrow _]. returns. Qed.

Lemma shift_arrow_right_step_returns f :
  rows_in_buffer f -> exists f', shift_arrow_right_step f = Ok f'.
Proof. destruct f. unfold shift_arrow_right_step. intros [Hrow _]. returns. Qed.

Lemma shift_arrow_down_step_returns f :
  rows_in_buffer f -> exists f', shift_arrow_down_step f = Ok f'.
Proof. destruct f. unfold shift_arrow_down_step. intros [Hrow _]. returns. Qed.

Lemma shift_arrow_up_step_returns f :
  rows_in_buffer f -> exists f', shift_arrow_up_step f = Ok f'.
Proof. destruct f. unfold shift_arrow_up_step. intros [Hrow _]. returns. Qed.

Lemma highlighted_rows_return f startRow endRow isForwardSelection count :
  0 <= startRow < line_count f -> 0 <= endRow < line_count f ->
  forall r, exists rows,
    highlighted_rows f startRow endRow isForwardSelection r count = Ok rows.
Proof.
  intros Hstart Hend. induction count as [|count IH]; intros r; [simpl; eauto|].
  cbn [highlighted_rows].
  assert (exists x, highlighted_row f startRow endRow isForwardSelection r = Ok x)
    as [x ->].
  { destruct f. unfold highlighted_row.
    destruct (Z.eqb_spec r startRow) as [->|_]; [returns|].
    destruct (Z.eqb_spec r endRow) as [->|_]; [returns | eauto]. }
  destruct (IH (r + 1)) as [xs ->]. simpl. eauto.
Qed.

Lemma calculateHighlightedText_returns f :
  rows_in_buffer f -> exists text, calculateHighlightedText f = Ok text.
Proof.
  intros [Hrow Hanchor]. unfold calculateHighlightedText.
  destruct (Z.eqb_spec (highlightStartRow f) (-1)) as [|Hsel]; [eauto|].
  destruct (caretRow f =? highlightStartRow f).
  - destruct f. returns.
  - unfold anchor_row_in_buffer, caret_row_in_buffer in *.
    destruct (highlighted_rows_return f
                (Z.min (highlightStartRow f) (caretRow f))
                (Z.max (highlightStartRow f) (caretRow f))
                (highlightStartRow f <? caretRow f)
                (Z.to_nat (Z.max (highlightStartRow f) (caretRow f)
                           - Z.min (highlightStartRow f) (caretRow f) + 1)))
      with (r := Z.min (highlightStartRow f) (caretRow f)) as [rows Hrows];
      [lia | lia |].
    cbv zeta. rewrite Hrows. simpl. eauto.
Qed.

Lemma case_editor_enter_returns numTimes f :
  rows_in_buffer f -> no_selection f \/ enter_count_ok numTimes ->
  exists f', case_editor_enter numTimes f = Ok f'.
Proof.
  intros Hf Hcount. unfold case_editor_enter.
  destruct (Z.eqb_spec (highlightStartRow (set_isSaved f false)) (-1))
    as [Hsel|Hsel]; cbn [negb].
  - destruct (step_returns rows_in_buffer enter_step enter_step_returns
                UnifiedProps.enter_step_rows (JS.iterations numTimes)
                (set_isSaved f false)) as (f' & H & _);
      [destruct f; exact Hf | eauto].
  - destruct Hcount as [Hnone|(n & -> & Hn)]; [contradiction|].
    destruct f. destruct Hf as [Hrow Hanchor].
    unfold JS.Array_fill. cbn [option_map].
    destruct (Z.leb_spec 0 (n - 1)); [|lia].
    destruct (Z.ltb_spec (n - 1) (2 ^ 32)); [|lia].
    cbn [andb]. returns.
Qed.

Lemma case_editor_type_returns numTimes value f :
  rows_in_buffer f -> exists f', case_editor_type numTimes value f = Ok f'.
Proof.
  intros Hf. unfold case_editor_type.
  assert (rows_in_buffer (set_isSaved f false)) as Hf' by (destruct f; exact Hf).
  destruct (type_delete_selection_returns _ Hf') as [f1 H1]. rewrite H1.
  cbn [bind].
  apply UnifiedProps.type_delete_selection_rows in H1; [|exact Hf'].
  destruct (step_returns (fun g => rows_in_buffer g /\ no_selection g)
              (type_step value (JS.split_newline value))
              (type_step_returns value _)
              (UnifiedProps.type_step_rows value _)
              (JS.iterations numTimes) f1 H1) as (f' & H & _).
  eauto.
Qed.

Lemma case_editor_backspace_returns numTimes f :
  rows_in_buffer f -> exists f', case_editor_backspace numTimes f = Ok f'.
Proof.
  intros Hf. unfold case_editor_backspace.
  assert (rows_in_buffer (set_isSaved f false)) as Hf' by (destruct f; exact Hf).
  revert Hf'. generalize (set_isSaved f false). clear. intros f [Hrow Hanchor].
  destruct (Z.eqb_spec (highlightStartRow f) (-1)) as [Hsel|Hsel]; cbn [negb].
  - destruct (step_returns (fun g => rows_in_buffer g /\ no_selection g)
                backspace_step backspace_step_returns
                UnifiedProps.backspace_step_rows
                (JS.iterations numTimes) f) as (f' & H & _);
      [split; [split; assumption | exact Hsel] | eauto].
  - unfold caret_row_in_buffer, anchor_row_in_buffer in *.
    apply delete_range_returns; lia.
Qed.

Lemma case_editor_space_returns numTimes f :
  rows_in_buffer f -> exists f', case_editor_space numTimes f = Ok f'.
Proof.
  intros Hf. unfold case_editor_space.
  assert (rows_in_buffer (set_isSaved f false)) as Hf' by (destruct f; exact Hf).
  revert Hf'. generalize (set_isSaved f false). clear. intros f Hf.
  assert (exists f1,
             (if negb (highlightStartRow f =? -1)
              then
                delete_range (Z.min (highlightStartRow f) (caretRow f))
                  (Z.max (highlightStartRow f) (caretRow f))
                  (if Z.min (highlightStartRow f) (caretRow f) =? highlightStartRow f
                   then highlightStartCol f else caretCol f)
                  (if Z.max (highlightStartRow f) (caretRow f) =? highlightStartRow f
                   then highlightStartCol f else caretCol f) f
              else Ok f) = Ok f1 /\ rows_in_buffer f1) as (f1 & H1 & Hf1).
  { destruct (Z.eqb_spec (highlightStartRow f) (-1)) as [Hsel|Hsel]; cbn [negb];
      [eauto|].
    destruct Hf as [Hrow Hanchor].
    unfold caret_row_in_buffer, anchor_row_in_buffer in *.
    match goal with
    | |- context [delete_range ?a ?b ?c ?d ?g] =>
        destruct (delete_range_returns a b c d g) as [f1 H1]; [lia | lia |]
    end.
    exists f1. split; [exact H1|].
    apply UnifiedProps.delete_range_rows in H1; [exact H1 | lia]. }
  cbv zeta. rewrite H1. cbn [bind].
  destruct (step_returns rows_in_buffer (insert_step " ")
              (insert_step_returns " ") (UnifiedProps.insert_step_rows " ")
              (JS.iterations numTimes) f1 Hf1) as (f' & H & _).
  eauto.
Qed.

Lemma case_editor_shift_arrow_returns step numTimes f :
  (forall f, rows_in_buffer f -> exists f', step f = Ok f') ->
  (forall f f', rows_in_buffer f -> step f = Ok f' -> rows_in_buffer f') ->
  rows_in_buffer f ->
  exists f', case_editor_shift_arrow step numTimes f = Ok f'.
Proof.
  intros Hreturns Hkeeps Hf. unfold case_editor_shift_arrow.
  destruct (step_returns rows_in_buffer step Hreturns Hkeeps
              (JS.iterations numTimes) (start_selection f)
              (UnifiedProps.start_selection_rows f Hf)) as (f1 & -> & Hf1).
  cbn [bind].
  destruct (calculateHighlightedText_returns f1 Hf1) as [text ->].
  cbn [bind]. eauto.
Qed.

(** From a state whose rows are in the buffer, the [switch] returns on every
    action, except an enter over a selection whose count is below 1, too
    large for [Array], or not a number. *)
Lemma switch_returns numTimes currentLineLength action f :
  rows_in_buffer f ->
  (action_name action = EditorEnter ->
   no_selection f \/ enter_count_ok numTimes) ->
  exists f', switch numTimes currentLineLength action f = Ok f'.
Proof.
  intros Hf Henter. unfold switch.
  destruct (action_name action); eauto.
  - apply case_editor_enter_returns; auto.
  - now apply case_editor_type_returns.
  - unfold case_editor_arrow_left.
    destruct (step_returns caret_row_in_buffer arrow_left_step
                arrow_left_step_returns UnifiedProps.arrow_left_step_rows
                (JS.iterations numTimes) f (proj1 Hf)) as (f1 & -> & _).
    cbn [bind]. eauto.
  - now apply case_editor_backspace_returns.
  - now apply case_editor_space_returns.
  - destruct (step_returns rows_in_buffer (insert_step JS.tab)
                (insert_step_returns JS.tab)
                (UnifiedProps.insert_step_rows JS.tab)
                (JS.iterations numTimes) f Hf) as (f1 & H & _).
    eauto.
  - unfold case_editor_command_right.
    destruct (step_returns caret_row_in_buffer command_right_step
                command_right_step_returns
                UnifiedProps.command_right_step_rows
                (JS.iterations numTimes) f (proj1 Hf)) as (f1 & -> & _).
    cbn [bind]. eauto.
  - apply case_editor_shift_arrow_returns;
      [ apply shift_arrow_left_step_returns
      | apply UnifiedProps.shift_arrow_left_step_rows
      | exact Hf ].
  - apply case_editor_shift_arrow_returns;
      [ apply shift_arrow_right_step_returns
      | apply UnifiedProps.shift_arrow_right_step_rows
      | exact Hf ].
  - apply case_editor_shift_arrow_returns;
      [ apply shift_arrow_down_step_returns
      | apply UnifiedProps.shift_arrow_down_step_rows
      | exact Hf ].
  - apply case_editor_shift_arrow_returns;
      [ apply shift_arrow_up_step_returns
      | apply UnifiedProps.shift_arrow_up_step_rows
      | exact Hf ].
Qed.

(** From a reachable state, [applyAction] returns on every action, the enter
    above excepted. *)
Lemma applyAction_returns {types : ActionTypes} (ed : VirtualEditor)
    (action : IAction) :
  invariant ed ->
  (action_name action = EditorEnter ->
   no_selection (frame ed) \/ enter_count_ok (repeat_count action)) ->
  exists ed', applyAction ed action = Ok ed'.
Proof.
  intros [_ Hrows] Henter. unfold applyAction. fold (repeat_count action).
  match goal with
  | |- context [switch ?n ?len ?a ?f] =>
      destruct (switch_returns n len a f) as [f' ->]
  end.
  - destruct (frame ed). exact Hrows.
  - intros Hname. destruct (Henter Hname) as [Hsel|Hcount]; [left|now right].
    destruct (frame ed). exact Hsel.
  - cbn [bind]. eauto.
Qed.

End Returns.

(** ** The two engines on the actions they share *)

Module Simulation.
Import Sim.

Lemma for_loop_commutes {S T : Type} (g : S -> T) (bodyS : S -> result S)
    (bodyT : T -> result T) :
  (forall s, bodyT (g s) = result_map g (bodyS s)) ->
  forall n s, for_loop n bodyT (g s) = result_map g (for_loop n bodyS s).
Proof.
  intros Hbody n. induction n as [|n IH]; intros s; simpl; [reflexivity|].
  rewrite Hbody. destruct (bodyS s) as [s'|e]; simpl; [apply IH | reflexivity].
Qed.

Lemma repeat_loop_commutes {S T : Type} (g : S -> T) (bodyS : S -> S)
    (bodyT : T -> T) :
  (forall s, bodyT (g s) = g (bodyS s)) ->
  forall n s, repeat_loop n bodyT (g s) = g (repeat_loop n bodyS s).
Proof.
  intros Hbody n. induction n as [|n IH]; intros s; simpl; [reflexivity|].
  now rewrite Hbody, IH.
Qed.

(** Both sides are normalised on the record fields, then compared branch
    by branch. *)
Ltac normalise :=
  lazy beta iota zeta delta
    [to_legacy bind result_map
     Unified.caretRow Unified.caretCol Unified.highlightStartRow
     Unified.highlightStartCol Unified.codeLines
     Unified.currentlyHighlightedCode Unified.isSaved
     Unified.isEditorContextMenuOpen
     Unified.line Unified.set_line Unified.splice_lines Unified.line_count
     Unified.clearCurrentHighlightedCode Unified.set_caret
     Unified.set_caretRow Unified.set_caretCol Unified.set_highlightStart
     Unified.set_codeLines Unified.set_currentlyHighlightedCode
     Unified.set_isSaved Unified.start_selection
     Legacy.caretRow Legacy.caretColumn Legacy.highlightStartRow
     Legacy.highlightStartColumn Legacy.codeLines
     Legacy.currentlyHighlightedCode
     Legacy.line Legacy.set_line Legacy.splice_lines Legacy.line_count
     Legacy.clearCurrentHighlightedCode Legacy.set_caret
     Legacy.set_caretRow Legacy.set_caretColumn Legacy.set_highlightStart
     Legacy.set_codeLines Legacy.set_currentlyHighlightedCode
     Legacy.start_selection].

Ltac commute :=
  normalise;
  repeat (match goal with
          | |- context [JS.get_defined ?l ?i] => destruct (JS.get_defined l i)
          | |- context [JS.get ?l ?i] => destruct (JS.get l i)
          | |- context [if ?c then _ else _] => destruct c
          end; normalise);
  try reflexivity.

Lemma enter_step_commutes f :
  Legacy.enter_step (to_legacy f) = result_map to_legacy (Unified.enter_step f).
Proof. destruct f. unfold Legacy.enter_step, Unified.enter_step. commute. Qed.

Lemma type_step_commutes value line f :
  Legacy.type_step value (to_legacy f)
  = result_map to_legacy (Unified.type_step value [line] f).
Proof. destruct f. unfold Legacy.type_step, Unified.type_step. commute. Qed.

Lemma type_delete_selection_commutes f :
  Legacy.type_delete_selection (to_legacy f)
  = result_map to_legacy (Unified.type_delete_selection f).
Proof.
  destruct f. unfold Legacy.type_delete_selection, Unified.type_delete_selection.
  commute.
Qed.

Lemma arrow_down_step_commutes f :
  Legacy.arrow_down_step (to_legacy f) = to_legacy (Unified.arrow_down_step f).
Proof. destruct f. unfold Legacy.arrow_down_step, Unified.arrow_down_step. commute. Qed.

Lemma arrow_up_step_commutes f :
  Legacy.arrow_up_step (to_legacy f) = to_legacy (Unified.arrow_up_step f).
Proof. destruct f. unfold Legacy.arrow_up_step, Unified.arrow_up_step. commute. Qed.

Lemma arrow_left_step_commutes f :
  Legacy.arrow_left_step (to_legacy f)
  = result_map to_legacy (Unified.arrow_left_step f).
Proof. destruct f. unfold Legacy.arrow_left_step, Unified.arrow_left_step. commute. Qed.

Lemma delete_range_commutes startRow endRow startCol endCol f :
  Legacy.delete_range startRow endRow startCol endCol (to_legacy f)
  = result_map to_legacy (Unified.delete_range startRow endRow startCol endCol f).
Proof. destruct f. unfold Legacy.delete_range, Unified.delete_range. commute. Qed.

Lemma backspace_step_commutes f :
  Legacy.backspace_step (to_legacy f)
  = result_map to_legacy (Unified.backspace_step f).
Proof. destruct f. unfold Legacy.backspace_step, Unified.backspace_step. commute. Qed.

Lemma insert_step_commutes text f :
  Legacy.insert_step text (to_legacy f)
  = result_map to_legacy (Unified.insert_step text f).
Proof. destruct f. unfold Legacy.insert_step, Unified.insert_step. commute. Qed.

Lemma command_left_step_commutes f :
  Legacy.command_left_step (to_legacy f) = to_legacy (Unified.command_left_step f).
Proof.
  destruct f. unfold Legacy.command_left_step, Unified.command_left_step. commute.
Qed.

Lemma command_right_step_commutes f :
  Legacy.command_right_step (to_legacy f)
  = result_map to_legacy (Unified.command_right_step f).
Proof.
  destruct f. unfold Legacy.command_right_step, Unified.command_right_step. commute.
Qed.

Lemma shift_arrow_right_step_commutes f :
  Legacy.shift_arrow_right_step (to_legacy f)
  = result_map to_legacy (Unified.shift_arrow_right_step f).
Proof.
  destruct f. unfold Legacy.shift_arrow_right_step, Unified.shift_arrow_right_step.
  commute.
Qed.

Lemma shift_arrow_left_step_commutes f :
  Legacy.shift_arrow_left_step (to_legacy f)
  = result_map to_legacy (Unified.shift_arrow_left_step f).
Proof.
  destruct f. unfold Legacy.shift_arrow_left_step, Unified.shift_arrow_left_step.
  commute.
Qed.

Lemma highlighted_rows_commute f startRow endRow isForwardSelection count :
  forall r,
    Legacy.highlighted_rows (to_legacy f) startRow endRow isForwardSelection r count
    = Unified.highlighted_rows f startRow endRow isForwardSelection r count.
Proof.
  induction count as [|count IH]; intros r; [reflexivity|].
  cbn [Legacy.highlighted_rows Unified.highlighted_rows]. rewrite IH.
  replace (Legacy.highlighted_row (to_legacy f) startRow endRow
             isForwardSelection r)
    with (Unified.highlighted_row f startRow endRow isForwardSelection r);
    [reflexivity|].
  destruct f. unfold Legacy.highlighted_row, Unified.highlighted_row. commute.
Qed.

Lemma calculateHighlightedText_commutes f :
  Legacy.calculateHighlightedText (to_legacy f)
  = Unified.calculateHighlightedText f.
Proof.
  unfold Legacy.calculateHighlightedText, Unified.calculateHighlightedText.
  rewrite highlighted_rows_commute. destruct f. commute.
Qed.

Lemma to_legacy_start_selection f :
  Legacy.start_selection (to_legacy f) = to_legacy (Unified.start_selection f).
Proof. destruct f. commute. Qed.

Lemma to_legacy_clear f :
  Legacy.clearCurrentHighlightedCode (to_legacy f)
  = to_legacy (Unified.clearCurrentHighlightedCode f).
Proof. destruct f. reflexivity. Qed.

Lemma to_legacy_set_isSaved f saved :
  to_legacy (Unified.set_isSaved f saved) = to_legacy f.
Proof. destruct f. reflexivity. Qed.

Lemma case_shift_arrow_commutes stepL stepU numTimes f :
  (forall f, stepL (to_legacy f) = result_map to_legacy (stepU f)) ->
  Legacy.case_shift_arrow stepL numTimes (to_legacy f)
  = result_map to_legacy (Unified.case_editor_shift_arrow stepU numTimes f).
Proof.
  intros Hstep. unfold Legacy.case_shift_arrow, Unified.case_editor_shift_arrow.
  rewrite to_legacy_start_selection.
  rewrite (for_loop_commutes to_legacy stepU stepL Hstep).
  destruct (for_loop (JS.iterations numTimes) stepU (Unified.start_selection f))
    as [f1|e]; [|reflexivity].
  cbn [result_map bind]. rewrite calculateHighlightedText_commutes.
  destruct (Unified.calculateHighlightedText f1) as [text|e]; [|reflexivity].
  destruct f1. reflexivity.
Qed.

Lemma case_enter_commutes numTimes f :
  Unified.highlightStartRow f = -1 ->
  Legacy.case_enter numTimes (to_legacy f)
  = result_map to_legacy (Unified.case_editor_enter numTimes f).
Proof.
  intros Hsel. unfold Legacy.case_enter, Unified.case_editor_enter.
  assert (Legacy.highlightStartRow (to_legacy f) = -1) as -> by exact Hsel.
  assert (Unified.highlightStartRow (Unified.set_isSaved f false) = -1) as ->
    by exact Hsel.
  cbn [Z.eqb Pos.eqb negb].
  rewrite <- (to_legacy_set_isSaved f false).
  apply for_loop_commutes, enter_step_commutes.
Qed.

Lemma case_type_commutes numTimes text f :
  (List.length (JS.split_newline text) =? 1)%nat = true ->
  Legacy.case_type_editor numTimes text (to_legacy f)
  = result_map to_legacy (Unified.case_editor_type numTimes text f).
Proof.
  intros Hone. unfold Legacy.case_type_editor, Unified.case_editor_type.
  rewrite <- (to_legacy_set_isSaved f false), type_delete_selection_commutes.
  destruct (Unified.type_delete_selection (Unified.set_isSaved f false))
    as [f1|e]; [|reflexivity].
  cbn [result_map bind].
  destruct (JS.split_newline text) as [|line [|second rest]]; try discriminate.
  apply for_loop_commutes. intros s. apply type_step_commutes.
Qed.

(** The fields of [to_legacy f], read through the older engine. *)
Ltac legacy_fields f :=
  change (Legacy.highlightStartRow (to_legacy f))
    with (Unified.highlightStartRow f);
  change (Legacy.highlightStartColumn (to_legacy f))
    with (Unified.highlightStartCol f);
  change (Legacy.caretRow (to_legacy f)) with (Unified.caretRow f);
  change (Legacy.caretColumn (to_legacy f)) with (Unified.caretCol f).

Lemma case_backspace_commutes numTimes f :
  Legacy.case_backspace numTimes (to_legacy f)
  = result_map to_legacy (Unified.case_editor_backspace numTimes f).
Proof.
  unfold Legacy.case_backspace, Unified.case_editor_backspace.
  rewrite <- (to_legacy_set_isSaved f false).
  generalize (Unified.set_isSaved f false). clear f. intros f.
  cbv zeta. legacy_fields f.
  destruct (negb (Unified.highlightStartRow f =? -1)).
  - apply delete_range_commutes.
  - apply for_loop_commutes, backspace_step_commutes.
Qed.

Lemma case_space_commutes numTimes f :
  Legacy.case_space numTimes (to_legacy f)
  = result_map to_legacy (Unified.case_editor_space numTimes f).
Proof.
  unfold Legacy.case_space, Unified.case_editor_space.
  rewrite <- (to_legacy_set_isSaved f false).
  generalize (Unified.set_isSaved f false). clear f. intros f.
  cbv zeta. legacy_fields f.
  assert (forall r : result Unified.Frame,
             (g <- result_map to_legacy r ;;
              for_loop (JS.iterations numTimes) (Legacy.insert_step " ") g)
             = result_map to_legacy
                 (g <- r ;;
                  for_loop (JS.iterations numTimes) (Unified.insert_step " ") g))
    as Hloop.
  { intros [g|e]; [|reflexivity]. cbn [result_map bind].
    apply for_loop_commutes, insert_step_commutes. }
  rewrite <- Hloop. f_equal.
  destruct (negb (Unified.highlightStartRow f =? -1)).
  - apply delete_range_commutes.
  - reflexivity.
Qed.

Lemma case_arrow_left_commutes numTimes f :
  Legacy.case_arrow_left numTimes (to_legacy f)
  = result_map to_legacy (Unified.case_editor_arrow_left numTimes f).
Proof.
  unfold Legacy.case_arrow_left, Unified.case_editor_arrow_left.
  rewrite (for_loop_commutes to_legacy _ _ arrow_left_step_commutes).
  destruct (for_loop (JS.iterations numTimes) Unified.arrow_left_step f)
    as [g|e]; [|reflexivity].
  cbn [result_map bind]. now rewrite to_legacy_clear.
Qed.

Lemma case_command_right_commutes numTimes f :
  Legacy.case_command_right numTimes (to_legacy f)
  = result_map to_legacy (Unified.case_editor_command_right numTimes f).
Proof.
  unfold Legacy.case_command_right, Unified.case_editor_command_right.
  rewrite (for_loop_commutes to_legacy _ _ command_right_step_commutes).
  destruct (for_loop (JS.iterations numTimes) Unified.command_right_step f)
    as [g|e]; [|reflexivity].
  cbn [result_map bind]. now rewrite to_legacy_clear.
Qed.

(** On a shared action the two [switch]es compute the same fields. *)
Lemma switch_commutes numTimes lengthL lengthU action f :
  shared_kind f action = true ->
  Legacy.switch numTimes lengthL action (to_legacy f)
  = result_map to_legacy (Unified.switch numTimes lengthU (rename action) f).
Proof.
  unfold shared_kind, Legacy.switch, Unified.switch, rename, unified_name,
    Unified.action_name.
  cbn [name value].
  destruct (Legacy.action_name action); intros Hkind; try discriminate Hkind;
    cbn [Unified.lookup_name Unified.action_names String.eqb Ascii.eqb Bool.eqb
         andb].
  - apply case_enter_commutes. now apply Z.eqb_eq.
  - now apply case_type_commutes.
  - unfold Legacy.case_arrow_down, Unified.case_editor_arrow_down.
    cbn [result_map].
    now rewrite (repeat_loop_commutes to_legacy _ _ arrow_down_step_commutes),
      to_legacy_clear.
  - unfold Legacy.case_arrow_up, Unified.case_editor_arrow_up.
    cbn [result_map].
    now rewrite (repeat_loop_commutes to_legacy _ _ arrow_up_step_commutes),
      to_legacy_clear.
  - apply case_arrow_left_commutes.
  - apply case_backspace_commutes.
  - apply case_space_commutes.
  - apply for_loop_commutes, insert_step_commutes.
  - unfold Legacy.case_command_left, Unified.case_editor_command_left.
    cbn [result_map].
    now rewrite (repeat_loop_commutes to_legacy _ _ command_left_step_commutes),
      to_legacy_clear.
  - apply case_command_right_commutes.
  - apply case_shift_arrow_commutes, shift_arrow_right_step_commutes.
  - apply case_shift_arrow_commutes, shift_arrow_left_step_commutes.
  - reflexivity.
  - reflexivity.
  - reflexivity.
Qed.

Section Engines.
Context {types : ActionTypes}.

Lemma legacy_record_history_heap_length o f action :
  List.length (Legacy.heap (Legacy.record_history o f action))
  = S (S (List.length (Legacy.heap o))).
Proof.
  unfold Legacy.record_history. simpl.
  rewrite !length_app, UnifiedProps.store_length. simpl. lia.
Qed.

Lemma legacy_record_history_frame o f action :
  (Legacy.codeLines (Legacy.this o) < List.length (Legacy.heap o))%nat ->
  Legacy.frame (Legacy.record_history o f action) = f.
Proof.
  intros Hr. unfold Legacy.frame, Legacy.record_history.
  cbn [Legacy.heap Legacy.this Heap.alloc fst snd].
  unfold Heap.deref.
  rewrite !app_nth1
    by (rewrite ?length_app, UnifiedProps.store_length; simpl; lia).
  cbn [Legacy.codeLines Legacy.set_codeLines].
  fold (Heap.deref
          (Heap.store (Legacy.heap o) (Legacy.codeLines (Legacy.this o))
             (Legacy.codeLines f))
          (Legacy.codeLines (Legacy.this o))).
  rewrite UnifiedProps.deref_store_same by exact Hr.
  destruct f; reflexivity.
Qed.

(** Corresponding states show the same text and carets one offset apart. *)
Lemma corresponds_agree o n : corresponds o n -> agree (Ok o) (Ok n).
Proof.
  intros Hc. split; [exact Hc|]. destruct Hc as (_ & _ & Hframe).
  unfold Legacy.getCode, Unified.getCode, Legacy.getCodeLines,
    Unified.getCodeLines, Unified.getCurrentCaretPosition,
    Legacy.getCurrentCaretPosition, display.
  change (Heap.deref (Legacy.heap o) (Legacy.codeLines (Legacy.this o)))
    with (Legacy.codeLines (Legacy.frame o)).
  change (Legacy.caretRow (Legacy.this o)) with (Legacy.caretRow (Legacy.frame o)).
  change (Legacy.caretColumn (Legacy.this o))
    with (Legacy.caretColumn (Legacy.frame o)).
  rewrite Hframe. split; reflexivity.
Qed.

(** Among the shared actions, enter comes without a selection. *)
Lemma shared_enter_has_no_selection f action :
  shared_kind f action = true ->
  Unified.action_name (rename action) = Unified.EditorEnter ->
  Pred.no_selection f.
Proof.
  unfold shared_kind, rename, unified_name, Unified.action_name.
  cbn [name]. intros Hkind Hname.
  destruct (Legacy.action_name action); try discriminate Hkind;
    try (vm_compute in Hname; discriminate Hname).
  now apply Z.eqb_eq.
Qed.

(** One shared action, from corresponding states. *)
Lemma applyAction_agree o n action :
  corresponds o n ->
  shared_kind (Unified.frame n) action = true ->
  same_classification action = true ->
  agree (Legacy.applyAction o action) (Unified.applyAction n (rename action)).
Proof.
  intros (Hlive & Hinv & Hframe) Hkind Hclass.
  apply Bool.eqb_prop in Hclass.
  set (fU := Unified.set_currentlyHighlightedCode (Unified.frame n) "").
  set (numTimes :=
         if isRepeatableAction action then JS.parseInt (value action)
         else Some 1).
  assert (Legacy.set_currentlyHighlightedCode (Legacy.frame o) "" = to_legacy fU)
    as HfL by (rewrite Hframe; subst fU; destruct (Unified.frame n); reflexivity).
  assert (shared_kind fU action = true) as Hkind'
    by (subst fU; destruct (Unified.frame n); exact Hkind).
  destruct Hinv as [Hsep [Hrow Hanchor]].
  destruct (get_in_bounds (Unified.codeLines fU) (Unified.caretRow fU))
    as [currentLine Hline].
  { subst fU. destruct (Unified.frame n). exact Hrow. }
  assert (Legacy.line (to_legacy fU) (Legacy.caretRow (to_legacy fU))
          = Ok currentLine) as HlineL.
  { unfold Legacy.line, JS.get_defined.
    change (Legacy.codeLines (to_legacy fU)) with (Unified.codeLines fU).
    change (Legacy.caretRow (to_legacy fU)) with (Unified.caretRow fU).
    now rewrite Hline. }
  unfold Legacy.applyAction, Unified.applyAction.
  rewrite Hclass. change (value (rename action)) with (value action).
  fold numTimes. fold fU. rewrite HfL, HlineL. cbn [bind].
  rewrite (switch_commutes numTimes (JS.len currentLine)
             match JS.get (Unified.codeLines fU) (Unified.caretRow fU) with
             | Some currentLineObject => JS.len currentLineObject
             | None => 0
             end action fU Hkind').
  destruct (Returns.switch_returns numTimes
              match JS.get (Unified.codeLines fU) (Unified.caretRow fU) with
              | Some currentLineObject => JS.len currentLineObject
              | None => 0
              end (rename action) fU) as [f' Hswitch].
  { subst fU. destruct (Unified.frame n). exact (conj Hrow Hanchor). }
  { intros Hname. left. exact (shared_enter_has_no_selection _ _ Hkind' Hname). }
  rewrite Hswitch.
  cbn [result_map bind]. apply corresponds_agree.
  split.
  { rewrite legacy_record_history_heap_length.
    change (Legacy.codeLines
              (Legacy.this (Legacy.record_history o (to_legacy f') action)))
      with (Legacy.codeLines (Legacy.this o)).
    lia. }
  split.
  - apply (UnifiedProps.applyAction_invariant n (rename action));
      [exact (conj Hsep (conj Hrow Hanchor))|].
    unfold Unified.applyAction. rewrite Hclass.
    change (value (rename action)) with (value action).
    fold numTimes. fold fU. rewrite Hswitch. reflexivity.
  - rewrite legacy_record_history_frame by exact Hlive.
    rewrite UnifiedProps.record_history_frame by apply Hsep. reflexivity.
Qed.

Lemma shared_prefix actions : forall n k,
  shared n actions -> shared n (firstn k actions).
Proof.
  induction actions as [|a actions IH]; intros n [|k] H; try exact I.
  cbn [firstn shared] in *. destruct H as (Hkind & Hclass & Hrest).
  repeat split; [exact Hkind | exact Hclass |].
  destruct (Unified.applyAction n (rename a)); [now apply IH | exact I].
Qed.

Lemma applyActions_agree actions : forall o n,
  corresponds o n -> shared n actions ->
  agree (Legacy.applyActions o actions)
    (Unified.applyActions n (map rename actions)).
Proof.
  induction actions as [|a actions IH]; intros o n Hc Hshared.
  - now apply corresponds_agree.
  - cbn [map Legacy.applyActions Unified.applyActions shared] in *.
    destruct Hshared as (Hkind & Hclass & Hrest).
    pose proof (applyAction_agree o n a Hc Hkind Hclass) as Hstep.
    destruct (Legacy.applyAction o a) as [o'|eo];
      destruct (Unified.applyAction n (rename a)) as [n'|en];
      cbn [agree bind] in *; try contradiction.
    apply IH; [apply Hstep | exact Hrest].
Qed.

(** C9, as amended. From corresponding states of the two engines (same
    buffer, caret, anchor and cached highlight), a trace of actions that
    both engines treat alike - everything the older engine recognises
    except arrow-right, enter over a selection, and text containing a line
    break - runs to the same outcome in both: after every step [k] both
    engines have returned, with the same buffer text and with the unified
    engine's reported caret equal to the older engine's plus the +1
    display offset. *)
Theorem engines_agree_on_shared_actions (o : Legacy.VirtualEditor)
    (n : Unified.VirtualEditor) (actions : list IAction) (k : nat) :
  corresponds o n ->
  shared n actions ->
  agree (Legacy.applyActions o (firstn k actions))
    (Unified.applyActions n (map rename (firstn k actions))).
Proof.
  intros Hc Hshared. apply applyActions_agree; [exact Hc|].
  now apply shared_prefix.
Qed.

End Engines.

Lemma engines_agree_on_shared_actions_witness :
  exists o n,
    Legacy.constructor (types := SpecTypes.types) ["abc"; "de"]
      (Some [mkAction "arrow-down" "1"]) = Ok o
    /\ Unified.constructor (types := SpecTypes.types) ["abc"; "de"]
         (Some [rename (mkAction "arrow-down" "1")]) = Ok n
    /\ agree
         (Legacy.applyActions (types := SpecTypes.types) o
            (firstn 8 Trace.shared_keys))
         (Unified.applyActions (types := SpecTypes.types) n
            (map rename (firstn 8 Trace.shared_keys))).
Proof.
  eexists. eexists. split; [vm_compute; reflexivity|].
  split; [vm_compute; reflexivity|].
  apply (engines_agree_on_shared_actions (types := SpecTypes.types)).
  - split; [vm_compute; lia|]. split; [|vm_compute; reflexivity].
    apply (UnifiedProps.reachable_invariant (types := SpecTypes.types)).
    exists ["abc"; "de"], [rename (mkAction "arrow-down" "1")].
    vm_compute. reflexivity.
  - vm_compute. repeat split.
Defined.

(** C9, as stated, fails: on "abc", three arrow-rights and the text "X"
    give "abXc" in the older engine, whose caret stops before the last
    character, and "abcX" in the unified one; the reported carets are
    (0, 3) and (1, 5). *)
Lemma engines_differ_on_arrow_right :
  exists o n,
    Legacy.constructor (types := SpecTypes.types) ["abc"]
      (Some Trace.right_then_type) = Ok o
    /\ Unified.constructor (types := SpecTypes.types) ["abc"]
         (Some (map rename Trace.right_then_type)) = Ok n
    /\ Legacy.getCode o = "abXc"
    /\ Unified.getCode n = "abcX"
    /\ Legacy.getCurrentCaretPosition o = Legacy.mkPosition 0 3
    /\ Unified.getCurrentCaretPosition n = mkPos 1 5.
Proof.
  eexists. eexists. UnifiedProps.evaluate.
Qed.

End Simulation.


(** ** The history logs *)

Module Logs.
Import Unified Pred Run.

Section Engine.
Context {types : ActionTypes}.

Lemma constructor_initial initialCodeLines ed :
  constructor initialCodeLines None = Ok ed ->
  getCodeLines ed = initial_lines initialCodeLines
  /\ actionsApplied ed = [seed initialCodeLines]
  /\ editorActionsApplied ed = [seed initialCodeLines]
  /\ getCodeLinesHistory ed = [initial_lines initialCodeLines]
  /\ caretPositionHistory ed = [mkPos 0 0]
  /\ highlightStartPositionHistory ed = [mkPos (-1) (-1)]
  /\ List.length (highlightHistory ed) = 1%nat
  /\ this ed = set_codeLines (mkFields 0 0 (-1) (-1) tt "" false false)
                 (codeLines (this ed)).
Proof.
  intros H. destruct initialCodeLines as [|l ls]; apply Ok_inj in H; subst ed;
    repeat (split; [reflexivity|]); reflexivity.
Qed.

(** What one call appends to the logs. *)
Lemma applyAction_logs ed action ed' :
  applyAction ed action = Ok ed' ->
  actionsApplied ed' = actionsApplied ed ++ [action]
  /\ editorActionsApplied ed'
     = editorActionsApplied ed ++ filter isEditorAction [action]
  /\ codeLinesHistory ed' = codeLinesHistory ed ++ [List.length (heap ed)]
  /\ highlightHistory ed' = highlightHistory ed ++ [S (List.length (heap ed))]
  /\ caretPositionHistory ed' = caretPositionHistory ed ++ [caret ed']
  /\ List.length (highlightStartPositionHistory ed')
     = S (List.length (highlightStartPositionHistory ed)).
Proof.
  intros H.
  apply UnifiedProps.applyAction_returned in H as (numTimes & len & f & _ & ->).
  split; [reflexivity|]. split.
  { cbn [filter editorActionsApplied record_history Heap.alloc fst snd].
    destruct (isEditorAction action); [reflexivity | now rewrite app_nil_r]. }
  split; [apply UnifiedProps.record_history_codeLinesHistory|].
  split; [apply UnifiedProps.record_history_highlightHistory|].
  split; [reflexivity|].
  cbn [highlightStartPositionHistory record_history Heap.alloc fst snd].
  rewrite length_app. cbn [List.length]. lia.
Qed.

Lemma applyActions_logs actions : forall ed ed',
  applyActions ed actions = Ok ed' ->
  actionsApplied ed' = actionsApplied ed ++ actions
  /\ editorActionsApplied ed'
     = editorActionsApplied ed ++ filter isEditorAction actions
  /\ List.length (codeLinesHistory ed')
     = (List.length (codeLinesHistory ed) + List.length actions)%nat
  /\ List.length (highlightHistory ed')
     = (List.length (highlightHistory ed) + List.length actions)%nat
  /\ List.length (caretPositionHistory ed')
     = (List.length (caretPositionHistory ed) + List.length actions)%nat
  /\ List.length (highlightStartPositionHistory ed')
     = (List.length (highlightStartPositionHistory ed) + List.length actions)%nat.
Proof.
  induction actions as [|a actions IH]; intros ed ed' H.
  - apply Ok_inj in H. subst ed'. rewrite !app_nil_r. cbn [List.length].
    repeat split; lia.
  - cbn [applyActions] in H. apply bind_Ok in H as (ed1 & H1 & H).
    apply applyAction_logs in H1 as (Ha & He & Hc & Hh & Hp & Hs).
    apply IH in H as (Ha' & He' & Hc' & Hh' & Hp' & Hs').
    rewrite Ha', He', Hc', Hh', Hp', Hs', Ha, He, Hc, Hh, Hp, Hs.
    rewrite <- !app_assoc, !length_app. cbn [List.length filter app].
    repeat split; try lia.
    destruct (isEditorAction a); reflexivity.
Qed.

(** X1. After construction with [n] actions, each of the five per-step logs
    holds [n + 1] entries. *)
Theorem logs_are_aligned (initialCodeLines : list string)
    (actions : list IAction) (ed : VirtualEditor) :
  constructor initialCodeLines (Some actions) = Ok ed ->
  List.length (getActionsApplied ed) = S (List.length actions)
  /\ List.length (getCodeLinesHistory ed) = S (List.length actions)
  /\ List.length (caretPositionHistory ed) = S (List.length actions)
  /\ List.length (highlightStartPositionHistory ed) = S (List.length actions)
  /\ List.length (highlightHistory ed) = S (List.length actions).
Proof.
  intros H. rewrite UnifiedProps.constructor_actions in H.
  apply bind_Ok in H as (ed0 & H0 & H).
  apply constructor_initial in H0 as (_ & Ha0 & _ & Hc0 & Hp0 & Hs0 & Hh0 & _).
  apply applyActions_logs in H as (Ha & _ & Hc & Hh & Hp & Hs).
  apply (f_equal (@List.length _)) in Hc0.
  unfold getActionsApplied, getCodeLinesHistory in *.
  rewrite length_map in *. cbn [List.length] in Hc0.
  rewrite Ha, Hc, Hh, Hp, Hs, Ha0, Hp0, Hs0, Hh0, Hc0. cbn [List.length app].
  repeat split; lia.
Qed.

(** X2. The full action log is the seed followed by every action applied,
    in order, and the editor-action log is the seed followed by those of
    them that [isEditorAction] accepts. *)
Theorem action_logs_keep_every_action (initialCodeLines : list string)
    (actions : list IAction) (ed : VirtualEditor) :
  constructor initialCodeLines (Some actions) = Ok ed ->
  getActionsApplied ed = seed initialCodeLines :: actions
  /\ getEditorActionsApplied ed
     = seed initialCodeLines :: filter isEditorAction actions.
Proof.
  intros H. rewrite UnifiedProps.constructor_actions in H.
  apply bind_Ok in H as (ed0 & H0 & H).
  apply constructor_initial in H0 as (_ & Ha0 & He0 & _).
  apply applyActions_logs in H as (Ha & He & _).
  unfold getActionsApplied, getEditorActionsApplied.
  rewrite Ha, He, Ha0, He0. split; reflexivity.
Qed.

Lemma record_history_new_snapshot ed f action :
  Heap.deref (heap (record_history ed f action)) (List.length (heap ed))
  = codeLines f.
Proof.
  unfold record_history, Heap.deref. cbn [heap Heap.alloc fst snd].
  rewrite app_nth1
    by (rewrite length_app, UnifiedProps.store_length; cbn [List.length]; lia).
  rewrite app_nth2 by (rewrite UnifiedProps.store_length; lia).
  rewrite UnifiedProps.store_length, Nat.sub_diag. reflexivity.
Qed.

(** One call, seen from the logs: the old snapshots are as they were and
    the new ones are the buffer and the cached highlight after the call. *)
Lemma applyAction_snapshots ed action ed' :
  heap_separated ed -> applyAction ed action = Ok ed' ->
  heap_separated ed'
  /\ getCodeLinesHistory ed' = getCodeLinesHistory ed ++ [getCodeLines ed']
  /\ map (Heap.deref (heap ed')) (highlightHistory ed')
     = map (Heap.deref (heap ed)) (highlightHistory ed)
       ++ [[getCurrentHighlightedCode ed']].
Proof.
  intros Hsep H.
  apply UnifiedProps.applyAction_returned in H as (numTimes & len & f & _ & ->).
  split; [now apply UnifiedProps.record_history_separated|].
  destruct Hsep as (Hlive & Hcode & Hhl).
  unfold getCodeLinesHistory.
  rewrite UnifiedProps.record_history_codeLinesHistory,
    UnifiedProps.record_history_highlightHistory, !map_app.
  cbn [map]. rewrite record_history_new_snapshot,
    UnifiedProps.record_history_last_highlight.
  change (getCodeLines (record_history ed f action))
    with (codeLines (frame (record_history ed f action))).
  rewrite UnifiedProps.record_history_frame by exact Hlive.
  split; f_equal; apply map_ext_in; intros r Hr.
  - rewrite Forall_forall in Hcode. destruct (Hcode r Hr).
    now apply UnifiedProps.record_history_deref.
  - rewrite Forall_forall in Hhl. destruct (Hhl r Hr).
    now apply UnifiedProps.record_history_deref.
Qed.

Lemma applyActions_snapshots actions : forall ed ed',
  heap_separated ed -> applyActions ed actions = Ok ed' ->
  getCodeLinesHistory ed'
  = getCodeLinesHistory ed ++ map getCodeLines (steps ed actions)
  /\ map (Heap.deref (heap ed')) (highlightHistory ed')
     = map (Heap.deref (heap ed)) (highlightHistory ed)
       ++ map (fun e => [getCurrentHighlightedCode e]) (steps ed actions)
  /\ caretPositionHistory ed'
     = caretPositionHistory ed ++ map caret (steps ed actions)
  /\ List.length (steps ed actions) = List.length actions.
Proof.
  induction actions as [|a actions IH]; intros ed ed' Hsep H.
  - apply Ok_inj in H. subst ed'. cbn [steps map List.length].
    now rewrite !app_nil_r.
  - cbn [applyActions steps] in *. apply bind_Ok in H as (ed1 & H1 & H).
    rewrite H1.
    destruct (applyAction_snapshots _ _ _ Hsep H1) as (Hsep1 & Hc1 & Hh1).
    apply applyAction_logs in H1 as (_ & _ & _ & _ & Hp1 & _).
    destruct (IH _ _ Hsep1 H) as (Hc & Hh & Hp & Hlen).
    rewrite Hc, Hh, Hp, Hc1, Hh1, Hp1, <- !app_assoc.
    cbn [map app List.length]. now rewrite Hlen.
Qed.

Lemma history_at_nth h history k :
  (k < List.length history)%nat ->
  history_at h history (Z.of_nat k)
  = Ok (JS.join (nth k (map (Heap.deref h) history) [])).
Proof.
  intros Hk. unfold history_at.
  destruct (Z.of_nat k >? Z.of_nat (List.length history) - 1) eqn:E; [lia|].
  unfold JS.get_defined, JS.get.
  destruct (Z.of_nat k <? 0) eqn:E'; [lia|]. rewrite Nat2Z.id.
  destruct (nth_error history k) as [r|] eqn:Hr.
  - cbn [bind]. f_equal. f_equal.
    rewrite (nth_indep _ [] (Heap.deref h r)) by (now rewrite length_map).
    rewrite map_nth. f_equal. symmetry. now apply nth_error_nth.
  - apply nth_error_None in Hr. lia.
Qed.

(** X3. The history is a replay: [getCodeAtActionIndex(k)] and
    [getHighlightedCodeAtActionIndex(k)] return the text and the cached
    highlight that the editor had right after its [k]-th action (index 0
    being the state at construction). *)
Theorem history_replays_every_step (initialCodeLines : list string)
    (actions : list IAction) (ed0 ed : VirtualEditor) (k : nat) :
  constructor initialCodeLines None = Ok ed0 ->
  applyActions ed0 actions = Ok ed ->
  (k <= List.length actions)%nat ->
  let after_k := nth k (ed0 :: steps ed0 actions) ed0 in
  getCodeAtActionIndex ed (Z.of_nat k) = Ok (getCode after_k)
  /\ getHighlightedCodeAtActionIndex ed (Z.of_nat k)
     = Ok (getCurrentHighlightedCode after_k).
Proof.
  intros H0 H Hk after_k.
  pose proof (UnifiedProps.constructor_invariant _ _ H0) as [Hsep _].
  destruct (applyActions_snapshots _ _ _ Hsep H) as (Hc & Hh & _ & Hlen).
  pose proof (applyActions_logs _ _ _ H) as (_ & _ & Hlc & Hlh & _).
  destruct (constructor_initial _ _ H0) as (Hl0 & _ & _ & Hc0 & _ & _ & Hh0 & Hthis).
  assert (map (Heap.deref (heap ed0)) (highlightHistory ed0)
          = [[getCurrentHighlightedCode ed0]]) as Hh0'.
  { clear - H0. destruct initialCodeLines; apply Ok_inj in H0; subst ed0;
      reflexivity. }
  assert (List.length (codeLinesHistory ed0) = 1%nat) as Hlc0.
  { apply (f_equal (@List.length _)) in Hc0. unfold getCodeLinesHistory in Hc0.
    now rewrite length_map in Hc0. }
  unfold getCodeAtActionIndex, getHighlightedCodeAtActionIndex.
  rewrite !history_at_nth by lia.
  fold (getCodeLinesHistory ed). rewrite Hc, Hh, Hc0, Hh0', <- Hl0.
  change ([getCodeLines ed0] ++ map getCodeLines (steps ed0 actions))
    with (map getCodeLines (ed0 :: steps ed0 actions)).
  change ([[getCurrentHighlightedCode ed0]]
          ++ map (fun e => [getCurrentHighlightedCode e]) (steps ed0 actions))
    with (map (fun e => [getCurrentHighlightedCode e]) (ed0 :: steps ed0 actions)).
  rewrite (nth_indep _ [] (getCodeLines ed0))
    by (rewrite length_map; cbn [List.length]; lia).
  rewrite (nth_indep (map (fun e => [getCurrentHighlightedCode e]) _) []
             [getCurrentHighlightedCode ed0])
    by (rewrite length_map; cbn [List.length]; lia).
  rewrite (map_nth getCodeLines),
    (map_nth (fun e => [getCurrentHighlightedCode e])).
  split; reflexivity.
Qed.

Lemma editor_states_aligned h carets : forall history before positions,
  carets = before ++ positions ->
  List.length positions = List.length history ->
  editor_states h carets history (List.length before)
  = Ok (map (fun p => mkState (JS.join (Heap.deref h (fst p))) (snd p))
          (combine history positions)).
Proof.
  induction history as [|r history IH]; intros before positions Hcarets Hlen;
    [reflexivity|].
  destruct positions as [|p positions]; [discriminate|]. subst carets.
  cbn [editor_states combine map fst snd].
  unfold JS.get_defined, JS.get.
  destruct (Z.of_nat (List.length before) <? 0) eqn:E; [lia|].
  rewrite Nat2Z.id, nth_error_app2, Nat.sub_diag by lia.
  cbn [nth_error bind].
  replace (S (List.length before)) with (List.length (before ++ [p]))
    by (rewrite length_app; cbn [List.length]; lia).
  rewrite (IH (before ++ [p]) positions).
  - cbn [bind]. destruct p. reflexivity.
  - now rewrite <- app_assoc.
  - cbn [List.length] in Hlen. lia.
Qed.

Lemma states_of_logs h (editors : list VirtualEditor) :
  forall history positions,
    map (Heap.deref h) history = map getCodeLines editors ->
    positions = map caret editors ->
    map (fun p => mkState (JS.join (Heap.deref h (fst p))) (snd p))
      (combine history positions)
    = map state_of editors.
Proof.
  induction editors as [|e editors IH]; intros history positions Hh ->.
  - destruct history; [reflexivity | discriminate].
  - destruct history as [|r history]; [discriminate|].
    cbn [map combine fst snd] in *. injection Hh as Hr Hh.
    rewrite (IH history _ Hh eq_refl). unfold state_of, getCode.
    now rewrite Hr.
Qed.

(** X4. [getEditorStateAfterEachStep()] returns, with one entry per step:
    the text and the internal (0-indexed) caret that the editor had right
    after that step. *)
Theorem editor_states_replay_every_step (initialCodeLines : list string)
    (actions : list IAction) (ed0 ed : VirtualEditor) :
  constructor initialCodeLines None = Ok ed0 ->
  applyActions ed0 actions = Ok ed ->
  getEditorStateAfterEachStep ed = Ok (map state_of (ed0 :: steps ed0 actions)).
Proof.
  intros H0 H.
  pose proof (UnifiedProps.constructor_invariant _ _ H0) as [Hsep _].
  destruct (applyActions_snapshots _ _ _ Hsep H) as (Hc & _ & Hp & Hlen).
  pose proof (applyActions_logs _ _ _ H) as (_ & _ & Hlc & _ & Hlp & _).
  destruct (constructor_initial _ _ H0) as (Hl0 & _ & _ & Hc0 & Hp0 & _).
  assert (caretPositionHistory ed0 = [caret ed0]) as Hp0'.
  { clear - H0. destruct initialCodeLines; apply Ok_inj in H0; subst ed0;
      reflexivity. }
  unfold getEditorStateAfterEachStep.
  change O with (@List.length IEditorPosition []).
  rewrite (editor_states_aligned (heap ed) (caretPositionHistory ed)
             (codeLinesHistory ed) [] (caretPositionHistory ed) eq_refl).
  - f_equal. apply states_of_logs.
    + fold (getCodeLinesHistory ed). rewrite Hc, Hc0, <- Hl0. reflexivity.
    + rewrite Hp, Hp0'. reflexivity.
  - apply (f_equal (@List.length _)) in Hc0. unfold getCodeLinesHistory in Hc0.
    rewrite length_map in Hc0. rewrite Hlc, Hlp, Hc0, Hp0. reflexivity.
Qed.

(** X5. With [n] actions applied, the two indexed accessors return exactly
    for the indices 0..n: a larger index throws "Action index out of
    bounds", and a negative one, which the bounds check lets through,
    fails on the missing entry with a type error. *)
Theorem history_index_bounds (initialCodeLines : list string)
    (actions : list IAction) (ed : VirtualEditor) (i : Z) :
  constructor initialCodeLines (Some actions) = Ok ed ->
  let n := Z.of_nat (List.length actions) in
  (n < i ->
   getCodeAtActionIndex ed i = Throw ActionIndexOutOfBounds
   /\ getHighlightedCodeAtActionIndex ed i = Throw ActionIndexOutOfBounds)
  /\ (i < 0 ->
      getCodeAtActionIndex ed i = Throw TypeError
      /\ getHighlightedCodeAtActionIndex ed i = Throw TypeError)
  /\ (0 <= i <= n ->
      exists text highlighted,
        getCodeAtActionIndex ed i = Ok text
        /\ getHighlightedCodeAtActionIndex ed i = Ok highlighted).
Proof.
  intros H n. rewrite UnifiedProps.constructor_actions in H.
  apply bind_Ok in H as (ed0 & H0 & H).
  pose proof (applyActions_logs _ _ _ H) as (_ & _ & Hlc & Hlh & _).
  destruct (constructor_initial _ _ H0) as (_ & _ & _ & Hc0 & _ & _ & Hh0 & _).
  apply (f_equal (@List.length _)) in Hc0. unfold getCodeLinesHistory in Hc0.
  rewrite length_map in Hc0. cbn [List.length] in Hc0.
  unfold getCodeAtActionIndex, getHighlightedCodeAtActionIndex, history_at.
  rewrite Hlc, Hlh, Hc0, Hh0. fold n.
  split; [|split].
  - intros Hi. destruct (i >? Z.of_nat (1 + List.length actions) - 1) eqn:E;
      [split; reflexivity | lia].
  - intros Hi. destruct (i >? Z.of_nat (1 + List.length actions) - 1) eqn:E;
      [lia|].
    unfold JS.get_defined, JS.get. destruct (i <? 0) eqn:E'; [|lia].
    split; reflexivity.
  - intros Hi. replace i with (Z.of_nat (Z.to_nat i)) by lia.
    pose proof (history_at_nth (heap ed) (codeLinesHistory ed) (Z.to_nat i))
      as Hcode.
    pose proof (history_at_nth (heap ed) (highlightHistory ed) (Z.to_nat i))
      as Hhighlight.
    unfold history_at in Hcode, Hhighlight.
    rewrite Hlc, Hc0 in Hcode. rewrite Hlh, Hh0 in Hhighlight.
    rewrite Hcode, Hhighlight by lia. eauto.
Qed.

End Engine.

Lemma logs_are_aligned_witness :
  exists ed,
    constructor (types := SpecTypes.types) []
      (Some Trace.short_then_long_then_up) = Ok ed
    /\ List.length (getActionsApplied ed) = 5%nat
    /\ List.length (getCodeLinesHistory ed) = 5%nat
    /\ List.length (caretPositionHistory ed) = 5%nat
    /\ List.length (highlightStartPositionHistory ed) = 5%nat
    /\ List.length (highlightHistory ed) = 5%nat.
Proof.
  eexists. split; [vm_compute; reflexivity|].
  apply (logs_are_aligned (types := SpecTypes.types) []
           Trace.short_then_long_then_up).
  vm_compute. reflexivity.
Defined.

Lemma action_logs_keep_every_action_witness :
  exists ed,
    constructor (types := SpecTypes.types) []
      (Some [mkAction "author-speak-before" "Hello"; Trace.type "x"]) = Ok ed
    /\ getActionsApplied ed
       = [Trace.type ""; mkAction "author-speak-before" "Hello"; Trace.type "x"]
    /\ getEditorActionsApplied ed = [Trace.type ""; Trace.type "x"].
Proof.
  eexists. split; [vm_compute; reflexivity|].
  apply (action_logs_keep_every_action (types := SpecTypes.types) []
           [mkAction "author-speak-before" "Hello"; Trace.type "x"]).
  vm_compute. reflexivity.
Defined.

Lemma history_replays_every_step_witness :
  exists ed0 ed,
    constructor (types := SpecTypes.types) [] None = Ok ed0
    /\ applyActions (types := SpecTypes.types) ed0
         Trace.short_then_long_then_up = Ok ed
    /\ getCodeAtActionIndex ed 2 = Ok (JS.join ["short"; ""])
    /\ getHighlightedCodeAtActionIndex ed 2 = Ok "".
Proof.
  eexists. eexists. split; [vm_compute; reflexivity|].
  match goal with
  | |- applyActions ?ed0 _ = _ /\ _ =>
      assert (constructor (types := SpecTypes.types) [] None = Ok ed0) as H0
        by (vm_compute; reflexivity)
  end.
  split; [vm_compute; reflexivity|].
  match goal with
  | H0 : constructor _ _ = Ok ?ed0 |- getCodeAtActionIndex ?ed _ = _ /\ _ =>
      assert (applyActions (types := SpecTypes.types) ed0
                Trace.short_then_long_then_up = Ok ed) as Hrun
        by (vm_compute; reflexivity)
  end.
  assert (2 <= List.length Trace.short_then_long_then_up)%nat as Hk
    by (vm_compute; lia).
  destruct (history_replays_every_step (types := SpecTypes.types) []
              Trace.short_then_long_then_up _ _ 2 H0 Hrun Hk) as [Hcode Hhl].
  split; (eapply eq_trans; [eassumption | vm_compute; reflexivity]).
Defined.

Lemma editor_states_replay_every_step_witness :
  exists ed0 ed,
    constructor (types := SpecTypes.types) ["ab"] None = Ok ed0
    /\ applyActions (types := SpecTypes.types) ed0
         [Trace.key "arrow-right" "1"; Trace.type "X"] = Ok ed
    /\ getEditorStateAfterEachStep ed
       = Ok [mkState "ab" (mkPos 0 0); mkState "ab" (mkPos 0 1);
             mkState "aXb" (mkPos 0 2)].
Proof.
  eexists. eexists. split; [vm_compute; reflexivity|].
  match goal with
  | |- applyActions ?ed0 _ = _ /\ _ =>
      assert (constructor (types := SpecTypes.types) ["ab"] None = Ok ed0) as H0
        by (vm_compute; reflexivity)
  end.
  split; [vm_compute; reflexivity|].
  match goal with
  | H0 : constructor _ _ = Ok ?ed0 |- getEditorStateAfterEachStep ?ed = _ =>
      assert (applyActions (types := SpecTypes.types) ed0
                [Trace.key "arrow-right" "1"; Trace.type "X"] = Ok ed) as Hrun
        by (vm_compute; reflexivity)
  end.
  eapply eq_trans;
    [exact (editor_states_replay_every_step (types := SpecTypes.types)
              ["ab"] _ _ _ H0 Hrun)
    | vm_compute; reflexivity].
Defined.

Lemma history_index_bounds_witness :
  exists ed,
    constructor (types := SpecTypes.types) ["ab"]
      (Some [Trace.key "arrow-right" "1"; Trace.type "X"]) = Ok ed
    /\ getCodeAtActionIndex ed 3 = Throw ActionIndexOutOfBounds
    /\ getHighlightedCodeAtActionIndex ed 3 = Throw ActionIndexOutOfBounds.
Proof.
  eexists. split; [vm_compute; reflexivity|].
  match goal with
  | |- getCodeAtActionIndex ?ed _ = _ /\ _ =>
      assert (constructor (types := SpecTypes.types) ["ab"]
                (Some [Trace.key "arrow-right" "1"; Trace.type "X"]) = Ok ed)
        as H by (vm_compute; reflexivity);
      destruct (history_index_bounds (types := SpecTypes.types) ["ab"]
                  [Trace.key "arrow-right" "1"; Trace.type "X"] ed 3 H)
        as [Hhigh _]
  end.
  apply Hhigh. vm_compute. reflexivity.
Defined.

End Logs.

(** ** What each kind of action changes *)

Module Behaviour.
Import Unified Pred Run.

(** A state that differs from [f] in the caret only. *)
Lemma caret_only_refl (f : Frame) :
  exists r c, f = set_caret f r c.
Proof. exists (caretRow f), (caretCol f). destruct f. reflexivity. Qed.

Ltac caret_only :=
  UnifiedProps.returned; subst;
  repeat match goal with f : Frame |- _ => destruct f end;
  do 2 eexists; reflexivity.

Lemma arrow_down_step_caret_only f s :
  (exists r c, s = set_caret f r c) ->
  exists r c, arrow_down_step s = set_caret f r c.
Proof.
  intros (r & c & ->). unfold arrow_down_step.
  destruct (caretRow (set_caret f r c) <? line_count (set_caret f r c) - 1);
    caret_only.
Qed.

Lemma arrow_up_step_caret_only f s :
  (exists r c, s = set_caret f r c) ->
  exists r c, arrow_up_step s = set_caret f r c.
Proof.
  intros (r & c & ->). unfold arrow_up_step.
  destruct (caretRow (set_caret f r c) >? 0); caret_only.
Qed.

Lemma arrow_right_step_caret_only currentLineLength f s :
  (exists r c, s = set_caret f r c) ->
  exists r c, arrow_right_step currentLineLength s = set_caret f r c.
Proof.
  intros (r & c & ->). unfold arrow_right_step.
  destruct (caretCol (set_caret f r c) <? currentLineLength); [caret_only|].
  destruct (caretRow (set_caret f r c) <? line_count (set_caret f r c) - 1);
    caret_only.
Qed.

Lemma command_left_step_caret_only f s :
  (exists r c, s = set_caret f r c) ->
  exists r c, command_left_step s = set_caret f r c.
Proof.
  intros (r & c & ->). unfold command_left_step.
  destruct (caretCol (set_caret f r c) >? 0); caret_only.
Qed.

Lemma arrow_left_step_caret_only f s s' :
  (exists r c, s = set_caret f r c) -> arrow_left_step s = Ok s' ->
  exists r c, s' = set_caret f r c.
Proof. intros (r & c & ->) H. unfold arrow_left_step in H. caret_only. Qed.

Lemma command_right_step_caret_only f s s' :
  (exists r c, s = set_caret f r c) -> command_right_step s = Ok s' ->
  exists r c, s' = set_caret f r c.
Proof. intros (r & c & ->) H. unfold command_right_step in H. caret_only. Qed.

Lemma shift_arrow_left_step_caret_only f s s' :
  (exists r c, s = set_caret f r c) -> shift_arrow_left_step s = Ok s' ->
  exists r c, s' = set_caret f r c.
Proof. intros (r & c & ->) H. unfold shift_arrow_left_step in H. caret_only. Qed.

Lemma shift_arrow_right_step_caret_only f s s' :
  (exists r c, s = set_caret f r c) -> shift_arrow_right_step s = Ok s' ->
  exists r c, s' = set_caret f r c.
Proof. intros (r & c & ->) H. unfold shift_arrow_right_step in H. caret_only. Qed.

Lemma shift_arrow_down_step_caret_only f s s' :
  (exists r c, s = set_caret f r c) -> shift_arrow_down_step s = Ok s' ->
  exists r c, s' = set_caret f r c.
Proof. intros (r & c & ->) H. unfold shift_arrow_down_step in H. caret_only. Qed.

Lemma shift_arrow_up_step_caret_only f s s' :
  (exists r c, s = set_caret f r c) -> shift_arrow_up_step s = Ok s' ->
  exists r c, s' = set_caret f r c.
Proof. intros (r & c & ->) H. unfold shift_arrow_up_step in H. caret_only. Qed.

(** The selection-extending cases move the caret, set the anchor when there
    is none, and fill the cache. *)
Lemma case_editor_shift_arrow_caret_only step numTimes f f' :
  (forall g s s', (exists r c, s = set_caret g r c) -> step s = Ok s' ->
                  exists r c, s' = set_caret g r c) ->
  case_editor_shift_arrow step numTimes f = Ok f' ->
  exists r c text,
    f' = set_currentlyHighlightedCode (set_caret (start_selection f) r c) text.
Proof.
  intros Hstep H. unfold case_editor_shift_arrow in H.
  apply bind_Ok in H as (f1 & H1 & H). apply bind_Ok in H as (text & _ & H).
  apply Ok_inj in H. subst f'.
  apply (for_loop_invariant
           (fun s => exists r c, s = set_caret (start_selection f) r c) _
           (Hstep (start_selection f))) in H1;
    [|apply caret_only_refl].
  destruct H1 as (r & c & ->). eauto.
Qed.

(** The buffer, the saved flag and the menu flag after a case that has no
    assignment to them. *)
Lemma switch_keeps_buffer numTimes currentLineLength action f f' :
  keeps_buffer (action_name action) = true ->
  switch numTimes currentLineLength action f = Ok f' ->
  codeLines f' = codeLines f
  /\ (action_name action <> EditorSave -> isSaved f' = isSaved f)
  /\ (action_name action <> EditorShowContextMenu ->
      action_name action <> EditorHideContextMenu ->
      isEditorContextMenuOpen f' = isEditorContextMenuOpen f).
Proof.
  unfold switch. intros Hkind H.
  assert (forall g : Frame,
             (exists r c, g = set_caret f r c) ->
             f' = clearCurrentHighlightedCode g ->
             codeLines f' = codeLines f /\ isSaved f' = isSaved f
             /\ isEditorContextMenuOpen f' = isEditorContextMenuOpen f) as Hmove.
  { intros g (r & c & ->) ->. destruct f. repeat split. }
  assert (forall step,
             (forall g s s', (exists r c, s = set_caret g r c) ->
                             step s = Ok s' -> exists r c, s' = set_caret g r c) ->
             case_editor_shift_arrow step numTimes f = Ok f' ->
             codeLines f' = codeLines f /\ isSaved f' = isSaved f
             /\ isEditorContextMenuOpen f' = isEditorContextMenuOpen f) as Hshift.
  { intros step Hstep Hrun.
    apply case_editor_shift_arrow_caret_only in Hrun as (r & c & text & ->);
      [|exact Hstep].
    unfold start_selection. destruct (highlightStartRow f =? -1);
      destruct f; repeat split. }
  destruct (action_name action); try discriminate Hkind.
  - apply Ok_inj in H. subst f'. destruct f. repeat split; congruence.
  - apply Ok_inj in H. subst f'. destruct f. repeat split; congruence.
  - apply Ok_inj in H. symmetry in H. apply Hmove in H; [tauto|].
    apply (repeat_loop_invariant (fun s => exists r c, s = set_caret f r c));
      [apply arrow_down_step_caret_only | apply caret_only_refl].
  - apply Ok_inj in H. symmetry in H. apply Hmove in H; [tauto|].
    apply (repeat_loop_invariant (fun s => exists r c, s = set_caret f r c));
      [apply arrow_up_step_caret_only | apply caret_only_refl].
  - apply Ok_inj in H. symmetry in H. apply Hmove in H; [tauto|].
    apply (repeat_loop_invariant (fun s => exists r c, s = set_caret f r c));
      [apply arrow_right_step_caret_only | apply caret_only_refl].
  - unfold case_editor_arrow_left in H. apply bind_Ok in H as (g & Hg & H).
    apply Ok_inj in H. symmetry in H. apply Hmove in H; [tauto|].
    eapply (for_loop_invariant (fun s => exists r c, s = set_caret f r c));
      [apply arrow_left_step_caret_only | apply caret_only_refl | exact Hg].
  - apply Ok_inj in H. symmetry in H. apply Hmove in H; [tauto|].
    apply (repeat_loop_invariant (fun s => exists r c, s = set_caret f r c));
      [apply command_left_step_caret_only | apply caret_only_refl].
  - unfold case_editor_command_right in H. apply bind_Ok in H as (g & Hg & H).
    apply Ok_inj in H. symmetry in H. apply Hmove in H; [tauto|].
    eapply (for_loop_invariant (fun s => exists r c, s = set_caret f r c));
      [apply command_right_step_caret_only | apply caret_only_refl | exact Hg].
  - apply Hshift in H; [tauto | apply shift_arrow_left_step_caret_only].
  - apply Hshift in H; [tauto | apply shift_arrow_right_step_caret_only].
  - apply Hshift in H; [tauto | apply shift_arrow_down_step_caret_only].
  - apply Hshift in H; [tauto | apply shift_arrow_up_step_caret_only].
  - apply Ok_inj in H. subst f'. destruct f. repeat split; congruence.
  - apply Ok_inj in H. subst f'. repeat split.
Qed.

(** *** The selection anchor *)

Ltac anchor_kept := UnifiedProps.cache.

Lemma enter_step_anchor f f' :
  enter_step f = Ok f' ->
  highlightStartRow f' = highlightStartRow f
  /\ highlightStartCol f' = highlightStartCol f.
Proof. unfold enter_step. intros H. anchor_kept. Qed.

Lemma type_remaining_lines_anchor restOfLine rest : forall f,
  highlightStartRow (type_remaining_lines restOfLine rest f) = highlightStartRow f
  /\ highlightStartCol (type_remaining_lines restOfLine rest f)
     = highlightStartCol f.
Proof.
  induction rest as [|x rest IH]; intros f; [split; reflexivity|].
  cbn [type_remaining_lines]. destruct rest as [|y rest]; [anchor_kept|].
  destruct (IH (splice_lines (set_caretRow f (caretRow f + 1))
                  (caretRow (set_caretRow f (caretRow f + 1))) 0 [x]))
    as [Hrow Hcol].
  rewrite Hrow, Hcol. anchor_kept.
Qed.

Lemma type_step_anchor value lines f f' :
  type_step value lines f = Ok f' ->
  highlightStartRow f' = highlightStartRow f
  /\ highlightStartCol f' = highlightStartCol f.
Proof.
  unfold type_step. intros H. destruct lines as [|first [|second rest]].
  - anchor_kept.
  - anchor_kept.
  - UnifiedProps.returned. subst f'.
    match goal with
    | |- context [type_remaining_lines ?a ?b ?g] =>
        destruct (type_remaining_lines_anchor a b g) as [Hrow Hcol]
    end.
    rewrite Hrow, Hcol. anchor_kept.
Qed.

Lemma backspace_step_anchor f f' :
  backspace_step f = Ok f' ->
  highlightStartRow f' = highlightStartRow f
  /\ highlightStartCol f' = highlightStartCol f.
Proof. unfold backspace_step. intros H. anchor_kept. Qed.

Lemma insert_step_anchor text f f' :
  insert_step text f = Ok f' ->
  highlightStartRow f' = highlightStartRow f
  /\ highlightStartCol f' = highlightStartCol f.
Proof. unfold insert_step. intros H. anchor_kept. Qed.

Lemma for_loop_anchor (step : Frame -> result Frame) :
  (forall s s', step s = Ok s' ->
                highlightStartRow s' = highlightStartRow s
                /\ highlightStartCol s' = highlightStartCol s) ->
  forall n f f', for_loop n step f = Ok f' ->
    highlightStartRow f' = highlightStartRow f
    /\ highlightStartCol f' = highlightStartCol f.
Proof.
  intros Hstep n f f'.
  apply (for_loop_invariant
           (fun s => highlightStartRow s = highlightStartRow f
                     /\ highlightStartCol s = highlightStartCol f));
    [|split; reflexivity].
  intros s s' [Hrow Hcol] H. apply Hstep in H as [Hrow' Hcol']. split; congruence.
Qed.

Lemma delete_range_ends_selection startRow endRow startCol endCol f f' :
  delete_range startRow endRow startCol endCol f = Ok f' ->
  highlightStartRow f' = -1.
Proof. unfold delete_range. intros H. anchor_kept. Qed.

Lemma type_delete_selection_ends_selection f f' :
  type_delete_selection f = Ok f' -> highlightStartRow f' = -1.
Proof.
  unfold type_delete_selection. intros H.
  destruct (Z.eqb_spec (highlightStartRow f) (-1)) as [Hsel|Hsel]; cbn [negb] in H.
  - apply Ok_inj in H. now subst f'.
  - anchor_kept.
Qed.

Lemma switch_ends_selection numTimes currentLineLength action f f' :
  ends_selection (action_name action) = true ->
  switch numTimes currentLineLength action f = Ok f' ->
  highlightStartRow f' = -1.
Proof.
  unfold switch. intros Hkind H.
  destruct (action_name action); try discriminate Hkind.
  - unfold case_editor_enter in H.
    destruct (Z.eqb_spec (highlightStartRow (set_isSaved f false)) (-1))
      as [Hsel|Hsel]; cbn [negb] in H.
    + apply (for_loop_anchor _ enter_step_anchor) in H as [-> _]. exact Hsel.
    + anchor_kept.
  - unfold case_editor_type in H. apply bind_Ok in H as (f1 & H1 & H).
    apply type_delete_selection_ends_selection in H1.
    apply (for_loop_anchor _ (type_step_anchor _ _)) in H as [-> _]. exact H1.
  - apply Ok_inj in H. now subst f'.
  - apply Ok_inj in H. now subst f'.
  - apply Ok_inj in H. now subst f'.
  - unfold case_editor_arrow_left in H. apply bind_Ok in H as (g & _ & H).
    apply Ok_inj in H. now subst f'.
  - unfold case_editor_backspace in H.
    destruct (Z.eqb_spec (highlightStartRow (set_isSaved f false)) (-1))
      as [Hsel|Hsel]; cbn [negb] in H.
    + apply (for_loop_anchor _ backspace_step_anchor) in H as [-> _]. exact Hsel.
    + eauto using delete_range_ends_selection.
  - unfold case_editor_space in H. apply bind_Ok in H as (f1 & H1 & H).
    apply (for_loop_anchor _ (insert_step_anchor _)) in H as [-> _].
    destruct (Z.eqb_spec (highlightStartRow (set_isSaved f false)) (-1))
      as [Hsel|Hsel]; cbn [negb] in H1.
    + apply Ok_inj in H1. now subst f1.
    + eauto using delete_range_ends_selection.
  - apply Ok_inj in H. now subst f'.
  - unfold case_editor_command_right in H. apply bind_Ok in H as (g & _ & H).
    apply Ok_inj in H. now subst f'.
Qed.

Lemma switch_keeps_anchor numTimes currentLineLength action f f' :
  keeps_anchor (action_name action) = true ->
  switch numTimes currentLineLength action f = Ok f' ->
  highlightStartRow f' = highlightStartRow f
  /\ highlightStartCol f' = highlightStartCol f.
Proof.
  unfold switch. intros Hkind H.
  destruct (action_name action); try discriminate Hkind.
  - apply Ok_inj in H. now subst f'.
  - apply Ok_inj in H. now subst f'.
  - unfold case_editor_tab in H.
    now apply (for_loop_anchor _ (insert_step_anchor _)) in H.
  - apply Ok_inj in H. now subst f'.
  - apply Ok_inj in H. now subst f'.
Qed.

(** *** Closed forms of the caret movements *)

Lemma repeat_arrow_up n : forall r c hr hc L hl saved menu,
  0 <= r ->
  repeat_loop n arrow_up_step (mkFields r c hr hc L hl saved menu)
  = mkFields (Z.max (r - Z.of_nat n) 0) c hr hc L hl saved menu.
Proof.
  induction n as [|n IH]; intros r c hr hc L hl saved menu Hr.
  - cbn [repeat_loop]. f_equal. lia.
  - cbn [repeat_loop]. unfold arrow_up_step at 2. UnifiedProps.fields.
    destruct (Z.gtb_spec r 0); rewrite IH by lia; f_equal; lia.
Qed.

Lemma repeat_arrow_down n : forall r c hr hc (L : list string) hl saved menu,
  r < Z.of_nat (List.length L) ->
  repeat_loop n arrow_down_step (mkFields r c hr hc L hl saved menu)
  = mkFields (Z.min (r + Z.of_nat n) (Z.of_nat (List.length L) - 1))
      c hr hc L hl saved menu.
Proof.
  induction n as [|n IH]; intros r c hr hc L hl saved menu Hr.
  - cbn [repeat_loop]. f_equal. lia.
  - cbn [repeat_loop]. unfold arrow_down_step at 2. UnifiedProps.fields.
    destruct (Z.ltb_spec r (Z.of_nat (List.length L) - 1));
      rewrite IH by lia; f_equal; lia.
Qed.

Lemma repeat_arrow_right n currentLineLength :
  forall r c hr hc (L : list string) hl saved menu,
  c + Z.of_nat n <= currentLineLength ->
  repeat_loop n (arrow_right_step currentLineLength)
    (mkFields r c hr hc L hl saved menu)
  = mkFields r (c + Z.of_nat n) hr hc L hl saved menu.
Proof.
  induction n as [|n IH]; intros r c hr hc L hl saved menu Hc.
  - cbn [repeat_loop]. f_equal. lia.
  - cbn [repeat_loop]. unfold arrow_right_step at 2. UnifiedProps.fields.
    destruct (Z.ltb_spec c currentLineLength); [|lia].
    rewrite IH by lia. f_equal. lia.
Qed.

Lemma repeat_arrow_left n : forall r c hr hc (L : list string) hl saved menu,
  Z.of_nat n <= c ->
  for_loop n arrow_left_step (mkFields r c hr hc L hl saved menu)
  = Ok (mkFields r (c - Z.of_nat n) hr hc L hl saved menu).
Proof.
  induction n as [|n IH]; intros r c hr hc L hl saved menu Hc.
  - cbn [for_loop]. do 2 f_equal. lia.
  - cbn [for_loop]. unfold arrow_left_step at 1. UnifiedProps.fields.
    destruct (Z.gtb_spec c 0); [|lia]. cbn [bind].
    rewrite IH by lia. do 2 f_equal. lia.
Qed.

Lemma repeat_command_left n : forall r c hr hc (L : list string) hl saved menu,
  (0 < n)%nat ->
  repeat_loop n command_left_step (mkFields r c hr hc L hl saved menu)
  = mkFields r (Z.min c 0) hr hc L hl saved menu.
Proof.
  induction n as [|n IH]; intros r c hr hc L hl saved menu Hn; [lia|].
  cbn [repeat_loop]. unfold command_left_step at 2. UnifiedProps.fields.
  destruct n as [|n].
  - cbn [repeat_loop]. destruct (Z.gtb_spec c 0); f_equal; lia.
  - destruct (Z.gtb_spec c 0); rewrite IH by lia; f_equal; lia.
Qed.

Lemma repeat_command_right n : forall r c hr hc (L : list string) hl saved menu l,
  (0 < n)%nat -> JS.get L r = Some l ->
  for_loop n command_right_step (mkFields r c hr hc L hl saved menu)
  = Ok (mkFields r (Z.max c (JS.len l)) hr hc L hl saved menu).
Proof.
  induction n as [|n IH]; intros r c hr hc L hl saved menu l Hn Hl; [lia|].
  cbn [for_loop]. unfold command_right_step at 1, line, JS.get_defined.
  UnifiedProps.fields. rewrite Hl. cbn [bind].
  destruct n as [|n].
  - destruct (Z.ltb_spec c (JS.len l)); cbn [bind for_loop]; do 2 f_equal; lia.
  - destruct (Z.ltb_spec c (JS.len l)); cbn [bind];
      rewrite (IH _ _ _ _ _ _ _ _ l) by (lia || exact Hl); do 2 f_equal; lia.
Qed.

Lemma case_editor_arrow_up_caret n f :
  0 <= n -> 0 <= caretRow f ->
  caretRow (case_editor_arrow_up (Some n) f) = Z.max (caretRow f - n) 0
  /\ caretCol (case_editor_arrow_up (Some n) f) = caretCol f.
Proof.
  intros Hn Hr. destruct f as [r c hr hc L hl saved menu].
  unfold case_editor_arrow_up, JS.iterations. UnifiedProps.fields.
  rewrite repeat_arrow_up by lia. UnifiedProps.fields.
  rewrite Z2Nat.id by lia. split; reflexivity.
Qed.

Lemma case_editor_arrow_down_caret n f :
  0 <= n -> caret_row_in_buffer f ->
  caretRow (case_editor_arrow_down (Some n) f)
  = Z.min (caretRow f + n) (Z.of_nat (List.length (codeLines f)) - 1)
  /\ caretCol (case_editor_arrow_down (Some n) f) = caretCol f.
Proof.
  intros Hn Hr. destruct f as [r c hr hc L hl saved menu].
  unfold case_editor_arrow_down, JS.iterations. UnifiedProps.fields.
  rewrite repeat_arrow_down by lia. UnifiedProps.fields.
  rewrite Z2Nat.id by lia. split; reflexivity.
Qed.

Lemma case_editor_arrow_right_caret n currentLineLength f :
  0 <= n -> caretCol f + n <= currentLineLength ->
  caretRow (case_editor_arrow_right (Some n) currentLineLength f) = caretRow f
  /\ caretCol (case_editor_arrow_right (Some n) currentLineLength f)
     = caretCol f + n.
Proof.
  intros Hn Hc. destruct f as [r c hr hc L hl saved menu].
  unfold case_editor_arrow_right, JS.iterations. UnifiedProps.fields.
  rewrite repeat_arrow_right by lia. UnifiedProps.fields.
  rewrite Z2Nat.id by lia. split; reflexivity.
Qed.

Lemma case_editor_arrow_left_caret n f :
  0 <= n -> n <= caretCol f ->
  exists f',
    case_editor_arrow_left (Some n) f = Ok f'
    /\ caretRow f' = caretRow f /\ caretCol f' = caretCol f - n.
Proof.
  intros Hn Hc. destruct f as [r c hr hc L hl saved menu].
  unfold case_editor_arrow_left, JS.iterations. UnifiedProps.fields.
  rewrite repeat_arrow_left by lia. cbn [bind]. eexists. split; [reflexivity|].
  UnifiedProps.fields. rewrite Z2Nat.id by lia. split; reflexivity.
Qed.

Lemma case_editor_command_left_caret n f :
  1 <= n ->
  caretRow (case_editor_command_left (Some n) f) = caretRow f
  /\ caretCol (case_editor_command_left (Some n) f) = Z.min (caretCol f) 0.
Proof.
  intros Hn. destruct f as [r c hr hc L hl saved menu].
  unfold case_editor_command_left, JS.iterations. UnifiedProps.fields.
  rewrite repeat_command_left by lia. split; reflexivity.
Qed.

Lemma case_editor_command_right_caret n f l :
  1 <= n -> JS.get (codeLines f) (caretRow f) = Some l ->
  exists f',
    case_editor_command_right (Some n) f = Ok f'
    /\ caretRow f' = caretRow f /\ caretCol f' = Z.max (caretCol f) (JS.len l).
Proof.
  intros Hn Hl. destruct f as [r c hr hc L hl saved menu].
  unfold case_editor_command_right, JS.iterations. UnifiedProps.fields.
  rewrite (repeat_command_right _ _ _ _ _ _ _ _ _ l) by (lia || exact Hl).
  cbn [bind]. eexists. split; [reflexivity|]. split; reflexivity.
Qed.

Section Engine.
Context {types : ActionTypes}.

Lemma constructor_returns_initial initialCodeLines :
  exists ed0, constructor initialCodeLines None = Ok ed0.
Proof.
  unfold constructor.
  destruct (List.length initialCodeLines =? 0)%nat; eexists; reflexivity.
Qed.

Lemma applyActions_return actions : forall ed,
  invariant ed ->
  Forall (fun a => action_name a = EditorEnter -> enter_count_ok (repeat_count a))
    actions ->
  exists ed', applyActions ed actions = Ok ed'.
Proof.
  induction actions as [|a actions IH]; intros ed Hinv Hall; [simpl; eauto|].
  inversion Hall as [|a' actions' Ha Hrest]; subst.
  destruct (Returns.applyAction_returns ed a Hinv) as [ed1 H1]; [auto|].
  cbn [applyActions]. rewrite H1. cbn [bind].
  apply IH; [|exact Hrest]. eauto using UnifiedProps.applyAction_invariant.
Qed.


Lemma record_history_getCodeLines ed f action :
  heap_separated ed -> getCodeLines (record_history ed f action) = codeLines f.
Proof.
  intros Hsep.
  change (getCodeLines (record_history ed f action))
    with (codeLines (frame (record_history ed f action))).
  rewrite UnifiedProps.record_history_frame by apply Hsep. reflexivity.
Qed.

Lemma record_history_this ed f action :
  caretRow (this (record_history ed f action)) = caretRow f
  /\ caretCol (this (record_history ed f action)) = caretCol f
  /\ highlightStartRow (this (record_history ed f action)) = highlightStartRow f
  /\ highlightStartCol (this (record_history ed f action)) = highlightStartCol f
  /\ isSaved (this (record_history ed f action)) = isSaved f
  /\ isEditorContextMenuOpen (this (record_history ed f action))
     = isEditorContextMenuOpen f
  /\ currentlyHighlightedCode (this (record_history ed f action))
     = currentlyHighlightedCode f.
Proof. destruct f. repeat split. Qed.

(** X7. An action whose case does not touch the buffer - the arrows, the
    command and shift+arrow keys, save, the context menu and every
    unrecognised name - leaves the lines as they are; all of them but save
    leave the saved flag, and all but the two menu actions the menu flag. *)
Theorem movement_keeps_buffer (ed ed' : VirtualEditor) (action : IAction) :
  reachable ed ->
  keeps_buffer (action_name action) = true ->
  applyAction ed action = Ok ed' ->
  getCodeLines ed' = getCodeLines ed
  /\ (action_name action <> EditorSave -> getIsSaved ed' = getIsSaved ed)
  /\ (action_name action <> EditorShowContextMenu ->
      action_name action <> EditorHideContextMenu ->
      getIsEditorContextMenuOpen ed' = getIsEditorContextMenuOpen ed).
Proof.
  intros Hreach Hkind H.
  apply UnifiedProps.reachable_invariant in Hreach as [Hsep _].
  apply UnifiedProps.applyAction_returned in H as (numTimes & len & f & Hf & ->).
  apply switch_keeps_buffer in Hf as (Hlines & Hsaved & Hmenu); [|exact Hkind].
  rewrite record_history_getCodeLines by exact Hsep.
  destruct (record_history_this ed f action)
    as (_ & _ & _ & _ & Hs & Hm & _).
  unfold getIsSaved, getIsEditorContextMenuOpen. rewrite Hs, Hm.
  split; [exact Hlines|]. split.
  - intros Hname. rewrite (Hsaved Hname). reflexivity.
  - intros Hshow Hhide. rewrite (Hmenu Hshow Hhide). reflexivity.
Qed.

(** X8. After enter, typing, backspace, space, a plain arrow or a command
    key there is no selection: [getCurrentHighlightCoordinates()] is
    [null], whatever the state before and whatever the count. *)
Theorem selection_ends (ed ed' : VirtualEditor) (action : IAction) :
  ends_selection (action_name action) = true ->
  applyAction ed action = Ok ed' ->
  getCurrentHighlightCoordinates ed' = None.
Proof.
  intros Hkind H.
  apply UnifiedProps.applyAction_returned in H as (numTimes & len & f & Hf & ->).
  apply switch_ends_selection in Hf; [|exact Hkind].
  unfold getCurrentHighlightCoordinates.
  destruct (record_history_this ed f action) as (_ & _ & -> & _).
  rewrite Hf. reflexivity.
Qed.

(** X9. Tab, save, the context menu and unrecognised actions leave the
    anchor of a selection where it is while the highlighted text is reset:
    after them [getCurrentHighlightCoordinates()] has the start it had and
    [getCurrentHighlightedCode()] is empty. *)
Theorem anchor_outlives_highlight (ed ed' : VirtualEditor) (action : IAction) :
  keeps_anchor (action_name action) = true ->
  applyAction ed action = Ok ed' ->
  anchor ed' = anchor ed /\ getCurrentHighlightedCode ed' = "".
Proof.
  intros Hkind H.
  apply UnifiedProps.applyAction_returned in H as (numTimes & len & f & Hf & ->).
  pose proof (switch_keeps_anchor _ _ _ _ _ Hkind Hf) as [Hrow Hcol].
  apply UnifiedProps.switch_cache in Hf;
    [|destruct (action_name action); (reflexivity || discriminate Hkind)
     |reflexivity].
  unfold anchor, getCurrentHighlightCoordinates, getCurrentHighlightedCode.
  destruct (record_history_this ed f action)
    as (_ & _ & -> & -> & _ & _ & ->).
  rewrite Hrow, Hcol. split; [|exact Hf].
  change (highlightStartRow (set_currentlyHighlightedCode (frame ed) ""))
    with (highlightStartRow (this ed)).
  change (highlightStartCol (set_currentlyHighlightedCode (frame ed) ""))
    with (highlightStartCol (this ed)).
  destruct (highlightStartRow (this ed) =? -1); reflexivity.
Qed.

(** The call, from the case that the [switch] selects. *)
Lemma applyAction_of_switch ed action f' :
  switch (repeat_count action)
    (match JS.get (codeLines (frame ed)) (caretRow (frame ed)) with
     | Some currentLineObject => JS.len currentLineObject
     | None => 0
     end) action (set_currentlyHighlightedCode (frame ed) "") = Ok f' ->
  applyAction ed action = Ok (record_history ed f' action).
Proof.
  intros H.
  apply (f_equal (fun c => bind c (fun f => Ok (record_history ed f action)))) in H.
  exact H.
Qed.

Lemma caret_record_history ed f action :
  caret (record_history ed f action) = mkPos (caretRow f) (caretCol f).
Proof. destruct f. reflexivity. Qed.

Ltac by_case Hcount Hname :=
  apply applyAction_of_switch; rewrite Hcount; unfold switch; rewrite Hname.

(** X10. Arrow-up and arrow-down with a count [n >= 0] return and move the
    caret [n] rows, stopping at the first and at the last row of the
    buffer; the column is kept as it is, whatever the length of the line
    the caret lands on. *)
Theorem vertical_arrows_clamp_row_only (ed : VirtualEditor) (action : IAction)
    (n : Z) :
  reachable ed -> repeat_count action = Some n -> 0 <= n ->
  (action_name action = EditorArrowUp ->
   exists ed',
     applyAction ed action = Ok ed'
     /\ caret ed' = mkPos (Z.max (row (caret ed) - n) 0) (col (caret ed)))
  /\ (action_name action = EditorArrowDown ->
      exists ed',
        applyAction ed action = Ok ed'
        /\ caret ed'
           = mkPos (Z.min (row (caret ed) + n)
                      (Z.of_nat (List.length (getCodeLines ed)) - 1))
               (col (caret ed))).
Proof.
  intros Hreach Hcount Hn.
  apply UnifiedProps.reachable_invariant in Hreach as [_ [Hrow _]].
  change (caret ed) with (mkPos (caretRow (frame ed)) (caretCol (frame ed))).
  change (getCodeLines ed) with (codeLines (frame ed)).
  split; intros Hname; eexists;
    (split; [by_case Hcount Hname; reflexivity | rewrite caret_record_history]).
  - destruct (case_editor_arrow_up_caret n
                (set_currentlyHighlightedCode (frame ed) "")) as [-> ->];
      [exact Hn | apply Hrow | reflexivity].
  - destruct (case_editor_arrow_down_caret n
                (set_currentlyHighlightedCode (frame ed) "")) as [-> ->];
      [exact Hn | apply Hrow | reflexivity].
Qed.

(** X11. Command-left and command-right with a count of at least 1 return
    and keep the row; command-left puts the caret at column 0 (a caret
    left of column 0 stays), command-right at the end of its line (a caret
    beyond the end stays). *)
Theorem command_keys_jump_to_line_ends (ed : VirtualEditor) (action : IAction)
    (n : Z) :
  reachable ed -> repeat_count action = Some n -> 1 <= n ->
  exists l,
    JS.get (getCodeLines ed) (row (caret ed)) = Some l
    /\ (action_name action = EditorCommandLeft ->
        exists ed',
          applyAction ed action = Ok ed'
          /\ caret ed' = mkPos (row (caret ed)) (Z.min (col (caret ed)) 0))
    /\ (action_name action = EditorCommandRight ->
        exists ed',
          applyAction ed action = Ok ed'
          /\ caret ed'
             = mkPos (row (caret ed)) (Z.max (col (caret ed)) (JS.len l))).
Proof.
  intros Hreach Hcount Hn.
  apply UnifiedProps.reachable_invariant in Hreach as [_ [Hrow _]].
  unfold caret_row_in_buffer, line_count in Hrow.
  change (caret ed) with (mkPos (caretRow (frame ed)) (caretCol (frame ed))).
  change (getCodeLines ed) with (codeLines (frame ed)).
  destruct (get_in_bounds _ _ Hrow) as [l Hl]. exists l.
  split; [exact Hl|]. split; intros Hname.
  - eexists. split; [by_case Hcount Hname; reflexivity|].
    rewrite caret_record_history.
    destruct (case_editor_command_left_caret n
                (set_currentlyHighlightedCode (frame ed) "")) as [-> ->];
      [exact Hn | reflexivity].
  - destruct (case_editor_command_right_caret n
                (set_currentlyHighlightedCode (frame ed) "") l Hn Hl)
      as (f' & Hf' & Hr & Hc).
    exists (record_history ed f' action).
    split; [by_case Hcount Hname; exact Hf'|].
    rewrite caret_record_history, Hr, Hc. reflexivity.
Qed.

(** X12. Inside a line the plain horizontal arrows move the caret by their
    count: arrow-right by [n] columns when the caret stays within the
    length of its line, arrow-left by [n] columns when [n] does not exceed
    the caret's column; the row is kept. *)
Theorem horizontal_arrows_within_line (ed : VirtualEditor) (action : IAction)
    (n : Z) (l : string) :
  repeat_count action = Some n -> 0 <= n ->
  JS.get (getCodeLines ed) (row (caret ed)) = Some l ->
  (action_name action = EditorArrowRight -> col (caret ed) + n <= JS.len l ->
   exists ed',
     applyAction ed action = Ok ed'
     /\ caret ed' = mkPos (row (caret ed)) (col (caret ed) + n))
  /\ (action_name action = EditorArrowLeft -> n <= col (caret ed) ->
      exists ed',
        applyAction ed action = Ok ed'
        /\ caret ed' = mkPos (row (caret ed)) (col (caret ed) - n)).
Proof.
  change (caret ed) with (mkPos (caretRow (frame ed)) (caretCol (frame ed))).
  change (getCodeLines ed) with (codeLines (frame ed)).
  cbn [row col]. intros Hcount Hn Hl. split; intros Hname Hcol.
  - eexists. split; [by_case Hcount Hname; reflexivity|].
    rewrite caret_record_history, Hl.
    destruct (case_editor_arrow_right_caret n (JS.len l)
                (set_currentlyHighlightedCode (frame ed) "")) as [-> ->];
      [exact Hn | exact Hcol | reflexivity].
  - destruct (case_editor_arrow_left_caret n
                (set_currentlyHighlightedCode (frame ed) "") Hn Hcol)
      as (f' & Hf' & Hr & Hc).
    exists (record_history ed f' action).
    split; [by_case Hcount Hname; exact Hf'|].
    rewrite caret_record_history, Hr, Hc. reflexivity.
Qed.

End Engine.


Lemma movement_keeps_buffer_witness :
  exists ed ed',
    constructor (types := SpecTypes.types) ["ab"; "cd"]
      (Some [Trace.type "x"]) = Ok ed
    /\ applyAction (types := SpecTypes.types) ed (Trace.key "arrow-down" "1")
       = Ok ed'
    /\ getCodeLines ed' = getCodeLines ed.
Proof.
  eexists. eexists. split; [vm_compute; reflexivity|].
  split; [vm_compute; reflexivity|].
  match goal with
  | |- getCodeLines ?ed' = getCodeLines ?ed =>
      assert (reachable (types := SpecTypes.types) ed) as Hreach
        by (exists ["ab"; "cd"], [Trace.type "x"]; vm_compute; reflexivity);
      assert (applyAction (types := SpecTypes.types) ed
                (Trace.key "arrow-down" "1") = Ok ed') as Hrun
        by (vm_compute; reflexivity);
      exact (proj1 (movement_keeps_buffer (types := SpecTypes.types) ed ed'
                      (Trace.key "arrow-down" "1") Hreach eq_refl Hrun))
  end.
Defined.

Lemma selection_ends_witness :
  exists ed ed',
    constructor (types := SpecTypes.types) ["abc"]
      (Some Trace.select_first_character) = Ok ed
    /\ getCurrentHighlightCoordinates ed = Some (mkPos 1 1, mkPos 1 2)
    /\ applyAction (types := SpecTypes.types) ed (Trace.key "arrow-up" "1")
       = Ok ed'
    /\ getCurrentHighlightCoordinates ed' = None.
Proof.
  eexists. eexists. split; [vm_compute; reflexivity|].
  split; [vm_compute; reflexivity|].
  match goal with
  | |- applyAction ?ed ?a = Ok ?x /\ _ =>
      split;
      [ vm_compute; reflexivity
      | apply (selection_ends (types := SpecTypes.types) ed x a eq_refl);
        vm_compute; reflexivity ]
  end.
Defined.

Lemma anchor_outlives_highlight_witness :
  exists ed ed',
    constructor (types := SpecTypes.types) ["abc"]
      (Some Trace.select_first_character) = Ok ed
    /\ applyAction (types := SpecTypes.types) ed (Trace.key "tab" "1") = Ok ed'
    /\ getCurrentHighlightCoordinates ed' = Some (mkPos 1 1, mkPos 1 3)
    /\ anchor ed' = anchor ed
    /\ getCurrentHighlightedCode ed' = "".
Proof.
  eexists. eexists. split; [vm_compute; reflexivity|].
  split; [vm_compute; reflexivity|].
  split; [vm_compute; reflexivity|].
  match goal with
  | |- anchor ?ed' = anchor ?ed /\ _ =>
      apply (anchor_outlives_highlight (types := SpecTypes.types) ed ed'
               (Trace.key "tab" "1") eq_refl)
  end.
  vm_compute. reflexivity.
Defined.

Lemma vertical_arrows_clamp_row_only_witness :
  exists ed,
    constructor (types := SpecTypes.types) ["short"; "much longer line here"]
      (Some [Trace.key "arrow-down" "1"; Trace.key "command-right" "1"]) = Ok ed
    /\ caret ed = mkPos 1 21
    /\ exists ed',
         applyAction (types := SpecTypes.types) ed (Trace.key "arrow-up" "5")
         = Ok ed'
         /\ caret ed' = mkPos 0 21.
Proof.
  eexists. split; [vm_compute; reflexivity|]. split; [vm_compute; reflexivity|].
  match goal with
  | |- exists ed', applyAction ?ed ?a = _ /\ _ =>
      assert (reachable (types := SpecTypes.types) ed) as Hreach
        by (exists ["short"; "much longer line here"],
              [Trace.key "arrow-down" "1"; Trace.key "command-right" "1"];
            vm_compute; reflexivity);
      assert (0 <= 5) as Hn by lia;
      destruct (proj1 (vertical_arrows_clamp_row_only (types := SpecTypes.types)
                         ed a 5 Hreach eq_refl Hn) eq_refl)
        as (ed' & Hrun & Hcaret)
  end.
  exists ed'. split; [exact Hrun|].
  eapply eq_trans; [exact Hcaret | vm_compute; reflexivity].
Defined.

Lemma command_keys_jump_to_line_ends_witness :
  exists ed,
    constructor (types := SpecTypes.types) ["abc"]
      (Some [Trace.key "arrow-right" "1"]) = Ok ed
    /\ exists ed',
         applyAction (types := SpecTypes.types) ed (Trace.key "command-right" "1")
         = Ok ed'
         /\ caret ed' = mkPos 0 3.
Proof.
  eexists. split; [vm_compute; reflexivity|].
  match goal with
  | |- exists ed', applyAction ?ed ?a = _ /\ _ =>
      assert (reachable (types := SpecTypes.types) ed) as Hreach
        by (exists ["abc"], [Trace.key "arrow-right" "1"];
            vm_compute; reflexivity);
      assert (1 <= 1) as Hn by lia;
      destruct (command_keys_jump_to_line_ends (types := SpecTypes.types)
                  ed a 1 Hreach eq_refl Hn)
        as (l & Hl & _ & Hright);
      destruct (Hright eq_refl) as (ed' & Hrun & Hcaret)
  end.
  exists ed'. split; [exact Hrun|].
  vm_compute in Hl. injection Hl as <-.
  eapply eq_trans; [exact Hcaret | vm_compute; reflexivity].
Defined.

Lemma horizontal_arrows_within_line_witness :
  exists ed,
    constructor (types := SpecTypes.types) ["abc"] None = Ok ed
    /\ exists ed',
         applyAction (types := SpecTypes.types) ed (Trace.key "arrow-right" "2")
         = Ok ed'
         /\ caret ed' = mkPos 0 2.
Proof.
  eexists. split; [vm_compute; reflexivity|].
  match goal with
  | |- exists ed', applyAction ?ed ?a = _ /\ _ =>
      assert (0 <= 2) as Hn by lia;
      assert (JS.get (getCodeLines ed) (row (caret ed)) = Some "abc") as Hl
        by (vm_compute; reflexivity);
      assert (col (caret ed) + 2 <= JS.len "abc") as Hcol
        by (vm_compute; discriminate);
      destruct (proj1 (horizontal_arrows_within_line (types := SpecTypes.types)
                         ed a 2 "abc" eq_refl Hn Hl) eq_refl Hcol)
        as (ed' & Hrun & Hcaret)
  end.
  exists ed'. split; [exact Hrun|].
  eapply eq_trans; [exact Hcaret | vm_compute; reflexivity].
Defined.

End Behaviour.

(** ** Insertions at the caret *)

Module Editing.
Import Unified Pred Run JSFacts.

Ltac by_case Hcount Hname :=
  apply Behaviour.applyAction_of_switch; rewrite Hcount; unfold switch;
  rewrite Hname.

Lemma substring_at_start (s : string) :
  JS.substring s 0 0 = "" /\ JS.substring_from s 0 = s.
Proof.
  pose proof (len_nonneg s) as Hs.
  destruct (substring_split s 0) as [Hjoin Hlen]; [lia|].
  assert (JS.substring s 0 0 = "") as Hempty.
  { destruct (JS.substring s 0 0); [reflexivity|].
    unfold JS.len in Hlen. cbn [String.length] in Hlen. lia. }
  rewrite Hempty in Hjoin. split; [exact Hempty | exact Hjoin].
Qed.

Lemma splice_replace {A : Type} (before after : list A) (x : A) (items : list A) :
  JS.splice (before ++ x :: after) (Z.of_nat (List.length before)) 1 items
  = before ++ items ++ after.
Proof.
  unfold JS.splice.
  destruct (Z.ltb_spec (Z.of_nat (List.length before)) 0); [lia|].
  rewrite length_app. cbn [List.length].
  rewrite Z.min_l by lia. rewrite Z.max_l, Z.min_l by lia.
  rewrite Nat2Z.id.
  replace (Z.to_nat (Z.of_nat (List.length before) + 1))
    with (List.length before + 1)%nat by lia.
  rewrite firstn_app, skipn_app, Nat.sub_diag.
  replace (List.length before + 1 - List.length before)%nat with 1%nat by lia.
  rewrite firstn_all, skipn_all2 by lia.
  cbn [firstn skipn app]. rewrite app_nil_r. reflexivity.
Qed.

(** The insertion loop of space and tab, on a line seen as the text before
    the caret and the text after it. *)
Lemma insert_loop text n : forall a b r hr hc before after hl saved menu,
  JS.len text = 1 ->
  r = Z.of_nat (List.length before) ->
  for_loop n (insert_step text)
    (mkFields r (JS.len a) hr hc (before ++ (a ++ b)%string :: after)
       hl saved menu)
  = Ok (mkFields r (JS.len a + Z.of_nat n) hr hc
          (before ++ (a ++ copies n text ++ b)%string :: after) hl saved menu).
Proof.
  induction n as [|n IH]; intros a b r hr hc before after hl saved menu Ht Hr.
  - cbn [for_loop copies String.append]. do 2 f_equal. lia.
  - cbn [for_loop]. unfold insert_step at 1, line, JS.get_defined.
    UnifiedProps.fields. subst r. rewrite get_middle.
    lazy beta iota delta [bind]. rewrite set_middle.
    rewrite substring_prefix_of_append, substring_from_of_append.
    replace (JS.len a + 1) with (JS.len (a ++ text))
      by (rewrite len_append; lia).
    rewrite <- append_assoc.
    rewrite (IH (a ++ text)%string b) by (exact Ht || reflexivity).
    rewrite len_append, Ht. cbn [copies].
    rewrite !append_assoc. do 2 f_equal. lia.
Qed.

Lemma insert_loop_at text n f l :
  JS.len text = 1 -> 0 <= n ->
  JS.get (codeLines f) (caretRow f) = Some l ->
  0 <= caretCol f <= JS.len l ->
  exists f',
    for_loop (Z.to_nat n) (insert_step text) f = Ok f'
    /\ codeLines f'
       = JS.set (codeLines f) (caretRow f)
           (insert_at l (caretCol f) (copies (Z.to_nat n) text))
    /\ caretRow f' = caretRow f /\ caretCol f' = caretCol f + n
    /\ isSaved f' = isSaved f
    /\ highlightStartRow f' = highlightStartRow f.
Proof.
  intros Ht Hn Hl Hc. destruct f as [r c hr hc L hl saved menu].
  UnifiedProps.fields.
  apply get_split in Hl as (before & after & -> & Hr). symmetry in Hr.
  destruct (substring_split l c Hc) as [Hjoin Hlen].
  pose proof (insert_loop text (Z.to_nat n) (JS.substring l 0 c)
                (JS.substring_from l c) r hr hc before after hl saved menu
                Ht Hr) as H.
  rewrite Hjoin, Hlen in H. rewrite H. eexists. split; [reflexivity|].
  UnifiedProps.fields. subst r. rewrite set_middle. unfold insert_at.
  repeat split. lia.
Qed.

(** The loop of enter from column 0: one empty line per iteration is put
    above the caret's line. *)
Lemma enter_loop_at_start n : forall b r hr hc before after hl saved menu,
  r = Z.of_nat (List.length before) ->
  for_loop n enter_step
    (mkFields r 0 hr hc (before ++ b :: after) hl saved menu)
  = Ok (mkFields (r + Z.of_nat n) 0 hr hc
          (before ++ repeat "" n ++ b :: after) hl saved menu).
Proof.
  induction n as [|n IH]; intros b r hr hc before after hl saved menu Hr.
  - cbn [for_loop repeat app]. do 2 f_equal. lia.
  - cbn [for_loop]. unfold enter_step at 1, line, JS.get_defined.
    UnifiedProps.fields. subst r. rewrite get_middle.
    lazy beta iota delta [bind].
    rewrite set_middle, splice_insert_after.
    destruct (substring_at_start b) as [-> ->].
    change (before ++ "" :: [b] ++ after) with (before ++ "" :: b :: after).
    replace (before ++ "" :: b :: after) with ((before ++ [""]) ++ b :: after)
      by (rewrite <- app_assoc; reflexivity).
    rewrite IH by (rewrite length_app; cbn [List.length]; lia).
    rewrite <- app_assoc. cbn [repeat app]. do 2 f_equal. lia.
Qed.

Lemma enter_loop n f l :
  1 <= n -> JS.get (codeLines f) (caretRow f) = Some l ->
  exists f',
    for_loop (Z.to_nat n) enter_step f = Ok f'
    /\ codeLines f'
       = JS.splice (codeLines f) (caretRow f) 1
           (JS.substring l 0 (caretCol f)
            :: repeat "" (Z.to_nat (n - 1)) ++ [JS.substring_from l (caretCol f)])
    /\ caretRow f' = caretRow f + n /\ caretCol f' = 0
    /\ isSaved f' = isSaved f
    /\ highlightStartRow f' = highlightStartRow f.
Proof.
  intros Hn Hl. destruct f as [r c hr hc L hl saved menu].
  UnifiedProps.fields.
  apply get_split in Hl as (before & after & -> & Hr). symmetry in Hr.
  replace (Z.to_nat n) with (S (Z.to_nat (n - 1))) by lia.
  cbn [for_loop]. unfold enter_step at 1, line, JS.get_defined.
  UnifiedProps.fields. subst r. rewrite get_middle.
  lazy beta iota delta [bind].
  rewrite set_middle, splice_insert_after.
  change (before ++ JS.substring l 0 c :: [JS.substring_from l c] ++ after)
    with (before ++ JS.substring l 0 c :: JS.substring_from l c :: after).
  replace (before ++ JS.substring l 0 c :: JS.substring_from l c :: after)
    with ((before ++ [JS.substring l 0 c]) ++ JS.substring_from l c :: after)
    by (rewrite <- app_assoc; reflexivity).
  rewrite enter_loop_at_start by (rewrite length_app; cbn [List.length]; lia).
  eexists. split; [reflexivity|]. UnifiedProps.fields.
  rewrite splice_replace, <- !app_assoc. cbn [app].
  split; [do 2 f_equal; rewrite <- app_assoc; reflexivity|]. repeat split. lia.
Qed.

(** *** Typing: lines joined and split *)

Lemma split_newline_nonempty (v : string) : JS.split_newline v <> [].
Proof.
  destruct v as [|ch v]; cbn [JS.split_newline]; [discriminate|].
  destruct (Ascii.eqb ch (ascii_of_nat 10)); [discriminate|].
  destruct (JS.split_newline v); discriminate.
Qed.

Lemma join_cons (x : string) (l : list string) :
  l <> [] -> JS.join (x :: l) = (x ++ JS.newline ++ JS.join l)%string.
Proof. destruct l; [congruence | reflexivity]. Qed.

(** [split] then [join] gives the text back. *)
Lemma join_split (v : string) : JS.join (JS.split_newline v) = v.
Proof.
  induction v as [|ch v IH]; [reflexivity|].
  cbn [JS.split_newline].
  destruct (Ascii.eqb_spec ch (ascii_of_nat 10)) as [->|Hch].
  - rewrite join_cons by apply split_newline_nonempty. rewrite IH. reflexivity.
  - pose proof (split_newline_nonempty v) as Hne.
    destruct (JS.split_newline v) as [|h [|h' t]]; [congruence| |].
    + cbn in IH. subst v. reflexivity.
    + rewrite join_cons in IH by discriminate.
      rewrite join_cons by discriminate. subst v. reflexivity.
Qed.

(** Joining two halves of a document that meet inside a line. *)
Lemma join_glue (xs ys : list string) (a b : string) :
  (JS.join (xs ++ [a]) ++ JS.join (b :: ys))%string
  = JS.join (xs ++ (a ++ b)%string :: ys).
Proof.
  induction xs as [|x xs IH]; cbn [app].
  - change (JS.join [a]) with a.
    destruct ys as [|y ys]; [reflexivity|].
    rewrite (join_cons b (y :: ys)), (join_cons (a ++ b) (y :: ys))
      by discriminate.
    symmetry. apply append_assoc.
  - rewrite (join_cons x (xs ++ [a])) by (destruct xs; discriminate).
    rewrite (join_cons x (xs ++ _ :: ys)) by (destruct xs; discriminate).
    rewrite <- IH, !append_assoc. reflexivity.
Qed.

Lemma text_at_middle (before after : list string) (l : string) (c : Z) :
  text_before (before ++ l :: after) (mkPos (Z.of_nat (List.length before)) c)
  = JS.join (before ++ [JS.substring l 0 c])
  /\ text_after (before ++ l :: after) (mkPos (Z.of_nat (List.length before)) c)
     = JS.join (JS.substring_from l c :: after).
Proof.
  unfold text_before, text_after. cbn [row col]. rewrite Nat2Z.id.
  rewrite firstn_app, Nat.sub_diag, firstn_all. cbn [firstn].
  rewrite app_nil_r, nth_middle.
  replace (S (List.length before)) with (List.length (before ++ [l]))
    by (rewrite length_app; cbn [List.length]; lia).
  replace (before ++ l :: after) with ((before ++ [l]) ++ after)
    by (rewrite <- app_assoc; reflexivity).
  rewrite skipn_app, Nat.sub_diag, skipn_all. cbn [skipn app].
  split; reflexivity.
Qed.

(** The inner loop of typing: the lines after the first go below the
    caret's line, and the rest of that line closes the last of them. *)
Lemma type_remaining_lines_welds restOfLine rest :
  forall before cur after r c hr hc hl saved menu,
  rest <> [] -> r = Z.of_nat (List.length before) ->
  exists init last,
    rest = init ++ [last]
    /\ type_remaining_lines restOfLine rest
         (mkFields r c hr hc (before ++ cur :: after) hl saved menu)
       = mkFields (r + Z.of_nat (List.length rest)) (JS.len last) hr hc
           (before ++ cur :: init ++ (last ++ restOfLine)%string :: after)
           hl saved menu.
Proof.
  induction rest as [|x rest IH];
    intros before cur after r c hr hc hl saved menu Hne Hr; [congruence|].
  cbn [type_remaining_lines]. destruct rest as [|y rest].
  - exists [], x. split; [reflexivity|]. UnifiedProps.fields. subst r.
    rewrite splice_insert_after. reflexivity.
  - UnifiedProps.fields. subst r. rewrite splice_insert_after.
    change (before ++ cur :: [x] ++ after) with (before ++ cur :: x :: after).
    replace (before ++ cur :: x :: after) with ((before ++ [cur]) ++ x :: after)
      by (rewrite <- app_assoc; reflexivity).
    destruct (IH (before ++ [cur]) x after
                (Z.of_nat (List.length before) + 1) c hr hc hl saved menu)
      as (init & last & Hrest & Hrun);
      [discriminate | rewrite length_app; cbn [List.length]; lia |].
    exists (x :: init), last. split; [rewrite Hrest; reflexivity|].
    rewrite Hrun, <- app_assoc. cbn [app List.length].
    f_equal. lia.
Qed.

(** One iteration of typing, on any text: the pieces of the text are
    welded into the buffer at the caret. *)
Lemma type_step_welds value first rest before l after r c hr hc hl saved menu :
  r = Z.of_nat (List.length before) -> 0 <= c <= JS.len l ->
  (rest = [] -> value = first) ->
  exists init last,
    (JS.substring l 0 c ++ first)%string :: rest = init ++ [last]
    /\ type_step value (first :: rest)
         (mkFields r c hr hc (before ++ l :: after) hl saved menu)
       = Ok (mkFields (r + Z.of_nat (List.length rest)) (JS.len last) hr hc
               (before ++ init ++ (last ++ JS.substring_from l c)%string :: after)
               hl saved menu).
Proof.
  intros Hr Hc Hvalue. destruct (substring_split l c Hc) as [_ Hlen].
  destruct rest as [|x rest].
  - exists [], (JS.substring l 0 c ++ first)%string. split; [reflexivity|].
    rewrite (Hvalue eq_refl).
    unfold type_step, line, JS.get_defined. UnifiedProps.fields. subst r.
    rewrite get_middle. lazy beta iota delta [bind]. rewrite set_middle.
    rewrite len_append, Hlen, append_assoc. cbn [app List.length].
    do 2 f_equal. lia.
  - unfold type_step, line, JS.get_defined. UnifiedProps.fields. subst r.
    rewrite get_middle. lazy beta iota delta [bind]. rewrite set_middle.
    destruct (type_remaining_lines_welds (JS.substring_from l c) (x :: rest)
                before (JS.substring l 0 c ++ first)%string after
                (Z.of_nat (List.length before)) c hr hc hl saved menu)
      as (init & last & Hrest & Hrun); [discriminate | reflexivity |].
    exists ((JS.substring l 0 c ++ first)%string :: init), last.
    split; [rewrite Hrest; reflexivity|].
    rewrite Hrun. reflexivity.
Qed.

(** Typing once, without a selection and with the caret inside its line:
    the document is the text before the caret, the payload, and the text
    after the caret, and the caret is right after the payload. *)
Lemma case_editor_type_inserts value f l :
  no_selection f ->
  JS.get (codeLines f) (caretRow f) = Some l ->
  0 <= caretCol f <= JS.len l ->
  let before := text_before (codeLines f) (mkPos (caretRow f) (caretCol f)) in
  let after := text_after (codeLines f) (mkPos (caretRow f) (caretCol f)) in
  exists f',
    case_editor_type (Some 1) value f = Ok f'
    /\ JS.join (codeLines f) = (before ++ after)%string
    /\ text_before (codeLines f') (mkPos (caretRow f') (caretCol f'))
       = (before ++ value)%string
    /\ text_after (codeLines f') (mkPos (caretRow f') (caretCol f')) = after
    /\ JS.join (codeLines f') = (before ++ value ++ after)%string
    /\ isSaved f' = false
    /\ no_selection f'.
Proof.
  destruct f as [r c hr hc L hl saved menu]. unfold no_selection.
  UnifiedProps.fields. intros -> Hl Hc.
  apply get_split in Hl as (before & after & -> & Hr). symmetry in Hr.
  destruct (substring_split l c Hc) as [Hjoin Hlen].
  pose proof (split_newline_nonempty value) as Hne.
  pose proof (join_split value) as Hvalue.
  destruct (JS.split_newline value) as [|first rest] eqn:Hsplit; [congruence|].
  destruct (type_step_welds value first rest before l after r c (-1) hc hl
              false menu Hr Hc) as (init & last & Hpieces & Hstep).
  { intros ->. symmetry. exact Hvalue. }
  subst r. destruct (text_at_middle before after l c) as [-> ->].
  eexists. split.
  { unfold case_editor_type, type_delete_selection. UnifiedProps.fields.
    cbn [Z.eqb Pos.eqb negb bind]. rewrite Hsplit, RoundTrip.for_loop_once.
    rewrite Hstep. cbn [bind]. reflexivity. }
  UnifiedProps.fields.
  assert (Z.of_nat (List.length before) + Z.of_nat (List.length rest)
          = Z.of_nat (List.length (before ++ init))) as ->.
  { apply (f_equal (@List.length _)) in Hpieces.
    rewrite !length_app in *. cbn [List.length] in Hpieces. lia. }
  replace (before ++ init ++ (last ++ JS.substring_from l c)%string :: after)
    with ((before ++ init) ++ (last ++ JS.substring_from l c)%string :: after)
    by (rewrite <- app_assoc; reflexivity).
  destruct (text_at_middle (before ++ init) after
              (last ++ JS.substring_from l c) (JS.len last)) as [-> ->].
  rewrite substring_prefix_of_append, substring_from_of_append.
  assert (JS.join ((before ++ init) ++ [last])
          = (JS.join (before ++ [JS.substring l 0 c]) ++ value)%string) as Hbefore.
  { rewrite <- app_assoc, <- Hpieces, <- join_glue, Hvalue. reflexivity. }
  rewrite <- (join_glue (before ++ init)), Hbefore.
  split; [rewrite join_glue, Hjoin; reflexivity|].
  split; [reflexivity|]. split; [reflexivity|].
  split; [apply append_assoc|]. split; reflexivity.
Qed.

Section Engine.
Context {types : ActionTypes}.

(** X13. Without a selection and with the caret inside its line, space and
    tab with a count [n >= 0] return and put [n] spaces, or [n] tab
    characters, into the caret's line at the caret's column; the caret
    moves [n] columns to the right and no other line changes. *)
Theorem space_and_tab_insert_at_caret (ed : VirtualEditor) (action : IAction)
    (n : Z) (l text : string) :
  reachable ed -> no_selection (frame ed) ->
  JS.get (getCodeLines ed) (row (caret ed)) = Some l ->
  0 <= col (caret ed) <= JS.len l ->
  repeat_count action = Some n -> 0 <= n ->
  (action_name action = EditorSpace /\ text = " ")
  \/ (action_name action = EditorTab /\ text = JS.tab) ->
  exists ed',
    applyAction ed action = Ok ed'
    /\ getCodeLines ed'
       = JS.set (getCodeLines ed) (row (caret ed))
           (insert_at l (col (caret ed)) (copies (Z.to_nat n) text))
    /\ caret ed' = mkPos (row (caret ed)) (col (caret ed) + n).
Proof.
  change (caret ed) with (mkPos (caretRow (frame ed)) (caretCol (frame ed))).
  change (getCodeLines ed) with (codeLines (frame ed)). cbn [row col].
  intros Hreach Hsel Hl Hc Hcount Hn Hkind.
  apply UnifiedProps.reachable_invariant in Hreach as [Hsep _].
  assert (JS.len text = 1) as Ht by (destruct Hkind as [[_ ->]|[_ ->]]; reflexivity).
  destruct (insert_loop_at text n
              (set_isSaved (set_currentlyHighlightedCode (frame ed) "") false) l
              Ht Hn Hl Hc) as (f1 & H1 & Hlines & Hrow & Hcol & _).
  destruct (insert_loop_at text n
              (set_currentlyHighlightedCode (frame ed) "") l
              Ht Hn Hl Hc) as (f2 & H2 & Hlines2 & Hrow2 & Hcol2 & _).
  destruct Hkind as [[Hname ->]|[Hname ->]].
  - exists (record_history ed f1 action). split.
    + by_case Hcount Hname. unfold case_editor_space.
      unfold no_selection in Hsel.
      change (highlightStartRow
                (set_isSaved (set_currentlyHighlightedCode (frame ed) "") false))
        with (highlightStartRow (frame ed)).
      rewrite Hsel. cbn [Z.eqb Pos.eqb negb bind]. exact H1.
    + rewrite Behaviour.record_history_getCodeLines by exact Hsep.
      rewrite Behaviour.caret_record_history, Hlines, Hrow, Hcol.
      split; reflexivity.
  - exists (record_history ed f2 action). split.
    + by_case Hcount Hname. exact H2.
    + rewrite Behaviour.record_history_getCodeLines by exact Hsep.
      rewrite Behaviour.caret_record_history, Hlines2, Hrow2, Hcol2.
      split; reflexivity.
Qed.

(** X14. Without a selection, enter with a count [n >= 1] returns and
    replaces the caret's line by its part before the caret, [n - 1] empty
    lines and its part from the caret on; the caret goes to column 0 of the
    row [n] below, and the saved flag is cleared. *)
Theorem enter_splits_line (ed : VirtualEditor) (action : IAction) (n : Z) :
  reachable ed -> no_selection (frame ed) ->
  action_name action = EditorEnter ->
  repeat_count action = Some n -> 1 <= n ->
  exists l ed',
    JS.get (getCodeLines ed) (row (caret ed)) = Some l
    /\ applyAction ed action = Ok ed'
    /\ getCodeLines ed'
       = JS.splice (getCodeLines ed) (row (caret ed)) 1
           (JS.substring l 0 (col (caret ed))
            :: repeat "" (Z.to_nat (n - 1))
            ++ [JS.substring_from l (col (caret ed))])
    /\ caret ed' = mkPos (row (caret ed) + n) 0
    /\ getIsSaved ed' = false.
Proof.
  change (caret ed) with (mkPos (caretRow (frame ed)) (caretCol (frame ed))).
  change (getCodeLines ed) with (codeLines (frame ed)). cbn [row col].
  intros Hreach Hsel Hname Hcount Hn.
  apply UnifiedProps.reachable_invariant in Hreach as [Hsep [Hrow _]].
  destruct (get_in_bounds _ _ Hrow) as [l Hl]. exists l.
  destruct (enter_loop n
              (set_isSaved (set_currentlyHighlightedCode (frame ed) "") false) l
              Hn Hl) as (f1 & H1 & Hlines & Hr & Hc & Hsaved & _).
  exists (record_history ed f1 action).
  split; [exact Hl|]. split.
  - by_case Hcount Hname. unfold case_editor_enter.
    unfold no_selection in Hsel.
    change (highlightStartRow
              (set_isSaved (set_currentlyHighlightedCode (frame ed) "") false))
      with (highlightStartRow (frame ed)).
    rewrite Hsel. cbn [Z.eqb Pos.eqb negb]. exact H1.
  - rewrite Behaviour.record_history_getCodeLines by exact Hsep.
    rewrite Behaviour.caret_record_history, Hlines, Hr, Hc.
    unfold getIsSaved.
    destruct (Behaviour.record_history_this ed f1 action)
      as (_ & _ & _ & _ & -> & _).
    rewrite Hsaved. repeat split.
Qed.

(** X15. Typing inserts its payload verbatim at the caret. Without a
    selection and with the caret inside its line, one application of
    editor-type returns; the document was the text before the caret followed
    by the text after it, and becomes the text before, the payload (line
    breaks included) and the text after; the caret ends right after the
    payload, and the saved flag is cleared. *)
Theorem typing_inserts_at_caret (ed : VirtualEditor) (action : IAction) :
  reachable ed -> no_selection (frame ed) -> caret_col_in_line (frame ed) ->
  action_name action = EditorType -> repeat_count action = Some 1 ->
  let before := text_before (getCodeLines ed) (caret ed) in
  let after := text_after (getCodeLines ed) (caret ed) in
  exists ed',
    applyAction ed action = Ok ed'
    /\ getCode ed = (before ++ after)%string
    /\ getCode ed' = (before ++ value action ++ after)%string
    /\ text_before (getCodeLines ed') (caret ed') = (before ++ value action)%string
    /\ text_after (getCodeLines ed') (caret ed') = after
    /\ getIsSaved ed' = false.
Proof.
  intros Hreach Hsel (l & Hl & Hc) Hname Hcount.
  apply UnifiedProps.reachable_invariant in Hreach as [Hsep _].
  destruct (case_editor_type_inserts (value action)
              (set_currentlyHighlightedCode (frame ed) "") l Hsel Hl Hc)
    as (f' & Hrun & Hdoc & Hbefore & Hafter & Hdoc' & Hsaved & _).
  exists (record_history ed f' action). split.
  { by_case Hcount Hname. exact Hrun. }
  unfold getCode, getIsSaved.
  rewrite Behaviour.record_history_getCodeLines by exact Hsep.
  rewrite Behaviour.caret_record_history.
  destruct (Behaviour.record_history_this ed f' action)
    as (_ & _ & _ & _ & -> & _).
  split; [exact Hdoc|]. split; [exact Hdoc'|].
  split; [exact Hbefore|]. split; [exact Hafter | exact Hsaved].
Qed.

End Engine.

Lemma space_and_tab_insert_at_caret_witness :
  exists ed,
    constructor (types := SpecTypes.types) ["ab"; "cd"]
      (Some [Trace.key "arrow-down" "1"; Trace.key "arrow-right" "1"]) = Ok ed
    /\ exists ed',
         applyAction (types := SpecTypes.types) ed (Trace.key "space" "3")
         = Ok ed'
         /\ getCodeLines ed' = ["ab"; "c   d"]
         /\ caret ed' = mkPos 1 4.
Proof.
  eexists. split; [vm_compute; reflexivity|].
  match goal with
  | |- exists ed', applyAction ?ed ?a = _ /\ _ =>
      assert (reachable (types := SpecTypes.types) ed) as Hreach
        by (exists ["ab"; "cd"],
              [Trace.key "arrow-down" "1"; Trace.key "arrow-right" "1"];
            vm_compute; reflexivity);
      assert (JS.get (getCodeLines ed) (row (caret ed)) = Some "cd") as Hl
        by (vm_compute; reflexivity);
      assert (0 <= col (caret ed) <= JS.len "cd") as Hc
        by (vm_compute; split; discriminate);
      assert (0 <= 3) as Hn by lia;
      destruct (space_and_tab_insert_at_caret (types := SpecTypes.types)
                  ed a 3 "cd" " " Hreach eq_refl Hl Hc eq_refl Hn
                  (or_introl (conj eq_refl eq_refl)))
        as (ed' & Hrun & Hlines & Hcaret)
  end.
  exists ed'. split; [exact Hrun|].
  split; (eapply eq_trans; [eassumption | vm_compute; reflexivity]).
Defined.

Lemma enter_splits_line_witness :
  exists ed,
    constructor (types := SpecTypes.types) ["abcd"; "ef"]
      (Some [Trace.key "arrow-right" "2"]) = Ok ed
    /\ exists ed',
         applyAction (types := SpecTypes.types) ed (Trace.key "enter" "3")
         = Ok ed'
         /\ getCodeLines ed' = ["ab"; ""; ""; "cd"; "ef"]
         /\ caret ed' = mkPos 3 0.
Proof.
  eexists. split; [vm_compute; reflexivity|].
  match goal with
  | |- exists ed', applyAction ?ed ?a = _ /\ _ =>
      assert (reachable (types := SpecTypes.types) ed) as Hreach
        by (exists ["abcd"; "ef"], [Trace.key "arrow-right" "2"];
            vm_compute; reflexivity);
      assert (1 <= 3) as Hn by lia;
      destruct (enter_splits_line (types := SpecTypes.types)
                  ed a 3 Hreach eq_refl eq_refl eq_refl Hn)
        as (l & ed' & Hl & Hrun & Hlines & Hcaret & _)
  end.
  exists ed'. split; [exact Hrun|].
  vm_compute in Hl. injection Hl as <-.
  split; (eapply eq_trans; [eassumption | vm_compute; reflexivity]).
Defined.

Lemma typing_inserts_at_caret_witness :
  exists ed,
    constructor (types := SpecTypes.types) ["abcd"; "ef"]
      (Some [Trace.key "arrow-right" "2"]) = Ok ed
    /\ exists ed',
         applyAction (types := SpecTypes.types) ed
           (Trace.type (JS.join ["X"; "YZ"])) = Ok ed'
         /\ getCode ed' = JS.join ["abX"; "YZcd"; "ef"]
         /\ text_before (getCodeLines ed') (caret ed') = JS.join ["abX"; "YZ"].
Proof.
  eexists. split; [vm_compute; reflexivity|].
  match goal with
  | |- exists ed', applyAction ?ed ?a = _ /\ _ =>
      assert (reachable (types := SpecTypes.types) ed) as Hreach
        by (exists ["abcd"; "ef"], [Trace.key "arrow-right" "2"];
            vm_compute; reflexivity);
      assert (caret_col_in_line (frame ed)) as Hcol
        by (exists "abcd"; split;
            [vm_compute; reflexivity | vm_compute; split; discriminate]);
      destruct (typing_inserts_at_caret (types := SpecTypes.types)
                  ed a Hreach eq_refl Hcol eq_refl eq_refl)
        as (ed' & Hrun & _ & Hdoc & Hbefore & _)
  end.
  exists ed'. split; [exact Hrun|].
  split; (eapply eq_trans; [eassumption | vm_compute; reflexivity]).
Defined.

End Editing.

(** ** The setters, and the start of a selection *)

Module Setters.
Import Unified Pred Run.

Lemma physical_round_trip (p : IEditorPosition) :
  mkPos (row p - 1 + 1) (col p - 1 + 1) = p.
Proof. destruct p as [r c]. cbn [row col]. f_equal; lia. Qed.

Lemma deref_alloc_new (h : Heap.t) (arr : list string) :
  Heap.deref (h ++ [arr]) (List.length h) = arr.
Proof.
  unfold Heap.deref. rewrite app_nth2, Nat.sub_diag by lia. reflexivity.
Qed.

Lemma deref_alloc_old (h : Heap.t) (arr : list string) (r : Heap.ref) :
  (r < List.length h)%nat -> Heap.deref (h ++ [arr]) r = Heap.deref h r.
Proof. intros Hr. unfold Heap.deref. now rewrite app_nth1. Qed.

(** Reading a log through two heaps that agree on the log's arrays. *)
Lemma history_at_ext (h h' : Heap.t) (history : list Heap.ref) (i : Z) :
  (forall r, In r history -> Heap.deref h' r = Heap.deref h r) ->
  history_at h' history i = history_at h history i.
Proof.
  intros Hsame. unfold history_at, JS.get_defined, JS.get.
  destruct (i >? Z.of_nat (List.length history) - 1); [reflexivity|].
  destruct (i <? 0); [reflexivity|].
  destruct (nth_error history (Z.to_nat i)) as [r|] eqn:Hnth; [|reflexivity].
  cbn [bind]. rewrite Hsame by (eapply nth_error_In; eauto). reflexivity.
Qed.

Lemma get_outside {A : Type} (arr : list A) (i : Z) :
  ~ 0 <= i < Z.of_nat (List.length arr) -> JS.get arr i = None.
Proof.
  intros Hi. unfold JS.get. destruct (Z.ltb_spec i 0); [reflexivity|].
  apply nth_error_None. lia.
Qed.

Lemma frame_setCurrentCaretPosition ed r c :
  frame (setCurrentCaretPosition ed r c) = set_caret (frame ed) (r - 1) (c - 1).
Proof. destruct ed as [h t a e ch cp hp hh]. destruct t. reflexivity. Qed.

Section Engine.
Context {types : ActionTypes}.

(** X16. [setValuesFromEditor] makes the editor show what it was given:
    the text, the physical caret and the saved flag read back unchanged; of
    the highlight coordinates only the start is kept (the end that is read
    back is the caret, and a start in row 0 reads back as no selection); the
    highlighted text is not recomputed; and no log entry changes. *)
Theorem setValuesFromEditor_adopts_editor (ed : VirtualEditor)
    (editor : IEditor.t) :
  reachable ed ->
  let ed' := setValuesFromEditor ed editor in
  getCode ed' = IEditor.content editor
  /\ getCurrentCaretPosition ed' = IEditor.caretPosition editor
  /\ getIsSaved ed' = IEditor.isSaved editor
  /\ getCurrentHighlightCoordinates ed'
     = match IEditor.highlightCoordinates editor with
       | Some c =>
           if row (IEditor.start c) =? 0 then None
           else Some (IEditor.start c, IEditor.caretPosition editor)
       | None => None
       end
  /\ getCurrentHighlightedCode ed' = getCurrentHighlightedCode ed
  /\ getActionsApplied ed' = getActionsApplied ed
  /\ (forall i,
        getCodeAtActionIndex ed' i = getCodeAtActionIndex ed i
        /\ getHighlightedCodeAtActionIndex ed' i
           = getHighlightedCodeAtActionIndex ed i).
Proof.
  intros Hreach ed'.
  apply UnifiedProps.reachable_invariant in Hreach as [(_ & Hcode & Hhl) _].
  split.
  { unfold getCode.
    change (getCodeLines ed')
      with (Heap.deref
              (heap ed ++ [JS.split_newline (IEditor.content editor)])
              (List.length (heap ed))).
    rewrite deref_alloc_new. apply Editing.join_split. }
  split; [apply physical_round_trip|].
  split; [reflexivity|].
  split.
  { unfold getCurrentHighlightCoordinates, ed', setValuesFromEditor.
    cbn [this highlightStartRow highlightStartCol caretRow caretCol Heap.alloc].
    destruct (IEditor.highlightCoordinates editor) as [c|]; [|reflexivity].
    destruct (Z.eqb_spec (row (IEditor.start c) - 1) (-1)) as [H|H];
      destruct (Z.eqb_spec (row (IEditor.start c)) 0) as [H'|H'];
      try lia; [reflexivity|].
    rewrite !physical_round_trip. reflexivity. }
  split; [reflexivity|]. split; [reflexivity|].
  intros i.
  change (getCodeAtActionIndex ed' i)
    with (history_at (heap ed ++ [JS.split_newline (IEditor.content editor)])
            (codeLinesHistory ed) i).
  change (getHighlightedCodeAtActionIndex ed' i)
    with (history_at (heap ed ++ [JS.split_newline (IEditor.content editor)])
            (highlightHistory ed) i).
  split; apply history_at_ext; intros r Hr.
  - rewrite Forall_forall in Hcode. destruct (Hcode r Hr) as [Hlt _].
    apply deref_alloc_old. exact Hlt.
  - rewrite Forall_forall in Hhl. destruct (Hhl r Hr) as [Hlt _].
    apply deref_alloc_old. exact Hlt.
Qed.

(** X17. [setCurrentCaretPosition] checks nothing: the physical position it
    is given reads back as it is and the buffer is untouched, and when the
    row is not a row of the buffer the next typing, with no selection,
    throws a TypeError on the missing line. *)
Theorem caret_setter_is_unchecked (ed : VirtualEditor) (r c : Z)
    (action : IAction) :
  no_selection (frame ed) ->
  action_name action = EditorType -> repeat_count action = Some 1 ->
  getCurrentCaretPosition (setCurrentCaretPosition ed r c) = mkPos r c
  /\ getCodeLines (setCurrentCaretPosition ed r c) = getCodeLines ed
  /\ (~ 1 <= r <= Z.of_nat (List.length (getCodeLines ed)) ->
      applyAction (setCurrentCaretPosition ed r c) action = Throw TypeError).
Proof.
  intros Hsel Hname Hcount.
  split; [apply (physical_round_trip (mkPos r c))|].
  split; [reflexivity|].
  intros Hrow. unfold applyAction. fold (repeat_count action).
  rewrite Hcount, frame_setCurrentCaretPosition. unfold switch.
  rewrite Hname.
  change (getCodeLines ed) with (codeLines (frame ed)) in Hrow.
  unfold no_selection in Hsel.
  destruct (frame ed) as [r0 c0 hr hc L hl saved menu].
  UnifiedProps.fields. subst hr.
  unfold case_editor_type, type_delete_selection. UnifiedProps.fields.
  cbn [Z.eqb Pos.eqb negb bind]. rewrite RoundTrip.for_loop_once.
  assert (JS.get L (r - 1) = None) as Hnone by (apply get_outside; lia).
  unfold type_step, line, JS.get_defined. UnifiedProps.fields.
  destruct (JS.split_newline (value action)) as [|first [|second rest]];
    rewrite Hnone; reflexivity.
Qed.

(** X18. A shift+arrow starts the selection where the caret was, or keeps
    the anchor of the selection there is: from a reachable state it returns,
    and [getCurrentHighlightCoordinates()] then runs from that anchor to the
    new caret. *)
Theorem shift_arrow_anchors_selection (ed : VirtualEditor) (action : IAction) :
  reachable ed -> is_shift_arrow (action_name action) = true ->
  exists ed',
    applyAction ed action = Ok ed'
    /\ getCurrentHighlightCoordinates ed'
       = Some (match anchor ed with
               | Some start => start
               | None => getCurrentCaretPosition ed
               end,
               getCurrentCaretPosition ed').
Proof.
  intros Hreach Hkind.
  apply UnifiedProps.reachable_invariant in Hreach as Hinv.
  destruct (Returns.applyAction_returns ed action Hinv) as [ed' Hrun].
  { intros Hname. rewrite Hname in Hkind. discriminate Hkind. }
  exists ed'. split; [exact Hrun|].
  destruct Hinv as [_ [Hrow Hanchor]].
  apply UnifiedProps.applyAction_returned in Hrun
    as (numTimes & len & f & Hf & ->).
  assert (exists r c text,
             f = set_currentlyHighlightedCode
                   (set_caret
                      (start_selection
                         (set_currentlyHighlightedCode (frame ed) "")) r c)
                   text) as (r & c & text & ->).
  { unfold switch in Hf. destruct (action_name action); try discriminate Hkind.
    - eapply Behaviour.case_editor_shift_arrow_caret_only; [|exact Hf].
      apply Behaviour.shift_arrow_left_step_caret_only.
    - eapply Behaviour.case_editor_shift_arrow_caret_only; [|exact Hf].
      apply Behaviour.shift_arrow_right_step_caret_only.
    - eapply Behaviour.case_editor_shift_arrow_caret_only; [|exact Hf].
      apply Behaviour.shift_arrow_down_step_caret_only.
    - eapply Behaviour.case_editor_shift_arrow_caret_only; [|exact Hf].
      apply Behaviour.shift_arrow_up_step_caret_only. }
  unfold getCurrentHighlightCoordinates, getCurrentCaretPosition, anchor.
  match goal with
  | |- context [record_history ?e ?g ?a] =>
      destruct (Behaviour.record_history_this e g a)
        as (-> & -> & -> & -> & _)
  end.
  unfold getCurrentHighlightCoordinates.
  change (highlightStartRow (this ed)) with (highlightStartRow (frame ed)).
  change (highlightStartCol (this ed)) with (highlightStartCol (frame ed)).
  change (caretRow (this ed)) with (caretRow (frame ed)).
  change (caretCol (this ed)) with (caretCol (frame ed)).
  unfold caret_row_in_buffer, anchor_row_in_buffer, line_count in *.
  unfold start_selection.
  destruct (frame ed) as [r0 c0 hr hc L hl saved menu].
  UnifiedProps.fields.
  destruct (Z.eqb_spec hr (-1)) as [->|Hsel]; UnifiedProps.fields.
  - destruct (Z.eqb_spec r0 (-1)); [lia | reflexivity].
  - destruct (Z.eqb_spec hr (-1)); [lia | reflexivity].
Qed.

End Engine.

Lemma setValuesFromEditor_adopts_editor_witness :
  exists ed,
    constructor (types := SpecTypes.types) ["abc"] (Some [Trace.type "x"]) = Ok ed
    /\ getCode
         (setValuesFromEditor ed
            (IEditor.mk (JS.join ["one"; "two"]) (mkPos 2 3)
               (Some (IEditor.mkCoordinates (mkPos 2 1) (mkPos 9 9))) true))
       = JS.join ["one"; "two"]
    /\ getCurrentHighlightCoordinates
         (setValuesFromEditor ed
            (IEditor.mk (JS.join ["one"; "two"]) (mkPos 2 3)
               (Some (IEditor.mkCoordinates (mkPos 2 1) (mkPos 9 9))) true))
       = Some (mkPos 2 1, mkPos 2 3).
Proof.
  eexists. split; [vm_compute; reflexivity|].
  match goal with
  | |- getCode (setValuesFromEditor ?ed ?e) = _ /\ _ =>
      assert (reachable (types := SpecTypes.types) ed) as Hreach
        by (exists ["abc"], [Trace.type "x"]; vm_compute; reflexivity);
      pose proof (setValuesFromEditor_adopts_editor (types := SpecTypes.types)
                    ed e Hreach) as H
  end.
  cbv zeta in H. destruct H as (Hcode & _ & _ & Hcoord & _).
  split; [exact Hcode | exact Hcoord].
Defined.

Lemma caret_setter_is_unchecked_witness :
  exists ed,
    constructor (types := SpecTypes.types) ["abc"] None = Ok ed
    /\ getCurrentCaretPosition (setCurrentCaretPosition ed 5 1) = mkPos 5 1
    /\ applyAction (types := SpecTypes.types) (setCurrentCaretPosition ed 5 1)
         (Trace.type "x") = Throw TypeError.
Proof.
  eexists. split; [vm_compute; reflexivity|].
  match goal with
  | |- getCurrentCaretPosition (setCurrentCaretPosition ?ed _ _) = _ /\ _ =>
      destruct (caret_setter_is_unchecked (types := SpecTypes.types) ed 5 1
                  (Trace.type "x") eq_refl eq_refl eq_refl)
        as (Hpos & _ & Hthrow)
  end.
  split; [exact Hpos|]. apply Hthrow.
  change (~ 1 <= 5 <= 1). lia.
Defined.

Lemma shift_arrow_anchors_selection_witness :
  exists ed,
    constructor (types := SpecTypes.types) ["abc"]
      (Some [Trace.key "arrow-right" "1"]) = Ok ed
    /\ exists ed',
         applyAction (types := SpecTypes.types) ed
           (Trace.key "shift+arrow-right" "1") = Ok ed'
         /\ getCurrentHighlightCoordinates ed' = Some (mkPos 1 2, mkPos 1 3).
Proof.
  eexists. split; [vm_compute; reflexivity|].
  match goal with
  | |- exists ed', applyAction ?ed ?a = _ /\ _ =>
      assert (reachable (types := SpecTypes.types) ed) as Hreach
        by (exists ["abc"], [Trace.key "arrow-right" "1"];
            vm_compute; reflexivity);
      destruct (shift_arrow_anchors_selection (types := SpecTypes.types)
                  ed a Hreach eq_refl) as (ed' & Hrun & Hcoord)
  end.
  exists ed'. split; [exact Hrun|].
  vm_compute in Hrun. apply Ok_inj in Hrun. subst ed'.
  eapply eq_trans; [exact Hcoord | vm_compute; reflexivity].
Defined.

End Setters.

(** ** The logs of the older engine *)

Module LegacyLogs.
Import Run.

Section Engine.
Context {types : ActionTypes}.

Lemma legacy_applyAction_returned o action o' :
  Legacy.applyAction o action = Ok o' ->
  exists f, o' = Legacy.record_history o f action.
Proof.
  unfold Legacy.applyAction. intros H.
  apply bind_Ok in H as (l & _ & H). apply bind_Ok in H as (f & _ & H).
  apply Ok_inj in H. eauto.
Qed.

Lemma legacy_constructor_actions initialCodeLines actions :
  Legacy.constructor initialCodeLines (Some actions)
  = (o <- Legacy.constructor initialCodeLines None ;;
     Legacy.applyActions o actions).
Proof.
  unfold Legacy.constructor.
  destruct (List.length initialCodeLines =? 0)%nat; reflexivity.
Qed.

Lemma legacy_constructor_initial initialCodeLines o :
  Legacy.constructor initialCodeLines None = Ok o ->
  Legacy.actionsApplied o = [legacy_seed initialCodeLines]
  /\ Legacy.codeActionsApplied o = [legacy_seed initialCodeLines]
  /\ Legacy.speakActionsApplied o = []
  /\ Legacy.speechCaptionHistory o = [Legacy.mkCaption "" ""]
  /\ List.length (Legacy.codeLinesHistory o) = 1%nat
  /\ List.length (Legacy.caretPositionHistory o) = 1%nat
  /\ List.length (Legacy.highlightStartPositionHistory o) = 1%nat
  /\ List.length (Legacy.highlightHistory o) = 1%nat.
Proof.
  intros H. destruct initialCodeLines as [|l ls]; apply Ok_inj in H; subst o;
    repeat (split; [reflexivity|]); reflexivity.
Qed.

Lemma legacy_applyActions_logs actions : forall o o',
  Legacy.applyActions o actions = Ok o' ->
  Legacy.actionsApplied o' = Legacy.actionsApplied o ++ actions
  /\ Legacy.codeActionsApplied o'
     = Legacy.codeActionsApplied o ++ filter isCodeAction actions
  /\ Legacy.speakActionsApplied o'
     = Legacy.speakActionsApplied o ++ filter isSpeakAction actions
  /\ Legacy.speechCaptionHistory o'
     = Legacy.speechCaptionHistory o ++ map caption_of actions
  /\ List.length (Legacy.codeLinesHistory o')
     = (List.length (Legacy.codeLinesHistory o) + List.length actions)%nat
  /\ List.length (Legacy.caretPositionHistory o')
     = (List.length (Legacy.caretPositionHistory o) + List.length actions)%nat
  /\ List.length (Legacy.highlightStartPositionHistory o')
     = (List.length (Legacy.highlightStartPositionHistory o)
        + List.length actions)%nat
  /\ List.length (Legacy.highlightHistory o')
     = (List.length (Legacy.highlightHistory o) + List.length actions)%nat.
Proof.
  induction actions as [|a actions IH]; intros o o' H.
  - apply Ok_inj in H. subst o'. cbn [filter map List.length].
    rewrite !app_nil_r. repeat split; lia.
  - cbn [Legacy.applyActions] in H. apply bind_Ok in H as (o1 & H1 & H).
    apply legacy_applyAction_returned in H1 as (f & ->).
    apply IH in H as (Ha & Hc & Hs & Hcap & Hlc & Hlp & Hls & Hlh).
    rewrite Ha, Hc, Hs, Hcap, Hlc, Hlp, Hls, Hlh.
    cbn [Legacy.record_history Heap.alloc fst snd Legacy.actionsApplied
         Legacy.codeActionsApplied Legacy.speakActionsApplied
         Legacy.speechCaptionHistory Legacy.codeLinesHistory
         Legacy.caretPositionHistory Legacy.highlightStartPositionHistory
         Legacy.highlightHistory filter map List.length].
    unfold caption_of at 2. rewrite !length_app. cbn [List.length].
    destruct (isCodeAction a), (isSpeakAction a);
      rewrite <- ?app_assoc; repeat split; reflexivity || lia.
Qed.

(** X19. The logs of the older engine after construction with a list of
    actions: the action log is the seed followed by the actions, the
    code-action and speak-action logs hold those that [isCodeAction] and
    [isSpeakAction] accept, the caption log has one caption per step (empty
    for the seed and for every action that is not a speak action), and the
    four per-step histories have one entry per step. *)
Theorem older_logs_are_aligned (initialCodeLines : list string)
    (actions : list IAction) (o : Legacy.VirtualEditor) :
  Legacy.constructor initialCodeLines (Some actions) = Ok o ->
  Legacy.getActionsApplied o = legacy_seed initialCodeLines :: actions
  /\ Legacy.getCodeActionsApplied o
     = legacy_seed initialCodeLines :: filter isCodeAction actions
  /\ Legacy.getSpeakActionsApplied o = filter isSpeakAction actions
  /\ Legacy.getSpeechCaptionHistory o
     = Legacy.mkCaption "" "" :: map caption_of actions
  /\ List.length (Legacy.getCodeAfterEachStep o) = S (List.length actions)
  /\ List.length (Legacy.caretPositionHistory o) = S (List.length actions)
  /\ List.length (Legacy.highlightStartPositionHistory o)
     = S (List.length actions)
  /\ List.length (Legacy.highlightHistory o) = S (List.length actions).
Proof.
  intros H. rewrite legacy_constructor_actions in H.
  apply bind_Ok in H as (o0 & H0 & H).
  apply legacy_constructor_initial in H0
    as (Ha0 & Hc0 & Hs0 & Hcap0 & Hlc0 & Hlp0 & Hls0 & Hlh0).
  apply legacy_applyActions_logs in H
    as (Ha & Hc & Hs & Hcap & Hlc & Hlp & Hls & Hlh).
  unfold Legacy.getActionsApplied, Legacy.getCodeActionsApplied,
    Legacy.getSpeakActionsApplied, Legacy.getSpeechCaptionHistory,
    Legacy.getCodeAfterEachStep.
  rewrite length_map, Ha, Hc, Hs, Hcap, Hlc, Hlp, Hls, Hlh,
    Ha0, Hc0, Hs0, Hcap0, Hlc0, Hlp0, Hls0, Hlh0.
  repeat split.
Qed.

Lemma skipn_at {A : Type} (l1 l2 : list A) (x : A) (n : nat) :
  List.length l1 = n ->
  skipn n (l1 ++ x :: l2) = x :: l2 /\ skipn (S n) (l1 ++ x :: l2) = l2.
Proof.
  intros <-. split.
  - rewrite skipn_app, skipn_all, Nat.sub_diag. reflexivity.
  - replace (l1 ++ x :: l2) with ((l1 ++ [x]) ++ l2)
      by (rewrite <- app_assoc; reflexivity).
    replace (S (List.length l1)) with (List.length (l1 ++ [x]))
      by (rewrite length_app; cbn [List.length]; lia).
    rewrite skipn_app, skipn_all, Nat.sub_diag. reflexivity.
Qed.

(** The frames from an index on, when every log has an entry for each
    remaining action. *)
Lemma annotated_frames_aligned o : forall actions index,
  (index + List.length actions <= List.length (Legacy.codeLinesHistory o))%nat ->
  (index + List.length actions
   <= List.length (Legacy.highlightStartPositionHistory o))%nat ->
  (index + List.length actions <= List.length (Legacy.highlightHistory o))%nat ->
  (index + List.length actions
   <= List.length (Legacy.caretPositionHistory o))%nat ->
  exists frames,
    Legacy.annotated_frames o actions index = Ok frames
    /\ map Legacy.actionApplied frames = actions
    /\ map Legacy.speechCaptions frames = map captions_of actions
    /\ map Legacy.code frames
       = firstn (List.length actions)
           (skipn index (Legacy.getCodeAfterEachStep o))
    /\ map Legacy.caretPosition frames
       = firstn (List.length actions)
           (skipn index
              (map (fun p => mkPos (Legacy.row p) (Legacy.column p))
                 (Legacy.caretPositionHistory o))).
Proof.
  induction actions as [|a actions IH]; intros index Hc Hs Hh Hp.
  - exists []. repeat split.
  - cbn [List.length] in *.
    destruct (IH (S index)) as (frames & Hrun & Ha & Hcap & Hcode & Hcaret);
      try lia.
    cbn [Legacy.annotated_frames]. unfold Legacy.annotated_frame,
      Legacy.getCodeAtActionIndex, Legacy.history_at, JS.get_defined, JS.get.
    destruct (Z.of_nat index >? Z.of_nat (List.length (Legacy.codeLinesHistory o)) - 1)
      eqn:E; [lia|].
    destruct (Z.of_nat index <? 0) eqn:E'; [lia|]. rewrite Nat2Z.id.
    destruct (nth_error (Legacy.codeLinesHistory o) index) as [r|] eqn:Hr;
      [|apply nth_error_None in Hr; lia].
    destruct (nth_error (Legacy.highlightStartPositionHistory o) index)
      as [start|] eqn:Hstart; [|apply nth_error_None in Hstart; lia].
    destruct (nth_error (Legacy.highlightHistory o) index) as [hl|] eqn:Hhl;
      [|apply nth_error_None in Hhl; lia].
    destruct (nth_error (Legacy.caretPositionHistory o) index) as [p|] eqn:Hpos;
      [|apply nth_error_None in Hpos; lia].
    cbn [bind]. rewrite Hrun. cbn [bind]. eexists. split; [reflexivity|].
    cbn [map Legacy.actionApplied Legacy.speechCaptions Legacy.code
         Legacy.caretPosition].
    rewrite Ha, Hcap, Hcode, Hcaret.
    split; [reflexivity|]. split; [reflexivity|].
    unfold Legacy.getCodeAfterEachStep.
    apply nth_error_split in Hr as (c1 & c2 & Hceq & Hclen).
    apply nth_error_split in Hpos as (p1 & p2 & Hpeq & Hplen).
    rewrite Hceq, Hpeq, !map_app. cbn [map].
    repeat match goal with
      | |- context [skipn index (?l1 ++ ?x :: ?l2)] =>
          destruct (skipn_at l1 l2 x index) as [-> ->];
          [rewrite length_map; assumption|]
      end.
    cbn [firstn]. split; reflexivity.
Qed.

(** X20. [getDataForAnnotatedFrames()] returns after every construction of
    the older engine that returns: one frame per step, in order, whose
    action is the step's action, whose code is the step's entry of
    [getCodeAfterEachStep()], whose caret is the step's caret, and whose
    captions are the one caption of a speak action and none otherwise. *)
Theorem annotated_frames_follow_the_logs (initialCodeLines : list string)
    (actions : list IAction) (o : Legacy.VirtualEditor) :
  Legacy.constructor initialCodeLines (Some actions) = Ok o ->
  exists frames,
    Legacy.getDataForAnnotatedFrames o = Ok frames
    /\ map Legacy.actionApplied frames = legacy_seed initialCodeLines :: actions
    /\ map Legacy.code frames = Legacy.getCodeAfterEachStep o
    /\ map Legacy.caretPosition frames
       = map (fun p => mkPos (Legacy.row p) (Legacy.column p))
           (Legacy.caretPositionHistory o)
    /\ map Legacy.speechCaptions frames
       = map captions_of (legacy_seed initialCodeLines :: actions).
Proof.
  intros H. rewrite legacy_constructor_actions in H.
  apply bind_Ok in H as (o0 & H0 & H).
  apply legacy_constructor_initial in H0
    as (Ha0 & _ & _ & _ & Hlc0 & Hlp0 & Hls0 & Hlh0).
  apply legacy_applyActions_logs in H
    as (Ha & _ & _ & _ & Hlc & Hlp & Hls & Hlh).
  rewrite Ha0 in Ha. cbn [app] in Ha.
  destruct (annotated_frames_aligned o (Legacy.actionsApplied o) O)
    as (frames & Hrun & Hact & Hcap & Hcode & Hcaret);
    try (rewrite Ha; cbn [List.length]; lia).
  exists frames. split; [exact Hrun|].
  rewrite Hact, Hcap, Hcode, Hcaret, Ha. cbn [skipn].
  split; [reflexivity|].
  split; [apply firstn_all2; unfold Legacy.getCodeAfterEachStep;
          rewrite length_map; cbn [List.length]; lia|].
  split; [apply firstn_all2; rewrite length_map; cbn [List.length]; lia|].
  reflexivity.
Qed.

End Engine.

Lemma older_logs_are_aligned_witness :
  exists o,
    Legacy.constructor (types := SpecTypes.types) ["a"]
      (Some [mkAction "speak-before" "Hello"; Trace.legacy_type "b"]) = Ok o
    /\ Legacy.getSpeakActionsApplied o = [mkAction "speak-before" "Hello"]
    /\ Legacy.getSpeechCaptionHistory o
       = [Legacy.mkCaption "" ""; Legacy.mkCaption "speak-before" "Hello";
          Legacy.mkCaption "" ""].
Proof.
  eexists. split; [vm_compute; reflexivity|].
  match goal with
  | |- Legacy.getSpeakActionsApplied ?o = _ /\ _ =>
      assert (Legacy.constructor (types := SpecTypes.types) ["a"]
                (Some [mkAction "speak-before" "Hello"; Trace.legacy_type "b"])
              = Ok o) as H by (vm_compute; reflexivity);
      destruct (older_logs_are_aligned (types := SpecTypes.types) _ _ o H)
        as (_ & _ & Hspeak & Hcaptions & _)
  end.
  split; [exact Hspeak | exact Hcaptions].
Defined.

Lemma annotated_frames_follow_the_logs_witness :
  exists o frames,
    Legacy.constructor (types := SpecTypes.types) ["a"]
      (Some [mkAction "speak-before" "Hello"; Trace.legacy_type "b"]) = Ok o
    /\ Legacy.getDataForAnnotatedFrames (types := SpecTypes.types) o = Ok frames
    /\ map Legacy.code frames = ["a"; "a"; "ba"]
    /\ map Legacy.speechCaptions frames
       = [[]; [Legacy.mkCaption "speak-before" "Hello"]; []].
Proof.
  eexists.
  match goal with
  | |- exists frames, Legacy.constructor ?ls (Some ?acts) = _ /\ _ =>
      assert (exists o, Legacy.constructor (types := SpecTypes.types) ls (Some acts)
                        = Ok o) as [o H] by (eexists; vm_compute; reflexivity);
      destruct (annotated_frames_follow_the_logs (types := SpecTypes.types)
                  ls acts o H) as (frames & Hrun & _ & Hcode & _ & Hcap)
  end.
  vm_compute in H. apply Ok_inj in H. subst o.
  exists frames. split; [vm_compute; reflexivity|]. split; [exact Hrun|].
  split; [exact Hcode | exact Hcap].
Defined.

End LegacyLogs.

(** ** Typing a text and deleting it *)

Module Undo.
Import Unified Pred Run JSFacts.

Lemma for_loop_add {S : Type} (body : S -> result S) (n m : nat) : forall s,
  for_loop (n + m) body s = (s' <- for_loop n body s ;; for_loop m body s').
Proof.
  induction n as [|n IH]; intros s; cbn [Nat.add for_loop bind]; [reflexivity|].
  destruct (body s) as [s1|e]; cbn [bind]; [apply IH | reflexivity].
Qed.

Lemma substring_prefix (s : string) (i : Z) :
  0 <= i <= JS.len s ->
  JS.substring s 0 i
  = string_of_list_ascii (firstn (Z.to_nat i) (list_ascii_of_string s)).
Proof.
  intros Hi. rewrite substring_inside by lia.
  cbn [Z.to_nat skipn]. now rewrite Z.sub_0_r.
Qed.

(** A prefix of a string is a prefix of every extension of it. *)
Lemma substring_of_prefix (p b : string) (i : Z) :
  0 <= i <= JS.len p -> JS.substring (p ++ b) 0 i = JS.substring p 0 i.
Proof.
  intros Hi. pose proof (len_nonneg b).
  rewrite !substring_prefix by (rewrite ?len_append; lia).
  rewrite list_of_append, firstn_app.
  replace (Z.to_nat i - List.length (list_ascii_of_string p))%nat with O
    by (rewrite length_list; unfold JS.len in Hi; lia).
  cbn [firstn]. now rewrite app_nil_r.
Qed.

Lemma substring_substring (p : string) (i j : Z) :
  0 <= i <= j -> j <= JS.len p ->
  JS.substring (JS.substring p 0 j) 0 i = JS.substring p 0 i.
Proof.
  intros Hi Hj. destruct (substring_split p j) as [_ Hlen]; [lia|].
  rewrite (substring_prefix (JS.substring p 0 j)) by lia.
  rewrite !(substring_prefix p) by lia.
  rewrite list_ascii_of_string_of_list_ascii, firstn_firstn.
  now rewrite Nat.min_l by lia.
Qed.

Lemma substring_all (p : string) : JS.substring p 0 (JS.len p) = p.
Proof.
  pose proof (len_nonneg p).
  rewrite <- (append_empty_r p) at 1.
  apply substring_prefix_of_append.
Qed.

Lemma join_snoc (xs : list string) (y : string) :
  xs <> [] -> JS.join (xs ++ [y]) = (JS.join xs ++ JS.newline ++ y)%string.
Proof.
  induction xs as [|x xs IH]; [congruence|]. intros _.
  destruct xs as [|x' xs]; [reflexivity|].
  cbn [app]. rewrite (Editing.join_cons x) by discriminate.
  change (x' :: xs ++ [y]) with ((x' :: xs) ++ [y]).
  rewrite IH by discriminate.
  rewrite (Editing.join_cons x (x' :: xs)) by discriminate.
  now rewrite !append_assoc.
Qed.

Lemma join_first_prefix (a first : string) (rest : list string) :
  JS.join ((a ++ first)%string :: rest) = (a ++ JS.join (first :: rest))%string.
Proof.
  destruct rest as [|x rest]; [reflexivity|].
  rewrite !Editing.join_cons by discriminate. apply append_assoc.
Qed.

(** The first line of a document is not longer than the document. *)
Lemma len_head_join (q : string) (rest : list string) :
  JS.len q <= JS.len (JS.join (q :: rest)).
Proof.
  destruct rest as [|x rest]; [cbn; lia|].
  rewrite Editing.join_cons by discriminate. rewrite !len_append.
  pose proof (len_nonneg JS.newline). pose proof (len_nonneg (JS.join (x :: rest))).
  lia.
Qed.

(** Backspace inside a line, [k] times. *)
Lemma backspace_loop_in_line k : forall p b r hr hc before after hl saved menu,
  r = Z.of_nat (List.length before) -> Z.of_nat k <= JS.len p ->
  for_loop k backspace_step
    (mkFields r (JS.len p) hr hc (before ++ (p ++ b)%string :: after)
       hl saved menu)
  = Ok (mkFields r (JS.len p - Z.of_nat k) hr hc
          (before ++ (JS.substring p 0 (JS.len p - Z.of_nat k) ++ b)%string
           :: after) hl saved menu).
Proof.
  induction k as [|k IH]; intros p b r hr hc before after hl saved menu Hr Hk.
  - cbn [for_loop]. rewrite Z.sub_0_r, substring_all. reflexivity.
  - cbn [for_loop]. unfold backspace_step at 1, line, JS.get_defined.
    UnifiedProps.fields. subst r.
    destruct (Z.gtb_spec (JS.len p) 0) as [_|]; [|lia].
    rewrite get_middle. lazy beta iota delta [bind]. rewrite set_middle.
    rewrite substring_from_of_append, substring_of_prefix by lia.
    destruct (substring_split p (JS.len p - 1)) as [_ Hlen]; [lia|].
    pose proof (IH (JS.substring p 0 (JS.len p - 1)) b
                  (Z.of_nat (List.length before)) hr hc before after hl saved
                  menu eq_refl) as Hloop.
    rewrite Hlen in Hloop. rewrite Hloop by lia.
    rewrite substring_substring by lia.
    replace (JS.len p - 1 - Z.of_nat k) with (JS.len p - Z.of_nat (S k)) by lia.
    reflexivity.
Qed.

(** Backspace over a text that was welded into the buffer: the pieces are
    deleted from the last to the first, down to column [c] of the first
    one. *)
Lemma backspace_loop_pieces b before after hc hl saved menu c : forall init last,
  0 <= c <= JS.len (hd "" (init ++ [last])) ->
  for_loop (Z.to_nat (JS.len (JS.join (init ++ [last])) - c)) backspace_step
    (mkFields (Z.of_nat (List.length before) + Z.of_nat (List.length init))
       (JS.len last) (-1) hc
       (before ++ init ++ (last ++ b)%string :: after) hl saved menu)
  = Ok (mkFields (Z.of_nat (List.length before)) c (-1) hc
          (before ++ (JS.substring (hd "" (init ++ [last])) 0 c ++ b)%string
           :: after) hl saved menu).
Proof.
  intros init. induction init as [|m init' IH] using rev_ind; intros last Hc.
  - cbn [app hd List.length] in *. change (JS.join [last]) with last.
    rewrite Z.add_0_r.
    rewrite (backspace_loop_in_line (Z.to_nat (JS.len last - c)) last b)
      by (reflexivity || lia).
    rewrite Z2Nat.id by lia.
    replace (JS.len last - (JS.len last - c)) with c by lia. reflexivity.
  - assert (hd "" ((init' ++ [m]) ++ [last]) = hd "" (init' ++ [m])) as Hhd
      by (destruct init'; reflexivity).
    rewrite Hhd in *.
    assert (JS.len (hd "" (init' ++ [m])) <= JS.len (JS.join (init' ++ [m])))
      as Hjoin.
    { destruct init' as [|q rest]; cbn [app hd];
        [change (JS.join [m]) with m; lia | apply len_head_join]. }
    rewrite join_snoc by (destruct init'; discriminate).
    rewrite !len_append. change (JS.len JS.newline) with 1.
    pose proof (len_nonneg last) as Hlast.
    replace (Z.to_nat (JS.len (JS.join (init' ++ [m])) + (1 + JS.len last) - c))
      with (Z.to_nat (JS.len last)
            + (1 + Z.to_nat (JS.len (JS.join (init' ++ [m])) - c)))%nat by lia.
    rewrite for_loop_add.
    replace (before ++ (init' ++ [m]) ++ (last ++ b)%string :: after)
      with ((before ++ init' ++ [m]) ++ (last ++ b)%string :: after)
      by (rewrite <- !app_assoc; reflexivity).
    rewrite (backspace_loop_in_line (Z.to_nat (JS.len last)) last b _ (-1) hc
               (before ++ init' ++ [m]) after hl saved menu)
      by (rewrite ?length_app; cbn [List.length]; lia).
    cbn [bind]. rewrite Z2Nat.id, Z.sub_diag by lia.
    destruct (Editing.substring_at_start last) as [-> _].
    cbn [String.append Nat.add for_loop].
    replace ((before ++ init' ++ [m]) ++ b :: after)
      with ((before ++ init') ++ m :: b :: after)
      by (rewrite <- !app_assoc; reflexivity).
    replace (Z.of_nat (List.length before) + Z.of_nat (List.length (init' ++ [m])))
      with (Z.of_nat (List.length (before ++ init')) + 1)
      by (rewrite !length_app; cbn [List.length]; lia).
    rewrite RoundTrip.backspace_step_merge by reflexivity. cbn [bind].
    replace (Z.of_nat (List.length (before ++ init')))
      with (Z.of_nat (List.length before) + Z.of_nat (List.length init'))
      by (rewrite length_app; lia).
    rewrite <- app_assoc. apply IH. exact Hc.
Qed.

(** Typing a text once and then backspace once per code unit of it, on a
    frame without a selection whose caret is inside its line. *)
Lemma type_backspace_all_frame (text : string) (f : Frame) (l hl' : string) :
  no_selection f ->
  JS.get (codeLines f) (caretRow f) = Some l ->
  0 <= caretCol f <= JS.len l ->
  exists f1 f2,
    case_editor_type (Some 1) text f = Ok f1
    /\ case_editor_backspace (Some (JS.len text))
         (set_currentlyHighlightedCode f1 hl') = Ok f2
    /\ codeLines f2 = codeLines f
    /\ caretRow f2 = caretRow f
    /\ caretCol f2 = caretCol f.
Proof.
  destruct f as [r c hr hc L hl saved menu]. unfold no_selection.
  UnifiedProps.fields. intros -> Hl Hc.
  apply get_split in Hl as (before & after & -> & Hr). symmetry in Hr.
  destruct (substring_split l c Hc) as [Hjoin Hlen].
  pose proof (Editing.split_newline_nonempty text) as Hne.
  pose proof (Editing.join_split text) as Htext.
  destruct (JS.split_newline text) as [|first rest] eqn:Hsplit; [congruence|].
  destruct (Editing.type_step_welds text first rest before l after r c (-1) hc
              hl false menu Hr Hc) as (init & last & Hpieces & Hstep).
  { intros ->. symmetry. exact Htext. }
  assert (List.length rest = List.length init) as Hcount.
  { apply (f_equal (@List.length _)) in Hpieces.
    rewrite length_app in Hpieces. cbn [List.length] in Hpieces. lia. }
  assert (JS.len (JS.join (init ++ [last])) - c = JS.len text) as Hdeleted.
  { rewrite <- Hpieces, join_first_prefix, Htext, len_append. lia. }
  assert (hd "" (init ++ [last]) = (JS.substring l 0 c ++ first)%string) as Hhd
    by (rewrite <- Hpieces; reflexivity).
  pose proof (backspace_loop_pieces (JS.substring_from l c) before after hc hl'
                false menu c init last) as Hback.
  assert (JS.substring (JS.substring l 0 c ++ first) 0 c = JS.substring l 0 c)
    as Hcut.
  { revert Hlen. generalize (JS.substring l 0 c). intros a <-.
    apply substring_prefix_of_append. }
  rewrite Hhd, Hdeleted, len_append, Hlen, Hcut, Hjoin in Hback.
  pose proof (len_nonneg first).
  eexists. eexists. split.
  { unfold case_editor_type, type_delete_selection. UnifiedProps.fields.
    cbn [Z.eqb Pos.eqb negb bind]. rewrite Hsplit, RoundTrip.for_loop_once.
    rewrite Hstep. cbn [bind]. reflexivity. }
  split.
  { unfold case_editor_backspace. UnifiedProps.fields.
    cbn [Z.eqb Pos.eqb negb]. unfold JS.iterations.
    subst r. rewrite Hcount. apply Hback. lia. }
  repeat split. symmetry. exact Hr.
Qed.

Section Engine.
Context {types : ActionTypes}.

(** X21. Typing any text and then as many backspaces as the text has code
    units is a round trip: from a reachable state with no selection and the
    caret inside its line, both calls return and the buffer lines and the
    caret are as before, line breaks in the text included. *)
Theorem type_then_backspace_all_restores (ed : VirtualEditor)
    (typed backspace : IAction) :
  reachable ed -> no_selection (frame ed) -> caret_col_in_line (frame ed) ->
  action_name typed = EditorType -> repeat_count typed = Some 1 ->
  action_name backspace = EditorBackspace ->
  repeat_count backspace = Some (JS.len (value typed)) ->
  exists ed1 ed2,
    applyAction ed typed = Ok ed1
    /\ applyAction ed1 backspace = Ok ed2
    /\ getCodeLines ed2 = getCodeLines ed
    /\ caret ed2 = caret ed.
Proof.
  intros Hreach Hsel (l & Hl & Hc) Htype Hone Hback Hcount.
  apply UnifiedProps.reachable_invariant in Hreach as [Hsep _].
  destruct (type_backspace_all_frame (value typed)
              (set_currentlyHighlightedCode (frame ed) "") l "" Hsel Hl Hc)
    as (f1 & f2 & Hf1 & Hf2 & Hlines & Hrow & Hcol).
  exists (record_history ed f1 typed).
  exists (record_history (record_history ed f1 typed) f2 backspace).
  assert (frame (record_history ed f1 typed) = f1) as Hframe1
    by (apply UnifiedProps.record_history_frame, Hsep).
  pose proof (UnifiedProps.record_history_separated ed f1 typed Hsep) as Hsep1.
  split.
  { apply Behaviour.applyAction_of_switch. rewrite Hone. unfold switch.
    rewrite Htype. exact Hf1. }
  split.
  { apply Behaviour.applyAction_of_switch. rewrite Hcount, Hframe1.
    unfold switch. rewrite Hback. exact Hf2. }
  rewrite Behaviour.record_history_getCodeLines by exact Hsep1.
  rewrite Behaviour.caret_record_history, Hlines, Hrow, Hcol.
  split; reflexivity.
Qed.

End Engine.

Lemma type_then_backspace_all_restores_witness :
  exists ed,
    constructor (types := SpecTypes.types) ["abcd"; "ef"]
      (Some [Trace.key "arrow-right" "2"]) = Ok ed
    /\ exists ed1 ed2,
         applyAction (types := SpecTypes.types) ed
           (Trace.type (JS.join ["X"; "YZ"])) = Ok ed1
         /\ getCodeLines ed1 = ["abX"; "YZcd"; "ef"]
         /\ applyAction (types := SpecTypes.types) ed1 (Trace.key "backspace" "4")
            = Ok ed2
         /\ getCodeLines ed2 = ["abcd"; "ef"]
         /\ caret ed2 = mkPos 0 2.
Proof.
  eexists. split; [vm_compute; reflexivity|].
  match goal with
  | |- exists ed1 ed2, applyAction ?ed ?a = _ /\ _ /\ applyAction _ ?b = _ /\ _ =>
      assert (reachable (types := SpecTypes.types) ed) as Hreach
        by (exists ["abcd"; "ef"], [Trace.key "arrow-right" "2"];
            vm_compute; reflexivity);
      assert (caret_col_in_line (frame ed)) as Hcol
        by (exists "abcd"; split;
            [vm_compute; reflexivity | vm_compute; split; discriminate]);
      destruct (type_then_backspace_all_restores (types := SpecTypes.types)
                  ed a b Hreach eq_refl Hcol eq_refl eq_refl eq_refl eq_refl)
        as (ed1 & ed2 & H1 & H2 & Hlines & Hcaret)
  end.
  exists ed1, ed2. split; [exact H1|].
  split; [vm_compute in H1; apply Ok_inj in H1; subst ed1; reflexivity|].
  split; [exact H2|].
  split; (eapply eq_trans; [eassumption | vm_compute; reflexivity]).
Defined.

End Undo.

(** ** The per-step accessors *)

Module Replay.
Import Unified Pred Run.

Section Engine.
Context {types : ActionTypes}.

(** X22. [getCodeLinesHistory()] and [getCodeAfterEachStep()] list, step by
    step, the lines and the text that the editor had right after each
    action, starting with the state at construction. *)
Theorem code_after_each_step_replays (initialCodeLines : list string)
    (actions : list IAction) (ed0 ed : VirtualEditor) :
  constructor initialCodeLines None = Ok ed0 ->
  applyActions ed0 actions = Ok ed ->
  getCodeLinesHistory ed = map getCodeLines (ed0 :: steps ed0 actions)
  /\ getCodeAfterEachStep ed = map getCode (ed0 :: steps ed0 actions).
Proof.
  intros H0 H.
  pose proof (UnifiedProps.constructor_invariant _ _ H0) as [Hsep _].
  destruct (Logs.applyActions_snapshots _ _ _ Hsep H) as (Hc & _).
  destruct (Logs.constructor_initial _ _ H0) as (Hl0 & _ & _ & Hc0 & _).
  assert (getCodeLinesHistory ed = map getCodeLines (ed0 :: steps ed0 actions))
    as Hlines by (rewrite Hc, Hc0, <- Hl0; reflexivity).
  split; [exact Hlines|].
  unfold getCodeAfterEachStep. rewrite Hlines, map_map. reflexivity.
Qed.

End Engine.

Lemma code_after_each_step_replays_witness :
  exists ed0 ed,
    constructor (types := SpecTypes.types) ["ab"] None = Ok ed0
    /\ applyActions (types := SpecTypes.types) ed0
         [Trace.key "arrow-right" "1"; Trace.type "X"] = Ok ed
    /\ getCodeAfterEachStep ed = ["ab"; "ab"; "aXb"].
Proof.
  eexists. eexists. split; [vm_compute; reflexivity|].
  match goal with
  | |- applyActions ?ed0 ?acts = Ok ?x /\ _ =>
      split;
      [ vm_compute; reflexivity
      | assert (constructor (types := SpecTypes.types) ["ab"] None = Ok ed0) as H0
          by (vm_compute; reflexivity);
        assert (applyActions (types := SpecTypes.types) ed0 acts = Ok x) as Hrun
          by (vm_compute; reflexivity);
        eapply eq_trans;
        [ exact (proj2 (code_after_each_step_replays (types := SpecTypes.types)
                          ["ab"] acts ed0 x H0 Hrun))
        | vm_compute; reflexivity ] ]
  end.
Defined.

End Replay.

(** ** Selections: the highlighted text, and its deletion *)

Module Selection.
Import Unified Pred Run JSFacts.

Ltac reassoc :=
  repeat first [rewrite <- app_assoc | progress cbn [app]]; reflexivity.

Lemma firstn_cut {A : Type} (l : list A) (i j : nat) :
  (i <= j)%nat -> firstn j l = firstn i l ++ firstn (j - i) (skipn i l).
Proof.
  intros Hij. rewrite <- (firstn_skipn i l) at 1.
  rewrite firstn_app, firstn_firstn, Nat.min_r by lia.
  destruct (Nat.le_gt_cases (List.length l) i) as [Hlen|Hlen].
  - rewrite !skipn_all2 by lia. rewrite !firstn_nil. reflexivity.
  - rewrite length_firstn, Nat.min_l by lia. reflexivity.
Qed.

(** A prefix of a string, cut at an earlier position. *)
Lemma substring_cut (s : string) (i j : Z) :
  0 <= i <= j -> j <= JS.len s ->
  JS.substring s 0 j = (JS.substring s 0 i ++ JS.substring s i j)%string.
Proof.
  intros Hi Hj.
  rewrite !Undo.substring_prefix, (substring_inside s i j) by lia.
  rewrite <- string_of_app. f_equal.
  rewrite (firstn_cut _ (Z.to_nat i) (Z.to_nat j)) by lia.
  do 2 f_equal. lia.
Qed.

Lemma get_app_left {A : Type} (l1 l2 : list A) (i : Z) :
  i < Z.of_nat (List.length l1) -> JS.get (l1 ++ l2) i = JS.get l1 i.
Proof.
  intros Hi. unfold JS.get. destruct (Z.ltb_spec i 0); [reflexivity|].
  apply nth_error_app1. lia.
Qed.

(** A buffer seen around two of its rows. *)
Lemma two_rows (L : list string) (rS rE : Z) (lS lE : string) :
  rS < rE -> JS.get L rS = Some lS -> JS.get L rE = Some lE ->
  exists before middle after,
    L = before ++ lS :: middle ++ lE :: after
    /\ rS = Z.of_nat (List.length before)
    /\ rE = Z.of_nat (List.length (before ++ lS :: middle)).
Proof.
  intros Hlt HS HE.
  apply get_split in HE as (pre & after & -> & Hpre).
  rewrite get_app_left in HS by lia.
  apply get_split in HS as (before & middle & -> & Hbefore).
  exists before, middle, after. rewrite <- app_assoc. cbn [app].
  repeat split; lia.
Qed.

Lemma splice_delete_run {A : Type} (before deleted after : list A) (x : A) :
  JS.splice (before ++ x :: deleted ++ after)
    (Z.of_nat (List.length before) + 1) (Z.of_nat (List.length deleted)) []
  = before ++ x :: after.
Proof.
  unfold JS.splice.
  destruct (Z.ltb_spec (Z.of_nat (List.length before) + 1) 0); [lia|].
  rewrite !length_app. cbn [List.length]. rewrite length_app.
  rewrite Z.min_l by lia. rewrite Z.max_l, Z.min_l by lia.
  replace (Z.to_nat (Z.of_nat (List.length before) + 1))
    with (List.length (before ++ [x]))
    by (rewrite length_app; cbn [List.length]; lia).
  replace (Z.to_nat (Z.of_nat (List.length before) + 1
                     + Z.of_nat (List.length deleted)))
    with (List.length ((before ++ [x]) ++ deleted))
    by (rewrite !length_app; cbn [List.length]; lia).
  replace (before ++ x :: deleted ++ after)
    with (((before ++ [x]) ++ deleted) ++ after)
    by reassoc.
  rewrite skipn_app, skipn_all, Nat.sub_diag.
  rewrite <- app_assoc, firstn_app, firstn_all, Nat.sub_diag.
  cbn [firstn skipn app]. rewrite app_nil_r, <- app_assoc. reflexivity.
Qed.

(** *** The highlighted text *)

Lemma highlighted_rows_S (f : Frame) (startRow endRow : Z)
    (isForwardSelection : bool) (r : Z) (k : nat) :
  highlighted_rows f startRow endRow isForwardSelection r (S k)
  = (x <- highlighted_row f startRow endRow isForwardSelection r ;;
     xs <- highlighted_rows f startRow endRow isForwardSelection (r + 1) k ;;
     Ok (x :: xs)).
Proof. reflexivity. Qed.

(** The rows of a selection that spans several lines: the rest of the
    first line, the lines between, and the start of the last line. *)
Lemma highlighted_rows_middle (f : Frame) (startRow endRow : Z)
    (isForwardSelection : bool) (before after : list string) (lS lE : string)
    (endCol : Z) :
  forall m2 m1 : list string,
  codeLines f = before ++ lS :: (m1 ++ m2) ++ lE :: after ->
  startRow = Z.of_nat (List.length before) ->
  endRow = Z.of_nat (List.length (before ++ lS :: m1 ++ m2)) ->
  endCol = (if isForwardSelection then caretCol f else highlightStartCol f) ->
  highlighted_rows f startRow endRow isForwardSelection
    (Z.of_nat (List.length (before ++ lS :: m1))) (S (List.length m2))
  = Ok (m2 ++ [JS.substring lE 0 endCol]).
Proof.
  induction m2 as [|x m2 IH]; intros m1 HL HS HE Hcol.
  - cbn [highlighted_rows]. unfold highlighted_row, line, JS.get_defined.
    rewrite app_nil_r in *. subst startRow endRow.
    rewrite length_app. cbn [List.length].
    destruct (Z.eqb_spec (Z.of_nat (List.length before + S (List.length m1)))
                (Z.of_nat (List.length before))); [lia|].
    rewrite Z.eqb_refl, HL.
    replace (before ++ lS :: m1 ++ lE :: after)
      with ((before ++ lS :: m1) ++ lE :: after)
      by reassoc.
    replace (Z.of_nat (List.length before + S (List.length m1)))
      with (Z.of_nat (List.length (before ++ lS :: m1)))
      by (rewrite length_app; cbn [List.length]; lia).
    rewrite get_middle. cbn [bind app]. rewrite Hcol. reflexivity.
  - cbn [List.length]. rewrite highlighted_rows_S. unfold highlighted_row at 1.
    destruct (Z.eqb_spec (Z.of_nat (List.length (before ++ lS :: m1))) startRow)
      as [Heq|_];
      [subst startRow; rewrite length_app in Heq; cbn [List.length] in Heq; lia|].
    destruct (Z.eqb_spec (Z.of_nat (List.length (before ++ lS :: m1))) endRow)
      as [Heq|_];
      [subst endRow; rewrite !length_app in Heq; cbn [List.length] in Heq;
       rewrite length_app in Heq; cbn [List.length] in Heq; lia|].
    rewrite HL.
    replace (before ++ lS :: (m1 ++ x :: m2) ++ lE :: after)
      with ((before ++ lS :: m1) ++ x :: m2 ++ lE :: after)
      by reassoc.
    rewrite get_middle. cbn [bind].
    replace (Z.of_nat (List.length (before ++ lS :: m1)) + 1)
      with (Z.of_nat (List.length (before ++ lS :: m1 ++ [x])))
      by (rewrite !length_app; cbn [List.length]; rewrite length_app;
          cbn [List.length]; lia).
    rewrite (IH (m1 ++ [x])).
    + reflexivity.
    + rewrite HL. reassoc.
    + exact HS.
    + rewrite HE. reassoc.
    + exact Hcol.
Qed.

Lemma highlighted_rows_slice (f : Frame) (startRow endRow : Z)
    (isForwardSelection : bool) (before middle after : list string)
    (lS lE : string) :
  codeLines f = before ++ lS :: middle ++ lE :: after ->
  startRow = Z.of_nat (List.length before) ->
  endRow = Z.of_nat (List.length (before ++ lS :: middle)) ->
  highlighted_rows f startRow endRow isForwardSelection startRow
    (Z.to_nat (endRow - startRow + 1))
  = Ok (JS.substring_from lS
          (if isForwardSelection then highlightStartCol f else caretCol f)
        :: middle
        ++ [JS.substring lE 0
              (if isForwardSelection then caretCol f else highlightStartCol f)]).
Proof.
  intros HL HS HE.
  replace (Z.to_nat (endRow - startRow + 1)) with (S (S (List.length middle)))
    by (subst; rewrite length_app; cbn [List.length]; lia).
  rewrite highlighted_rows_S. unfold highlighted_row at 1, line, JS.get_defined.
  rewrite Z.eqb_refl, HL. rewrite HS at 1. rewrite get_middle. cbn [bind].
  replace (startRow + 1) with (Z.of_nat (List.length (before ++ lS :: [])))
    by (subst; rewrite length_app; cbn [List.length]; lia).
  rewrite (highlighted_rows_middle f startRow endRow isForwardSelection
             before after lS lE
             (if isForwardSelection then caretCol f else highlightStartCol f)
             middle [] HL HS HE eq_refl).
  reflexivity.
Qed.

(** The highlighted text is the text of the document between the anchor
    and the caret. *)
Lemma highlighted_text_is_slice (f : Frame) (text : string) :
  let start := mkPos (highlightStartRow f) (highlightStartCol f) in
  let caret := mkPos (caretRow f) (caretCol f) in
  in_text (codeLines f) start -> in_text (codeLines f) caret ->
  calculateHighlightedText f = Ok text ->
  (precedes start caret ->
   text_before (codeLines f) caret
   = (text_before (codeLines f) start ++ text)%string)
  /\ (precedes caret start ->
      text_before (codeLines f) start
      = (text_before (codeLines f) caret ++ text)%string).
Proof.
  destruct f as [r c hr hc L hl saved menu]. cbv zeta.
  unfold in_text, precedes. cbn [row col]. UnifiedProps.fields.
  intros (lA & HA & HcA) (lC & HC & HcC) Htext.
  pose proof (get_Some_bounds _ _ _ HA) as HrA.
  unfold calculateHighlightedText in Htext. UnifiedProps.fields.
  destruct (Z.eqb_spec hr (-1)) as [|_]; [lia|].
  destruct (Z.eqb_spec r hr) as [->|Hrows].
  - (* one line *)
    rewrite HA in HC. injection HC as <-.
    unfold line, JS.get_defined in Htext. UnifiedProps.fields.
    rewrite HA in Htext. cbn [bind] in Htext. apply Ok_inj in Htext. subst text.
    apply get_split in HA as (before & after & -> & Hr). subst hr.
    destruct (Editing.text_at_middle before after lA c) as [-> _].
    destruct (Editing.text_at_middle before after lA hc) as [-> _].
    split; intros [Hlt|[_ Hle]]; try lia.
    + rewrite Z.min_l, Z.max_r by lia.
      rewrite (substring_cut lA hc c) by lia.
      rewrite <- Editing.join_glue. reflexivity.
    + rewrite Z.min_r, Z.max_l by lia.
      rewrite (substring_cut lA c hc) by lia.
      rewrite <- Editing.join_glue. reflexivity.
  - (* several lines *)
    cbv zeta in Htext. apply bind_Ok in Htext as (rows & Hrows' & Htext).
    apply Ok_inj in Htext. subst text.
    destruct (Z.lt_ge_cases hr r) as [Hfwd|Hbwd].
    + destruct (two_rows L hr r lA lC Hfwd HA HC)
        as (before & middle & after & -> & HS & HE).
      rewrite Z.min_l, Z.max_r in Hrows' by lia.
      rewrite (highlighted_rows_slice _ hr r (hr <? r) before middle after lA lC)
        in Hrows' by (reflexivity || assumption).
      UnifiedProps.fields.
      destruct (Z.ltb_spec hr r); [|lia]. apply Ok_inj in Hrows'. subst rows.
      split; intros [Hlt|[Heq _]]; try lia.
      subst hr r.
      destruct (Editing.text_at_middle before (middle ++ lC :: after) lA hc)
        as [-> _].
      replace (before ++ lA :: middle ++ lC :: after)
        with ((before ++ lA :: middle) ++ lC :: after)
        by reassoc.
      destruct (Editing.text_at_middle (before ++ lA :: middle) after lC c)
        as [-> _].
      rewrite Editing.join_glue.
      destruct (substring_split lA hc HcA) as [-> _].
      rewrite <- app_assoc. reflexivity.
    + assert (r < hr) as Hlt by lia.
      destruct (two_rows L r hr lC lA Hlt HC HA)
        as (before & middle & after & -> & HS & HE).
      rewrite Z.min_r, Z.max_l in Hrows' by lia.
      rewrite (highlighted_rows_slice _ r hr (hr <? r) before middle after lC lA)
        in Hrows' by (reflexivity || assumption).
      UnifiedProps.fields.
      destruct (Z.ltb_spec hr r); [lia|]. apply Ok_inj in Hrows'. subst rows.
      split; intros [Hlt'|[Heq _]]; try lia.
      subst hr r.
      destruct (Editing.text_at_middle before (middle ++ lA :: after) lC c)
        as [-> _].
      replace (before ++ lC :: middle ++ lA :: after)
        with ((before ++ lC :: middle) ++ lA :: after)
        by reassoc.
      destruct (Editing.text_at_middle (before ++ lC :: middle) after lA hc)
        as [-> _].
      rewrite Editing.join_glue.
      destruct (substring_split lC c HcC) as [-> _].
      rewrite <- app_assoc. reflexivity.
Qed.

Lemma shift_arrow_result step numTimes (f f' : Frame) :
  case_editor_shift_arrow step numTimes f = Ok f' ->
  exists f1,
    calculateHighlightedText f1 = Ok (currentlyHighlightedCode f')
    /\ codeLines f' = codeLines f1
    /\ caretRow f' = caretRow f1 /\ caretCol f' = caretCol f1
    /\ highlightStartRow f' = highlightStartRow f1
    /\ highlightStartCol f' = highlightStartCol f1.
Proof.
  unfold case_editor_shift_arrow. intros H.
  apply bind_Ok in H as (f1 & _ & H). apply bind_Ok in H as (text & Htext & H).
  apply Ok_inj in H. subst f'. exists f1. destruct f1.
  repeat split. exact Htext.
Qed.

(** *** Backspace over a selection *)

Lemma backspace_over_selection numTimes (f : Frame) :
  let start := mkPos (highlightStartRow f) (highlightStartCol f) in
  let caret := mkPos (caretRow f) (caretCol f) in
  in_text (codeLines f) start -> in_text (codeLines f) caret ->
  exists f',
    case_editor_backspace numTimes f = Ok f'
    /\ highlightStartRow f' = -1
    /\ isSaved f' = false
    /\ (precedes start caret ->
        JS.join (codeLines f')
        = (text_before (codeLines f) start ++ text_after (codeLines f) caret)%string
        /\ mkPos (caretRow f') (caretCol f') = start)
    /\ (precedes caret start ->
        JS.join (codeLines f')
        = (text_before (codeLines f) caret ++ text_after (codeLines f) start)%string
        /\ mkPos (caretRow f') (caretCol f') = caret).
Proof.
  destruct f as [r c hr hc L hl saved menu]. cbv zeta.
  unfold in_text, precedes. cbn [row col]. UnifiedProps.fields.
  intros (lA & HA & HcA) (lC & HC & HcC).
  pose proof (get_Some_bounds _ _ _ HA) as HrA.
  unfold case_editor_backspace, delete_range, line, JS.get_defined.
  UnifiedProps.fields.
  destruct (Z.eqb_spec hr (-1)) as [|_]; [lia|]. cbn [negb].
  destruct (Z.lt_total hr r) as [Hfwd|[->|Hbwd]].
  - (* the anchor is above the caret *)
    destruct (two_rows L hr r lA lC Hfwd HA HC)
      as (before & middle & after & -> & HS & HE).
    rewrite Z.min_l, Z.max_r by lia.
    destruct (Z.eqb_spec hr r); [lia|]. destruct (Z.ltb_spec hr r); [|lia].
    rewrite HA, HC. lazy beta iota delta [bind].
    eexists. split; [reflexivity|]. UnifiedProps.fields.
    split; [reflexivity|]. split; [reflexivity|].
    split; intros [Hlt|[Heq _]]; try lia.
    subst hr. rewrite set_middle.
    replace (r - Z.of_nat (List.length before))
      with (Z.of_nat (List.length (middle ++ [lC])))
      by (rewrite HE, !length_app; cbn [List.length]; lia).
    replace (before ++ (JS.substring lA 0 hc ++ JS.substring_from lC c)%string
             :: middle ++ lC :: after)
      with (before ++ (JS.substring lA 0 hc ++ JS.substring_from lC c)%string
            :: (middle ++ [lC]) ++ after) by reassoc.
    rewrite splice_delete_run, <- Editing.join_glue.
    destruct (Editing.text_at_middle before (middle ++ lC :: after) lA hc)
      as [-> _].
    subst r.
    replace (before ++ lA :: middle ++ lC :: after)
      with ((before ++ lA :: middle) ++ lC :: after) by reassoc.
    destruct (Editing.text_at_middle (before ++ lA :: middle) after lC c)
      as [_ ->].
    split; reflexivity.
  - (* one line *)
    rewrite HA in HC. injection HC as <-.
    rewrite Z.min_id, Z.max_id, Z.eqb_refl, HA. lazy beta iota delta [bind].
    eexists. split; [reflexivity|]. UnifiedProps.fields.
    split; [reflexivity|]. split; [reflexivity|].
    apply get_split in HA as (before & after & -> & Hr). subst r.
    rewrite set_middle, <- Editing.join_glue.
    destruct (Z.ltb_spec (Z.of_nat (List.length before))
                (Z.of_nat (List.length before))); [lia|].
    split; intros [Hlt|[_ Hle]]; try lia.
    + rewrite Z.min_r, Z.max_l by lia.
      destruct (Editing.text_at_middle before after lA hc) as [-> _].
      destruct (Editing.text_at_middle before after lA c) as [_ ->].
      split; reflexivity.
    + rewrite Z.min_l, Z.max_r by lia.
      destruct (Editing.text_at_middle before after lA c) as [-> _].
      destruct (Editing.text_at_middle before after lA hc) as [_ ->].
      split; reflexivity.
  - (* the anchor is below the caret *)
    destruct (two_rows L r hr lC lA Hbwd HC HA)
      as (before & middle & after & -> & HS & HE).
    rewrite Z.min_r, Z.max_l by lia.
    destruct (Z.eqb_spec r hr); [lia|]. destruct (Z.ltb_spec hr r); [lia|].
    rewrite HA, HC. lazy beta iota delta [bind].
    eexists. split; [reflexivity|]. UnifiedProps.fields.
    split; [reflexivity|]. split; [reflexivity|].
    split; intros [Hlt|[Heq _]]; try lia.
    subst r. rewrite set_middle.
    replace (hr - Z.of_nat (List.length before))
      with (Z.of_nat (List.length (middle ++ [lA])))
      by (rewrite HE, !length_app; cbn [List.length]; lia).
    replace (before ++ (JS.substring lC 0 c ++ JS.substring_from lA hc)%string
             :: middle ++ lA :: after)
      with (before ++ (JS.substring lC 0 c ++ JS.substring_from lA hc)%string
            :: (middle ++ [lA]) ++ after) by reassoc.
    rewrite splice_delete_run, <- Editing.join_glue.
    destruct (Editing.text_at_middle before (middle ++ lA :: after) lC c)
      as [-> _].
    subst hr.
    replace (before ++ lC :: middle ++ lA :: after)
      with ((before ++ lC :: middle) ++ lA :: after) by reassoc.
    destruct (Editing.text_at_middle (before ++ lC :: middle) after lA hc)
      as [_ ->].
    split; reflexivity.
Qed.

Section Engine.
Context {types : ActionTypes}.

(** X23. After a shift+arrow, the highlighted text is the text of the
    document between the anchor and the caret, whichever comes first, as
    long as both are positions of the text: the text before the later of
    the two is the text before the earlier one followed by
    [getCurrentHighlightedCode()]. *)
Theorem highlight_is_text_between (ed ed' : VirtualEditor) (action : IAction) :
  reachable ed -> is_shift_arrow (action_name action) = true ->
  applyAction ed action = Ok ed' ->
  in_text (getCodeLines ed') (selection_start ed') ->
  in_text (getCodeLines ed') (caret ed') ->
  (precedes (selection_start ed') (caret ed') ->
   text_before (getCodeLines ed') (caret ed')
   = (text_before (getCodeLines ed') (selection_start ed')
      ++ getCurrentHighlightedCode ed')%string)
  /\ (precedes (caret ed') (selection_start ed') ->
      text_before (getCodeLines ed') (selection_start ed')
      = (text_before (getCodeLines ed') (caret ed')
         ++ getCurrentHighlightedCode ed')%string).
Proof.
  intros Hreach Hkind H.
  apply UnifiedProps.reachable_invariant in Hreach as [Hsep _].
  apply UnifiedProps.applyAction_returned in H as (numTimes & len & f & Hf & ->).
  assert (selection_start (record_history ed f action)
          = mkPos (highlightStartRow f) (highlightStartCol f)) as ->
    by (destruct f; reflexivity).
  assert (getCurrentHighlightedCode (record_history ed f action)
          = currentlyHighlightedCode f) as -> by (destruct f; reflexivity).
  rewrite Behaviour.caret_record_history,
    (Behaviour.record_history_getCodeLines ed f action Hsep).
  assert (exists f1,
             calculateHighlightedText f1 = Ok (currentlyHighlightedCode f)
             /\ codeLines f = codeLines f1
             /\ caretRow f = caretRow f1 /\ caretCol f = caretCol f1
             /\ highlightStartRow f = highlightStartRow f1
             /\ highlightStartCol f = highlightStartCol f1)
    as (f1 & Htext & -> & -> & -> & -> & ->).
  { unfold switch in Hf. destruct (action_name action); try discriminate Hkind;
      eapply shift_arrow_result; exact Hf. }
  intros Hstart Hcaret.
  exact (highlighted_text_is_slice f1 _ Hstart Hcaret Htext).
Qed.

(** X24. Backspace over a selection whose two ends are positions of the
    text returns, whatever its count, and deletes exactly the selection:
    the document becomes the text before the earlier of anchor and caret
    followed by the text after the later one, the caret is at the earlier
    one, there is no selection left and the saved flag is cleared. *)
Theorem backspace_deletes_selection (ed : VirtualEditor) (action : IAction) :
  reachable ed -> action_name action = EditorBackspace ->
  in_text (getCodeLines ed) (selection_start ed) ->
  in_text (getCodeLines ed) (caret ed) ->
  exists ed',
    applyAction ed action = Ok ed'
    /\ getCurrentHighlightCoordinates ed' = None
    /\ getIsSaved ed' = false
    /\ (precedes (selection_start ed) (caret ed) ->
        getCode ed'
        = (text_before (getCodeLines ed) (selection_start ed)
           ++ text_after (getCodeLines ed) (caret ed))%string
        /\ caret ed' = selection_start ed)
    /\ (precedes (caret ed) (selection_start ed) ->
        getCode ed'
        = (text_before (getCodeLines ed) (caret ed)
           ++ text_after (getCodeLines ed) (selection_start ed))%string
        /\ caret ed' = caret ed).
Proof.
  intros Hreach Hname Hstart Hcaret.
  apply UnifiedProps.reachable_invariant in Hreach as [Hsep _].
  destruct (backspace_over_selection (repeat_count action)
              (set_currentlyHighlightedCode (frame ed) "") Hstart Hcaret)
    as (f' & Hrun & Hsel & Hsaved & Hfwd & Hbwd).
  exists (record_history ed f' action). split.
  { apply Behaviour.applyAction_of_switch. unfold switch. rewrite Hname.
    exact Hrun. }
  unfold getCurrentHighlightCoordinates, getIsSaved, getCode.
  rewrite Behaviour.caret_record_history,
    (Behaviour.record_history_getCodeLines ed f' action Hsep).
  destruct (Behaviour.record_history_this ed f' action)
    as (_ & _ & -> & _ & -> & _).
  rewrite Hsel, Hsaved.
  split; [reflexivity|]. split; [reflexivity|].
  split; [exact Hfwd | exact Hbwd].
Qed.

End Engine.

Lemma highlight_is_text_between_witness :
  exists ed ed',
    constructor (types := SpecTypes.types) ["abc"; "defg"]
      (Some [Trace.key "arrow-right" "1"]) = Ok ed
    /\ applyAction (types := SpecTypes.types) ed
         (Trace.key "shift+arrow-down" "1") = Ok ed'
    /\ getCurrentHighlightedCode ed' = JS.join ["bc"; "d"]
    /\ text_before (getCodeLines ed') (caret ed')
       = (text_before (getCodeLines ed') (selection_start ed')
          ++ getCurrentHighlightedCode ed')%string.
Proof.
  eexists. eexists. split; [vm_compute; reflexivity|].
  match goal with
  | |- applyAction ?ed ?a = Ok ?x /\ _ =>
      split; [vm_compute; reflexivity|];
      split; [vm_compute; reflexivity|];
      assert (reachable (types := SpecTypes.types) ed) as Hreach
        by (exists ["abc"; "defg"], [Trace.key "arrow-right" "1"];
            vm_compute; reflexivity);
      assert (applyAction (types := SpecTypes.types) ed a = Ok x) as Hrun
        by (vm_compute; reflexivity);
      apply (highlight_is_text_between (types := SpecTypes.types) ed x a
               Hreach eq_refl Hrun)
  end.
  - exists "abc". split; [vm_compute; reflexivity | vm_compute; split; discriminate].
  - exists "defg". split; [vm_compute; reflexivity | vm_compute; split; discriminate].
  - left. vm_compute. reflexivity.
Defined.

Lemma backspace_deletes_selection_witness :
  exists ed,
    constructor (types := SpecTypes.types) ["abc"; "defg"]
      (Some [Trace.key "arrow-right" "1"; Trace.key "shift+arrow-down" "1"])
    = Ok ed
    /\ exists ed',
         applyAction (types := SpecTypes.types) ed (Trace.key "backspace" "7")
         = Ok ed'
         /\ getCode ed' = "aefg"
         /\ caret ed' = mkPos 0 1.
Proof.
  eexists. split; [vm_compute; reflexivity|].
  match goal with
  | |- exists ed', applyAction ?ed ?a = _ /\ _ =>
      assert (reachable (types := SpecTypes.types) ed) as Hreach
        by (exists ["abc"; "defg"],
              [Trace.key "arrow-right" "1"; Trace.key "shift+arrow-down" "1"];
            vm_compute; reflexivity);
      assert (in_text (getCodeLines ed) (selection_start ed)) as Hstart
        by (exists "abc"; split;
            [vm_compute; reflexivity | vm_compute; split; discriminate]);
      assert (in_text (getCodeLines ed) (caret ed)) as Hcaret
        by (exists "defg"; split;
            [vm_compute; reflexivity | vm_compute; split; discriminate]);
      assert (precedes (selection_start ed) (caret ed)) as Horder
        by (left; vm_compute; reflexivity);
      destruct (backspace_deletes_selection (types := SpecTypes.types)
                  ed a Hreach eq_refl Hstart Hcaret)
        as (ed' & Hrun & _ & _ & Hfwd & _);
      destruct (Hfwd Horder) as [Hcode Hpos]
  end.
  exists ed'. split; [exact Hrun|].
  split; (eapply eq_trans; [eassumption | vm_compute; reflexivity]).
Defined.

(** *** Typing over a selection *)

Lemma cut_at_len (a x : string) (n : Z) :
  JS.len a = n ->
  JS.substring (a ++ x) 0 n = a /\ JS.substring_from (a ++ x) n = x.
Proof.
  intros <-.
  split; [apply substring_prefix_of_append | apply substring_from_of_append].
Qed.

(** The deletion that opens [editor-type], on a selection made forwards:
    the frame left has no selection, and its caret, at the anchor, splits
    the text into the text before the anchor and the text after the old
    caret. *)
Lemma type_delete_forward_selection (f : Frame) :
  let start := mkPos (highlightStartRow f) (highlightStartCol f) in
  let caret := mkPos (caretRow f) (caretCol f) in
  in_text (codeLines f) start -> in_text (codeLines f) caret ->
  precedes start caret ->
  exists g l,
    type_delete_selection (set_isSaved f false) = Ok g
    /\ no_selection g /\ isSaved g = false
    /\ JS.get (codeLines g) (caretRow g) = Some l
    /\ 0 <= caretCol g <= JS.len l
    /\ text_before (codeLines g) (mkPos (caretRow g) (caretCol g))
       = text_before (codeLines f) start
    /\ text_after (codeLines g) (mkPos (caretRow g) (caretCol g))
       = text_after (codeLines f) caret.
Proof.
  destruct f as [r c hr hc L hl saved menu]. cbv zeta.
  unfold in_text, precedes, no_selection. cbn [row col]. UnifiedProps.fields.
  intros (lA & HA & HcA) (lC & HC & HcC) Horder.
  pose proof (get_Some_bounds _ _ _ HA) as HrA.
  unfold type_delete_selection, line, JS.get_defined. UnifiedProps.fields.
  destruct (Z.eqb_spec hr (-1)) as [|_]; [lia|]. cbn [negb].
  destruct (substring_split lA hc HcA) as [_ Hlen].
  pose proof (len_nonneg (JS.substring_from lC c)) as Hrest.
  destruct Horder as [Hfwd|[-> Hcols]].
  - destruct (two_rows L hr r lA lC Hfwd HA HC)
      as (before & middle & after & -> & HS & HE).
    destruct (Z.eqb_spec hr r); [lia|].
    rewrite HA, HC. lazy beta iota delta [bind].
    eexists. exists (JS.substring lA 0 hc ++ JS.substring_from lC c)%string.
    split; [reflexivity|]. UnifiedProps.fields.
    split; [reflexivity|]. split; [reflexivity|].
    subst hr. rewrite set_middle.
    replace (r - Z.of_nat (List.length before))
      with (Z.of_nat (List.length (middle ++ [lC])))
      by (rewrite HE, !length_app; cbn [List.length]; lia).
    replace (before ++ (JS.substring lA 0 hc ++ JS.substring_from lC c)%string
             :: middle ++ lC :: after)
      with (before ++ (JS.substring lA 0 hc ++ JS.substring_from lC c)%string
            :: (middle ++ [lC]) ++ after) by reassoc.
    rewrite splice_delete_run, get_middle.
    split; [reflexivity|]. split; [rewrite len_append; lia|].
    destruct (Editing.text_at_middle before after
                (JS.substring lA 0 hc ++ JS.substring_from lC c) hc) as [-> ->].
    destruct (Editing.text_at_middle before (middle ++ lC :: after) lA hc)
      as [-> _].
    subst r.
    replace (before ++ lA :: middle ++ lC :: after)
      with ((before ++ lA :: middle) ++ lC :: after) by reassoc.
    destruct (Editing.text_at_middle (before ++ lA :: middle) after lC c)
      as [_ ->].
    match goal with
    | |- context [JS.substring (?a ++ ?x) 0 hc] =>
        destruct (cut_at_len a x hc Hlen) as [-> ->]
    end.
    split; reflexivity.
  - rewrite HA in HC. injection HC as <-.
    rewrite Z.eqb_refl, HA. lazy beta iota delta [bind].
    eexists. exists (JS.substring lA 0 hc ++ JS.substring_from lA c)%string.
    split; [reflexivity|]. UnifiedProps.fields.
    split; [reflexivity|]. split; [reflexivity|].
    apply get_split in HA as (before & after & -> & Hr). subst r.
    rewrite set_middle, get_middle.
    split; [reflexivity|]. split; [rewrite len_append; lia|].
    destruct (Editing.text_at_middle before after
                (JS.substring lA 0 hc ++ JS.substring_from lA c) hc) as [-> ->].
    destruct (Editing.text_at_middle before after lA hc) as [-> _].
    destruct (Editing.text_at_middle before after lA c) as [_ ->].
    match goal with
    | |- context [JS.substring (?a ++ ?x) 0 hc] =>
        destruct (cut_at_len a x hc Hlen) as [-> ->]
    end.
    split; reflexivity.
Qed.

Lemma type_over_forward_selection (value : string) (f : Frame) :
  let start := mkPos (highlightStartRow f) (highlightStartCol f) in
  let caret := mkPos (caretRow f) (caretCol f) in
  in_text (codeLines f) start -> in_text (codeLines f) caret ->
  precedes start caret ->
  exists f',
    case_editor_type (Some 1) value f = Ok f'
    /\ JS.join (codeLines f')
       = (text_before (codeLines f) start ++ value
          ++ text_after (codeLines f) caret)%string
    /\ text_before (codeLines f') (mkPos (caretRow f') (caretCol f'))
       = (text_before (codeLines f) start ++ value)%string
    /\ text_after (codeLines f') (mkPos (caretRow f') (caretCol f'))
       = text_after (codeLines f) caret
    /\ isSaved f' = false
    /\ highlightStartRow f' = -1.
Proof.
  cbv zeta. intros Hstart Hcaret Horder.
  destruct (type_delete_forward_selection f Hstart Hcaret Horder)
    as (g & l & Hg & Hsel & Hsaved & Hl & Hc & Hbefore & Hafter).
  destruct (Editing.case_editor_type_inserts value g l Hsel Hl Hc)
    as (f' & Hrun & _ & Hbefore' & Hafter' & Hdoc & Hsaved' & Hsel').
  exists f'. rewrite Hbefore, Hafter in *.
  split; [|repeat split; assumption].
  unfold case_editor_type in *. rewrite Hg. cbn [bind].
  assert (set_isSaved g false = g) as Hsame
    by (destruct g; cbn in Hsaved; subst; reflexivity).
  rewrite Hsame in Hrun.
  unfold type_delete_selection in Hrun. unfold no_selection in Hsel.
  rewrite Hsel in Hrun. cbn [Z.eqb Pos.eqb negb bind] in Hrun. exact Hrun.
Qed.

Section Typing.
Context {types : ActionTypes}.

(** X25. Typing over a selection made forwards (the anchor not after the
    caret, both positions of the text) replaces the selection by the
    payload: the call returns and the document becomes the text before the
    anchor, the payload, and the text after the old caret; the caret ends
    right after the payload, no selection remains, and the saved flag is
    cleared. *)
Theorem typing_replaces_forward_selection (ed : VirtualEditor)
    (action : IAction) :
  reachable ed ->
  action_name action = EditorType -> repeat_count action = Some 1 ->
  in_text (getCodeLines ed) (selection_start ed) ->
  in_text (getCodeLines ed) (caret ed) ->
  precedes (selection_start ed) (caret ed) ->
  exists ed',
    applyAction ed action = Ok ed'
    /\ getCode ed'
       = (text_before (getCodeLines ed) (selection_start ed) ++ value action
          ++ text_after (getCodeLines ed) (caret ed))%string
    /\ text_before (getCodeLines ed') (caret ed')
       = (text_before (getCodeLines ed) (selection_start ed)
          ++ value action)%string
    /\ getCurrentHighlightCoordinates ed' = None
    /\ getIsSaved ed' = false.
Proof.
  intros Hreach Hname Hcount Hstart Hcaret Horder.
  apply UnifiedProps.reachable_invariant in Hreach as [Hsep _].
  destruct (type_over_forward_selection (value action)
              (set_currentlyHighlightedCode (frame ed) "") Hstart Hcaret Horder)
    as (f' & Hrun & Hdoc & Hbefore & _ & Hsaved & Hsel).
  exists (record_history ed f' action). split.
  { apply Behaviour.applyAction_of_switch. rewrite Hcount. unfold switch.
    rewrite Hname. exact Hrun. }
  unfold getCurrentHighlightCoordinates, getIsSaved, getCode.
  rewrite Behaviour.caret_record_history,
    (Behaviour.record_history_getCodeLines ed f' action Hsep).
  destruct (Behaviour.record_history_this ed f' action)
    as (_ & _ & -> & _ & -> & _).
  rewrite Hsel, Hsaved.
  split; [exact Hdoc|]. split; [exact Hbefore|]. split; reflexivity.
Qed.

End Typing.

Lemma typing_replaces_forward_selection_witness :
  exists ed,
    constructor (types := SpecTypes.types) ["abc"; "defg"]
      (Some [Trace.key "arrow-right" "1"; Trace.key "shift+arrow-down" "1"])
    = Ok ed
    /\ exists ed',
         applyAction (types := SpecTypes.types) ed (Trace.type "XY") = Ok ed'
         /\ getCode ed' = "aXYefg".
Proof.
  eexists. split; [vm_compute; reflexivity|].
  match goal with
  | |- exists ed', applyAction ?ed ?a = _ /\ _ =>
      assert (reachable (types := SpecTypes.types) ed) as Hreach
        by (exists ["abc"; "defg"],
              [Trace.key "arrow-right" "1"; Trace.key "shift+arrow-down" "1"];
            vm_compute; reflexivity);
      assert (in_text (getCodeLines ed) (selection_start ed)) as Hstart
        by (exists "abc"; split;
            [vm_compute; reflexivity | vm_compute; split; discriminate]);
      assert (in_text (getCodeLines ed) (caret ed)) as Hcaret
        by (exists "defg"; split;
            [vm_compute; reflexivity | vm_compute; split; discriminate]);
      assert (precedes (selection_start ed) (caret ed)) as Horder
        by (left; vm_compute; reflexivity);
      destruct (typing_replaces_forward_selection (types := SpecTypes.types)
                  ed a Hreach eq_refl eq_refl Hstart Hcaret Horder)
        as (ed' & Hrun & Hcode & _)
  end.
  exists ed'. split; [exact Hrun|].
  eapply eq_trans; [exact Hcode | vm_compute; reflexivity].
Defined.

(** *** Enter over a selection *)

Lemma join_app (xs ys : list string) :
  xs <> [] -> ys <> [] ->
  JS.join (xs ++ ys) = (JS.join xs ++ JS.newline ++ JS.join ys)%string.
Proof.
  intros Hxs Hys. induction xs as [|x xs IH]; [congruence|].
  destruct xs as [|x' xs].
  - cbn [app]. now rewrite Editing.join_cons.
  - change ((x :: x' :: xs) ++ ys) with (x :: (x' :: xs) ++ ys).
    rewrite (Editing.join_cons x ((x' :: xs) ++ ys)) by discriminate.
    rewrite IH by discriminate.
    rewrite (Editing.join_cons x (x' :: xs)) by discriminate.
    now rewrite !append_assoc.
Qed.

Lemma join_blank_lines (k : nat) (x : string) :
  JS.join (repeat "" k ++ [x]) = (copies k JS.newline ++ x)%string.
Proof.
  induction k as [|k IH]; [reflexivity|].
  cbn [repeat app copies]. rewrite Editing.join_cons by (destruct k; discriminate).
  rewrite IH. cbn [String.append]. now rewrite append_assoc.
Qed.

(** Insertion at row [n] below a line: the lines that follow the line move
    above what is inserted, as far as there are [n - 1] of them. *)
Lemma splice_insert_below {A : Type} (before after items : list A) (x : A)
    (n : Z) :
  1 <= n ->
  JS.splice (before ++ x :: after) (Z.of_nat (List.length before) + n) 0 items
  = before ++ x :: firstn (Z.to_nat (n - 1)) after ++ items
    ++ skipn (Z.to_nat (n - 1)) after.
Proof.
  intros Hn. unfold JS.splice.
  destruct (Z.ltb_spec (Z.of_nat (List.length before) + n) 0); [lia|].
  rewrite length_app. cbn [List.length].
  change (Z.max 0 0) with 0.
  set (start := Z.min (Z.of_nat (List.length before) + n)
                  (Z.of_nat (List.length before + S (List.length after)))).
  replace (start
           + Z.min 0 (Z.of_nat (List.length before + S (List.length after))
                      - start)) with start by lia.
  replace (before ++ x :: after) with ((before ++ [x]) ++ after) by reassoc.
  assert (Z.to_nat start
          = (List.length (before ++ [x])
             + Nat.min (Z.to_nat (n - 1)) (List.length after))%nat) as ->
    by (rewrite length_app; cbn [List.length]; lia).
  rewrite firstn_app_2, skipn_app.
  rewrite skipn_all2 by lia.
  replace (List.length (before ++ [x])
           + Nat.min (Z.to_nat (n - 1)) (List.length after)
           - List.length (before ++ [x]))%nat
    with (Nat.min (Z.to_nat (n - 1)) (List.length after)) by lia.
  destruct (Nat.le_gt_cases (Z.to_nat (n - 1)) (List.length after)) as [Hle|Hgt].
  - rewrite Nat.min_l by lia. reassoc.
  - rewrite Nat.min_r by lia.
    rewrite firstn_all, skipn_all, firstn_all2, skipn_all2 by lia. reassoc.
Qed.

Lemma around_one_row (before after : list string) (l : string) (c : Z) :
  let p := mkPos (Z.of_nat (List.length before)) c in
  lines_before (before ++ l :: after) p = before
  /\ line_at (before ++ l :: after) p = l
  /\ lines_after (before ++ l :: after) p = after.
Proof.
  cbv zeta. unfold lines_before, line_at, lines_after. cbn [row].
  rewrite Nat2Z.id, firstn_app, Nat.sub_diag, firstn_all. cbn [firstn].
  rewrite app_nil_r, nth_middle.
  destruct (LegacyLogs.skipn_at before after l (List.length before) eq_refl)
    as [_ ->].
  repeat split.
Qed.

(** The text that enter leaves between the two ends of the selection it
    replaces: [n] line breaks, when it is asked for one or when no line
    follows the selection. *)
Lemma entered_text (before after : list string) (bT aT : string) (n : Z) :
  1 <= n -> n = 1 \/ after = [] ->
  JS.join (before ++ bT :: firstn (Z.to_nat (n - 1)) after
           ++ (repeat "" (Z.to_nat (n - 1)) ++ [aT])
           ++ skipn (Z.to_nat (n - 1)) after)
  = (JS.join (before ++ [bT]) ++ copies (Z.to_nat n) JS.newline
     ++ JS.join (aT :: after))%string.
Proof.
  intros Hn Hcase.
  replace (Z.to_nat n) with (S (Z.to_nat (n - 1))) by lia.
  replace (before ++ bT :: firstn (Z.to_nat (n - 1)) after
           ++ (repeat "" (Z.to_nat (n - 1)) ++ [aT])
           ++ skipn (Z.to_nat (n - 1)) after)
    with ((before ++ [bT])
          ++ (firstn (Z.to_nat (n - 1)) after
              ++ (repeat "" (Z.to_nat (n - 1)) ++ [aT])
              ++ skipn (Z.to_nat (n - 1)) after)) by reassoc.
  rewrite join_app; [|destruct before; discriminate|].
  - f_equal. cbn [copies]. rewrite append_assoc. f_equal.
    destruct Hcase as [->| ->].
    + cbn [Z.sub Z.to_nat Pos.to_nat firstn repeat skipn app copies].
      reflexivity.
    + rewrite firstn_nil, skipn_nil, app_nil_r. cbn [app].
      rewrite join_blank_lines. reflexivity.
  - destruct (firstn (Z.to_nat (n - 1)) after); [|discriminate].
    destruct (repeat "" (Z.to_nat (n - 1))); discriminate.
Qed.

Lemma blank_lines (n : Z) :
  1 <= n <= 2 ^ 32 ->
  JS.Array_fill (Some (n - 1)) "" = Ok (repeat "" (Z.to_nat (n - 1))).
Proof.
  intros Hn. unfold JS.Array_fill.
  destruct (Z.leb_spec 0 (n - 1)); [|lia].
  destruct (Z.ltb_spec (n - 1) (2 ^ 32)); [reflexivity | lia].
Qed.

Lemma enter_over_selection (n : Z) (f : Frame) (S E : IEditorPosition) :
  let start := mkPos (highlightStartRow f) (highlightStartCol f) in
  let caret := mkPos (caretRow f) (caretCol f) in
  1 <= n <= 2 ^ 32 ->
  in_text (codeLines f) start -> in_text (codeLines f) caret ->
  (S = start /\ E = caret) \/ (S = caret /\ E = start) -> precedes S E ->
  exists f',
    case_editor_enter (Some n) f = Ok f'
    /\ codeLines f'
       = lines_before (codeLines f) S
         ++ JS.substring (line_at (codeLines f) S) 0 (col S)
         :: firstn (Z.to_nat (n - 1)) (lines_after (codeLines f) E)
         ++ (repeat "" (Z.to_nat (n - 1))
             ++ [JS.substring_from (line_at (codeLines f) E) (col E)])
         ++ skipn (Z.to_nat (n - 1)) (lines_after (codeLines f) E)
    /\ caretRow f' = row S + n /\ caretCol f' = 0
    /\ highlightStartRow f' = -1 /\ isSaved f' = false.
Proof.
  destruct f as [r c hr hc L hl saved menu]. cbv zeta.
  unfold in_text, precedes. cbn [row col]. UnifiedProps.fields.
  intros Hn (lA & HA & HcA) (lC & HC & HcC) Hends Horder.
  pose proof (get_Some_bounds _ _ _ HA) as HrA.
  assert ((S = mkPos hr hc /\ E = mkPos r c
           /\ ((hr <? r) || ((hr =? r) && (hc <=? c))) = true)
          \/ (S = mkPos r c /\ E = mkPos hr hc
              /\ ((hr <? r) || ((hr =? r) && (hc <=? c))) = false))
    as Hdirection.
  { destruct Hends as [[-> ->]|[-> ->]]; cbn [row col] in Horder.
    - left. repeat split. lia.
    - destruct ((hr <? r) || ((hr =? r) && (hc <=? c))) eqn:Hfwd;
        [left | right; repeat split].
      assert (r = hr /\ c = hc) as [-> ->] by lia. repeat split. }
  clear Hends.
  unfold case_editor_enter, line, JS.get_defined. UnifiedProps.fields.
  destruct (Z.eqb_spec hr (-1)) as [|_]; [lia|]. cbn [negb].
  rewrite blank_lines by exact Hn.
  destruct Hdirection as [(-> & -> & Hfwd)|(-> & -> & Hfwd)];
    rewrite Hfwd; cbn [row col] in *; rewrite HA, HC;
    lazy beta iota delta [bind]; UnifiedProps.fields.
  - (* from the anchor to the caret *)
    destruct (Z.gtb_spec r hr) as [Hrows|Hrows].
    + destruct (two_rows L hr r lA lC) as (before & middle & after & -> & HS & HE);
        [lia | assumption | assumption |].
      eexists. split; [reflexivity|]. UnifiedProps.fields.
      split; [|repeat split].
      subst hr. rewrite set_middle.
      replace (r - Z.of_nat (List.length before))
        with (Z.of_nat (List.length (middle ++ [lC])))
        by (rewrite HE, !length_app; cbn [List.length]; lia).
      replace (before ++ JS.substring lA 0 hc :: middle ++ lC :: after)
        with (before ++ JS.substring lA 0 hc :: (middle ++ [lC]) ++ after)
        by reassoc.
      rewrite splice_delete_run, splice_insert_below by lia.
      destruct (around_one_row before (middle ++ lC :: after) lA hc)
        as (-> & -> & _).
      subst r.
      replace (before ++ lA :: middle ++ lC :: after)
        with ((before ++ lA :: middle) ++ lC :: after) by reassoc.
      destruct (around_one_row (before ++ lA :: middle) after lC c)
        as (_ & -> & ->).
      reflexivity.
    + assert (r = hr) as -> by lia.
      rewrite HA in HC. injection HC as <-.
      apply get_split in HA as (before & after & -> & Hr). subst hr.
      eexists. split; [reflexivity|]. UnifiedProps.fields.
      split; [|repeat split].
      rewrite set_middle, splice_insert_below by lia.
      destruct (around_one_row before after lA hc) as (-> & -> & _).
      destruct (around_one_row before after lA c) as (_ & -> & ->).
      reflexivity.
  - (* from the caret to the anchor *)
    destruct (Z.gtb_spec hr r) as [Hrows|Hrows].
    + destruct (two_rows L r hr lC lA) as (before & middle & after & -> & HS & HE);
        [lia | assumption | assumption |].
      eexists. split; [reflexivity|]. UnifiedProps.fields.
      split; [|repeat split].
      subst r. rewrite set_middle.
      replace (hr - Z.of_nat (List.length before))
        with (Z.of_nat (List.length (middle ++ [lA])))
        by (rewrite HE, !length_app; cbn [List.length]; lia).
      replace (before ++ JS.substring lC 0 c :: middle ++ lA :: after)
        with (before ++ JS.substring lC 0 c :: (middle ++ [lA]) ++ after)
        by reassoc.
      rewrite splice_delete_run, splice_insert_below by lia.
      destruct (around_one_row before (middle ++ lA :: after) lC c)
        as (-> & -> & _).
      subst hr.
      replace (before ++ lC :: middle ++ lA :: after)
        with ((before ++ lC :: middle) ++ lA :: after) by reassoc.
      destruct (around_one_row (before ++ lC :: middle) after lA hc)
        as (_ & -> & ->).
      reflexivity.
    + assert (r = hr) as -> by lia.
      rewrite HA in HC. injection HC as <-.
      apply get_split in HA as (before & after & -> & Hr). subst hr.
      eexists. split; [reflexivity|]. UnifiedProps.fields.
      split; [|repeat split].
      rewrite set_middle, splice_insert_below by lia.
      destruct (around_one_row before after lA c) as (-> & -> & _).
      destruct (around_one_row before after lA hc) as (_ & -> & ->).
      reflexivity.
Qed.

Section Entering.
Context {types : ActionTypes}.


End Entering.


End Selection.

(** ** The caret stays inside the text *)

Module Placement.
Import Unified Pred Run JSFacts.

Lemma len_prefix (l : string) (c : Z) :
  0 <= c <= JS.len l -> JS.len (JS.substring l 0 c) = c.
Proof. intros Hc. now destruct (substring_split l c Hc). Qed.

(** Reading an array after one of its elements was assigned. *)
Lemma get_set_other {A : Type} (before after : list A) (x y : A) (i : Z) :
  i <> Z.of_nat (List.length before) ->
  JS.get (before ++ y :: after) i = JS.get (before ++ x :: after) i.
Proof.
  intros Hi. unfold JS.get. destruct (Z.ltb_spec i 0); [reflexivity|].
  destruct (Nat.lt_ge_cases (Z.to_nat i) (List.length before)) as [Hlt|Hge].
  - now rewrite !nth_error_app1.
  - rewrite !nth_error_app2 by lia.
    destruct (Z.to_nat i - List.length before)%nat eqn:Hk; [lia | reflexivity].
Qed.

(** A position of the text is still one when a line is replaced by a line
    that is not shorter. *)
Lemma in_text_longer_line (before after : list string) (l l' : string)
    (p : IEditorPosition) :
  JS.len l <= JS.len l' ->
  in_text (before ++ l :: after) p -> in_text (before ++ l' :: after) p.
Proof.
  intros Hlen (x & Hx & Hc).
  destruct (Z.eq_dec (row p) (Z.of_nat (List.length before))) as [Hrow|Hrow].
  - rewrite Hrow, get_middle in Hx. injection Hx as <-.
    exists l'. rewrite Hrow, get_middle. split; [reflexivity | lia].
  - exists x. rewrite (get_set_other before after l l') by exact Hrow.
    split; assumption.
Qed.

Ltac step_in H :=
  unfold line, JS.get_defined in H; UnifiedProps.fields;
  rewrite ?get_middle in H; lazy beta iota delta [bind] in H.

Ltac open_frame f l Hl Hc before after :=
  destruct f as [r c hr hc L hl saved menu];
  unfold caret_col_in_line in *; UnifiedProps.fields;
  match goal with
  | H : exists _, _ /\ _ |- _ => destruct H as (l & Hl & Hc)
  end;
  apply get_split in Hl as (before & after & -> & Hl); symmetry in Hl;
  subst.

Lemma enter_step_placed f f' :
  caret_col_in_line f -> enter_step f = Ok f' -> caret_col_in_line f'.
Proof.
  intros Hf H. open_frame f l Hl Hc before after.
  unfold enter_step in H. step_in H.
  rewrite set_middle, splice_insert_after in H. apply Ok_inj in H. subst f'.
  UnifiedProps.fields. exists (JS.substring_from l c).
  split; [apply get_after_middle|].
  pose proof (len_nonneg (JS.substring_from l c)). lia.
Qed.

Lemma type_step_placed value f f' :
  caret_col_in_line f ->
  type_step value (JS.split_newline value) f = Ok f' -> caret_col_in_line f'.
Proof.
  intros Hf H. open_frame f l Hl Hc before after.
  pose proof (Editing.split_newline_nonempty value) as Hne.
  pose proof (Editing.join_split value) as Hvalue.
  destruct (JS.split_newline value) as [|first rest] eqn:Hsplit; [congruence|].
  destruct (Editing.type_step_welds value first rest before l after
              (Z.of_nat (List.length before)) c hr hc hl saved menu
              eq_refl Hc)
    as (init & last & Hpieces & Hstep).
  { intros ->. symmetry. exact Hvalue. }
  rewrite Hstep in H. apply Ok_inj in H. subst f'. UnifiedProps.fields.
  exists (last ++ JS.substring_from l c)%string. split.
  - replace (Z.of_nat (List.length before) + Z.of_nat (List.length rest))
      with (Z.of_nat (List.length (before ++ init))).
    + rewrite app_assoc. apply get_middle.
    + apply (f_equal (@List.length _)) in Hpieces.
      rewrite !length_app in *. cbn [List.length] in Hpieces. lia.
  - rewrite len_append.
    pose proof (len_nonneg last).
    pose proof (len_nonneg (JS.substring_from l c)). lia.
Qed.

Lemma insert_step_placed text f f' :
  JS.len text = 1 ->
  placed f -> insert_step text f = Ok f' -> placed f'.
Proof.
  intros Ht [Hf Hanchor] H. unfold placed, anchor_in_text in *.
  open_frame f l Hl Hc before after.
  unfold insert_step in H. step_in H. rewrite set_middle in H.
  apply Ok_inj in H. subst f'. UnifiedProps.fields.
  pose proof (len_nonneg (JS.substring_from l c)) as Hrest.
  pose proof (len_prefix l c Hc) as Hlen.
  destruct (substring_split l c Hc) as [Hjoin _].
  split.
  - eexists. split; [apply get_middle|].
    rewrite !len_append, Hlen, Ht. lia.
  - destruct Hanchor as [Hnone|Hin]; [left; exact Hnone | right].
    revert Hin. apply in_text_longer_line.
    rewrite <- Hjoin at 1. rewrite !len_append, Ht. lia.
Qed.

Lemma backspace_step_placed f f' :
  caret_col_in_line f -> backspace_step f = Ok f' -> caret_col_in_line f'.
Proof.
  intros Hf H. open_frame f l Hl Hc before after.
  unfold backspace_step in H. UnifiedProps.fields.
  destruct (Z.gtb_spec c 0) as [Hcol|Hcol].
  - step_in H. rewrite set_middle in H. apply Ok_inj in H. subst f'.
    UnifiedProps.fields. eexists. split; [apply get_middle|].
    rewrite len_append, len_prefix by lia.
    pose proof (len_nonneg (JS.substring_from l c)). lia.
  - destruct (Z.gtb_spec (Z.of_nat (List.length before)) 0) as [Hrow|Hrow].
    + destruct before as [|p before] using rev_ind;
        [cbn [List.length] in Hrow; lia|].
      clear IHbefore.
      replace (Z.of_nat (List.length (before ++ [p])) - 1)
        with (Z.of_nat (List.length before)) in H
        by (rewrite length_app; cbn [List.length]; lia).
      replace ((before ++ [p]) ++ l :: after) with (before ++ p :: l :: after) in H
        by (rewrite <- app_assoc; reflexivity).
      step_in H.
      replace (Z.of_nat (List.length (before ++ [p])))
        with (Z.of_nat (List.length before) + 1) in H
        by (rewrite length_app; cbn [List.length]; lia).
      rewrite get_after_middle, set_middle, splice_delete_after in H.
      apply Ok_inj in H. subst f'. UnifiedProps.fields.
      eexists. split; [apply get_middle|].
      rewrite len_append. pose proof (len_nonneg p). pose proof (len_nonneg l).
      lia.
    + apply Ok_inj in H. subst f'. UnifiedProps.fields.
      exists l. split; [apply get_middle | exact Hc].
Qed.

Lemma command_left_step_placed f :
  caret_col_in_line f -> caret_col_in_line (command_left_step f).
Proof.
  intros Hf. open_frame f l Hl Hc before after.
  unfold command_left_step. UnifiedProps.fields.
  destruct (Z.gtb_spec c 0); UnifiedProps.fields;
    (exists l; split; [apply get_middle | lia]).
Qed.

Lemma command_right_step_placed f f' :
  caret_col_in_line f -> command_right_step f = Ok f' -> caret_col_in_line f'.
Proof.
  intros Hf H. open_frame f l Hl Hc before after.
  unfold command_right_step in H. step_in H.
  destruct (Z.ltb_spec c (JS.len l)); apply Ok_inj in H; subst f';
    UnifiedProps.fields; (exists l; split; [apply get_middle | lia]).
Qed.

(** A row of the buffer holds a line; column 0 is a position of it. *)
Lemma line_start_in_text (L : list string) (r : Z) :
  0 <= r < Z.of_nat (List.length L) ->
  exists l, JS.get L r = Some l /\ 0 <= 0 <= JS.len l.
Proof.
  intros Hr. destruct (get_in_bounds L r Hr) as [l Hl].
  exists l. split; [exact Hl | pose proof (len_nonneg l); lia].
Qed.

Lemma shift_arrow_left_step_placed f f' :
  caret_col_in_line f -> shift_arrow_left_step f = Ok f' -> caret_col_in_line f'.
Proof.
  intros Hf H. open_frame f l Hl Hc before after.
  unfold shift_arrow_left_step in H. UnifiedProps.fields.
  destruct (Z.gtb_spec c 0).
  - apply Ok_inj in H. subst f'. UnifiedProps.fields.
    exists l. split; [apply get_middle | lia].
  - destruct (Z.gtb_spec (Z.of_nat (List.length before)) 0).
    + unfold line, JS.get_defined in H. UnifiedProps.fields.
      destruct (JS.get (before ++ l :: after) (Z.of_nat (List.length before) - 1))
        as [p|] eqn:Hp; [|discriminate H].
      cbn [bind] in H. apply Ok_inj in H. subst f'. UnifiedProps.fields.
      exists p. split; [exact Hp | pose proof (len_nonneg p); lia].
    + apply Ok_inj in H. subst f'. UnifiedProps.fields.
      exists l. split; [apply get_middle | lia].
Qed.

Lemma shift_arrow_right_step_placed f f' :
  caret_col_in_line f -> shift_arrow_right_step f = Ok f' ->
  caret_col_in_line f'.
Proof.
  intros Hf H. open_frame f l Hl Hc before after.
  unfold shift_arrow_right_step in H. step_in H.
  destruct (Z.ltb_spec c (JS.len l)).
  - apply Ok_inj in H. subst f'. UnifiedProps.fields.
    exists l. split; [apply get_middle | lia].
  - destruct (Z.ltb_spec (Z.of_nat (List.length before))
                (Z.of_nat (List.length (before ++ l :: after)) - 1));
      apply Ok_inj in H; subst f'; UnifiedProps.fields.
    + apply line_start_in_text. lia.
    + exists l. split; [apply get_middle | lia].
Qed.

Lemma shift_arrow_down_step_placed f f' :
  caret_col_in_line f -> shift_arrow_down_step f = Ok f' -> caret_col_in_line f'.
Proof.
  intros Hf H. open_frame f l Hl Hc before after.
  unfold shift_arrow_down_step in H. UnifiedProps.fields.
  destruct (Z.ltb_spec (Z.of_nat (List.length before))
              (Z.of_nat (List.length (before ++ l :: after)) - 1)).
  - unfold line, JS.get_defined in H. UnifiedProps.fields.
    destruct (JS.get (before ++ l :: after) (Z.of_nat (List.length before) + 1))
      as [p|] eqn:Hp; [|discriminate H].
    cbn [bind] in H. pose proof (len_nonneg p).
    destruct (Z.ltb_spec c (JS.len p)); apply Ok_inj in H; subst f';
      UnifiedProps.fields; (exists p; split; [exact Hp | lia]).
  - apply Ok_inj in H. subst f'. UnifiedProps.fields.
    exists l. split; [apply get_middle | lia].
Qed.

Lemma shift_arrow_up_step_placed f f' :
  caret_col_in_line f -> shift_arrow_up_step f = Ok f' -> caret_col_in_line f'.
Proof.
  intros Hf H. open_frame f l Hl Hc before after.
  unfold shift_arrow_up_step in H. UnifiedProps.fields.
  destruct (Z.gtb_spec (Z.of_nat (List.length before)) 0).
  - unfold line, JS.get_defined in H. UnifiedProps.fields.
    destruct (JS.get (before ++ l :: after) (Z.of_nat (List.length before) - 1))
      as [p|] eqn:Hp; [|discriminate H].
    cbn [bind] in H. pose proof (len_nonneg p).
    destruct (Z.ltb_spec c (JS.len p)); apply Ok_inj in H; subst f';
      UnifiedProps.fields; (exists p; split; [exact Hp | lia]).
  - apply Ok_inj in H. subst f'. UnifiedProps.fields.
    exists l. split; [apply get_middle | lia].
Qed.

(** Reading below the start of a [splice]. *)
Lemma get_splice_below {A : Type} (arr items : list A) (start deleteCount i : Z) :
  0 <= i < start -> start <= Z.of_nat (List.length arr) ->
  JS.get (JS.splice arr start deleteCount items) i = JS.get arr i.
Proof.
  intros Hi Hstart. unfold JS.splice, JS.get.
  destruct (Z.ltb_spec start 0); [lia|].
  destruct (Z.ltb_spec i 0); [lia|].
  rewrite Z.min_l by lia.
  rewrite nth_error_app1 by (rewrite length_firstn; lia).
  rewrite nth_error_firstn.
  destruct (Nat.ltb_spec (Z.to_nat i) (Z.to_nat start)); [reflexivity | lia].
Qed.

Lemma delete_range_placed startRow endRow startCol endCol (f f' : Frame)
    (lS : string) :
  JS.get (codeLines f) startRow = Some lS ->
  (startRow = endRow -> 0 <= Z.min startCol endCol <= JS.len lS) ->
  (startRow <> endRow -> 0 <= startCol <= JS.len lS) ->
  delete_range startRow endRow startCol endCol f = Ok f' ->
  caret_col_in_line f'.
Proof.
  destruct f as [r c hr hc L hl saved menu]. UnifiedProps.fields.
  intros HS Hone Hmany H.
  unfold delete_range, line, JS.get_defined in H. UnifiedProps.fields.
  unfold caret_col_in_line.
  apply get_split in HS as (before & after & -> & Hrow). symmetry in Hrow.
  subst startRow.
  destruct (Z.eqb_spec (Z.of_nat (List.length before)) endRow) as [Heq|Hne].
  - rewrite get_middle in H. lazy beta iota delta [bind] in H.
    rewrite set_middle in H. apply Ok_inj in H. subst f'. UnifiedProps.fields.
    eexists. split; [apply get_middle|].
    rewrite len_append, len_prefix by auto.
    pose proof (len_nonneg (JS.substring_from lS (Z.max startCol endCol))).
    specialize (Hone Heq). lia.
  - rewrite get_middle in H. lazy beta iota delta [bind] in H.
    destruct (JS.get (before ++ lS :: after) endRow) as [lE|]; [|discriminate H].
    lazy beta iota delta [bind] in H. rewrite set_middle in H.
    apply Ok_inj in H. subst f'. UnifiedProps.fields.
    eexists. split.
    + rewrite get_splice_below
        by (rewrite ?length_app; cbn [List.length]; lia).
      apply get_middle.
    + rewrite len_append, len_prefix by auto.
      pose proof (len_nonneg (JS.substring_from lE endCol)).
      specialize (Hmany Hne). lia.
Qed.

Lemma type_delete_selection_placed (f g : Frame) :
  placed f -> type_delete_selection f = Ok g ->
  caret_col_in_line g /\ highlightStartRow g = -1.
Proof.
  destruct f as [r c hr hc L hl saved menu].
  unfold placed, anchor_in_text, caret_col_in_line, in_text. cbn [row col].
  UnifiedProps.fields. intros [(l & Hl & Hc) Hanchor] H.
  unfold type_delete_selection, line, JS.get_defined in H. UnifiedProps.fields.
  destruct (Z.eqb_spec hr (-1)) as [->|Hsel]; cbn [negb] in H.
  - apply Ok_inj in H. subst g. UnifiedProps.fields. eauto.
  - destruct Hanchor as [|(lA & HA & HcA)]; [contradiction|].
    pose proof (len_prefix lA hc HcA) as Hlen.
    destruct (Z.eqb_spec hr r) as [->|Hrows].
    + rewrite HA in H. lazy beta iota delta [bind] in H.
      apply Ok_inj in H. subst g. UnifiedProps.fields.
      apply get_split in HA as (before & after & -> & Hr). subst r.
      rewrite set_middle. split; [|reflexivity].
      eexists. split; [apply get_middle|].
      rewrite len_append, Hlen.
      pose proof (len_nonneg (JS.substring_from lA c)). lia.
    + rewrite HA, Hl in H. lazy beta iota delta [bind] in H.
      apply Ok_inj in H. subst g. UnifiedProps.fields.
      apply get_split in HA as (before & after & -> & Hr). subst hr.
      rewrite set_middle. split; [|reflexivity].
      eexists. split.
      * rewrite get_splice_below
          by (rewrite ?length_app; cbn [List.length]; lia).
        apply get_middle.
      * rewrite len_append, Hlen.
        pose proof (len_nonneg (JS.substring_from l c)). lia.
Qed.

Lemma placed_rows (f : Frame) : placed f -> rows_in_buffer f.
Proof.
  destruct f as [r c hr hc L hl saved menu].
  unfold placed, anchor_in_text, caret_col_in_line, in_text, rows_in_buffer,
    caret_row_in_buffer, anchor_row_in_buffer, line_count.
  cbn [row col]. UnifiedProps.fields.
  intros [(l & Hl & _) Hanchor]. split; [eauto using get_Some_bounds|].
  destruct Hanchor as [|(lA & HA & _)]; [now left | right].
  eauto using get_Some_bounds.
Qed.

Lemma clear_placed (g : Frame) :
  caret_col_in_line g -> placed (clearCurrentHighlightedCode g).
Proof. destruct g. intros Hg. split; [exact Hg | now left]. Qed.

Lemma unselected_placed (g : Frame) :
  caret_col_in_line g -> highlightStartRow g = -1 -> placed g.
Proof. intros Hg Hsel. split; [exact Hg | now left]. Qed.

Lemma for_loop_unselected (step : Frame -> result Frame) :
  (forall s s', caret_col_in_line s -> step s = Ok s' -> caret_col_in_line s') ->
  (forall s s', step s = Ok s' ->
                highlightStartRow s' = highlightStartRow s
                /\ highlightStartCol s' = highlightStartCol s) ->
  forall n f f',
    caret_col_in_line f -> highlightStartRow f = -1 ->
    for_loop n step f = Ok f' -> placed f'.
Proof.
  intros Hcaret Hanchor n f f' Hf Hsel H.
  apply (for_loop_invariant
           (fun s => caret_col_in_line s /\ highlightStartRow s = -1) step)
    in H as [Hf' Hsel']; [now apply unselected_placed | | now split].
  intros s s' [Hs Hnone] Hstep. split; [eauto|].
  apply Hanchor in Hstep as [-> _]. exact Hnone.
Qed.

Lemma case_editor_shift_arrow_placed step numTimes (f f' : Frame) :
  (forall s s', caret_col_in_line s -> step s = Ok s' -> caret_col_in_line s') ->
  (forall g s s', (exists r c, s = set_caret g r c) -> step s = Ok s' ->
                  exists r c, s' = set_caret g r c) ->
  placed f -> case_editor_shift_arrow step numTimes f = Ok f' -> placed f'.
Proof.
  intros Hcaret Honly Hf H. unfold case_editor_shift_arrow in H.
  apply bind_Ok in H as (g & Hg & H). apply bind_Ok in H as (text & _ & H).
  apply Ok_inj in H. subst f'.
  assert (placed (start_selection f)) as Hstart.
  { destruct f as [r c hr hc L hl saved menu]. unfold start_selection.
    UnifiedProps.fields. destruct (Z.eqb_spec hr (-1)); [|exact Hf].
    destruct Hf as [Hf _]. split; [exact Hf | right; exact Hf]. }
  apply (for_loop_invariant
           (fun s => caret_col_in_line s
                     /\ exists r c, s = set_caret (start_selection f) r c) step)
    in Hg as [Hg (r & c & ->)].
  - destruct Hstart as [_ Hanchor]. destruct (start_selection f).
    split; [exact Hg | exact Hanchor].
  - intros s s' [Hs Hmoved] Hstep. split; eauto.
  - split; [apply Hstart | apply Behaviour.caret_only_refl].
Qed.

(** Every case of the [switch] but the four plain arrows leaves the caret,
    and the anchor of a selection, inside the text. *)
Lemma switch_placed numTimes currentLineLength action (f f' : Frame) :
  placed f -> is_plain_arrow (action_name action) = false ->
  switch numTimes currentLineLength action f = Ok f' -> placed f'.
Proof.
  intros Hf Hkind H. unfold switch in H.
  assert (placed (set_isSaved f false)) as Hunsaved by (destruct f; exact Hf).
  destruct (action_name action); try discriminate Hkind.
  - apply Ok_inj in H. subst f'. destruct f. exact Hf.
  - apply Ok_inj in H. subst f'. destruct f. exact Hf.
  - (* enter *)
    pose proof (UnifiedProps.case_editor_enter_rows _ _ _ (placed_rows f Hf) H)
      as [Hrow _].
    unfold case_editor_enter in H.
    destruct (Z.eqb_spec (highlightStartRow (set_isSaved f false)) (-1))
      as [Hsel|Hsel]; cbn [negb] in H.
    + revert H. apply for_loop_unselected;
        [apply enter_step_placed | apply Behaviour.enter_step_anchor
        | apply Hunsaved | exact Hsel].
    + assert (caretCol f' = 0 /\ highlightStartRow f' = -1) as [Hcol Hnone]
        by (clear - H; UnifiedProps.cache).
      apply unselected_placed; [|exact Hnone].
      unfold caret_col_in_line. rewrite Hcol.
      apply line_start_in_text, Hrow.
  - (* type *)
    unfold case_editor_type in H. apply bind_Ok in H as (g & Hg & H).
    apply type_delete_selection_placed in Hg as [Hg Hsel]; [|exact Hunsaved].
    revert H. apply for_loop_unselected;
      [apply type_step_placed | apply Behaviour.type_step_anchor
      | exact Hg | exact Hsel].
  - (* backspace *)
    unfold case_editor_backspace in H.
    destruct (Z.eqb_spec (highlightStartRow (set_isSaved f false)) (-1))
      as [Hsel|Hsel]; cbn [negb] in H.
    + revert H. apply for_loop_unselected;
        [apply backspace_step_placed | apply Behaviour.backspace_step_anchor
        | apply Hunsaved | exact Hsel].
    + pose proof (Behaviour.delete_range_ends_selection _ _ _ _ _ _ H) as Hnone.
      apply unselected_placed; [|exact Hnone].
      destruct f as [r c hr hc L hl saved menu].
      destruct Hf as [(l & Hl & Hc) [Hno|(lA & HA & HcA)]];
        UnifiedProps.fields; [contradiction|]. cbn [row col] in *.
      destruct (Z.lt_total hr r) as [Hlt|[->|Hgt]].
      * apply (delete_range_placed _ _ _ _ _ _ lA) in H; [exact H| | |];
          UnifiedProps.fields; try (rewrite Z.min_l by lia; exact HA);
          destruct (Z.ltb_spec hr r); lia.
      * rewrite HA in Hl. injection Hl as <-.
        apply (delete_range_placed _ _ _ _ _ _ lA) in H; [exact H| | |];
          UnifiedProps.fields; try (rewrite Z.min_id; exact HA);
          destruct (Z.ltb_spec r r); lia.
      * apply (delete_range_placed _ _ _ _ _ _ l) in H; [exact H| | |];
          UnifiedProps.fields; try (rewrite Z.min_r by lia; exact Hl);
          destruct (Z.ltb_spec hr r); lia.
  - (* space *)
    unfold case_editor_space in H. apply bind_Ok in H as (g & Hg & H).
    assert (placed g) as Hplaced.
    { destruct (Z.eqb_spec (highlightStartRow (set_isSaved f false)) (-1))
        as [Hsel|Hsel]; cbn [negb] in Hg.
      - apply Ok_inj in Hg. now subst g.
      - pose proof (Behaviour.delete_range_ends_selection _ _ _ _ _ _ Hg)
          as Hnone.
        apply unselected_placed; [|exact Hnone].
        destruct f as [r c hr hc L hl saved menu].
        destruct Hf as [(l & Hl & Hc) [Hno|(lA & HA & HcA)]];
          UnifiedProps.fields; [contradiction|]. cbn [row col] in *.
        destruct (Z.lt_total hr r) as [Hlt|[->|Hgt]].
        + apply (delete_range_placed _ _ _ _ _ _ lA) in Hg; [exact Hg| | |];
            UnifiedProps.fields; try (rewrite Z.min_l by lia; exact HA);
            rewrite Z.min_l by lia; rewrite ?Z.eqb_refl; lia.
        + rewrite HA in Hl. injection Hl as <-.
          apply (delete_range_placed _ _ _ _ _ _ lA) in Hg; [exact Hg| | |];
            UnifiedProps.fields; try (rewrite Z.min_id; exact HA);
            rewrite ?Z.min_id, ?Z.max_id, ?Z.eqb_refl; lia.
        + apply (delete_range_placed _ _ _ _ _ _ l) in Hg; [exact Hg| | |];
            UnifiedProps.fields; try (rewrite Z.min_r by lia; exact Hl);
            rewrite Z.min_r by lia;
            destruct (Z.eqb_spec r hr); lia. }
    revert H. apply for_loop_invariant; [|exact Hplaced].
    intros s s'. now apply insert_step_placed.
  - (* tab *)
    revert H. apply for_loop_invariant; [|exact Hf].
    intros s s'. now apply insert_step_placed.
  - apply Ok_inj in H. subst f'. apply clear_placed.
    apply repeat_loop_invariant; [apply command_left_step_placed | apply Hf].
  - unfold case_editor_command_right in H. apply bind_Ok in H as (g & Hg & H).
    apply Ok_inj in H. subst f'. apply clear_placed.
    revert Hg. apply for_loop_invariant;
      [apply command_right_step_placed | apply Hf].
  - revert H. apply case_editor_shift_arrow_placed;
      [ apply shift_arrow_left_step_placed
      | apply Behaviour.shift_arrow_left_step_caret_only | exact Hf ].
  - revert H. apply case_editor_shift_arrow_placed;
      [ apply shift_arrow_right_step_placed
      | apply Behaviour.shift_arrow_right_step_caret_only | exact Hf ].
  - revert H. apply case_editor_shift_arrow_placed;
      [ apply shift_arrow_down_step_placed
      | apply Behaviour.shift_arrow_down_step_caret_only | exact Hf ].
  - revert H. apply case_editor_shift_arrow_placed;
      [ apply shift_arrow_up_step_placed
      | apply Behaviour.shift_arrow_up_step_caret_only | exact Hf ].
  - apply Ok_inj in H. subst f'. destruct f. exact Hf.
  - apply Ok_inj in H. now subst f'.
Qed.

Section Engine.
Context {types : ActionTypes}.

Lemma applyAction_placed ed action ed' :
  heap_separated ed -> placed (frame ed) ->
  is_plain_arrow (action_name action) = false ->
  applyAction ed action = Ok ed' -> placed (frame ed').
Proof.
  intros Hsep Hf Hkind H.
  apply UnifiedProps.applyAction_returned in H as (numTimes & len & f & H & ->).
  rewrite UnifiedProps.record_history_frame by apply Hsep.
  revert H. apply switch_placed; [|exact Hkind].
  destruct (frame ed). exact Hf.
Qed.

Lemma constructor_placed initialCodeLines ed0 :
  constructor initialCodeLines None = Ok ed0 -> placed (frame ed0).
Proof.
  intros H. destruct initialCodeLines as [|l ls]; apply Ok_inj in H; subst ed0.
  - split; [|now left]. exists "".
    split; [reflexivity | vm_compute; split; discriminate].
  - split; [|now left]. exists l. split; [reflexivity|].
    pose proof (JSFacts.len_nonneg l). change (0 <= 0 <= JS.len l). lia.
Qed.

(** X27. Every action but the four plain arrows keeps the caret inside the
    text: from a reachable state whose caret is at a column of its line, and
    whose selection anchor, if there is one, is too, a call that returns
    leaves a state with the same property. *)
Theorem caret_stays_in_text (ed ed' : VirtualEditor) (action : IAction) :
  reachable ed -> placed (frame ed) ->
  is_plain_arrow (action_name action) = false ->
  applyAction ed action = Ok ed' ->
  placed (frame ed').
Proof.
  intros Hreach. apply UnifiedProps.reachable_invariant in Hreach as [Hsep _].
  now apply applyAction_placed.
Qed.

Lemma applyActions_placed actions : forall ed ed',
  invariant ed -> placed (frame ed) ->
  Forall (fun a => is_plain_arrow (action_name a) = false) actions ->
  applyActions ed actions = Ok ed' -> placed (frame ed').
Proof.
  induction actions as [|a actions IH]; intros ed ed' Hinv Hf Hall H.
  - apply Ok_inj in H. now subst ed'.
  - cbn [applyActions] in H. apply bind_Ok in H as (ed1 & H1 & H).
    inversion Hall as [|a' actions' Ha Hrest]; subst.
    apply (IH ed1 ed'); [| |exact Hrest|exact H].
    + eauto using UnifiedProps.applyAction_invariant.
    + destruct Hinv as [Hsep _]. eauto using applyAction_placed.
Qed.

(** X28. In every run that contains none of the four plain arrows, the
    caret is in bounds in the full sense: after construction with such a
    list of actions, the caret's row is a row of the buffer and its column
    is a column of that row's line, and the anchor of a selection is a
    position of the text. *)
Theorem caret_in_bounds_without_plain_arrows (initialCodeLines : list string)
    (actions : list IAction) (ed : VirtualEditor) :
  constructor initialCodeLines (Some actions) = Ok ed ->
  Forall (fun a => is_plain_arrow (action_name a) = false) actions ->
  caret_in_bounds (frame ed) /\ anchor_in_text (frame ed).
Proof.
  intros H Hall. rewrite UnifiedProps.constructor_actions in H.
  apply bind_Ok in H as (ed0 & H0 & H).
  pose proof (UnifiedProps.constructor_invariant _ _ H0) as Hinv.
  pose proof (constructor_placed _ _ H0) as Hf.
  pose proof (applyActions_placed _ _ _ Hinv Hf Hall H) as Hplaced.
  split; [|apply Hplaced].
  split; [apply (placed_rows _ Hplaced) | apply Hplaced].
Qed.

End Engine.

Lemma caret_stays_in_text_witness :
  exists ed ed',
    constructor (types := SpecTypes.types) ["ab"; ""]
      (Some [Trace.key "command-right" "1"]) = Ok ed
    /\ applyAction (types := SpecTypes.types) ed
         (Trace.key "shift+arrow-down" "1") = Ok ed'
    /\ caret ed' = mkPos 1 0
    /\ placed (frame ed').
Proof.
  eexists. eexists. split; [vm_compute; reflexivity|].
  match goal with
  | |- applyAction ?ed ?a = Ok ?x /\ _ =>
      split; [vm_compute; reflexivity|];
      split; [vm_compute; reflexivity|];
      assert (reachable (types := SpecTypes.types) ed) as Hreach
        by (exists ["ab"; ""], [Trace.key "command-right" "1"];
            vm_compute; reflexivity);
      assert (applyAction (types := SpecTypes.types) ed a = Ok x) as Hrun
        by (vm_compute; reflexivity);
      apply (caret_stays_in_text (types := SpecTypes.types) ed x a Hreach);
      [ | reflexivity | exact Hrun ]
  end.
  split; [|left; reflexivity].
  exists "ab". split; [vm_compute; reflexivity | vm_compute; split; discriminate].
Defined.

Lemma caret_in_bounds_without_plain_arrows_witness :
  exists ed,
    constructor (types := SpecTypes.types) []
      (Some [Trace.type "short"; Trace.key "enter" "1";
             Trace.type "much longer line here";
             Trace.key "shift+arrow-up" "1"]) = Ok ed
    /\ caret ed = mkPos 0 5
    /\ caret_in_bounds (frame ed).
Proof.
  eexists. split; [vm_compute; reflexivity|]. split; [vm_compute; reflexivity|].
  match goal with
  | |- caret_in_bounds (frame ?ed) =>
      assert (constructor (types := SpecTypes.types) []
                (Some [Trace.type "short"; Trace.key "enter" "1";
                       Trace.type "much longer line here";
                       Trace.key "shift+arrow-up" "1"]) = Ok ed) as H
        by (vm_compute; reflexivity);
      apply (caret_in_bounds_without_plain_arrows (types := SpecTypes.types)
               _ _ ed H)
  end.
  repeat constructor.
Defined.

End Placement.

(** ** The array given to the constructor *)

Module Aliasing.
Import Unified Pred Run.

Section Engine.
Context {types : ActionTypes}.

(** A run keeps the address of the live buffer, and every other array that
    existed before it. *)
Lemma applyActions_arrays actions : forall ed ed',
  heap_separated ed -> applyActions ed actions = Ok ed' ->
  codeLines (this ed') = codeLines (this ed)
  /\ (List.length (heap ed) <= List.length (heap ed'))%nat
  /\ forall r, (r < List.length (heap ed))%nat -> r <> codeLines (this ed) ->
               Heap.deref (heap ed') r = Heap.deref (heap ed) r.
Proof.
  induction actions as [|a actions IH]; intros ed ed' Hsep H.
  - apply Ok_inj in H. subst ed'. repeat split. lia.
  - cbn [applyActions] in H. apply bind_Ok in H as (ed1 & H1 & H).
    apply UnifiedProps.applyAction_returned in H1 as (numTimes & len & f & _ & ->).
    pose proof (UnifiedProps.record_history_separated ed f a Hsep) as Hsep1.
    destruct (IH _ _ Hsep1 H) as (Hlive & Hlen & Hold).
    rewrite UnifiedProps.record_history_live in Hlive, Hold.
    rewrite UnifiedProps.record_history_heap_length in Hlen, Hold.
    split; [exact Hlive|]. split; [lia|].
    intros r Hr Hne. rewrite Hold by (lia || exact Hne).
    now apply UnifiedProps.record_history_deref.
Qed.

(** X29. The constructor does not copy the array it is given: when that
    array is not empty it is the live buffer, so after any run the caller's
    array holds the current lines; when it is empty the editor works on an
    array of its own and the caller's array stays empty. *)
Theorem constructor_shares_callers_array (initialCodeLines : list string)
    (actions : list IAction) (ed : VirtualEditor) :
  constructor initialCodeLines (Some actions) = Ok ed ->
  (initialCodeLines <> [] -> callers_array ed = getCodeLines ed)
  /\ (initialCodeLines = [] ->
      callers_array ed = [] /\ (1 <= List.length (getCodeLines ed))%nat).
Proof.
  intros H. rewrite UnifiedProps.constructor_actions in H.
  apply bind_Ok in H as (ed0 & H0 & H).
  pose proof (UnifiedProps.constructor_invariant _ _ H0) as Hinv0.
  pose proof (UnifiedProps.applyActions_invariant _ _ _ Hinv0 H) as [_ [Hrow _]].
  destruct Hinv0 as [Hsep0 _].
  destruct (applyActions_arrays _ _ _ Hsep0 H) as (Hlive & _ & Hold).
  unfold callers_array, getCodeLines. rewrite Hlive.
  split.
  - intros Hne. destruct initialCodeLines as [|l ls]; [congruence|].
    apply Ok_inj in H0. subst ed0. reflexivity.
  - intros ->. apply Ok_inj in H0. subst ed0. split.
    + rewrite Hold; [reflexivity | cbn; lia | cbn; lia].
    + unfold caret_row_in_buffer, line_count, frame in Hrow.
      cbn [codeLines set_codeLines] in Hrow. rewrite Hlive in Hrow.
      cbn [this codeLines] in Hrow. cbn [this codeLines]. lia.
Qed.

End Engine.

Lemma constructor_shares_callers_array_witness :
  exists ed,
    constructor (types := SpecTypes.types) ["ab"]
      (Some [Trace.key "arrow-right" "1"; Trace.type "X"]) = Ok ed
    /\ callers_array ed = ["aXb"].
Proof.
  eexists. split; [vm_compute; reflexivity|].
  match goal with
  | |- callers_array ?ed = _ =>
      assert (constructor (types := SpecTypes.types) ["ab"]
                (Some [Trace.key "arrow-right" "1"; Trace.type "X"]) = Ok ed) as H
        by (vm_compute; reflexivity);
      destruct (constructor_shares_callers_array (types := SpecTypes.types)
                  _ _ ed H) as [Hshared _]
  end.
  eapply eq_trans; [apply Hshared; discriminate | vm_compute; reflexivity].
Defined.

End Aliasing.

(** ** Space over a selection of several lines *)

Module SpaceOverLines.
Import Unified Pred Run.

Lemma delete_range_leaves (startRow endRow startCol endCol : Z) (f g : Frame) :
  delete_range startRow endRow startCol endCol f = Ok g ->
  currentlyHighlightedCode g = "" /\ isSaved g = isSaved f
  /\ highlightStartRow g = -1.
Proof. unfold delete_range. intros H. UnifiedProps.cache. Qed.

(** On a selection that spans rows, the deletion of [editor-space] is the
    deletion of [editor-backspace]. *)
Lemma space_deletes_like_backspace (numTimes : option Z) (f : Frame) :
  highlightStartRow f <> -1 -> highlightStartRow f <> caretRow f ->
  case_editor_backspace numTimes f
  = delete_range (Z.min (highlightStartRow f) (caretRow f))
      (Z.max (highlightStartRow f) (caretRow f))
      (if Z.min (highlightStartRow f) (caretRow f) =? highlightStartRow f
       then highlightStartCol f else caretCol f)
      (if Z.max (highlightStartRow f) (caretRow f) =? highlightStartRow f
       then highlightStartCol f else caretCol f)
      (set_isSaved f false).
Proof.
  destruct f as [r c hr hc L hl saved menu]. UnifiedProps.fields.
  intros Hsel Hrows. unfold case_editor_backspace. UnifiedProps.fields.
  destruct (Z.eqb_spec hr (-1)); [contradiction|]. cbn [negb].
  destruct (Z.ltb_spec hr r).
  - rewrite Z.min_l, Z.max_r by lia. rewrite Z.eqb_refl.
    destruct (Z.eqb_spec r hr); [lia | reflexivity].
  - rewrite Z.min_r, Z.max_l by lia. rewrite Z.eqb_refl.
    destruct (Z.eqb_spec r hr); [lia | reflexivity].
Qed.

Section Engine.
Context {types : ActionTypes}.

(** X30. Over a selection that spans several lines, space is backspace
    followed by space: from a reachable state all three calls return, and
    the call of space alone leaves the lines, the caret and the saved flag
    that backspace and then the same space leave. *)
Theorem space_over_lines_is_backspace_then_space (ed : VirtualEditor)
    (space backspace : IAction) :
  reachable ed ->
  action_name space = EditorSpace -> action_name backspace = EditorBackspace ->
  highlightStartRow (frame ed) <> -1 ->
  highlightStartRow (frame ed) <> caretRow (frame ed) ->
  exists ed' ed1 ed2,
    applyAction ed space = Ok ed'
    /\ applyAction ed backspace = Ok ed1
    /\ applyAction ed1 space = Ok ed2
    /\ getCodeLines ed2 = getCodeLines ed'
    /\ caret ed2 = caret ed'
    /\ getIsSaved ed2 = getIsSaved ed'.
Proof.
  intros Hreach Hspace Hbackspace Hsel Hrows.
  apply UnifiedProps.reachable_invariant in Hreach as Hinv.
  destruct (Returns.applyAction_returns ed space Hinv) as [ed' Hrun].
  { intros Hname. rewrite Hname in Hspace. discriminate Hspace. }
  destruct Hinv as [Hsep _].
  pose proof Hrun as Hcall. unfold applyAction in Hcall.
  fold (repeat_count space) in Hcall.
  apply bind_Ok in Hcall as (f' & Hf' & Hcall). apply Ok_inj in Hcall.
  unfold switch in Hf'. rewrite Hspace in Hf'. unfold case_editor_space in Hf'.
  apply bind_Ok in Hf' as (g & Hg & Hloop).
  set (f0 := set_currentlyHighlightedCode (frame ed) "") in *.
  assert (highlightStartRow f0 <> -1) as Hsel0 by exact Hsel.
  assert (highlightStartRow f0 <> caretRow f0) as Hrows0 by exact Hrows.
  assert (highlightStartRow (set_isSaved f0 false) = highlightStartRow f0
          /\ highlightStartCol (set_isSaved f0 false) = highlightStartCol f0
          /\ caretRow (set_isSaved f0 false) = caretRow f0
          /\ caretCol (set_isSaved f0 false) = caretCol f0)
    as (Ehr & Ehc & Er & Ec) by (destruct f0; repeat split).
  rewrite Ehr, Ehc, Er, Ec in Hg.
  destruct (Z.eqb_spec (highlightStartRow f0) (-1)) as [|_]; [contradiction|].
  cbn [negb] in Hg.
  rewrite <- (space_deletes_like_backspace (repeat_count backspace) f0 Hsel0 Hrows0)
    in Hg.
  assert (delete_range (Z.min (highlightStartRow f0) (caretRow f0))
            (Z.max (highlightStartRow f0) (caretRow f0))
            (if Z.min (highlightStartRow f0) (caretRow f0) =? highlightStartRow f0
             then highlightStartCol f0 else caretCol f0)
            (if Z.max (highlightStartRow f0) (caretRow f0) =? highlightStartRow f0
             then highlightStartCol f0 else caretCol f0)
            (set_isSaved f0 false) = Ok g) as Hdeleted
    by (rewrite <- (space_deletes_like_backspace (repeat_count backspace) f0
                      Hsel0 Hrows0); exact Hg).
  apply delete_range_leaves in Hdeleted as (Hcache & Hsaved & Hnone).
  assert (set_isSaved (set_currentlyHighlightedCode g "") false = g) as Hsame.
  { destruct g as [r c hr hc L hl saved menu].
    cbn [currentlyHighlightedCode isSaved] in Hcache, Hsaved.
    destruct f0. cbn in Hsaved. subst. reflexivity. }
  pose proof (UnifiedProps.record_history_separated ed g backspace Hsep) as Hsep1.
  assert (frame (record_history ed g backspace) = g) as Hframe1
    by (apply UnifiedProps.record_history_frame, Hsep).
  exists ed', (record_history ed g backspace),
    (record_history (record_history ed g backspace) f' space).
  split; [exact Hrun|]. split.
  { apply Behaviour.applyAction_of_switch. unfold switch.
    rewrite Hbackspace. exact Hg. }
  split.
  { apply Behaviour.applyAction_of_switch. unfold switch.
    rewrite Hspace, Hframe1. unfold case_editor_space.
    rewrite Hsame, Hnone. cbn [Z.eqb Pos.eqb negb bind]. exact Hloop. }
  subst ed'.
  rewrite !Behaviour.record_history_getCodeLines by assumption.
  rewrite !Behaviour.caret_record_history. unfold getIsSaved.
  destruct (Behaviour.record_history_this ed f' space)
    as (_ & _ & _ & _ & -> & _).
  destruct (Behaviour.record_history_this (record_history ed g backspace) f' space)
    as (_ & _ & _ & _ & -> & _).
  repeat split.
Qed.

End Engine.

Lemma space_over_lines_is_backspace_then_space_witness :
  exists ed,
    constructor (types := SpecTypes.types) ["abc"; "defg"]
      (Some [Trace.key "arrow-right" "1"; Trace.key "shift+arrow-down" "1"])
    = Ok ed
    /\ exists ed' ed1 ed2,
         applyAction (types := SpecTypes.types) ed (Trace.key "space" "2") = Ok ed'
         /\ getCodeLines ed' = ["a  efg"]
         /\ applyAction (types := SpecTypes.types) ed (Trace.key "backspace" "1")
            = Ok ed1
         /\ applyAction (types := SpecTypes.types) ed1 (Trace.key "space" "2")
            = Ok ed2
         /\ getCodeLines ed2 = getCodeLines ed'.
Proof.
  eexists. split; [vm_compute; reflexivity|].
  match goal with
  | |- exists ed' ed1 ed2, applyAction ?ed ?a = _ /\ _ /\ applyAction _ ?b = _ /\ _ =>
      assert (reachable (types := SpecTypes.types) ed) as Hreach
        by (exists ["abc"; "defg"],
              [Trace.key "arrow-right" "1"; Trace.key "shift+arrow-down" "1"];
            vm_compute; reflexivity);
      assert (highlightStartRow (frame ed) <> -1) as Hsel
        by (vm_compute; discriminate);
      assert (highlightStartRow (frame ed) <> caretRow (frame ed)) as Hrows
        by (vm_compute; discriminate);
      destruct (space_over_lines_is_backspace_then_space
                  (types := SpecTypes.types) ed a b Hreach eq_refl eq_refl
                  Hsel Hrows)
        as (ed' & ed1 & ed2 & H & H1 & H2 & Hlines & _)
  end.
  exists ed', ed1, ed2. split; [exact H|].
  split; [vm_compute in H; apply Ok_inj in H; subst ed'; reflexivity|].
  split; [exact H1|]. split; [exact H2 | exact Hlines].
Defined.

End SpaceOverLines.

